(* ===== verification/_CoqProject ===== *)
-Q . S2P
Prelude.v
GoStd.v
Attrs.v
SecDesc.v
Ace.v
AdCore.v
LdapErr.v
Conn.v
Gss.v
Goldap.v
Pool.v
Exec.v
Config.v
Search.v
Filters.v
Replication.v
Trace.v
Directory.v
Direct.v
Groups.v
OUs.v
Users.v
Repeat.v
Moves.v
Accounts.v
Acls.v
Callers.v
Schema.v
Principals.v
Computers.v
Gmsas.v
Delegation.v
Creation.v
Client.v
Ledger.v
Session.v
Memory.v
Handlers.v
Wire.v
Listener.v
