(* ===== verification/Prelude.v ===== *)
(** * go-adldap: a verification library

    go-adldap is a Go client for Active Directory over LDAP.  A [Config] is
    validated and turned into a [Client], which owns a pool of bound
    connections and hands out one directory per object class (groups, OUs,
    users, computers, service accounts, ACLs, schema).  Each operation of a
    directory is a few requests run through [withConn], which borrows a
    connection, retries what is safe to retry and classifies what failed.
    Security descriptors, attribute values and error chains are translated by
    packages of their own, and internal/adtest holds two directories the tests
    run the client against.  This development models that program file by file
    and proves what each part promises.

    ** The files, bottom up

    - [Prelude] (this file): bytes and Go strings, fixed-width words, shared
      tactics and lemmas.  [GoStd]: outcomes of a Go call (a value, an error, a
      panic, a wait without end, fuel used up), errors and their chains,
      package strings and strconv.
    - [Attrs] (internal/attrs), [SecDesc] and [Ace] (internal/secdesc): the
      codecs: GUIDs, SIDs, FILETIMEs, account-control words; self-relative
      security descriptors, their DACLs and access control entries.
    - [AdCore]: the data types and, as the class [AdCore], the functions of the
      external module go-adcore.
    - [LdapErr] (internal/ldaperr): classification of failures.
    - [Conn] (internal/conn: conn.go, cbt.go, authchksum.go, ccache.go,
      krb5conf.go, ticketsource.go), [Gss] (gssclient.go) and [Goldap]
      (dial.go, bind*.go, goldap.go): the seam to the LDAP library, channel
      binding, the GSSAPI handshake, TLS, dialling and binding.
    - [Pool] (pool.go): the connection pool, its critical sections as functions
      and their interleaving as a step relation over any number of goroutines.
    - [Exec] (exec.go): the client's state [St], its monad [M], the class [Env]
      of everything outside the client, and [withConn].
    - [Config] (config.go); [Search] (search.go, ranged.go, tombstone.go);
      [Replication] (replication.go); [Trace], what an operation did and in
      which order (below); [Directory], the shapes that group.go,
      ou.go, user.go, computer.go and gmsa.go share; [Groups] (group.go,
      membership.go), [OUs], [Users], [Acls], [Schema], [Principals],
      [Computers], [Gmsas]: one file per directory, one definition per method.
    - [Client] (client.go): the diallers, [newClient], [New], [NewWithConn], and
      [client_env], the [Env] whose connections are those of [Goldap].
    - [Direct]: rules for running an operation against a directory that answers
      ([yields]).  [Repeat]: group updates end to end on such a directory, once
      and again.  [Moves] (ou.go): the update that renames and moves a unit, on
      a directory that refuses to move a protected one.  [Accounts] (user.go):
      user updates end to end, with a rename, a move, a password and a change
      of the right to change it, once and again.
      [Delegation] (computer.go, gmsa.go, principals.go): updates that name
      principals, whose domain SID is cached in the client.  [Creation]
      (group.go, computer.go, gmsa.go): creates on a directory that stores what
      is added.  [Callers] (acl.go, and the descriptor edits of user.go and
      ou.go): any number of concurrent calls on one object, request by request,
      as a step relation.
    - [Ledger] and [Session]: every operation of every directory, in any
      sequence, from [newClient] to [Close].
    - [Filters], [Memory] and [Handlers] (internal/adtest: server.go,
      handlers.go, sid.go, memory.go): the filter matcher, the in-memory
      directory, also as environments [mem_env] and [frozen_env] that the client
      runs over, and the handlers of the socket server.  [Wire] (server.go):
      the socket server as a whole, its router, and adds that interleave.
      [Listener] (cert.go and the rest of server.go): the certificate, [Start],
      [waitForPort], [StartWire] and the snapshots [Entries].

    ** State, effects and parameters

    A method of the client is a computation in [M]: it maps a state [St] (the
    outside world, the pool, the locked keys, the cached domain SID) to an
    outcome and a state.  A Go map is an association list; where the order of
    an iteration matters it is the order of the list, so the theorems hold for
    every order.  Slices and indices are checked: out of range is [Panic].
    Integers keep their width and wrap.  What is not in this repository is a
    class or a section variable with the operations the source calls: [AdCore]
    (go-adcore), [Env] (servers, context and clock), [LdapLib] (go-ldap,
    crypto/tls, os), [KrbLib], [KrbMessages] and [GssCrypto] (gokrb5),
    [Digests], [ErrorText], [Unicode] (the non-ASCII part of strings),
    [SplitDNs], [TestLib] (crypto/x509, net and gldap's server).  What a
    theorem needs of them is a hypothesis or a law class, and its witness names
    an instance ([sample_adcore], [script_env], [toy_ldap], [ascii_unicode] and
    so on).

    ** Histories

    A success says little about an operation of several requests, so [Trace]
    adds two histories.  A [journal] is a history variable of an [Env]: the
    calls it answered, oldest first; any environment can be given one
    ([with_journal]), and [accepted] lists the writes the directory accepted.
    The triple [logs m Q X] is about what an operation adds to it, with a rule
    for every construction of the monad.  [opened] says of a connection that it
    was dialled and then bound, with no dial, bind or close since;
    [withConn_opened] shows that the first operation of a client runs on such a
    connection and leaves it in the pool.

    ** Fuel

    [rangedValues] takes fuel for its pages, one more than there are values
    ([rangedValues_complete]).  [replicate] takes fuel for its polls; the clock
    bounds it ([replicate_terminates]).  The retry loop of [withConn] counts up
    to [MaxAttempts].  [matchFilter] recurses on shorter strings, so the length
    of the filter is enough ([matchFilter_from_ends]).  [follow], the client of
    a paged search, needs one request more than there are hits
    ([paged_search_complete]).  [waitForPort] polls every ten milliseconds for
    five seconds: 501 rounds ([waitForPort_ends]).

    ** What the theorems show

    - The whole: over a session no connection leaks, every call returns and
      gives back its permits and locks ([Session]); what [New] and the diallers
      to other controllers guarantee about TLS, names and tickets ([Client],
      [Gss]); the configurations that validate ([Config]).
    - The pool: bounded, no connection in two hands, no leak, no deadlock, under
      every interleaving ([Pool]); one call of [withConn] performs at most one
      write, balances its permits, ends on the first failure it may not retry
      ([Exec]); failures keep code, diagnostic and chain ([LdapErr], [Goldap]).
    - The codecs: round trips, totality, and edits of a descriptor that refine
      edits of the list of its entries ([Attrs], [SecDesc], [Ace]).
    - Reading: a lookup is never ambiguous or silently empty, a search never
      truncated, ranged retrieval complete, and membership too when the
      directory finds every member ([Search], [Groups]; a short answer is
      returned as it is, [short_answer_is_returned]).
    - Writing: what each create, update, grant, revoke and delete sends and
      what it leaves behind, errors included; for the creation of a user and
      the edit of a membership also the accepted writes, exactly and in order,
      so that an account is enabled only after its password ([Users],
      [Groups]).  Updates are
      proved against [apply_mods], the effect RFC 4511 gives to a request, and
      the in-memory directory's Modify is proved equal to it ([Memory]).
    - Concurrency and repetition: grants, revokes and descriptor edits under one
      key are atomic however they interleave, and the operations are the atomic
      calls ([Callers]); grants, revokes and updates are idempotent ([Callers],
      [Repeat], [Accounts]).
    - Several requests as one operation: an OU update that lifts a protection,
      moves the unit and protects it again leaves the unit of the spec, every
      other descriptor entry in place ([Moves]); the principals an update
      delegates to are those it reads back ([Delegation]); what one creates is
      what one reads back ([Creation]).
    - Against the test directories: ranged retrieval returns every value at any
      page size, writes keep the directory well formed, a rename of a subtree as
      long as its new names are free ([Memory]), paged search
      returns every entry once and in order ([Handlers]), every request gets one
      answer ([Wire]); [group_life_runs] runs the client end to end over the
      in-memory directory.

    Theorems that show the code doing something other than its comments say are
    stated as such, with [Example]s or lemmas next to the definition concerned.

    ** Not modelled

    doc.go, which holds no code; the struct literal of [Directory], whose
    methods are the constructors of [call], and [Config.Log], to which nothing
    is written; the partial result that accompanies a size-limit error, which
    every caller drops.  The handlers of the test servers run one at a time
    here, except for the adds of [Wire]; a deadline or a cancelled context
    shows only as a request or a wait that fails; what a test registers with
    [t.Cleanup] is not run, and [t.Fatalf] ends the computation. *)
From Stdlib Require Export Strings.Byte ZArith Lia.
From stdpp Require Export base tactics list numbers option.

#[export] Set Default Goal Selector "!".

(** ** Bytes and Go strings

    A Go [string] and a Go [[]byte] are both finite byte sequences; the
    conversions [[]byte(s)] and [string(b)] are therefore the identity here. *)
Abbreviation bytes := (list byte).
Abbreviation gostring := (list byte).

Definition bZ (b : byte) : Z := Z.of_N (Byte.to_N b).

Definition Zb (z : Z) : byte :=
  match Byte.of_N (Z.to_N (z mod 256)) with
  | Some b => b
  | None => x00
  end.

#[export] Instance byte_eq_decision : EqDecision byte := byte_eq_dec.

(** String literals in [go_scope] denote byte sequences. *)
Inductive literal : Set :=
  | lit_nil
  | lit_cons (b : byte) (l : literal).

Definition gostr : Type := list byte.

Fixpoint literal_of_bytes (l : list byte) : literal :=
  match l with
  | nil => lit_nil
  | b :: l => lit_cons b (literal_of_bytes l)
  end.

Fixpoint bytes_of_literal (l : literal) : list byte :=
  match l with
  | lit_nil => nil
  | lit_cons b l => b :: bytes_of_literal l
  end.

Definition print_literal (l : literal) : option (list byte) :=
  Some (bytes_of_literal l).

Declare Scope go_scope.
Delimit Scope go_scope with go.
Set Warnings "-via-type-remapping,-via-type-mismatch".
String Notation gostr literal_of_bytes print_literal
  (via literal mapping [[nil] => lit_nil, [cons] => lit_cons]) : go_scope.
Set Warnings "+via-type-remapping,+via-type-mismatch".

Open Scope Z_scope.

(** ** Fixed-width integers as byte sequences *)

(** [binary.LittleEndian.Uint16/32/64] of a whole slice. *)
Fixpoint le_decode (bs : bytes) : Z :=
  match bs with
  | [] => 0
  | b :: bs => bZ b + 256 * le_decode bs
  end.

(** [binary.LittleEndian.PutUint16/32/64]: the low [n] bytes of [z]. *)
Fixpoint le_encode (n : nat) (z : Z) : bytes :=
  match n with
  | O => []
  | S n => Zb z :: le_encode n (z / 256)
  end.

Definition be_decode (bs : bytes) : Z := le_decode (rev bs).
Definition be_encode (n : nat) (z : Z) : bytes := rev (le_encode n z).

(** Wrap-around of Go's fixed-width integer types. *)
Definition wrap_u (w z : Z) : Z := z mod 2 ^ w.
Definition wrap_s (w z : Z) : Z := (z + 2 ^ (w - 1)) mod 2 ^ w - 2 ^ (w - 1).
Abbreviation uint16 := (wrap_u 16).
Abbreviation uint32 := (wrap_u 32).
Abbreviation int32 := (wrap_s 32).
Abbreviation int64 := (wrap_s 64).

(** Go's [x &^ y] (and-not) and [x & y != 0] on unsigned words. *)
Definition and_not (x y : Z) : Z := Z.ldiff x y.
Definition has_bits (x y : Z) : bool := negb (Z.land x y =? 0).

(** ** Length of a slice as a Go [int] *)
Definition len {A} (l : list A) : Z := Z.of_nat (length l).

(** A prefix test and the remainder, used by every parser. *)
Fixpoint strip_prefix (p s : bytes) : option bytes :=
  match p, s with
  | [], _ => Some s
  | c :: p, d :: s => if decide (c = d) then strip_prefix p s else None
  | _ :: _, [] => None
  end.

(** ** Automation *)

Create HintDb golib.
Create Rewrite HintDb golen.

(** Case analysis on every [match] and [if] of the goal, keeping equations. *)
Ltac case_match_all :=
  repeat (case_match; simplify_eq/=).

(** Split the innermost [match] scrutinee of a hypothesis. *)
Ltac destruct_in H :=
  match type of H with
  | context [match ?x with _ => _ end] =>
      lazymatch x with
      | context [match _ with _ => _ end] => fail
      | _ => let E := fresh "E" in destruct x eqn:E
      end
  end.

(** Evaluate [Z.to_nat] of closed numbers. *)
Ltac eval_to_nat :=
  repeat match goal with
  | |- context [Z.to_nat ?z] =>
      is_ground z; let n := eval cbv in (Z.to_nat z) in change (Z.to_nat z) with n
  end.

Ltac len_simpl :=
  unfold len in *; autorewrite with golen in *.

Ltac len_lia := len_simpl; lia.

(** ** Bytes *)

Lemma bZ_range b : 0 <= bZ b < 256.
Proof.
  unfold bZ. pose proof (Byte.to_N_bounded b). lia.
Qed.

Lemma bZ_Zb z : bZ (Zb z) = z mod 256.
Proof.
  pose proof (Z.mod_pos_bound z 256 eq_refl).
  unfold bZ, Zb. destruct (Byte.of_N (Z.to_N (z mod 256))) as [b|] eqn:E.
  - apply Byte.to_of_N in E. rewrite E. lia.
  - apply Byte.of_N_None_iff in E. lia.
Qed.

Lemma Zb_bZ b : Zb (bZ b) = b.
Proof. destruct b; reflexivity. Qed.

#[export] Instance bZ_inj : Inj (=) (=) bZ.
Proof. intros b1 b2 E. rewrite <- (Zb_bZ b1), <- (Zb_bZ b2). by rewrite E. Qed.

Lemma Zb_mod z : Zb (z mod 256) = Zb z.
Proof. apply (inj bZ). rewrite !bZ_Zb. apply Z.mod_mod. lia. Qed.

Lemma Zb_small_inj x y :
  0 <= x < 256 -> 0 <= y < 256 -> Zb x = Zb y -> x = y.
Proof.
  intros Hx Hy E. apply (f_equal bZ) in E. rewrite !bZ_Zb in E.
  rewrite !Z.mod_small in E by lia. done.
Qed.

(** ** Little- and big-endian codecs *)

Lemma length_le_encode n z : length (le_encode n z) = n.
Proof. revert z. induction n; intros z; simpl; auto. Qed.

Lemma le_decode_range bs : 0 <= le_decode bs < 256 ^ Z.of_nat (length bs).
Proof.
  induction bs as [|b bs IH]; simpl le_decode; cbn [length]; [lia|].
  pose proof (bZ_range b).
  rewrite Nat2Z.inj_succ, Z.pow_succ_r by lia. nia.
Qed.

Lemma le_decode_encode n z : le_decode (le_encode n z) = z mod 256 ^ Z.of_nat n.
Proof.
  revert z. induction n as [|n IH]; intros z; simpl le_encode; cbn [le_decode].
  - by rewrite Z.mod_1_r.
  - rewrite IH, bZ_Zb, Nat2Z.inj_succ, Z.pow_succ_r by lia.
    rewrite Z.rem_mul_r by lia. lia.
Qed.

Lemma le_decode_encode_small n z :
  0 <= z < 256 ^ Z.of_nat n -> le_decode (le_encode n z) = z.
Proof. intros. rewrite le_decode_encode. by apply Z.mod_small. Qed.

Lemma le_encode_decode bs : le_encode (length bs) (le_decode bs) = bs.
Proof.
  induction bs as [|b bs IH]; cbn [length le_encode le_decode]; [done|].
  pose proof (bZ_range b). f_equal.
  - rewrite <- Zb_mod, Z.mul_comm, Z_mod_plus_full by lia.
    rewrite Z.mod_small by lia. apply Zb_bZ.
  - transitivity (le_encode (length bs) (le_decode bs)); [f_equal|done].
    rewrite Z.mul_comm, Z.div_add, Z.div_small by lia. done.
Qed.

Lemma le_encode_decode_n n bs :
  length bs = n -> le_encode n (le_decode bs) = bs.
Proof. intros <-. apply le_encode_decode. Qed.

Lemma le_decode_app xs ys :
  le_decode (xs ++ ys) = le_decode xs + 256 ^ len xs * le_decode ys.
Proof.
  unfold len. induction xs as [|b xs IH]; cbn [app le_decode length]; [lia|].
  rewrite IH, Nat2Z.inj_succ, Z.pow_succ_r by lia. lia.
Qed.

Lemma length_be_encode n z : length (be_encode n z) = n.
Proof. unfold be_encode. rewrite length_rev. apply length_le_encode. Qed.

Lemma be_encode_decode_n n bs :
  length bs = n -> be_encode n (be_decode bs) = bs.
Proof.
  intros <-. unfold be_encode, be_decode.
  rewrite <- (length_rev bs), le_encode_decode. apply rev_involutive.
Qed.

Lemma be_decode_encode n z : be_decode (be_encode n z) = z mod 256 ^ Z.of_nat n.
Proof.
  unfold be_encode, be_decode. rewrite rev_involutive. apply le_decode_encode.
Qed.

Lemma be_decode_snoc bs b : be_decode (bs ++ [b]) = 256 * be_decode bs + bZ b.
Proof. unfold be_decode. rewrite rev_app_distr. simpl. lia. Qed.

Lemma be_decode_range bs : 0 <= be_decode bs < 256 ^ Z.of_nat (length bs).
Proof. unfold be_decode. rewrite <- length_rev. apply le_decode_range. Qed.

Lemma le_decode_inj xs ys :
  length xs = length ys -> le_decode xs = le_decode ys -> xs = ys.
Proof.
  intros Hl E. rewrite <- (le_encode_decode xs), <- (le_encode_decode ys).
  by rewrite Hl, E.
Qed.

(** ** Words *)

Lemma wrap_u_small w z : 0 <= z < 2 ^ w -> wrap_u w z = z.
Proof. apply Z.mod_small. Qed.

Lemma wrap_s_small w z :
  - 2 ^ (w - 1) <= z < 2 ^ (w - 1) -> 0 < w -> wrap_s w z = z.
Proof.
  intros H Hw. unfold wrap_s.
  assert (2 ^ w = 2 * 2 ^ (w - 1)) as ->.
  { rewrite <- Z.pow_succ_r by lia. f_equal. lia. }
  rewrite Z.mod_small; lia.
Qed.

Lemma wrap_s_range w z :
  0 < w -> - 2 ^ (w - 1) <= wrap_s w z < 2 ^ (w - 1).
Proof.
  intros Hw. unfold wrap_s.
  assert (2 ^ w = 2 * 2 ^ (w - 1)) as E.
  { rewrite <- Z.pow_succ_r by lia. f_equal. lia. }
  pose proof (Z.mod_pos_bound (z + 2 ^ (w - 1)) (2 ^ w)).
  pose proof (Z.pow_pos_nonneg 2 (w - 1)). lia.
Qed.

Lemma wrap_u_range w z : 0 <= w -> 0 <= wrap_u w z < 2 ^ w.
Proof. intros. apply Z.mod_pos_bound. by apply Z.pow_pos_nonneg. Qed.

(** Reinterpreting a word as signed and back is the identity. *)
Lemma wrap_u_wrap_s w z : 0 < w -> wrap_u w (wrap_s w z) = wrap_u w z.
Proof.
  intros Hw. unfold wrap_u, wrap_s.
  rewrite Zminus_mod_idemp_l. f_equal. lia.
Qed.

Lemma has_bits_spec x y : has_bits x y = true <-> Z.land x y <> 0.
Proof. unfold has_bits. rewrite negb_true_iff, Z.eqb_neq. done. Qed.

Lemma has_bits_false x y : has_bits x y = false <-> Z.land x y = 0.
Proof. unfold has_bits. rewrite negb_false_iff, Z.eqb_eq. done. Qed.

(** ** Lists *)

Lemma len_nonneg {A} (l : list A) : 0 <= len l.
Proof. unfold len. lia. Qed.

Lemma len_app {A} (l1 l2 : list A) : len (l1 ++ l2) = len l1 + len l2.
Proof. unfold len. rewrite length_app. lia. Qed.

Lemma len_nil {A} : len (@nil A) = 0.
Proof. done. Qed.

Lemma len_cons {A} (x : A) l : len (x :: l) = 1 + len l.
Proof. unfold len. cbn [length]. lia. Qed.

Lemma len_zero {A} (l : list A) : len l = 0 <-> l = [].
Proof. unfold len. destruct l; cbn [length]; split; intros; [done..|lia|done]. Qed.

Lemma len_le_encode n z : len (le_encode n z) = Z.of_nat n.
Proof. unfold len. by rewrite length_le_encode. Qed.

#[export] Hint Rewrite @length_app @length_take @length_drop @length_fmap
  length_le_encode length_be_encode @length_rev @length_replicate
  @length_nil @length_cons : golen.

Lemma strip_prefix_spec p s r : strip_prefix p s = Some r <-> s = p ++ r.
Proof.
  revert s. induction p as [|c p IH]; intros s; cbn; [naive_solver|].
  destruct s as [|d s]; [naive_solver|]. case_decide as E.
  - subst. rewrite IH. split; [by intros ->|by intros [= ->]].
  - split; [done|]. intros [= ? ?]. by subst.
Qed.

Lemma take_app_exact {A} n (l1 l2 : list A) :
  length l1 = n -> take n (l1 ++ l2) = l1.
Proof. intros <-. apply take_app_length. Qed.

Lemma drop_app_exact {A} n (l1 l2 : list A) :
  length l1 = n -> drop n (l1 ++ l2) = l2.
Proof. intros <-. apply drop_app_length. Qed.

Arguments le_encode : simpl never.
Arguments le_decode : simpl never.
Arguments be_encode : simpl never.
Arguments be_decode : simpl never.
Arguments wrap_u : simpl never.
Arguments wrap_s : simpl never.
