(* ===== verification/GoStd.v ===== *)
(** * The Go language and standard library as the source uses them

    Outcomes of a Go call (a value, a returned [error], a panic, a goroutine
    that blocks for ever, or a loop that used up the model's fuel), error
    values and the [errors] package, checked slicing, and the functions of
    [strings] and [strconv] that the repository calls.  Only the full-Unicode
    slow paths of [strings.ToUpper], [strings.ToLower] and [strings.EqualFold]
    are left abstract (class [Unicode]); their ASCII fast paths are modelled. *)
From S2P Require Export Prelude.

(** ** Outcomes *)

(** A formatting operand of [fmt.Errorf]. *)
Inductive fmtarg :=
  | FInt (z : Z)
  | FStr (s : gostring)
  | FStrs (l : list gostring)
  | FBytes (b : bytes).

(** [adcore.Kind]: the constants the source names, and any other kind the
    external package declares. *)
Inductive Kind :=
  | KindUnknown
  | KindTooManyResults
  | KindDenied
  | KindReferral
  | KindConstraint
  | KindInvalidAttribute
  | KindNotFound
  | KindTransient
  | KindTransport
  | KindAlreadyExists
  | KindPassword
  | KindReplication
  | KindUnsupported
  | KindOther (n : Z).

#[export] Instance Kind_eq_dec : EqDecision Kind.
Proof. solve_decision. Defined.

(** [adcore.Error]: the fields the source reads and writes. *)
Record adError (E : Type) := mkAdError {
  e_Kind : Kind;
  e_Code : Z;
  e_Op : gostring;
  e_Identity : gostring;
  e_Target : gostring;
  e_ServerMessage : gostring;
  e_Tombstoned : bool;
  e_Err : option E
}.
Arguments mkAdError {E} _ _ _ _ _ _ _ _.
Arguments e_Kind {E} _.
Arguments e_Code {E} _.
Arguments e_Op {E} _.
Arguments e_Identity {E} _.
Arguments e_Target {E} _.
Arguments e_ServerMessage {E} _.
Arguments e_Tombstoned {E} _.
Arguments e_Err {E} _.

(** Go error values.  [Errorf] keeps its format and operands unrendered;
    [w] is the operand of [%w].  [ExtError] is an error made by a third-party
    library or the operating system: its message and what it unwraps to. *)
Inductive error :=
  | ErrNew (msg : gostring)
  | Errorf (format : gostring) (args : list fmtarg) (w : option error)
  | RawError (code : Z) (diag : gostring) (err : option error)
  | AdError (e : adError error)
  | ctx_Canceled
  | ctx_DeadlineExceeded
  | ErrPoolClosed
  | ErrCredentialRejected
  | Rejected (e : error)
  | ExtError (msg : gostring) (w : option error).

Inductive outcome (A : Type) :=
  | Ret (a : A)
  | Fail (e : error)
  | Panic
  | Blocked
  | OutOfFuel.
Arguments Ret {A} _.
Arguments Fail {A} _.
Arguments Panic {A}.
Arguments Blocked {A}.
Arguments OutOfFuel {A}.

#[export] Instance outcome_ret : MRet outcome := @Ret.
#[export] Instance outcome_bind : MBind outcome := fun A B f m =>
  match m with
  | Ret a => f a
  | Fail e => Fail e
  | Panic => Panic
  | Blocked => Blocked
  | OutOfFuel => OutOfFuel
  end.

(** [if err != nil { return ..., f(err) }] *)
Definition wrap_err {A} (f : error -> error) (m : outcome A) : outcome A :=
  match m with Fail e => Fail (f e) | m => m end.

Definition panics {A} (m : outcome A) : Prop :=
  match m with Panic => True | _ => False end.

(** A call that returns: a value or an error, nothing else. *)
Definition returns {A} (m : outcome A) : Prop :=
  match m with Ret _ | Fail _ => True | _ => False end.

(** The result of a call into code outside the model: a value or an error. *)
Definition of_sum {A} (r : A + error) : outcome A :=
  match r with inl a => Ret a | inr e => Fail e end.

(** An error value, [None] for [nil], as the result of a call. *)
Definition of_nil (e : option error) : outcome unit :=
  match e with None => Ret tt | Some e => Fail e end.

(** [for _, x := range l { ... }] with early exit on an error. *)
Fixpoint mapM_out {A B} (f : A -> outcome B) (l : list A) : outcome (list B) :=
  match l with
  | [] => Ret []
  | x :: l => y ← f x; ys ← mapM_out f l; Ret (y :: ys)
  end.

(** ** Errors: [errors.Unwrap], [errors.Is], [errors.As] *)

Definition unwrap (e : error) : option error :=
  match e with
  | Errorf _ _ w => w
  | RawError _ _ w => w
  | AdError a => e_Err a
  | Rejected e => Some e
  | ExtError _ w => w
  | _ => None
  end.

(** The chain [errors.Is] and [errors.As] walk, outermost first. *)
Fixpoint chain (e : error) : list error :=
  e :: match e with
       | Errorf _ _ (Some w) => chain w
       | RawError _ _ (Some w) => chain w
       | AdError (mkAdError _ _ _ _ _ _ _ (Some w)) => chain w
       | Rejected w => chain w
       | ExtError _ (Some w) => chain w
       | _ => []
       end.

Definition is_Canceled (e : error) : bool :=
  match e with ctx_Canceled => true | _ => false end.
Definition is_DeadlineExceeded (e : error) : bool :=
  match e with ctx_DeadlineExceeded => true | _ => false end.
(** [rejected.Is] answers true for [ErrCredentialRejected]. *)
Definition is_CredentialRejected (e : error) : bool :=
  match e with ErrCredentialRejected | Rejected _ => true | _ => false end.

Definition errors_Is (test : error -> bool) (e : error) : bool :=
  existsb test (chain e).

Definition as_AdError (e : error) : option (adError error) :=
  match e with AdError a => Some a | _ => None end.
Definition as_RawError (e : error) : option (Z * gostring * option error) :=
  match e with RawError c d w => Some (c, d, w) | _ => None end.

Fixpoint find_map {A B} (f : A -> option B) (l : list A) : option B :=
  match l with
  | [] => None
  | x :: l => match f x with Some y => Some y | None => find_map f l end
  end.

Definition errors_As {B} (sel : error -> option B) (e : error) : option B :=
  find_map sel (chain e).

(** ** Slices *)

(** [b[i:j]]; out of range panics. *)
Definition slice (b : bytes) (i j : Z) : outcome bytes :=
  if decide (0 <= i /\ i <= j /\ j <= len b)
  then Ret (take (Z.to_nat (j - i)) (drop (Z.to_nat i) b))
  else Panic.

(** [b[i]]. *)
Definition index (b : bytes) (i : Z) : outcome Z :=
  if decide (0 <= i < len b)
  then match b !! Z.to_nat i with Some c => Ret (bZ c) | None => Panic end
  else Panic.

(** [b[i:]]. *)
Definition slice_from (b : bytes) (i : Z) : outcome bytes := slice b i (len b).

Definition le_uint (b : bytes) (i j : Z) : outcome Z :=
  s ← slice b i j; Ret (le_decode s).
Definition be_uint (b : bytes) (i j : Z) : outcome Z :=
  s ← slice b i j; Ret (be_decode s).

(** ** Package strings *)

Definition is_ascii (s : gostring) : bool := forallb (fun c => bZ c <? 128) s.

Definition ascii_upper (c : byte) : byte :=
  if (97 <=? bZ c) && (bZ c <=? 122) then Zb (bZ c - 32) else c.
Definition ascii_lower (c : byte) : byte :=
  if (65 <=? bZ c) && (bZ c <=? 90) then Zb (bZ c + 32) else c.

(** The slow paths over Unicode case tables, taken only when a string has a
    byte outside ASCII. *)
Class Unicode := {
  unicode_ToUpper : gostring -> gostring;
  unicode_ToLower : gostring -> gostring;
  unicode_EqualFold : gostring -> gostring -> bool
}.

Section strings.
Context `{Unicode}.

Definition ToUpper (s : gostring) : gostring :=
  if is_ascii s then map ascii_upper s else unicode_ToUpper s.

Definition ToLower (s : gostring) : gostring :=
  if is_ascii s then map ascii_lower s else unicode_ToLower s.

(** [strings.EqualFold]: byte by byte while both are ASCII, the Unicode loop
    on the remainders from the first byte that is not. *)
Fixpoint EqualFold (s t : gostring) : bool :=
  match s, t with
  | c :: s', d :: t' =>
      if (bZ c <? 128) && (bZ d <? 128)
      then if decide (ascii_lower c = ascii_lower d) then EqualFold s' t' else false
      else unicode_EqualFold s t
  | [], [] => true
  | _, _ => false
  end.
End strings.

(** An instance of the Unicode tables that only knows ASCII. *)
Definition ascii_unicode : Unicode :=
  Build_Unicode (map ascii_upper) (map ascii_lower) (fun s t => bool_decide (s = t)).

(** The white space [strings.TrimSpace] removes, as UTF-8 sequences:
    [unicode.IsSpace]. *)
Definition white_space : list bytes :=
  [[x09]; [x0a]; [x0b]; [x0c]; [x0d]; [x20]; [xc2; x85]; [xc2; xa0]; [xe1; x9a; x80];
   [xe2; x80; x80]; [xe2; x80; x81]; [xe2; x80; x82]; [xe2; x80; x83]; [xe2; x80; x84];
   [xe2; x80; x85]; [xe2; x80; x86]; [xe2; x80; x87]; [xe2; x80; x88]; [xe2; x80; x89];
   [xe2; x80; x8a]; [xe2; x80; xa8]; [xe2; x80; xa9]; [xe2; x80; xaf]; [xe2; x81; x9f];
   [xe3; x80; x80]].

(** Remove sequences of [ws] from the front, at most [fuel] times. *)
Fixpoint trim_front (fuel : nat) (ws : list bytes) (s : bytes) : bytes :=
  match fuel with
  | O => s
  | S fuel =>
      match find_map (fun w => strip_prefix w s) ws with
      | Some r => trim_front fuel ws r
      | None => s
      end
  end.

Definition TrimSpace (s : gostring) : gostring :=
  let l := trim_front (length s) white_space s in
  rev (trim_front (length l) (map (@rev byte) white_space) (rev l)).

(** [strings.ReplaceAll s old (empty)] for a one-byte [old]. *)
Definition remove_byte (c : byte) (s : gostring) : gostring :=
  filter (fun d => d <> c) s.

(** [strings.Split s sep] for a one-byte separator. *)
Fixpoint Split (s : gostring) (sep : byte) : list gostring :=
  match s with
  | [] => [[]]
  | c :: s =>
      if decide (c = sep) then [] :: Split s sep
      else match Split s sep with
           | p :: ps => (c :: p) :: ps
           | [] => [[c]]
           end
  end.

(** [strings.Index s substr]: the offset of the first occurrence. *)
Fixpoint Index (s sub : gostring) : option Z :=
  match strip_prefix sub s with
  | Some _ => Some 0
  | None => match s with
            | [] => None
            | _ :: s => match Index s sub with Some i => Some (i + 1) | None => None end
            end
  end.

Definition Contains (s sub : gostring) : bool :=
  match Index s sub with Some _ => true | None => false end.

Definition HasPrefix (s p : gostring) : bool :=
  match strip_prefix p s with Some _ => true | None => false end.
Definition HasSuffix (s p : gostring) : bool := HasPrefix (rev s) (rev p).
Definition TrimSuffix (s p : gostring) : gostring :=
  match strip_prefix (rev p) (rev s) with Some r => rev r | None => s end.

(** [strings.Cut s sep] for a one-byte separator: what is before and after the
    first one, and whether there is one. *)
Fixpoint Cut (s : gostring) (sep : byte) : gostring * gostring * bool :=
  match s with
  | [] => ([], [], false)
  | c :: s =>
      if decide (c = sep) then ([], s, true)
      else let '(a, b, found) := Cut s sep in (c :: a, b, found)
  end.

(** ** Package strconv *)

Definition ErrSyntax : error := ErrNew "invalid syntax"%go.
Definition ErrRange : error := ErrNew "value out of range"%go.
Definition NumError (fn num : gostring) (e : error) : error :=
  Errorf "strconv.%s: parsing %q: %w"%go [FStr fn; FStr num] (Some e).

(** The value of a digit in a base up to 36. *)
Definition digit_val (c : byte) : option Z :=
  let z := bZ c in
  if (48 <=? z) && (z <=? 57) then Some (z - 48)
  else if (97 <=? z) && (z <=? 122) then Some (z - 97 + 10)
  else if (65 <=? z) && (z <=? 90) then Some (z - 65 + 10)
  else None.

(** The loop of [strconv.ParseUint]: the first bad digit or the first excess
    over [max] decides the error. *)
Fixpoint parse_digits (base max : Z) (s : gostring) (n : Z) : Z + error :=
  match s with
  | [] => inl n
  | c :: s =>
      match digit_val c with
      | Some d =>
          if d <? base
          then let n' := n * base + d in
               if max <? n' then inr ErrRange else parse_digits base max s n'
          else inr ErrSyntax
      | None => inr ErrSyntax
      end
  end.

Definition ParseUint (s : gostring) (base bits : Z) : outcome Z :=
  match s with
  | [] => Fail (NumError "ParseUint"%go s ErrSyntax)
  | _ => match parse_digits base (2 ^ bits - 1) s 0 with
         | inl n => Ret n
         | inr e => Fail (NumError "ParseUint"%go s e)
         end
  end.

Definition ParseInt (s : gostring) (base bits : Z) : outcome Z :=
  let err e := Fail (NumError "ParseInt"%go s e) in
  match s with
  | [] => err ErrSyntax
  | c :: s' =>
      let neg := bool_decide (c = "-"%byte) in
      let digits := if decide (c = "-"%byte \/ c = "+"%byte) then s' else s in
      match digits with
      | [] => err ErrSyntax
      | _ =>
          match parse_digits base (2 ^ bits - 1) digits 0 with
          | inr e => err e
          | inl un =>
              let cutoff := 2 ^ (bits - 1) in
              if negb neg && (cutoff <=? un) then err ErrRange
              else if neg && (cutoff <? un) then err ErrRange
              else Ret (if neg then - un else un)
          end
      end
  end.

(** [strconv.Atoi] on a 64-bit platform. *)
Definition Atoi (s : gostring) : outcome Z := ParseInt s 10 64.

Definition digit (z : Z) : byte := Zb (if z <? 10 then z + 48 else z - 10 + 97).

(** The digits of [n >= 0] in [base], most significant first, in front of [acc]. *)
Fixpoint digits_of (fuel : nat) (base n : Z) (acc : gostring) : gostring :=
  match fuel with
  | O => acc
  | S fuel =>
      let acc := digit (n mod base) :: acc in
      if n <? base then acc else digits_of fuel base (n / base) acc
  end.

Definition FormatUint (n base : Z) : gostring :=
  digits_of (S (Z.to_nat (Z.log2 n))) base n [].

Definition FormatInt (n base : Z) : gostring :=
  if n <? 0 then "-"%byte :: FormatUint (- n) base else FormatUint n base.

(** [%d] of [fmt]. *)
Definition fmt_d (n : Z) : gostring := FormatInt n 10.

(** [%0<w>x] of a value that fits in [w] hexadecimal digits. *)
Fixpoint hex_digits (w : nat) (n : Z) (acc : gostring) : gostring :=
  match w with
  | O => acc
  | S w => hex_digits w (n / 16) (digit (n mod 16) :: acc)
  end.
Definition fmt_x (w : nat) (n : Z) : gostring := hex_digits w n [].

(** [%x] of a byte slice: two digits per byte. *)
Definition fmt_x_bytes (b : bytes) : gostring := concat (map (fun c => fmt_x 2 (bZ c)) b).

(** ** Outcomes *)

Lemma bind_Ret {A B} (m : outcome A) (f : A -> outcome B) r :
  m ≫= f = Ret r <-> exists a, m = Ret a /\ f a = Ret r.
Proof. destruct m; simpl; naive_solver. Qed.

Lemma bind_Fail {A B} (m : outcome A) (f : A -> outcome B) e :
  m ≫= f = Fail e <-> m = Fail e \/ exists a, m = Ret a /\ f a = Fail e.
Proof. destruct m; simpl; naive_solver. Qed.

Lemma returns_bind {A B} (m : outcome A) (f : A -> outcome B) :
  returns m -> (forall a, m = Ret a -> returns (f a)) -> returns (m ≫= f).
Proof. destruct m; simpl; naive_solver. Qed.

Lemma wrap_err_Ret {A} f (m : outcome A) a : wrap_err f m = Ret a <-> m = Ret a.
Proof. destruct m; simpl; naive_solver. Qed.

Lemma returns_wrap_err {A} f (m : outcome A) : returns m -> returns (wrap_err f m).
Proof. by destruct m. Qed.

Lemma returns_not_panics {A} (m : outcome A) : returns m -> ~ panics m.
Proof. destruct m; naive_solver. Qed.

Lemma mapM_out_returns {A B} (f : A -> outcome B) l :
  Forall (fun x => returns (f x)) l -> returns (mapM_out f l).
Proof.
  induction 1 as [|x l Hx _ IH]; [done|]. simpl.
  apply returns_bind; [done|]. intros y _.
  by apply returns_bind.
Qed.

Lemma mapM_out_Ret {A B} (f : A -> outcome B) l ys :
  mapM_out f l = Ret ys <-> Forall2 (fun x y => f x = Ret y) l ys.
Proof.
  revert ys. induction l as [|x l IH]; intros ys; simpl.
  - split; [intros [= <-]; constructor | inversion 1; done].
  - rewrite bind_Ret. split.
    + intros (y & Hy & (ys' & Hys & [= <-])%bind_Ret).
      constructor; [done|]. by apply IH.
    + inversion 1 as [|? y ? ys' Hy Hys]; subst. exists y. split; [done|].
      apply bind_Ret. exists ys'. by rewrite IH.
Qed.

Lemma ParseUint_returns s base bits : returns (ParseUint s base bits).
Proof. unfold ParseUint. destruct s; [done|]. by case_match. Qed.

Lemma ParseInt_returns s base bits : returns (ParseInt s base bits).
Proof.
  unfold ParseInt. destruct s as [|c s]; [done|]. cbv zeta.
  repeat case_match; done.
Qed.

#[export] Hint Resolve returns_bind returns_wrap_err mapM_out_returns
  ParseUint_returns ParseInt_returns : golib.

Lemma Ret_inj {A} (a b : A) : Ret a = Ret b -> a = b.
Proof. congruence. Qed.

(** Invert every monadic step of a successful computation. *)
Ltac inv_ret H :=
  repeat lazymatch type of H with
  | mbind _ _ = Ret _ =>
      let a := fresh "a" in let Ha := fresh "Ha" in
      apply bind_Ret in H as (a & Ha & H)
  end.

(** ** Slices *)

Lemma slice_ok b i j :
  0 <= i -> i <= j -> j <= len b ->
  slice b i j = Ret (take (Z.to_nat (j - i)) (drop (Z.to_nat i) b)).
Proof. intros. unfold slice. by rewrite decide_True. Qed.

Lemma slice_Ret b i j s :
  slice b i j = Ret s ->
  0 <= i /\ i <= j /\ j <= len b /\ s = take (Z.to_nat (j - i)) (drop (Z.to_nat i) b).
Proof. unfold slice. case_decide; naive_solver. Qed.

Lemma slice_Ret_len b i j s : slice b i j = Ret s -> len s = j - i.
Proof. intros (? & ? & ? & ->)%slice_Ret. len_lia. Qed.

Lemma slice_returns b i j :
  0 <= i -> i <= j -> j <= len b -> returns (slice b i j).
Proof. intros. by rewrite slice_ok. Qed.

Lemma slice_not_fail b i j e : slice b i j <> Fail e.
Proof. unfold slice. intros E. case_decide; done. Qed.

(** Slicing at the seams of a concatenation. *)
Lemma slice_app_mid p s q :
  slice (p ++ s ++ q) (len p) (len p + len s) = Ret s.
Proof.
  rewrite slice_ok by len_lia.
  replace (Z.to_nat (len p + len s - len p)) with (length s) by len_lia.
  unfold len. rewrite Nat2Z.id, drop_app_length, take_app_length. done.
Qed.

Lemma slice_mid b i j p s q :
  b = p ++ s ++ q -> i = len p -> j = len p + len s -> slice b i j = Ret s.
Proof. intros -> -> ->. apply slice_app_mid. Qed.

Lemma slice_split b i j s :
  slice b i j = Ret s ->
  b = take (Z.to_nat i) b ++ s ++ drop (Z.to_nat j) b.
Proof.
  intros (? & ? & ? & ->)%slice_Ret.
  rewrite <- (take_drop (Z.to_nat i) b) at 1. f_equal.
  rewrite <- (take_drop (Z.to_nat (j - i)) (drop (Z.to_nat i) b)) at 1. f_equal.
  rewrite drop_drop. f_equal. lia.
Qed.

Lemma slice_full b : slice b 0 (len b) = Ret b.
Proof.
  rewrite slice_ok by len_lia. change (Z.to_nat 0) with O.
  rewrite drop_0. unfold len. rewrite Z.sub_0_r, Nat2Z.id, firstn_all. done.
Qed.

Lemma index_returns b i : 0 <= i < len b -> returns (index b i).
Proof.
  intros H. unfold index. rewrite decide_True by done.
  destruct (lookup_lt_is_Some_2 b (Z.to_nat i)) as [c ->]; [unfold len in H; lia|done].
Qed.

Lemma index_Ret b i c p x q :
  b = p ++ x :: q -> i = len p -> c = bZ x -> index b i = Ret c.
Proof.
  intros -> -> ->. unfold index.
  rewrite decide_True by (rewrite len_app, len_cons; pose proof (len_nonneg p);
                          pose proof (len_nonneg q); lia).
  unfold len. rewrite Nat2Z.id, lookup_app_r, Nat.sub_diag by lia. done.
Qed.

Lemma index_range b i z : index b i = Ret z -> 0 <= z < 256.
Proof.
  unfold index. case_decide; [|done]. case_match; [|done].
  intros [= <-]. apply bZ_range.
Qed.

Lemma le_uint_returns b i j :
  0 <= i -> i <= j -> j <= len b -> returns (le_uint b i j).
Proof. intros. unfold le_uint. by rewrite slice_ok. Qed.

Lemma le_uint_range b i j z :
  le_uint b i j = Ret z -> 0 <= z < 256 ^ (j - i).
Proof.
  unfold le_uint. intros (s & Hs & [= <-])%bind_Ret.
  pose proof (le_decode_range s) as Hr. apply slice_Ret_len in Hs as <-. done.
Qed.

Lemma le_uint_mid b i j n z p q :
  b = p ++ le_encode n z ++ q -> i = len p -> j = len p + Z.of_nat n ->
  le_uint b i j = Ret (z mod 256 ^ Z.of_nat n).
Proof.
  intros Hb Hi Hj. unfold le_uint.
  rewrite (slice_mid b i j p (le_encode n z) q); [|done|done|by rewrite len_le_encode].
  simpl. by rewrite le_decode_encode.
Qed.

#[export] Hint Resolve slice_returns index_returns le_uint_returns : golib.

(** ** Printable ASCII and white space *)

(** Bytes ['!' .. '~']: what hexadecimal, decimal and DN text is made of. *)
Definition graphic (c : byte) : bool := (33 <=? bZ c) && (bZ c <=? 126).

Lemma strip_prefix_head w ws c s :
  w ≠ c -> strip_prefix (w :: ws) (c :: s) = None.
Proof. intros. simpl. by rewrite decide_False. Qed.

Lemma trim_front_graphic fuel c s :
  graphic c = true ->
  trim_front fuel white_space (c :: s) = c :: s.
Proof.
  intros Hc. destruct fuel as [|fuel]; [done|]. cbn [trim_front].
  assert (find_map (fun w => strip_prefix w (c :: s)) white_space = None) as ->; [|done].
  by destruct c.
Qed.

Lemma trim_front_rev_graphic fuel c s :
  graphic c = true ->
  trim_front fuel (map (@rev byte) white_space) (c :: s) = c :: s.
Proof.
  intros Hc. destruct fuel as [|fuel]; [done|]. cbn [trim_front].
  assert (find_map (fun w => strip_prefix w (c :: s))
                   (map (@rev byte) white_space) = None) as ->; [|done].
  by destruct c.
Qed.

Lemma TrimSpace_graphic s :
  Forall (fun c => graphic c = true) s -> TrimSpace s = s.
Proof.
  intros Hs. unfold TrimSpace.
  assert (trim_front (length s) white_space s = s) as ->.
  { destruct Hs; [done|]. by apply trim_front_graphic. }
  assert (Forall (fun c => graphic c = true) (rev s)) as Hr by by apply Forall_rev.
  destruct (rev s) as [|c r] eqn:E.
  - apply (f_equal (@rev byte)) in E. rewrite rev_involutive in E. subst. done.
  - inversion Hr; subst. rewrite trim_front_rev_graphic by done.
    rewrite <- E. apply rev_involutive.
Qed.

(** ** Split *)

Lemma Split_ne s sep : Split s sep <> [].
Proof. destruct s; simpl; [done|]. case_decide; [done|]. by case_match. Qed.

Lemma Split_none s sep : sep ∉ s -> Split s sep = [s].
Proof.
  induction s as [|c s IH]; simpl; [done|].
  intros [? ?]%not_elem_of_cons. rewrite decide_False by done. by rewrite IH.
Qed.

Lemma Split_cons s r sep :
  sep ∉ s -> Split (s ++ sep :: r) sep = s :: Split r sep.
Proof.
  induction s as [|c s IH]; simpl; intros Hs.
  - by rewrite decide_True.
  - apply not_elem_of_cons in Hs as [? ?]. rewrite decide_False by done.
    by rewrite IH.
Qed.

(** Splitting [x sep y1 sep y2 ...] gives the pieces back. *)
Lemma Split_join sep x ys :
  sep ∉ x -> Forall (fun y => sep ∉ y) ys ->
  Split (x ++ concat (map (cons sep) ys)) sep = x :: ys.
Proof.
  intros Hx Hys. revert x Hx. induction Hys as [|y ys Hy _ IH]; intros x Hx; simpl.
  - rewrite app_nil_r. by apply Split_none.
  - rewrite Split_cons by done. by rewrite IH.
Qed.

(** ** Decimal and hexadecimal text *)

Definition is_digit (c : byte) : bool := (48 <=? bZ c) && (bZ c <=? 57).

Lemma is_digit_graphic c : is_digit c = true -> graphic c = true.
Proof. unfold is_digit, graphic. lia. Qed.

Lemma is_digit_not_dash c : is_digit c = true -> c <> "-"%byte /\ c <> "+"%byte.
Proof. destruct c; done. Qed.

Lemma digit_is_digit z : 0 <= z < 10 -> is_digit (digit z) = true.
Proof.
  intros. unfold is_digit, digit. rewrite (proj2 (Z.ltb_lt z 10)) by lia.
  rewrite bZ_Zb, Z.mod_small by lia. lia.
Qed.

Lemma digit_val_digit z : 0 <= z < 36 -> digit_val (digit z) = Some z.
Proof.
  intros Hz. unfold digit_val, digit.
  destruct (z <? 10) eqn:E; rewrite bZ_Zb, Z.mod_small by lia.
  - rewrite (proj2 (Z.leb_le 48 _)), (proj2 (Z.leb_le _ 57)) by lia.
    simpl. f_equal. lia.
  - rewrite (proj2 (Z.leb_gt (z - 10 + 97) 57)) by lia. rewrite andb_false_r.
    rewrite (proj2 (Z.leb_le 97 _)), (proj2 (Z.leb_le _ 122)) by lia.
    simpl. f_equal. lia.
Qed.

Lemma digits_of_digits fuel n acc :
  0 <= n -> Forall (fun c => is_digit c = true) acc ->
  Forall (fun c => is_digit c = true) (digits_of fuel 10 n acc).
Proof.
  revert n acc. induction fuel as [|fuel IH]; intros n acc Hn Hacc; [done|].
  pose proof (Z.mod_pos_bound n 10 eq_refl).
  cbn [digits_of]. cbv zeta. destruct (n <? 10).
  - constructor; [by apply digit_is_digit|done].
  - apply IH; [apply Z.div_pos; lia|]. constructor; [by apply digit_is_digit|done].
Qed.

Lemma digits_of_ne fuel base n acc : digits_of (S fuel) base n acc <> [].
Proof.
  cut (forall fuel n acc, acc <> [] -> digits_of fuel base n acc <> []).
  { intros Hc. cbn [digits_of]. cbv zeta. destruct (n <? base); [done|].
    by apply Hc. }
  clear. intros fuel. induction fuel as [|fuel IH]; intros n acc; [done|].
  cbn [digits_of]. cbv zeta. destruct (n <? base); [done|]. intros _. by apply IH.
Qed.

Lemma FormatUint_digits n :
  0 <= n -> Forall (fun c => is_digit c = true) (FormatUint n 10).
Proof. intros. by apply digits_of_digits. Qed.

Lemma parse_digits_of base max fuel n acc :
  2 <= base <= 36 -> 0 <= n <= max -> n < base ^ Z.of_nat fuel ->
  parse_digits base max (digits_of fuel base n acc) 0 = parse_digits base max acc n.
Proof.
  intros Hb. revert n acc. induction fuel as [|fuel IH]; intros n acc Hn Hf.
  - simpl in *. replace n with 0 by lia. done.
  - cbn [digits_of]. cbv zeta. pose proof (Z.mod_pos_bound n base ltac:(lia)).
    assert (forall k, 0 <= k -> k * base + n mod base <= max ->
      parse_digits base max (digit (n mod base) :: acc) k =
      parse_digits base max acc (k * base + n mod base)) as Hstep.
    { intros k Hk Hle. cbn [parse_digits]. rewrite digit_val_digit by lia.
      rewrite (proj2 (Z.ltb_lt _ _)) by lia. cbv zeta.
      rewrite (proj2 (Z.ltb_ge _ _)) by lia. done. }
    destruct (n <? base) eqn:E.
    + apply Z.ltb_lt in E. rewrite Z.mod_small in * by lia.
      rewrite Hstep by lia. done.
    + apply Z.ltb_ge in E. rewrite Nat2Z.inj_succ, Z.pow_succ_r in Hf by lia.
      pose proof (Z.div_mod n base ltac:(lia)).
      assert (0 <= n / base) by (apply Z.div_pos; lia).
      rewrite IH; [|nia|apply Z.div_lt_upper_bound; lia].
      rewrite Hstep by nia. f_equal. lia.
Qed.

Lemma parse_FormatUint base max n :
  2 <= base <= 36 -> 0 <= n <= max ->
  parse_digits base max (FormatUint n base) 0 = inl n.
Proof.
  intros Hb Hn. unfold FormatUint. rewrite parse_digits_of; [done|done|done|].
  rewrite Nat2Z.inj_succ, Z2Nat.id by apply Z.log2_nonneg.
  destruct (decide (n = 0)) as [->|]; [simpl; lia|].
  pose proof (Z.log2_spec n ltac:(lia)).
  pose proof (Z.pow_le_mono_l 2 base (Z.succ (Z.log2 n)) ltac:(lia)). lia.
Qed.

Lemma ParseUint_FormatUint base bits n :
  2 <= base <= 36 -> 0 <= n < 2 ^ bits -> ParseUint (FormatUint n base) base bits = Ret n.
Proof.
  intros Hb Hn. unfold ParseUint.
  destruct (FormatUint n base) as [|c s] eqn:E; [by apply digits_of_ne in E|].
  rewrite <- E, parse_FormatUint by lia. done.
Qed.

Lemma ParseInt_nonneg bits n :
  0 < bits -> 0 <= n < 2 ^ (bits - 1) -> ParseInt (FormatUint n 10) 10 bits = Ret n.
Proof.
  intros Hb Hn. pose proof (FormatUint_digits n ltac:(lia)) as Hd.
  assert (2 ^ (bits - 1) <= 2 ^ bits - 1) as Hp.
  { replace bits with (Z.succ (bits - 1)) at 2 by lia. rewrite Z.pow_succ_r by lia.
    pose proof (Z.pow_pos_nonneg 2 (bits - 1)). lia. }
  unfold ParseInt. destruct (FormatUint n 10) as [|c s] eqn:E; [by apply digits_of_ne in E|].
  inversion Hd as [|? ? Hc _]; subst. apply is_digit_not_dash in Hc as [? ?].
  rewrite decide_False by naive_solver. rewrite bool_decide_eq_false_2 by done.
  rewrite <- E, parse_FormatUint by lia. simpl.
  rewrite (proj2 (Z.leb_gt _ _)) by lia. done.
Qed.

Lemma ParseInt_FormatInt bits n :
  0 < bits -> - 2 ^ (bits - 1) <= n < 2 ^ (bits - 1) ->
  ParseInt (FormatInt n 10) 10 bits = Ret n.
Proof.
  intros Hb Hn. unfold FormatInt. destruct (n <? 0) eqn:E; [|by apply ParseInt_nonneg; lia].
  apply Z.ltb_lt in E. unfold ParseInt.
  assert (2 ^ bits = 2 * 2 ^ (bits - 1)) as Hp.
  { rewrite <- Z.pow_succ_r by lia. f_equal. lia. }
  pose proof (Z.pow_pos_nonneg 2 (bits - 1)).
  rewrite decide_True by auto. rewrite bool_decide_eq_true_2 by done.
  destruct (FormatUint (- n) 10) as [|c s] eqn:E'; [by apply digits_of_ne in E'|].
  rewrite <- E'. rewrite parse_FormatUint; [|lia|].
  2: { destruct (decide (bits = 1)) as [->|]; [simpl in *; lia|].
       assert (2 ^ 1 <= 2 ^ (bits - 1)) by (apply Z.pow_le_mono_r; lia). lia. }
  simpl. rewrite (proj2 (Z.ltb_ge _ _)) by lia. f_equal. lia.
Qed.

Lemma FormatUint_no_dash n : 0 <= n -> "-"%byte ∉ FormatUint n 10.
Proof.
  intros Hn Hin. pose proof (FormatUint_digits n Hn) as Hd.
  rewrite List.Forall_forall in Hd. by apply list_elem_of_In, Hd in Hin.
Qed.

Lemma FormatInt_graphic n : Forall (fun c => graphic c = true) (FormatInt n 10).
Proof.
  assert (forall m, 0 <= m -> Forall (fun c => graphic c = true) (FormatUint m 10)).
  { intros m Hm. eapply List.Forall_impl; [|exact (FormatUint_digits m Hm)].
    intros c. apply is_digit_graphic. }
  unfold FormatInt. destruct (n <? 0) eqn:E.
  - constructor; [done|]. apply Z.ltb_lt in E. auto with lia.
  - apply Z.ltb_ge in E. auto.
Qed.

Lemma map_mapM_out {A B C} (g : A -> B) (f : B -> outcome C) l :
  mapM_out f (map g l) = mapM_out (fun x => f (g x)) l.
Proof. induction l as [|x l IH]; simpl; [done|]. by rewrite IH. Qed.

Lemma mapM_out_map {A B} (f : A -> outcome B) (g : A -> B) l :
  Forall (fun x => f x = Ret (g x)) l -> mapM_out f l = Ret (map g l).
Proof. induction 1 as [|x l Hx _ IH]; simpl; [done|]. by rewrite Hx, IH. Qed.

(** ** Hexadecimal *)

Lemma hex_digits_acc w n acc : hex_digits w n acc = hex_digits w n [] ++ acc.
Proof.
  revert n acc. induction w as [|w IH]; intros n acc; [done|].
  cbn [hex_digits]. rewrite IH. rewrite (IH _ [_]). by rewrite <- app_assoc.
Qed.

Lemma fmt_x_be w bs :
  w = (2 * length bs)%nat -> fmt_x w (be_decode bs) = fmt_x_bytes bs.
Proof.
  intros ->. unfold fmt_x_bytes, fmt_x. induction bs as [|b bs IH] using rev_ind; [done|].
  rewrite length_app, map_app, concat_app, be_decode_snoc, <- IH. cbn [length map concat].
  replace (2 * (length bs + 1))%nat with (S (S (2 * length bs))) by lia.
  cbn [hex_digits fmt_x]. rewrite hex_digits_acc, app_nil_r. unfold fmt_x.
  pose proof (bZ_range b).
  replace (256 * be_decode bs + bZ b) with (bZ b + (16 * be_decode bs) * 16) by lia.
  rewrite Z_mod_plus_full, Z.div_add by lia.
  assert ((bZ b / 16 + 16 * be_decode bs) / 16 = be_decode bs) as ->.
  { rewrite (Z.mul_comm 16), Z.div_add, Z.div_div, Z.div_small by lia. done. }
  by rewrite (Z.mul_comm 16), Z_mod_plus_full.
Qed.

Lemma fmt_x_le w bs :
  w = (2 * length bs)%nat -> fmt_x w (le_decode bs) = fmt_x_bytes (rev bs).
Proof.
  intros ->. rewrite <- (fmt_x_be (2 * length bs)).
  - unfold be_decode. by rewrite rev_involutive.
  - by rewrite length_rev.
Qed.

Lemma fmt_x_bytes_app xs ys : fmt_x_bytes (xs ++ ys) = fmt_x_bytes xs ++ fmt_x_bytes ys.
Proof. unfold fmt_x_bytes. by rewrite map_app, concat_app. Qed.

Lemma length_fmt_x_bytes bs : length (fmt_x_bytes bs) = (2 * length bs)%nat.
Proof.
  induction bs as [|b bs IH]; [done|]. unfold fmt_x_bytes in *. cbn [map concat].
  rewrite length_app, IH. cbn [length]. change (length (fmt_x 2 (bZ b))) with 2%nat. lia.
Qed.

Definition is_hex_lower (c : byte) : bool :=
  is_digit c || ((97 <=? bZ c) && (bZ c <=? 102)).

Lemma is_hex_lower_graphic c : is_hex_lower c = true -> graphic c = true.
Proof. unfold is_hex_lower, is_digit, graphic. lia. Qed.

Lemma fmt_x_bytes_hex bs : Forall (fun c => is_hex_lower c = true) (fmt_x_bytes bs).
Proof.
  induction bs as [|b bs IH]; [constructor|]. unfold fmt_x_bytes in *. cbn [map concat].
  apply Forall_app. split; [|done]. by destruct b; repeat constructor.
Qed.

Lemma ParseUint_hex_byte b : ParseUint (fmt_x 2 (bZ b)) 16 8 = Ret (bZ b).
Proof. by destruct b. Qed.

#[export] Hint Rewrite length_fmt_x_bytes : golen.

(** ** Slicing a concatenation *)

Lemma slice_app_l s q i j x : slice s i j = Ret x -> slice (s ++ q) i j = Ret x.
Proof.
  intros Hs. pose proof (slice_split _ _ _ _ Hs) as E.
  pose proof (slice_Ret_len _ _ _ _ Hs). apply slice_Ret in Hs as (? & ? & ? & _).
  eapply (slice_mid _ _ _ (take (Z.to_nat i) s) x (drop (Z.to_nat j) s ++ q)).
  - rewrite E at 1. by rewrite <- !app_assoc.
  - len_lia.
  - rewrite H. len_lia.
Qed.

Lemma slice_shift p s i j :
  0 <= i -> slice (p ++ s) (len p + i) (len p + j) = slice s i j.
Proof.
  intros Hi. pose proof (len_nonneg p). unfold slice. rewrite len_app.
  destruct (decide (0 <= i /\ i <= j /\ j <= len s)).
  - rewrite decide_True by lia. do 2 f_equal; [lia|].
    rewrite Z2Nat.inj_add by lia. rewrite <- drop_drop. f_equal.
    unfold len. by rewrite Nat2Z.id, drop_app_length.
  - rewrite decide_False by lia. done.
Qed.

Lemma index_app_l s q i x : index s i = Ret x -> index (s ++ q) i = Ret x.
Proof.
  unfold index. case_decide as Hi; [|done]. case_match eqn:E; [|done].
  intros [= <-]. rewrite decide_True by len_lia.
  rewrite lookup_app_l by len_lia. by rewrite E.
Qed.

Lemma le_uint_app_l s q i j x : le_uint s i j = Ret x -> le_uint (s ++ q) i j = Ret x.
Proof.
  unfold le_uint. intros (b & Hb & Hx)%bind_Ret. by rewrite (slice_app_l _ _ _ _ _ Hb).
Qed.

Lemma le_uint_shift p s i j :
  0 <= i -> le_uint (p ++ s) (len p + i) (len p + j) = le_uint s i j.
Proof. intros. unfold le_uint. by rewrite slice_shift. Qed.

Lemma slice_from_drop b i :
  0 <= i <= len b -> slice_from b i = Ret (drop (Z.to_nat i) b).
Proof.
  intros Hi. unfold slice_from. rewrite slice_ok by lia.
  rewrite take_ge; [done|len_lia].
Qed.

Lemma slice_from_app p s i : i = len p -> slice_from (p ++ s) i = Ret s.
Proof.
  intros ->. pose proof (len_nonneg p). rewrite slice_from_drop by len_lia.
  unfold len. by rewrite Nat2Z.id, drop_app_length.
Qed.

Lemma slice_take b n i j :
  j <= n -> n <= len b -> slice (take (Z.to_nat n) b) i j = slice b i j.
Proof.
  intros Hj Hn. unfold slice.
  destruct (decide (0 <= i /\ i <= j /\ j <= len b)).
  - rewrite decide_True by len_lia. f_equal. rewrite skipn_firstn_comm, take_take.
    f_equal. lia.
  - rewrite decide_False by len_lia. done.
Qed.

Lemma index_Ret_ex b i : 0 <= i < len b -> exists z, index b i = Ret z.
Proof.
  intros Hi. pose proof (index_returns b i Hi) as H. unfold index in *.
  repeat case_match; try done. by eexists.
Qed.
