(* ===== verification/Attrs.v ===== *)
(** * internal/attrs: encoding and decoding of directory attribute values

    Object GUIDs and SIDs between their binary and text forms, FILETIMEs,
    [groupType] and [userAccountControl] words and their decimal wire form,
    and the [msDS-SupportedEncryptionTypes] mask.  A [time.Time] is its
    distance from the Unix epoch in nanoseconds, a [Z]; the [int64] arithmetic
    of the source wraps. *)
From S2P Require Export GoStd.

(** ** GUIDs *)

Definition GUIDToString (b : bytes) : outcome gostring :=
  if decide (len b <> 16)
  then Fail (Errorf "attrs: objectGUID is %d bytes, want 16"%go [FInt (len b)] None)
  else
    d1 ← le_uint b 0 4;
    d2 ← le_uint b 4 6;
    d3 ← le_uint b 6 8;
    d4 ← be_uint b 8 10;
    d5 ← slice b 10 16;
    Ret (fmt_x 8 d1 ++ "-"%go ++ fmt_x 4 d2 ++ "-"%go ++ fmt_x 4 d3 ++ "-"%go
         ++ fmt_x 4 d4 ++ "-"%go ++ fmt_x_bytes d5).

(** One iteration of the loop of [GUIDToBytes]. *)
Definition guid_byte (s hexs : gostring) (i : Z) : outcome byte :=
  pair ← slice hexs (i * 2) (i * 2 + 2);
  v ← wrap_err (fun err => Errorf "attrs: %q is not a GUID: %w"%go [FStr s] (Some err))
        (ParseUint pair 16 8);
  Ret (Zb v).

Definition GUIDToBytes (s : gostring) : outcome bytes :=
  let hexs := remove_byte "-"%byte (TrimSpace s) in
  if decide (len hexs <> 32)
  then Fail (Errorf "attrs: %q is not a GUID"%go [FStr s] None)
  else
    flat ← mapM_out (guid_byte s hexs) (seqZ 0 16);
    d1 ← be_uint flat 0 4;
    d2 ← be_uint flat 4 6;
    d3 ← be_uint flat 6 8;
    d4 ← slice flat 8 16;
    Ret (le_encode 4 d1 ++ le_encode 2 d2 ++ le_encode 2 d3 ++ d4).

(** ** SIDs, MS-DTYP 2.4.2 *)

Definition SIDToString (b : bytes) : outcome gostring :=
  if decide (len b < 8)
  then Fail (Errorf "attrs: objectSid is %d bytes, too short"%go [FInt (len b)] None)
  else
    revision ← index b 0;
    subCount ← index b 1;
    if decide (len b <> 8 + 4 * subCount)
    then Fail (Errorf "attrs: objectSid is %d bytes, want %d for %d sub-authorities"%go
                 [FInt (len b); FInt (8 + 4 * subCount); FInt subCount] None)
    else
      auth ← slice b 2 8;
      let authority :=
        fold_left (fun a x => wrap_u 64 (Z.lor (Z.shiftl a 8) (bZ x))) auth 0 in
      subs ← mapM_out (fun i => le_uint b (8 + 4 * i) (12 + 4 * i)) (seqZ 0 subCount);
      Ret ("S-"%go ++ fmt_d revision ++ "-"%go ++ fmt_d authority
           ++ concat (map (fun v => "-"%byte :: fmt_d v) subs)).

Section sid_from_string.
Context `{Unicode}.

Definition sid_sub (s sub : gostring) : outcome bytes :=
  v ← wrap_err (fun err => Errorf "attrs: %q has a bad sub-authority %q: %w"%go
                             [FStr s; FStr sub] (Some err))
        (ParseUint sub 10 32);
  Ret (le_encode 4 v).

Definition SIDFromString (s : gostring) : outcome bytes :=
  match Split (TrimSpace s) "-"%byte with
  | p0 :: p1 :: p2 :: subs =>
      if EqualFold p0 "S"%go then
        revision ← wrap_err (fun err => Errorf "attrs: %q has no revision: %w"%go
                                          [FStr s] (Some err)) (ParseUint p1 10 8);
        authority ← wrap_err (fun err =>
                      Errorf "attrs: %q has no identifier authority: %w"%go
                        [FStr s] (Some err)) (ParseUint p2 10 48);
        if decide (15 < len subs)
        then Fail (Errorf "attrs: %q has %d sub-authorities, at most 15 are allowed"%go
                     [FStr s; FInt (len subs)] None)
        else
          let head := [Zb revision; Zb (len subs)]
            ++ map (fun i => Zb (Z.shiftr authority (8 * (5 - i)))) (seqZ 0 6) in
          tail ← mapM_out (sid_sub s) subs;
          Ret (head ++ concat tail)
      else Fail (Errorf "attrs: %q is not a SID"%go [FStr s] None)
  | _ => Fail (Errorf "attrs: %q is not a SID"%go [FStr s] None)
  end.
End sid_from_string.

(** The binary SIDs [SIDFromString] can produce. *)
Definition wf_sid (b : bytes) : Prop :=
  exists revision count auth subs,
    b = revision :: count :: auth ++ subs /\
    length auth = 6%nat /\ len subs = 4 * bZ count /\ bZ count <= 15.

(** ** FILETIMEs *)

Definition FileTimeNever : Z := 9223372036854775807.
Definition fileTimeEpochOffset : Z := 116444736000000000.

(** A [nil] time means never. *)
Definition FileTimeToTime (s : gostring) : outcome (option Z) :=
  match s with
  | [] => Ret None
  | _ =>
      v ← wrap_err (fun err => Errorf "attrs: %q is not a FILETIME: %w"%go
                                 [FStr s] (Some err)) (ParseInt s 10 64);
      if decide (v = 0 \/ v = FileTimeNever) then Ret None
      else Ret (Some (int64 (int64 (v - fileTimeEpochOffset) * 100)))
  end.

(** [t.UnixNano()/100] truncates toward zero. *)
Definition TimeToFileTime (t : Z) : gostring :=
  FormatInt (int64 (Z.quot (int64 t) 100 + fileTimeEpochOffset)) 10.

(** ** userAccountControl and groupType bits *)

Definition UACAccountDisable : Z := 0x0002.
Definition UACNormalAccount : Z := 0x0200.
Definition UACDontExpirePassword : Z := 0x10000.
Definition UACWorkstationTrustAccount : Z := 0x1000.
Definition UACTrustedForDelegation : Z := 0x80000.

Definition GroupTypeSystem : Z := 0x00000001.
Definition GroupTypeGlobal : Z := 0x00000002.
Definition GroupTypeDomainLocal : Z := 0x00000004.
Definition GroupTypeUniversal : Z := 0x00000008.
Definition GroupTypeSecurity : Z := 0x80000000.
Definition groupTypeScopeMask : Z :=
  Z.lor (Z.lor GroupTypeGlobal GroupTypeDomainLocal) GroupTypeUniversal.

(** [adcore.GroupScope] and [adcore.GroupCategory]: string types with named
    constants; the empty string means not set. *)
Inductive GroupScope :=
  | GroupScopeUnset
  | GroupScopeDomainLocal
  | GroupScopeUniversal
  | GroupScopeGlobal
  | GroupScopeOther (s : gostring).

Inductive GroupCategory :=
  | GroupCategoryUnset
  | GroupCategoryDistribution
  | GroupCategorySecurity
  | GroupCategoryOther (s : gostring).

#[export] Instance GroupScope_eq_dec : EqDecision GroupScope.
Proof. solve_decision. Defined.
#[export] Instance GroupCategory_eq_dec : EqDecision GroupCategory.
Proof. solve_decision. Defined.

Definition ScopeAndCategory (v : Z) : GroupScope * GroupCategory :=
  let category := if has_bits v GroupTypeSecurity
                  then GroupCategorySecurity else GroupCategoryDistribution in
  let m := Z.land v groupTypeScopeMask in
  let scope := if m =? GroupTypeDomainLocal then GroupScopeDomainLocal
               else if m =? GroupTypeUniversal then GroupScopeUniversal
               else GroupScopeGlobal in
  (scope, category).

Definition GroupTypeValue (scope : GroupScope) (category : GroupCategory) : Z :=
  let v := match scope with
           | GroupScopeDomainLocal => Z.lor 0 GroupTypeDomainLocal
           | GroupScopeUniversal => Z.lor 0 GroupTypeUniversal
           | _ => Z.lor 0 GroupTypeGlobal
           end in
  if decide (category <> GroupCategoryDistribution)
  then Z.lor v GroupTypeSecurity else v.

Definition GroupTypeString (v : Z) : gostring := FormatInt (int32 v) 10.

Definition ParseGroupType (s : gostring) : outcome Z :=
  v ← wrap_err (fun err => Errorf "attrs: %q is not a groupType: %w"%go [FStr s] (Some err))
        (ParseInt (TrimSpace s) 10 64);
  Ret (uint32 (int32 v)).

Definition ParseUint32 (s : gostring) : outcome Z :=
  v ← wrap_err (fun err => Errorf "attrs: %q is not an integer attribute: %w"%go [FStr s] (Some err))
        (ParseInt (TrimSpace s) 10 64);
  Ret (uint32 (int32 v)).

Definition Uint32String (v : Z) : gostring := FormatInt (int32 v) 10.

(** ** Encryption types *)

Definition encDESCBCCRC : Z := 1.
Definition encDESCBCMD5 : Z := 2.
Definition encRC4 : Z := 4.
Definition encAES128 : Z := 8.
Definition encAES256 : Z := 16.

Definition encTypes : list (Z * gostring) :=
  [(encDESCBCCRC, "DES-CBC-CRC"%go);
   (encDESCBCMD5, "DES-CBC-MD5"%go);
   (encRC4, "RC4"%go);
   (encAES128, "AES128"%go);
   (encAES256, "AES256"%go)].

Section enc_types.
Context `{Unicode}.

(** The bit one name contributes. *)
Definition enc_bit (n : gostring) : Z :=
  let s := ToUpper (TrimSpace n) in
  if decide (s = "DES-CBC-CRC"%go) then encDESCBCCRC
  else if decide (s = "DES-CBC-MD5"%go) then encDESCBCMD5
  else if bool_decide (s = "RC4"%go) || HasPrefix s "RC4-HMAC"%go then encRC4
  else if HasPrefix s "AES128"%go then encAES128
  else if HasPrefix s "AES256"%go then encAES256
  else 0.

Definition EncTypeBits (names : list gostring) : Z :=
  fold_left (fun v n => Z.lor v (enc_bit n)) names 0.
End enc_types.

Definition EncTypeNames (v : Z) : list gostring :=
  map snd (filter (fun e => has_bits v (fst e) = true) encTypes).

(** ** Helper lemmas *)

Lemma fold_authority bs a :
  0 <= a -> a * 256 ^ len bs + be_decode bs < 2 ^ 64 ->
  fold_left (fun a x => wrap_u 64 (Z.lor (Z.shiftl a 8) (bZ x))) bs a =
  a * 256 ^ len bs + be_decode bs.
Proof.
  revert a. induction bs as [|b bs IH] using rev_ind; intros a Ha Hlt.
  - change (be_decode []) with 0. rewrite len_nil, Z.pow_0_r. cbn [fold_left]. lia.
  - rewrite fold_left_app. rewrite be_decode_snoc, len_app in *. change (len [b]) with 1 in *.
    rewrite Z.pow_add_r, Z.pow_1_r in * by (pose proof (len_nonneg bs); lia).
    pose proof (bZ_range b). pose proof (be_decode_range bs).
    rewrite Z.mul_assoc in *.
    rewrite IH by lia. cbn [fold_left].
    assert (0 <= 256 ^ len bs) by (apply Z.pow_nonneg; lia).
    assert (0 <= a * 256 ^ len bs) by (by apply Z.mul_nonneg_nonneg).
    set (k := a * 256 ^ len bs + be_decode bs) in *.
    assert (0 <= k) by lia.
    assert (Z.lor (Z.shiftl k 8) (bZ b) = 256 * k + bZ b) as ->.
    { rewrite <- Z.add_nocarry_lor; [rewrite Z.shiftl_mul_pow2 by lia; lia|].
      apply Z.bits_inj'. intros i Hi. rewrite Z.land_spec, Z.bits_0.
      destruct (decide (i < 8)); [by rewrite Z.shiftl_spec_low|].
      rewrite (Z.bits_above_log2 (bZ b)); [by rewrite andb_false_r|lia|].
      destruct (decide (bZ b = 0)) as [->|]; [simpl; lia|].
      apply Z.log2_lt_pow2; [lia|]. apply Z.lt_le_trans with (2 ^ 8); [lia|].
      apply Z.pow_le_mono_r; lia. }
    rewrite wrap_u_small by lia. lia.
Qed.

Lemma authority_be bs :
  length bs = 6%nat ->
  fold_left (fun a x => wrap_u 64 (Z.lor (Z.shiftl a 8) (bZ x))) bs 0 = be_decode bs.
Proof.
  intros Hl. rewrite fold_authority; [lia|lia|].
  pose proof (be_decode_range bs) as Hr. rewrite Hl in Hr. simpl in *. lia.
Qed.

Lemma authority_bytes a :
  map (fun i => Zb (Z.shiftr a (8 * (5 - i)))) (seqZ 0 6) = be_encode 6 a.
Proof.
  change (seqZ 0 6) with [0; 1; 2; 3; 4; 5]. unfold be_encode. simpl.
  rewrite !Z.shiftr_div_pow2, !Z.div_div by lia. simpl. by rewrite Z.div_1_r.
Qed.

(** A byte string of length [4 n] is the encoding of [n] 32-bit words. *)
Lemma words_of n bs :
  length bs = (4 * n)%nat ->
  exists vs, bs = concat (map (le_encode 4) vs) /\ length vs = n /\
             Forall (fun v => 0 <= v < 2 ^ 32) vs.
Proof.
  revert bs. induction n as [|n IH]; intros bs Hl.
  - apply length_zero_iff_nil in Hl as ->. exists []. auto.
  - destruct (IH (drop 4 bs)) as (vs & Hvs & Hlen & Hr); [len_lia|].
    exists (le_decode (take 4 bs) :: vs). split_and!.
    + cbn [map concat]. rewrite le_encode_decode_n by len_lia.
      by rewrite <- Hvs, take_drop.
    + simpl. lia.
    + constructor; [|done]. pose proof (le_decode_range (take 4 bs)) as H.
      replace (length (take 4 bs)) with 4%nat in H by len_lia. done.
Qed.

Lemma length_words vs : length (concat (map (le_encode 4) vs)) = (4 * length vs)%nat.
Proof. induction vs as [|v vs IH]; cbn [map concat]; len_simpl; lia. Qed.

Lemma read_words p vs q off :
  off = len p -> Forall (fun v => 0 <= v < 2 ^ 32) vs ->
  mapM_out (fun i => le_uint (p ++ concat (map (le_encode 4) vs) ++ q)
                       (off + 4 * i) (off + 4 + 4 * i)) (seqZ 0 (len vs)) = Ret vs.
Proof.
  intros -> Hvs. apply mapM_out_Ret. apply Forall2_same_length_lookup.
  split; [by rewrite length_seqZ; unfold len; lia|].
  intros i k v Hk Hv. apply lookup_seqZ in Hk as [-> Hlt].
  rewrite Forall_lookup in Hvs. specialize (Hvs _ _ Hv).
  rewrite <- (Z.mod_small v (256 ^ Z.of_nat 4)) by (simpl; lia).
  apply le_uint_mid with (p ++ concat (map (le_encode 4) (take i vs)))
                         (concat (map (le_encode 4) (drop (S i) vs)) ++ q).
  - rewrite <- (take_drop_middle vs i v Hv) at 1.
    by rewrite map_app, concat_app, <- !app_assoc.
  - rewrite len_app. unfold len. rewrite length_words, length_take.
    apply lookup_lt_Some in Hv. lia.
  - rewrite len_app. unfold len. rewrite length_words, length_take.
    apply lookup_lt_Some in Hv. lia.
Qed.

Lemma sid_sub_fmt s v :
  0 <= v < 2 ^ 32 -> sid_sub s (fmt_d v) = Ret (le_encode 4 v).
Proof.
  intros Hv. unfold sid_sub, fmt_d, FormatInt.
  rewrite (proj2 (Z.ltb_ge v 0)) by lia. by rewrite ParseUint_FormatUint by lia.
Qed.

Lemma fmt_d_graphic v : Forall (fun c => graphic c = true) (fmt_d v).
Proof. apply FormatInt_graphic. Qed.

Lemma fmt_d_no_dash v : 0 <= v -> "-"%byte ∉ fmt_d v.
Proof.
  intros Hv. unfold fmt_d, FormatInt. rewrite (proj2 (Z.ltb_ge v 0)) by lia.
  by apply FormatUint_no_dash.
Qed.

Lemma ParseUint_fmt_d bits v : 0 <= v < 2 ^ bits -> ParseUint (fmt_d v) 10 bits = Ret v.
Proof.
  intros Hv. unfold fmt_d, FormatInt. rewrite (proj2 (Z.ltb_ge v 0)) by lia.
  by apply ParseUint_FormatUint.
Qed.

#[export] Hint Resolve fmt_d_graphic fmt_d_no_dash : golib.

(** The text of a SID and its split at the dashes. *)
Definition sid_text (r a : Z) (vs : list Z) : gostring :=
  "S-"%go ++ fmt_d r ++ "-"%go ++ fmt_d a
  ++ concat (map (fun v => "-"%byte :: fmt_d v) vs).

Lemma sid_text_join r a vs :
  sid_text r a vs =
  "S"%go ++ concat (map (cons "-"%byte) (fmt_d r :: fmt_d a :: map fmt_d vs)).
Proof.
  unfold sid_text. cbn [map concat app]. rewrite map_map. done.
Qed.

Lemma sid_text_split r a vs :
  0 <= r -> 0 <= a -> Forall (fun v => 0 <= v < 2 ^ 32) vs ->
  Split (TrimSpace (sid_text r a vs)) "-"%byte
  = "S"%go :: fmt_d r :: fmt_d a :: map fmt_d vs.
Proof.
  intros Hr Ha Hvs. rewrite sid_text_join.
  rewrite TrimSpace_graphic.
  - apply Split_join; [by rewrite list_elem_of_singleton|].
    repeat (constructor; [by auto with golib|]).
    apply List.Forall_map. eapply List.Forall_impl; [|exact Hvs]. cbn. intros v Hv.
    apply fmt_d_no_dash. lia.
  - apply Forall_app. split; [by repeat constructor|].
    apply Forall_concat, List.Forall_map.
    do 2 (constructor; [constructor; [done|apply fmt_d_graphic]|]).
    apply List.Forall_map, Forall_true. intros v. constructor; [done|apply fmt_d_graphic].
Qed.

(** ** GUIDs *)

Definition guid_text (b : bytes) : gostring :=
  fmt_x_bytes (rev (take 4 b)) ++ "-"%go ++ fmt_x_bytes (rev (take 2 (drop 4 b)))
  ++ "-"%go ++ fmt_x_bytes (rev (take 2 (drop 6 b)))
  ++ "-"%go ++ fmt_x_bytes (take 2 (drop 8 b)) ++ "-"%go ++ fmt_x_bytes (drop 10 b).

Lemma GUIDToString_text b : len b = 16 -> GUIDToString b = Ret (guid_text b).
Proof.
  intros Hl. unfold GUIDToString, le_uint, be_uint, guid_text.
  rewrite decide_False by lia. rewrite !slice_ok by lia.
  cbn [mbind outcome_bind]. eval_to_nat. rewrite drop_0.
  rewrite !fmt_x_le, fmt_x_be by (unfold len in Hl; len_lia).
  rewrite (take_ge (drop 10 b)) by (unfold len in Hl; len_lia). done.
Qed.

Lemma guid_text_graphic b : Forall (fun c => graphic c = true) (guid_text b).
Proof.
  assert (forall l, Forall (fun c => graphic c = true) (fmt_x_bytes l)) as Hx.
  { intros l. eapply List.Forall_impl; [|apply fmt_x_bytes_hex].
    intros c. apply is_hex_lower_graphic. }
  unfold guid_text. repeat (apply Forall_app; split); auto; by repeat constructor.
Qed.

Lemma remove_dash_hex l : remove_byte "-"%byte (fmt_x_bytes l) = fmt_x_bytes l.
Proof.
  unfold remove_byte. pose proof (fmt_x_bytes_hex l) as H.
  induction H as [|c r Hc _ IH]; [done|].
  rewrite filter_cons_True by (by destruct c). by rewrite IH.
Qed.

Lemma remove_byte_app c x y :
  remove_byte c (x ++ y) = remove_byte c x ++ remove_byte c y.
Proof. apply list.filter_app. Qed.

(** The flat (big-endian) order in which the text lists a GUID's bytes. *)
Definition guid_flat (b : bytes) : bytes :=
  rev (take 4 b) ++ rev (take 2 (drop 4 b)) ++ rev (take 2 (drop 6 b)) ++ drop 8 b.

Lemma guid_text_hex b :
  len b = 16 -> remove_byte "-"%byte (TrimSpace (guid_text b)) = fmt_x_bytes (guid_flat b).
Proof.
  intros Hl. rewrite TrimSpace_graphic by apply guid_text_graphic.
  unfold guid_text, guid_flat. rewrite !remove_byte_app, !remove_dash_hex.
  rewrite <- (take_drop 2 (drop 8 b)) at 2.
  rewrite drop_drop, !fmt_x_bytes_app. done.
Qed.

Lemma guid_byte_flat s bs i b :
  bs !! i = Some b -> guid_byte s (fmt_x_bytes bs) (Z.of_nat i) = Ret b.
Proof.
  intros Hb. unfold guid_byte.
  rewrite (slice_mid _ _ _ (fmt_x_bytes (take i bs)) (fmt_x 2 (bZ b))
             (fmt_x_bytes (drop (S i) bs))).
  - cbn [mbind outcome_bind]. rewrite ParseUint_hex_byte. simpl. by rewrite Zb_bZ.
  - rewrite <- (take_drop_middle bs i b Hb) at 1.
    rewrite fmt_x_bytes_app. done.
  - apply lookup_lt_Some in Hb. len_lia.
  - apply lookup_lt_Some in Hb. unfold len.
    change (length (fmt_x 2 (bZ b))) with 2%nat. len_lia.
Qed.

Lemma guid_bytes_flat s bs :
  len bs = 16 -> mapM_out (guid_byte s (fmt_x_bytes bs)) (seqZ 0 16) = Ret bs.
Proof.
  intros Hl. apply mapM_out_Ret, Forall2_same_length_lookup. split.
  - rewrite length_seqZ. unfold len in Hl. lia.
  - intros i x y Hx Hy. apply lookup_seqZ in Hx as [-> _].
    rewrite Z.add_0_l. by apply guid_byte_flat.
Qed.

Lemma be_decode_rev bs : be_decode (rev bs) = le_decode bs.
Proof. unfold be_decode. by rewrite rev_involutive. Qed.

Lemma take_drop_step {A} n m (l : list A) :
  take n (drop m l) ++ drop (m + n) l = drop m l.
Proof. rewrite <- drop_drop. apply take_drop. Qed.

Lemma GUIDToBytes_text b : len b = 16 -> GUIDToBytes (guid_text b) = Ret b.
Proof.
  intros Hl. unfold GUIDToBytes. rewrite guid_text_hex by done.
  assert (len (guid_flat b) = 16) as Hf.
  { unfold guid_flat. unfold len in Hl. len_lia. }
  rewrite decide_False by (unfold len in *; rewrite length_fmt_x_bytes; lia).
  rewrite guid_bytes_flat by done. cbn [mbind outcome_bind]. unfold be_uint.
  unfold len in Hl.
  rewrite (slice_mid (guid_flat b) 0 4 [] (rev (take 4 b))
             (rev (take 2 (drop 4 b)) ++ rev (take 2 (drop 6 b)) ++ drop 8 b));
    [|done|done|len_lia].
  rewrite (slice_mid (guid_flat b) 4 6 (rev (take 4 b)) (rev (take 2 (drop 4 b)))
             (rev (take 2 (drop 6 b)) ++ drop 8 b)); [|done|len_lia|len_lia].
  rewrite (slice_mid (guid_flat b) 6 8 (rev (take 4 b) ++ rev (take 2 (drop 4 b)))
             (rev (take 2 (drop 6 b))) (drop 8 b));
    [|by unfold guid_flat; rewrite <- !app_assoc|len_lia|len_lia].
  rewrite (slice_mid (guid_flat b) 8 16
             (rev (take 4 b) ++ rev (take 2 (drop 4 b)) ++ rev (take 2 (drop 6 b)))
             (drop 8 b) []);
    [|by unfold guid_flat; rewrite app_nil_r, <- !app_assoc|len_lia|len_lia].
  cbn [mbind outcome_bind]. rewrite !be_decode_rev.
  rewrite !le_encode_decode_n by len_lia. f_equal.
  rewrite (take_drop_step 2 6), (take_drop_step 2 4). apply take_drop.
Qed.

Lemma GUIDToBytes_len s b : GUIDToBytes s = Ret b -> len b = 16.
Proof.
  unfold GUIDToBytes. case_decide; [done|]. intros H'. inv_ret H'.
  apply Ret_inj in H' as <-. rewrite !len_app, !len_le_encode.
  apply slice_Ret_len in Ha3. lia.
Qed.

Lemma seqZ_bounds m n : Forall (fun i => m <= i < m + n) (seqZ m n).
Proof. apply Forall_seqZ. lia. Qed.

Lemma mapM_out_len {A B} (f : A -> outcome B) l ys :
  mapM_out f l = Ret ys -> length ys = length l.
Proof. intros H%mapM_out_Ret%Forall2_length. done. Qed.

Lemma GUIDToBytes_returns s : returns (GUIDToBytes s).
Proof.
  unfold GUIDToBytes. case_decide as Hl; [done|].
  apply returns_bind.
  - apply mapM_out_returns. eapply List.Forall_impl; [|apply (seqZ_bounds 0 16)].
    cbn. intros i Hi. unfold guid_byte.
    apply returns_bind; [apply slice_returns; lia|]. intros pair _.
    apply returns_bind; [auto with golib|done].
  - intros flat Hflat%mapM_out_len. rewrite length_seqZ in Hflat.
    assert (len flat = 16) by (unfold len; lia).
    repeat (apply returns_bind; [(apply le_uint_returns || apply slice_returns ||
      (apply returns_bind; [apply slice_returns; lia|done])); lia|]; intros ? _).
    done.
Qed.

(** ** SIDs *)

Lemma GUIDToString_returns b : returns (GUIDToString b).
Proof.
  unfold GUIDToString. case_decide as Hl; [done|].
  assert (len b = 16) by lia.
  repeat (apply returns_bind; [(apply le_uint_returns || apply slice_returns ||
    (apply returns_bind; [apply slice_returns; lia|done])); lia|]; intros ? _).
  done.
Qed.

Lemma ParseGroupType_returns s : returns (ParseGroupType s).
Proof. apply returns_bind; [apply returns_wrap_err, ParseInt_returns|done]. Qed.
Lemma ParseUint32_returns s : returns (ParseUint32 s).
Proof. apply returns_bind; [apply returns_wrap_err, ParseInt_returns|done]. Qed.

Lemma FileTimeToTime_returns s : returns (FileTimeToTime s).
Proof.
  unfold FileTimeToTime. destruct s; [done|].
  apply returns_bind; [apply returns_wrap_err, ParseInt_returns|]. intros v _. by case_decide.
Qed.

Lemma SIDToString_returns b : returns (SIDToString b).
Proof.
  unfold SIDToString. case_decide as Hl; [done|].
  apply returns_bind; [apply index_returns; lia|]. intros r Hr.
  apply returns_bind; [apply index_returns; lia|]. intros c Hc.
  apply index_range in Hc. case_decide as Hlen; [done|].
  apply returns_bind; [apply slice_returns; lia|]. intros auth _.
  apply returns_bind; [|done]. apply mapM_out_returns.
  eapply List.Forall_impl; [|apply (seqZ_bounds 0 c)].
  cbn. intros i Hi. apply le_uint_returns; lia.
Qed.

(** A binary SID from its parts. *)
Definition sid_bytes (r c : byte) (auth : bytes) (vs : list Z) : bytes :=
  r :: c :: auth ++ concat (map (le_encode 4) vs).

Lemma SIDToString_text r c auth vs :
  length auth = 6%nat -> len vs = bZ c -> Forall (fun v => 0 <= v < 2 ^ 32) vs ->
  SIDToString (sid_bytes r c auth vs) = Ret (sid_text (bZ r) (be_decode auth) vs).
Proof.
  intros Ha Hc Hvs. unfold SIDToString. set (b := sid_bytes r c auth vs).
  assert (len b = 8 + 4 * bZ c) as Hl.
  { subst b. unfold sid_bytes. rewrite !len_cons, len_app. unfold len in *.
    rewrite length_words. lia. }
  pose proof (bZ_range c).
  rewrite decide_False by lia.
  rewrite (index_Ret b 0 (bZ r) [] r (c :: auth ++ concat (map (le_encode 4) vs)))
    by done.
  rewrite (index_Ret b 1 (bZ c) [r] c (auth ++ concat (map (le_encode 4) vs))) by done.
  cbn [mbind outcome_bind]. rewrite decide_False by lia.
  rewrite (slice_mid b 2 8 [r; c] auth (concat (map (le_encode 4) vs)));
    [|done|done|unfold len; rewrite Ha; done].
  cbn [mbind outcome_bind]. rewrite authority_be by done.
  rewrite <- Hc.
  pose proof (read_words (r :: c :: auth) vs [] 8) as Hw.
  rewrite app_nil_r in Hw. change (8 + 4) with 12 in Hw.
  change ((r :: c :: auth) ++ concat (map (le_encode 4) vs)) with b in Hw.
  rewrite Hw; [done|unfold len; simpl; rewrite Ha; done|done].
Qed.

Lemma wf_sid_bytes b :
  wf_sid b ->
  exists r c auth vs, b = sid_bytes r c auth vs /\ length auth = 6%nat /\
    len vs = bZ c /\ bZ c <= 15 /\ Forall (fun v => 0 <= v < 2 ^ 32) vs.
Proof.
  intros (r & c & auth & subs & -> & Ha & Hs & Hc). pose proof (bZ_range c).
  destruct (words_of (Z.to_nat (bZ c)) subs) as (vs & -> & Hl & Hvs).
  { unfold len in Hs. lia. }
  exists r, c, auth, vs. split_and!; try done. unfold len. lia.
Qed.

Lemma map_sid_sub s vs :
  Forall (fun v => 0 <= v < 2 ^ 32) vs ->
  mapM_out (sid_sub s) (map fmt_d vs) = Ret (map (le_encode 4) vs).
Proof.
  intros Hvs. rewrite map_mapM_out. apply mapM_out_map.
  eapply List.Forall_impl; [|exact Hvs]. intros v. apply sid_sub_fmt.
Qed.

Section sid_theorems.
Context `{Unicode}.

Lemma SIDFromString_text r c auth vs :
  length auth = 6%nat -> len vs = bZ c -> bZ c <= 15 ->
  Forall (fun v => 0 <= v < 2 ^ 32) vs ->
  SIDFromString (sid_text (bZ r) (be_decode auth) vs) = Ret (sid_bytes r c auth vs).
Proof.
  intros Ha Hc Hc15 Hvs. pose proof (bZ_range r). pose proof (be_decode_range auth) as Hd.
  rewrite Ha in Hd. change (256 ^ Z.of_nat 6) with (2 ^ 48) in Hd.
  unfold SIDFromString. rewrite sid_text_split by lia || done.
  rewrite (ParseUint_fmt_d 8), (ParseUint_fmt_d 48) by lia.
  assert (len (map fmt_d vs) = bZ c) as Hm by (rewrite <- Hc; len_lia).
  change (EqualFold "S"%go "S"%go) with true.
  cbn [wrap_err mbind outcome_bind]. rewrite Hm.
  rewrite decide_False by lia. rewrite map_sid_sub by done.
  cbn [mbind outcome_bind]. rewrite authority_bytes, be_encode_decode_n by done.
  by rewrite !Zb_bZ.
Qed.

Lemma SIDFromString_shape s b :
  SIDFromString s = Ret b -> wf_sid b.
Proof.
  unfold SIDFromString. destruct (Split _ _) as [|p0 [|p1 [|p2 subs]]]; try done.
  case_match; [|done]. intros Hs. inv_ret Hs. case_decide as Hn; [done|].
  inv_ret Hs. apply Ret_inj in Hs as <-.
  rewrite authority_bytes. pose proof (len_nonneg subs).
  exists (Zb a), (Zb (len subs)), (be_encode 6 a0), (concat a1).
  rewrite bZ_Zb, Z.mod_small by lia. split_and!; [done|apply length_be_encode| |lia].
  apply mapM_out_Ret in Ha1. clear -Ha1.
  induction Ha1 as [|x y xs ys Hx _ IH]; [done|]. cbn [concat].
  rewrite len_app, len_cons, IH. unfold sid_sub in Hx.
  apply bind_Ret in Hx as (v & _ & <-%Ret_inj). rewrite len_le_encode. lia.
Qed.

Lemma SIDFromString_returns s : returns (SIDFromString s).
Proof.
  unfold SIDFromString. destruct (Split _ _) as [|p0 [|p1 [|p2 subs]]]; try done.
  case_match; [|done].
  apply returns_bind; [auto with golib|]. intros r _.
  apply returns_bind; [auto with golib|]. intros a _. case_decide; [done|].
  apply returns_bind; [|done]. apply mapM_out_returns, Forall_true.
  intros x. unfold sid_sub. apply returns_bind; [auto with golib|done].
Qed.
End sid_theorems.

(** ** Words *)

Lemma parse_signed_word v :
  ParseInt (TrimSpace (FormatInt (int32 v) 10)) 10 64 = Ret (int32 v).
Proof.
  rewrite TrimSpace_graphic by apply FormatInt_graphic.
  pose proof (wrap_s_range 32 v ltac:(lia)).
  by rewrite ParseInt_FormatInt by (simpl in *; lia).
Qed.

Lemma uint32_int32_twice v : 0 <= v < 2 ^ 32 -> uint32 (int32 (int32 v)) = v.
Proof.
  intros Hv. pose proof (wrap_s_range 32 v ltac:(lia)).
  rewrite (wrap_s_small 32 (int32 v)) by lia.
  rewrite wrap_u_wrap_s by lia. by rewrite wrap_u_small.
Qed.

Lemma GroupTypeString_parse v :
  0 <= v < 2 ^ 32 -> ParseGroupType (GroupTypeString v) = Ret v.
Proof.
  intros Hv. unfold ParseGroupType, GroupTypeString.
  rewrite parse_signed_word. simpl. by rewrite uint32_int32_twice.
Qed.

Lemma Uint32String_parse v :
  0 <= v < 2 ^ 32 -> ParseUint32 (Uint32String v) = Ret v.
Proof.
  intros Hv. unfold ParseUint32, Uint32String.
  rewrite parse_signed_word. simpl. by rewrite uint32_int32_twice.
Qed.

Lemma GroupTypeValue_range scope category :
  0 <= GroupTypeValue scope category < 2 ^ 32.
Proof.
  unfold GroupTypeValue. destruct scope; case_decide; vm_compute; intuition congruence.
Qed.

Lemma EncTypeNames_app v :
  EncTypeNames v =
  (if has_bits v 1 then ["DES-CBC-CRC"%go] else []) ++
  (if has_bits v 2 then ["DES-CBC-MD5"%go] else []) ++
  (if has_bits v 4 then ["RC4"%go] else []) ++
  (if has_bits v 8 then ["AES128"%go] else []) ++
  (if has_bits v 16 then ["AES256"%go] else []).
Proof.
  unfold EncTypeNames, encTypes, encDESCBCCRC, encDESCBCMD5, encRC4, encAES128, encAES256.
  rewrite !filter_cons, filter_nil. cbn [fst].
  destruct (has_bits v 1), (has_bits v 2), (has_bits v 4), (has_bits v 8), (has_bits v 16);
    reflexivity.
Qed.

Lemma has_bits_pow2 v i : 0 <= i -> has_bits v (2 ^ i) = Z.testbit v i.
Proof.
  intros Hi. destruct (Z.testbit v i) eqn:E.
  - apply has_bits_spec. intros Hz. apply (f_equal (fun z => Z.testbit z i)) in Hz.
    rewrite Z.land_spec, E, Z.pow2_bits_true, Z.bits_0 in Hz by done. done.
  - apply has_bits_false, Z.bits_inj'. intros j Hj.
    rewrite Z.land_spec, Z.bits_0. destruct (decide (i = j)) as [->|].
    + by rewrite E.
    + rewrite Z.pow2_bits_false by done. apply andb_false_r.
Qed.

Lemma EncTypeBits_app `{Unicode} xs ys :
  EncTypeBits (xs ++ ys) = Z.lor (EncTypeBits xs) (EncTypeBits ys).
Proof.
  unfold EncTypeBits. rewrite fold_left_app. generalize (fold_left (fun v n => Z.lor v (enc_bit n)) xs 0).
  intros k. induction ys as [|y ys IH] using rev_ind; [by rewrite Z.lor_0_r|].
  rewrite !fold_left_app. cbn [fold_left]. by rewrite IH, Z.lor_assoc.
Qed.

(** The enabled bits among the five named ones, recombined. *)
Lemma land_31 v :
  Z.land v 31 = Z.lor (if has_bits v 1 then 1 else 0) (Z.lor (if has_bits v 2 then 2 else 0)
    (Z.lor (if has_bits v 4 then 4 else 0) (Z.lor (if has_bits v 8 then 8 else 0)
       (if has_bits v 16 then 16 else 0)))).
Proof.
  change 31 with (Z.lor 1 (Z.lor 2 (Z.lor 4 (Z.lor 8 16)))) at 1.
  rewrite !Z.land_lor_distr_r.
  assert (forall i, 0 <= i -> Z.land v (2 ^ i) = if has_bits v (2 ^ i) then 2 ^ i else 0) as H.
  { intros i Hi. rewrite has_bits_pow2 by done. apply Z.bits_inj'. intros j Hj.
    rewrite Z.land_spec. destruct (decide (i = j)) as [<-|].
    - rewrite Z.pow2_bits_true by done. destruct (Z.testbit v i) eqn:E.
      + by rewrite Z.pow2_bits_true.
      + by rewrite Z.bits_0.
    - rewrite Z.pow2_bits_false by done. rewrite andb_false_r.
      destruct (Z.testbit v i); [by rewrite Z.pow2_bits_false|by rewrite Z.bits_0]. }
  pose proof (H 0 ltac:(lia)). pose proof (H 1 ltac:(lia)). pose proof (H 2 ltac:(lia)).
  pose proof (H 3 ltac:(lia)). pose proof (H 4 ltac:(lia)).
  change (2 ^ 0) with 1 in *. change (2 ^ 1) with 2 in *. change (2 ^ 2) with 4 in *.
  change (2 ^ 3) with 8 in *. change (2 ^ 4) with 16 in *. congruence.
Qed.

(** ** Properties *)

(** The GUID codecs are inverse: a 16-byte objectGUID has a 36-character
    text form that [GUIDToBytes] reads back to the same bytes, every other
    length is an error, and whatever text [GUIDToBytes] accepts denotes 16
    bytes; it never panics. *)
Theorem GUID_roundtrip (b : bytes) (s : gostring) :
  (len b = 16 -> exists t, GUIDToString b = Ret t /\ len t = 36 /\ GUIDToBytes t = Ret b) /\
  (len b <> 16 -> exists e, GUIDToString b = Fail e) /\
  (GUIDToBytes s = Ret b -> len b = 16) /\
  returns (GUIDToBytes s).
Proof.
  split_and!.
  - intros Hl. exists (guid_text b). split_and!.
    + by apply GUIDToString_text.
    + unfold guid_text. rewrite !len_app. unfold len in *. len_simpl. cbn [length]. lia.
    + by apply GUIDToBytes_text.
  - intros Hl. unfold GUIDToString. rewrite decide_True by done. eauto.
  - apply GUIDToBytes_len.
  - apply GUIDToBytes_returns.
Qed.

Definition sample_guid : bytes :=
  [x33; x22; x11; x00; x55; x44; x77; x66; x88; x99; xaa; xbb; xcc; xdd; xee; xff].

Lemma GUID_roundtrip_witness :
  GUIDToString sample_guid = Ret "00112233-4455-6677-8899-aabbccddeeff"%go /\
  exists t, GUIDToString sample_guid = Ret t /\ len t = 36 /\ GUIDToBytes t = Ret sample_guid.
Proof.
  split; [reflexivity|].
  exact (proj1 (GUID_roundtrip sample_guid []) eq_refl).
Defined.

(** The SID codecs are inverse on the binary SIDs that have at most 15
    sub-authorities and no trailing bytes: the text form reads back to the
    same bytes, and [SIDFromString] accepts only texts of such SIDs. *)
Theorem SID_roundtrip `{Unicode} (b : bytes) (s : gostring) :
  (wf_sid b -> exists t, SIDToString b = Ret t /\ SIDFromString t = Ret b) /\
  (SIDFromString s = Ret b ->
     wf_sid b /\ exists t, SIDToString b = Ret t /\ SIDFromString t = Ret b).
Proof.
  assert (wf_sid b -> exists t, SIDToString b = Ret t /\ SIDFromString t = Ret b) as Hrt.
  { intros (r & c & auth & vs & -> & ? & ? & ? & ?)%wf_sid_bytes. eexists.
    split; [by apply SIDToString_text|by apply SIDFromString_text]. }
  split; [done|]. intros Hs%SIDFromString_shape. auto.
Qed.

Definition sample_sid : bytes :=
  [x01; x02; x00; x00; x00; x00; x00; x05; x20; x00; x00; x00; x20; x02; x00; x00].

Lemma SID_roundtrip_witness :
  SIDToString sample_sid = Ret "S-1-5-32-544"%go /\
  exists t, SIDToString sample_sid = Ret t /\
            @SIDFromString ascii_unicode t = Ret sample_sid.
Proof.
  split; [reflexivity|].
  refine (proj1 (@SID_roundtrip ascii_unicode sample_sid []) _).
  exists x01, x02, [x00; x00; x00; x00; x00; x05], [x20; x00; x00; x00; x20; x02; x00; x00].
  by repeat split.
Defined.

(** [GroupTypeValue] reads every scope but two as global, and every category
    but distribution as security. *)
Definition normal_scope (scope : GroupScope) : GroupScope :=
  match scope with
  | GroupScopeDomainLocal | GroupScopeUniversal => scope
  | _ => GroupScopeGlobal
  end.
Definition normal_category (category : GroupCategory) : GroupCategory :=
  match category with
  | GroupCategoryDistribution => category
  | _ => GroupCategorySecurity
  end.

(** GroupType survives the wire: the word built from a scope and a
    category decodes back to them, its decimal form parses back to the same
    word, and it is negative exactly for a security group. *)
Theorem GroupType_roundtrip (scope : GroupScope) (category : GroupCategory) :
  let v := GroupTypeValue scope category in
  ScopeAndCategory v = (normal_scope scope, normal_category category) /\
  ParseGroupType (GroupTypeString v) = Ret v /\
  HasPrefix (GroupTypeString v) "-"%go =
    bool_decide (normal_category category = GroupCategorySecurity).
Proof.
  cbv zeta. split_and!.
  - destruct scope, category; reflexivity.
  - apply GroupTypeString_parse, GroupTypeValue_range.
  - destruct scope, category; reflexivity.
Qed.

Lemma TimeToFileTime_parse t :
  - 2 ^ 63 <= t < 2 ^ 63 ->
  FileTimeToTime (TimeToFileTime t) = Ret (Some (Z.quot t 100 * 100)).
Proof.
  intros Ht. pose proof (Z.quot_rem' t 100). pose proof (Z.rem_bound_abs t 100 ltac:(lia)).
  assert (- 2 ^ 63 <= Z.quot t 100 * 100 < 2 ^ 63).
  { destruct (decide (0 <= t)).
    - pose proof (Z.rem_nonneg t 100 ltac:(lia) ltac:(lia)). 
      pose proof (Z.quot_pos t 100 ltac:(lia) ltac:(lia)). lia.
    - pose proof (Z.rem_nonpos t 100 ltac:(lia) ltac:(lia)). lia. }
  unfold TimeToFileTime, fileTimeEpochOffset.
  rewrite (wrap_s_small 64 t), (wrap_s_small 64 (_ + _)) by (simpl; lia).
  set (v := Z.quot t 100 + 116444736000000000) in *.
  pose proof (ParseInt_FormatInt 64 v ltac:(lia) ltac:(subst v; simpl; lia)) as Hp.
  unfold FileTimeToTime. destruct (FormatInt v 10) as [|c s] eqn:E; [done|].
  rewrite Hp. cbn [wrap_err mbind outcome_bind].
  rewrite decide_False by (unfold FileTimeNever; subst v; lia).
  unfold fileTimeEpochOffset.
  rewrite (wrap_s_small 64 (v - _)) by (subst v; simpl; lia).
  rewrite wrap_s_small by (subst v; simpl; lia).
  do 2 f_equal. subst v. lia.
Qed.

(** A time the source can represent in nanoseconds survives a FILETIME
    round trip up to the 100-nanosecond resolution, and is never mistaken for
    "never". *)
Theorem FileTime_roundtrip (t : Z) :
  - 2 ^ 63 <= t < 2 ^ 63 ->
  FileTimeToTime (TimeToFileTime t) = Ret (Some (Z.quot t 100 * 100)).
Proof. apply TimeToFileTime_parse. Qed.

Lemma FileTime_roundtrip_witness :
  FileTimeToTime (TimeToFileTime 1700000000123456789) = Ret (Some 1700000000123456700).
Proof. exact (FileTime_roundtrip 1700000000123456789 ltac:(lia)). Defined.

(** A FILETIME beyond the year 2262 wraps: 9999-12-31 decodes to an instant
    long before the Unix epoch. *)
Lemma FileTimeToTime_overflow :
  FileTimeToTime "2650467743990000000"%go = Ret (Some (-4852116232933722624)).
Proof. reflexivity. Qed.

(** The names rendered for an encryption-type mask fold back to the bits
    of the mask that have a name, and folding names is insensitive to their
    order. *)
Theorem EncType_roundtrip `{Unicode} (v : Z) (xs ys : list gostring) :
  EncTypeBits (EncTypeNames v) = Z.land v 31 /\
  EncTypeBits (xs ++ ys) = EncTypeBits (ys ++ xs).
Proof.
  split; [|by rewrite !EncTypeBits_app, Z.lor_comm].
  rewrite EncTypeNames_app, !EncTypeBits_app, land_31.
  destruct (has_bits v 1), (has_bits v 2), (has_bits v 4), (has_bits v 8), (has_bits v 16);
    reflexivity.
Qed.
