(* ===== verification/SecDesc.v ===== *)
(** * internal/secdesc/secdesc.go: security descriptors

    The self-relative SECURITY_DESCRIPTOR parser and serializer, ACLs as lists
    of opaque ACEs, the deny entry behind ProtectedFromAccidentalDeletion, and
    denied extended rights.  Every slice expression and index is checked: one
    out of range is [Panic].  A [nil] slice is the empty list, which is all the
    source distinguishes (it tests [len(x) == 0]). *)
From S2P Require Export GoStd.

Definition sdHeaderLen : Z := 20.
Definition aclHeaderLen : Z := 8.
Definition aceHeaderLen : Z := 4.
Definition controlDACLPresent : Z := 0x0004.
Definition controlSelfRel : Z := 0x8000.
Definition aceTypeAccessDenied : Z := 0x01.
Definition rightDelete : Z := 0x00010000.
Definition rightDeleteTree : Z := 0x00000040.
Definition protectionMask : Z := Z.lor rightDelete rightDeleteTree.

Definition everyone : bytes := [x01; x01; x00; x00; x00; x00; x00; x01; x00; x00; x00; x00].

Record parsed := mkParsed {
  p_revision : Z;
  p_sbz1 : Z;
  p_control : Z;
  p_owner : bytes;
  p_group : bytes;
  p_sacl : bytes;
  p_dacl : bytes
}.

Definition sidLen (b : bytes) : outcome Z :=
  if decide (len b < 8) then Fail (ErrNew "secdesc: SID truncated"%go)
  else
    c ← index b 1;
    let n := 8 + 4 * c in
    if decide (len b < n)
    then Fail (ErrNew "secdesc: SID shorter than its sub-authority count"%go)
    else Ret n.

Definition aclLen (b : bytes) : outcome Z :=
  if decide (len b < aclHeaderLen) then Fail (ErrNew "secdesc: ACL truncated"%go)
  else
    n ← le_uint b 2 4;
    if decide (n < aclHeaderLen \/ len b < n)
    then Fail (ErrNew "secdesc: ACL shorter than its stated size"%go)
    else Ret n.

(** The closure [slice] inside [parse]. *)
Definition parse_slice (sd : bytes) (off : Z) (length : bytes -> outcome Z) : outcome bytes :=
  if decide (off = 0) then Ret []
  else if decide (len sd <= off)
  then Fail (ErrNew "secdesc: offset past the end of the descriptor"%go)
  else
    rest ← slice_from sd off;
    n ← length rest;
    slice sd off (off + n).

Definition parse (sd : bytes) : outcome parsed :=
  if decide (len sd < sdHeaderLen)
  then Fail (Errorf "secdesc: descriptor is %d bytes, too short"%go [FInt (len sd)] None)
  else
    revision ← index sd 0;
    sbz1 ← index sd 1;
    control ← le_uint sd 2 4;
    if decide (Z.land control controlSelfRel = 0)
    then Fail (ErrNew "secdesc: descriptor is not self-relative"%go)
    else
      o ← le_uint sd 4 8; owner ← parse_slice sd o sidLen;
      g ← le_uint sd 8 12; group ← parse_slice sd g sidLen;
      s ← le_uint sd 12 16; sacl ← parse_slice sd s aclLen;
      d ← le_uint sd 16 20; dacl ← parse_slice sd d aclLen;
      Ret (mkParsed revision sbz1 control owner group sacl dacl).

(** [binary.LittleEndian.PutUint32(out[at:at+4], v)]; the offsets are the
    constants 4, 8, 12 and 16, inside the 20-byte header. *)
Definition put_uint32 (out : bytes) (at_ : nat) (v : Z) : bytes :=
  take at_ out ++ le_encode 4 v ++ drop (at_ + 4) out.

(** The closure [put] inside [serialize]. *)
Definition put (part : bytes) (at_ : nat) (out : bytes) : bytes :=
  match part with
  | [] => put_uint32 out at_ 0
  | _ => put_uint32 out at_ (uint32 (len out)) ++ part
  end.

Definition serialize (p : parsed) : bytes :=
  let out := [Zb (p_revision p); Zb (p_sbz1 p)] ++ le_encode 2 (p_control p)
             ++ replicate 16 x00 in
  let out := put (p_sacl p) 12 out in
  let out := put (p_dacl p) 16 out in
  let out := put (p_owner p) 4 out in
  put (p_group p) 8 out.

(** The loop of [aces] from offset [off], [count] entries to go. *)
Fixpoint aces_from (acl : bytes) (count : nat) (off : Z) : outcome (list bytes) :=
  match count with
  | O => Ret []
  | S count =>
      if decide (len acl < off + aceHeaderLen)
      then Fail (ErrNew "secdesc: ACE count exceeds the ACL body"%go)
      else
        n ← le_uint acl (off + 2) (off + 4);
        if decide (n < aceHeaderLen \/ len acl < off + n)
        then Fail (ErrNew "secdesc: ACE shorter than its stated size"%go)
        else
          a ← slice acl off (off + n);
          rest ← aces_from acl count (off + n);
          Ret (a :: rest)
  end.

Definition aces (acl : bytes) : outcome (list bytes) :=
  match acl with
  | [] => Ret []
  | _ => count ← le_uint acl 4 6; aces_from acl (Z.to_nat count) aclHeaderLen
  end.

Definition buildACL (revision : Z) (list : list bytes) : bytes :=
  let size := fold_left (fun n a => n + len a) list aclHeaderLen in
  [Zb revision; x00] ++ le_encode 2 (uint16 size) ++ le_encode 2 (uint16 (len list))
  ++ [x00; x00] ++ concat list.

(** ** ProtectedFromAccidentalDeletion *)

Definition isProtectionACE (ace : bytes) : outcome bool :=
  if decide (len ace < aceHeaderLen + 4 + len everyone) then Ret false
  else
    t ← index ace 0;
    if decide (t <> aceTypeAccessDenied) then Ret false
    else
      mask ← le_uint ace 4 8;
      if decide (Z.land mask protectionMask = 0) then Ret false
      else
        sid ← slice_from ace 8;
        if decide (len sid < len everyone) then Ret false
        else Ret (HasPrefix sid everyone).

Definition protectionACE : bytes :=
  let n := aceHeaderLen + 4 + len everyone in
  [Zb aceTypeAccessDenied; x00] ++ le_encode 2 (uint16 n) ++ le_encode 4 protectionMask
  ++ everyone.

(** [for _, a := range list { if f(a) { return true, nil } }; return false] *)
Fixpoint exists_out {A} (f : A -> outcome bool) (l : list A) : outcome bool :=
  match l with
  | [] => Ret false
  | a :: l => b ← f a; if b : bool then Ret true else exists_out f l
  end.

(** The loops that keep the entries a test does not match and count the
    others. *)
Fixpoint sift {A} (f : A -> outcome bool) (l : list A) : outcome (list A * Z) :=
  match l with
  | [] => Ret ([], 0)
  | a :: l =>
      b ← f a;
      '(kept, removed) ← sift f l;
      Ret (if b : bool then (kept, removed + 1) else (a :: kept, removed))
  end.

Definition IsProtected (sd : bytes) : outcome bool :=
  p ← parse sd;
  list ← aces (p_dacl p);
  exists_out isProtectionACE list.

(** The two statements [SetProtected], [SetDeniedObjectRight], [AddACEs] and
    [RemoveACEs] all end with. *)
Definition with_dacl (p : parsed) (dacl : bytes) : parsed :=
  mkParsed (p_revision p) (p_sbz1 p) (Z.lor (p_control p) controlDACLPresent)
    (p_owner p) (p_group p) (p_sacl p) dacl.

Definition SetProtected (sd : bytes) (on : bool) : outcome (bytes * bool) :=
  p ← parse sd;
  list ← aces (p_dacl p);
  '(kept, removed) ← sift isProtectionACE list;
  let found := 0 <? removed in
  if decide (on = found) then Ret (sd, false)
  else
    let kept := if on then protectionACE :: kept else kept in
    revision ← match p_dacl p with [] => Ret 2 | _ => index (p_dacl p) 0 end;
    Ret (serialize (with_dacl p (buildACL revision kept)), true).

(** ** Denied extended rights *)

Definition aceTypeDeniedObject : Z := 0x06.
Definition aceObjectTypePresent : Z := 0x00000001.
Definition aceInheritedObjectTypePresent : Z := 0x00000002.
Definition RightControlAccess : Z := 0x00000100.
Definition aclRevisionDS : Z := 4.
Definition SIDEveryone : bytes := everyone.
Definition SIDSelf : bytes := [x01; x01; x00; x00; x00; x00; x00; x05; x0a; x00; x00; x00].

(** The last statements of [deniedObject]: the trustee, at an offset that
    depends on the GUIDs present. *)
Definition deniedTrustee (ace : bytes) (flags off : Z) (trustee : bytes) : outcome bool :=
  let off := if has_bits flags aceInheritedObjectTypePresent then off + 16 else off in
  if decide (len ace < off + len trustee) then Ret false
  else s ← slice ace off (off + len trustee); Ret (bool_decide (s = trustee)).

Definition deniedObject (ace : bytes) (mask : Z) (objectType trustee : bytes) : outcome bool :=
  if decide (len ace < aceHeaderLen + 8) then Ret false
  else
    t ← index ace 0;
    if decide (t <> aceTypeDeniedObject) then Ret false
    else
      m ← le_uint ace 4 8;
      if decide (Z.land m mask = 0) then Ret false
      else
        flags ← le_uint ace 8 12;
        if has_bits flags aceObjectTypePresent then
          if decide (len ace < 12 + 16) then Ret false
          else
            ot ← slice ace 12 (12 + 16);
            if decide (ot <> objectType) then Ret false
            else deniedTrustee ace flags (12 + 16) trustee
        else if decide (0 < len objectType) then Ret false
             else deniedTrustee ace flags 12 trustee.

Definition deniedObjectACE (mask : Z) (objectType trustee : bytes) : bytes :=
  let n := aceHeaderLen + 4 + 4 + len objectType + len trustee in
  [Zb aceTypeDeniedObject; x00] ++ le_encode 2 (uint16 n) ++ le_encode 4 mask
  ++ le_encode 4 aceObjectTypePresent ++ objectType ++ trustee.

(** Does [ace] deny [mask] on [objectType] to one of [trustees]? *)
Definition deniedToAny (mask : Z) (objectType : bytes) (trustees : list bytes) (ace : bytes)
    : outcome bool :=
  exists_out (deniedObject ace mask objectType) trustees.

Definition HasDeniedObjectRight (sd : bytes) (mask : Z) (objectType : bytes)
    (trustees : list bytes) : outcome bool :=
  p ← parse sd;
  list ← aces (p_dacl p);
  exists_out (deniedToAny mask objectType trustees) list.

Definition SetDeniedObjectRight (sd : bytes) (on : bool) (mask : Z) (objectType : bytes)
    (trustees : list bytes) : outcome (bytes * bool) :=
  p ← parse sd;
  list ← aces (p_dacl p);
  '(kept, removed) ← sift (deniedToAny mask objectType trustees) list;
  let write kept :=
    revision ← match p_dacl p with
               | [] => Ret aclRevisionDS
               | _ => r ← index (p_dacl p) 0;
                      Ret (if aclRevisionDS <? r then r else aclRevisionDS)
               end;
    Ret (serialize (with_dacl p (buildACL revision kept)), true) in
  if on then
    if decide (removed = len trustees /\ 0 < removed) then Ret (sd, false)
    else write (map (deniedObjectACE mask objectType) trustees ++ kept)
  else
    if decide (removed = 0) then Ret (sd, false) else write kept.

(** ** Lengths read from a prefix *)

(** A byte string that is exactly one SID (one ACL). *)
Definition exact (length : bytes -> outcome Z) (part : bytes) : Prop :=
  length part = Ret (len part).

(** What a length function must satisfy for [parse_slice] to be sound: it
    looks only at the bytes it measures. *)
Class Measure (length : bytes -> outcome Z) := {
  measure_app part q : exact length part -> length (part ++ q) = Ret (len part);
  measure_bound b n : length b = Ret n -> 8 <= n <= len b /\ n < 65536;
  measure_take b n : length b = Ret n -> exact length (take (Z.to_nat n) b);
  measure_returns b : returns (length b)
}.

#[export] Instance sidLen_Measure : Measure sidLen.
Proof.
  split.
  - intros part q. unfold exact, sidLen. case_decide; [done|]. intros (c & Hc & Hn)%bind_Ret.
    rewrite decide_False by len_lia. rewrite (index_app_l _ _ _ _ Hc).
    cbn [mbind outcome_bind]. case_decide as Hd; [done|].
    rewrite decide_False by len_lia. done.
  - intros b n. unfold sidLen. case_decide; [done|]. intros (c & Hc & Hn)%bind_Ret.
    apply index_range in Hc. case_decide; [done|]. apply Ret_inj in Hn. lia.
  - intros b n. unfold exact, sidLen. case_decide; [done|]. intros (c & Hc & Hn)%bind_Ret.
    pose proof (index_range _ _ _ Hc). case_decide; [done|]. apply Ret_inj in Hn as <-.
    assert (len (take (Z.to_nat (8 + 4 * c)) b) = 8 + 4 * c) as -> by len_lia.
    rewrite decide_False by lia.
    assert (index (take (Z.to_nat (8 + 4 * c)) b) 1 = Ret c) as ->.
    { revert Hc. unfold index. rewrite !decide_True by len_lia.
      by rewrite lookup_take_lt by lia. }
    cbn [mbind outcome_bind]. by rewrite decide_False by lia.
  - intros b. unfold sidLen. case_decide; [done|].
    apply returns_bind; [apply index_returns; lia|]. intros c _. by case_decide.
Qed.

#[export] Instance aclLen_Measure : Measure aclLen.
Proof.
  split.
  - intros part q. unfold exact, aclLen, aclHeaderLen. case_decide; [done|].
    intros (c & Hc & Hn)%bind_Ret.
    rewrite decide_False by len_lia. rewrite (le_uint_app_l _ _ _ _ _ Hc).
    cbn [mbind outcome_bind]. case_decide as Hd; [done|].
    rewrite decide_False by len_lia. done.
  - intros b n. unfold aclLen, aclHeaderLen. case_decide; [done|]. intros (c & Hc & Hn)%bind_Ret.
    apply le_uint_range in Hc. case_decide; [done|]. apply Ret_inj in Hn.
    change (256 ^ (4 - 2)) with 65536 in Hc. lia.
  - intros b n. unfold exact, aclLen, aclHeaderLen. case_decide; [done|].
    intros (c & Hc & Hn)%bind_Ret. case_decide; [done|]. apply Ret_inj in Hn as <-.
    assert (len (take (Z.to_nat c) b) = c) as -> by len_lia.
    rewrite decide_False by lia. unfold le_uint. rewrite slice_take by lia.
    unfold le_uint in Hc. rewrite Hc. cbn [mbind outcome_bind]. by rewrite decide_False by lia.
  - intros b. unfold aclLen, aclHeaderLen. case_decide; [done|].
    apply returns_bind; [apply le_uint_returns; lia|]. intros c _. by case_decide.
Qed.

Section parse_slice.
Context length `{Measure length}.

Lemma parse_slice_returns sd off : 0 <= off -> returns (parse_slice sd off length).
Proof.
  intros Hoff. unfold parse_slice. case_decide; [done|]. case_decide; [done|].
  rewrite slice_from_drop by lia. cbn [mbind outcome_bind].
  apply returns_bind; [apply measure_returns|]. intros n [? _]%measure_bound.
  apply slice_returns; len_lia.
Qed.

Lemma parse_slice_exact sd off part :
  0 <= off -> parse_slice sd off length = Ret part -> part = [] \/ exact length part.
Proof.
  unfold parse_slice. intros Hoff. case_decide; [intros [= <-]; by left|].
  case_decide; [done|]. rewrite slice_from_drop by lia. cbn [mbind outcome_bind].
  intros (n & Hn & (? & ? & ? & ->)%slice_Ret)%bind_Ret. right.
  replace (off + n - off) with n by lia. by apply measure_take.
Qed.

Lemma parse_slice_mid sd off p part q :
  sd = p ++ part ++ q -> off = len p -> 0 < len p -> exact length part ->
  parse_slice sd off length = Ret part.
Proof.
  intros -> -> Hp Hpart. unfold parse_slice. rewrite decide_False by lia.
  pose proof (measure_bound _ _ Hpart).
  rewrite decide_False by (rewrite !len_app; pose proof (len_nonneg q); lia).
  rewrite slice_from_app by done. cbn [mbind outcome_bind].
  rewrite measure_app by done. cbn [mbind outcome_bind]. apply slice_app_mid.
Qed.
End parse_slice.

(** ** Descriptors *)

Definition wf_part (length : bytes -> outcome Z) (part : bytes) : Prop :=
  part = [] \/ exact length part.

Record wf_parsed (p : parsed) : Prop := {
  wf_revision : 0 <= p_revision p < 256;
  wf_sbz1 : 0 <= p_sbz1 p < 256;
  wf_control : 0 <= p_control p < 65536;
  wf_selfrel : Z.land (p_control p) controlSelfRel <> 0;
  wf_owner : wf_part sidLen (p_owner p);
  wf_group : wf_part sidLen (p_group p);
  wf_sacl : wf_part aclLen (p_sacl p);
  wf_dacl : wf_part aclLen (p_dacl p)
}.

Lemma wf_part_bound length `{Measure length} part : wf_part length part -> len part < 65536.
Proof. intros [->|Hp]; [done|]. apply measure_bound in Hp. lia. Qed.

Lemma parse_returns sd : returns (parse sd).
Proof.
  unfold parse, sdHeaderLen. case_decide; [done|].
  apply returns_bind; [apply index_returns; lia|]. intros ? _.
  apply returns_bind; [apply index_returns; lia|]. intros ? _.
  apply returns_bind; [apply le_uint_returns; lia|]. intros ? _.
  case_decide; [done|].
  do 4 (apply returns_bind; [apply le_uint_returns; lia|]; intros ? ?%le_uint_range;
        apply returns_bind; [apply parse_slice_returns; [apply _|lia]|]; intros ? _).
  done.
Qed.

Lemma parse_wf sd p : parse sd = Ret p -> wf_parsed p.
Proof.
  unfold parse, sdHeaderLen. case_decide; [done|]. intros Hp. inv_ret Hp.
  case_decide; [done|]. inv_ret Hp. apply Ret_inj in Hp as <-.
  apply index_range in Ha, Ha0. apply le_uint_range in Ha1, Ha2, Ha4, Ha6, Ha8.
  apply parse_slice_exact in Ha3, Ha5, Ha7, Ha9; try apply _; try lia.
  constructor; cbn; auto.
Qed.

Definition sd_header (p : parsed) (o g s d : Z) : bytes :=
  [Zb (p_revision p); Zb (p_sbz1 p)] ++ le_encode 2 (p_control p)
  ++ le_encode 4 o ++ le_encode 4 g ++ le_encode 4 s ++ le_encode 4 d.

Definition off_of (n : Z) (part : bytes) : Z := match part with [] => 0 | _ => n end.

Lemma len_sd_header p o g s d : len (sd_header p o g s d) = 20.
Proof. unfold sd_header. rewrite !len_app, !len_le_encode. done. Qed.

Lemma put_mid part n a x b :
  length a = n -> length x = 4%nat -> len (a ++ x ++ b) < 2 ^ 32 ->
  put part n (a ++ x ++ b) =
  a ++ le_encode 4 (off_of (len (a ++ x ++ b)) part) ++ b ++ part.
Proof.
  intros Ha Hx Hlt.
  assert (forall v, put_uint32 (a ++ x ++ b) n v = a ++ le_encode 4 v ++ b) as Hput.
  { intros v. unfold put_uint32. rewrite take_app_exact by done.
    rewrite (app_assoc a x b), (drop_app_exact (n + 4) (a ++ x)) by (rewrite length_app; lia). done. }
  unfold put. rewrite !Hput. destruct part; cbn [off_of].
  - by rewrite app_nil_r.
  - rewrite wrap_u_small by (pose proof (len_nonneg (a ++ x ++ b)); lia).
    by rewrite <- !app_assoc.
Qed.

Ltac fix_off n part :=
  match goal with
  | |- context [off_of ?k part] =>
      lazymatch k with n => fail | _ => replace k with n by lia end
  end.

Lemma put_parts h s d o g :
  length h = 4%nat -> len s < 65536 -> len d < 65536 -> len o < 65536 -> len g < 65536 ->
  put g 8 (put o 4 (put d 16 (put s 12 (h ++ replicate 16 x00)))) =
  h ++ le_encode 4 (off_of (20 + len s + len d) o)
    ++ le_encode 4 (off_of (20 + len s + len d + len o) g)
    ++ le_encode 4 (off_of 20 s) ++ le_encode 4 (off_of (20 + len s) d)
    ++ s ++ d ++ o ++ g.
Proof.
  intros Hh Hs Hd Ho Hg. set (z4 := replicate 4 x00).
  change (replicate 16 x00) with (z4 ++ z4 ++ z4 ++ z4).
  assert (len h = 4) as Hh' by (unfold len; lia).
  assert (len z4 = 4) as Hz by done. assert (length z4 = 4%nat) as Hz' by done.
  clearbody z4.
  pose proof (len_nonneg s). pose proof (len_nonneg d). pose proof (len_nonneg o).
  set (o3 := le_encode 4 (off_of 20 s)).
  set (o4 := le_encode 4 (off_of (20 + len s) d)).
  set (o1 := le_encode 4 (off_of (20 + len s + len d) o)).
  set (o2 := le_encode 4 (off_of (20 + len s + len d + len o) g)).
  assert (len o1 = 4) as L1 by done. assert (len o2 = 4) as L2 by done.
  assert (len o3 = 4) as L3 by done. assert (len o4 = 4) as L4 by done.
  assert (length o3 = 4%nat) as L3' by done. assert (length o1 = 4%nat) as L1' by done.
  assert (put s 12 (h ++ z4 ++ z4 ++ z4 ++ z4) = (h ++ z4 ++ z4 ++ o3) ++ z4 ++ s) as ->.
  { pose proof (put_mid s 12 (h ++ z4 ++ z4) z4 z4) as P. rewrite !len_app, Hz, Hh' in P.
    rewrite !length_app, <- !app_assoc in P. rewrite <- !app_assoc. apply P; lia. }
  assert (put d 16 ((h ++ z4 ++ z4 ++ o3) ++ z4 ++ s) = h ++ z4 ++ (z4 ++ o3 ++ o4 ++ s ++ d)) as ->.
  { pose proof (put_mid d 16 (h ++ z4 ++ z4 ++ o3) z4 s) as P.
    rewrite !len_app, Hz, Hh', L3, !length_app, L3', <- !app_assoc in P.
    rewrite <- !app_assoc. rewrite P by lia. fix_off (20 + len s) d. done. }
  assert (put o 4 (h ++ z4 ++ (z4 ++ o3 ++ o4 ++ s ++ d))
          = (h ++ o1) ++ z4 ++ (o3 ++ o4 ++ s ++ d ++ o)) as ->.
  { pose proof (put_mid o 4 h z4 (z4 ++ o3 ++ o4 ++ s ++ d)) as P.
    rewrite P; [|done|done|].
    - rewrite !len_app, Hz, Hh', L3, L4, <- !app_assoc. fix_off (20 + len s + len d) o. done.
    - rewrite !len_app, Hz, Hh', L3, L4. lia. }
  rewrite put_mid; [|by rewrite length_app, L1', Hh|done|].
  - rewrite !len_app, Hz, Hh', L1, L3, L4, <- !app_assoc.
    fix_off (20 + len s + len d + len o) g. done.
  - rewrite !len_app, Hz, Hh', L1, L3, L4. lia.
Qed.

Lemma serialize_layout p :
  wf_parsed p ->
  serialize p =
  sd_header p (off_of (20 + len (p_sacl p) + len (p_dacl p)) (p_owner p))
    (off_of (20 + len (p_sacl p) + len (p_dacl p) + len (p_owner p)) (p_group p))
    (off_of 20 (p_sacl p)) (off_of (20 + len (p_sacl p)) (p_dacl p))
  ++ p_sacl p ++ p_dacl p ++ p_owner p ++ p_group p.
Proof.
  intros [_ _ _ _ Ho Hg Hs Hd]. apply wf_part_bound in Ho, Hg, Hs, Hd; try apply _.
  unfold serialize, sd_header. rewrite (app_assoc [_; _]), put_parts by done.
  by rewrite <- !app_assoc.
Qed.

(** Reading the words of a header back. *)
Lemma sd_header_fields p o g s d rest :
  wf_parsed p -> 0 <= o < 2 ^ 32 -> 0 <= g < 2 ^ 32 -> 0 <= s < 2 ^ 32 -> 0 <= d < 2 ^ 32 ->
  let sd := sd_header p o g s d ++ rest in
  index sd 0 = Ret (p_revision p) /\ index sd 1 = Ret (p_sbz1 p) /\
  le_uint sd 2 4 = Ret (p_control p) /\ le_uint sd 4 8 = Ret o /\ le_uint sd 8 12 = Ret g /\
  le_uint sd 12 16 = Ret s /\ le_uint sd 16 20 = Ret d.
Proof.
  intros [Hr Hz Hc _ _ _ _ _] ? ? ? ? sd. subst sd. unfold sd_header.
  set (l := le_encode 2 (p_control p)). set (lo := le_encode 4 o). set (lg := le_encode 4 g).
  set (ls := le_encode 4 s). set (ld := le_encode 4 d). set (h := [Zb _; Zb _]).
  rewrite <- !app_assoc. split_and!.
  - eapply (index_Ret _ _ _ []); [done|done|]. rewrite bZ_Zb, Z.mod_small; lia.
  - eapply (index_Ret _ _ _ [_]); [done|done|]. rewrite bZ_Zb, Z.mod_small; lia.
  - erewrite (le_uint_mid _ _ _ 2 (p_control p) h) by done. by rewrite Z.mod_small.
  - erewrite (le_uint_mid _ _ _ 4 o (h ++ l)); [|by rewrite <- !app_assoc|done|done].
    by rewrite Z.mod_small.
  - erewrite (le_uint_mid _ _ _ 4 g (h ++ l ++ lo)); [|by rewrite <- !app_assoc|done|done].
    by rewrite Z.mod_small.
  - erewrite (le_uint_mid _ _ _ 4 s (h ++ l ++ lo ++ lg)); [|by rewrite <- !app_assoc|done|done].
    by rewrite Z.mod_small.
  - erewrite (le_uint_mid _ _ _ 4 d (h ++ l ++ lo ++ lg ++ ls));
      [|by rewrite <- !app_assoc|done|done].
    by rewrite Z.mod_small.
Qed.

Lemma parse_slice_part length `{Measure length} sd n p part q :
  sd = p ++ part ++ q -> n = len p -> 0 < len p -> wf_part length part ->
  parse_slice sd (off_of n part) length = Ret part.
Proof.
  intros Hsd Hn Hp [->|Hpart]; [done|].
  destruct part as [|c part]; [by apply measure_bound in Hpart as [[? ?] ?]|].
  cbn [off_of]. by eapply parse_slice_mid.
Qed.

Lemma off_of_range n part : 0 <= n < 2 ^ 32 -> 0 <= off_of n part < 2 ^ 32.
Proof. intros. destruct part; cbn [off_of]; lia. Qed.

Lemma parse_serialize p : wf_parsed p -> parse (serialize p) = Ret p.
Proof.
  intros Hwf. pose proof Hwf as [_ _ _ Hself Ho Hg Hs Hd].
  rewrite serialize_layout by done.
  pose proof (wf_part_bound _ _ Ho). pose proof (wf_part_bound _ _ Hg).
  pose proof (wf_part_bound _ _ Hs). pose proof (wf_part_bound _ _ Hd).
  set (o := p_owner p) in *. set (g := p_group p) in *.
  set (s := p_sacl p) in *. set (d := p_dacl p) in *.
  pose proof (len_nonneg o). pose proof (len_nonneg g).
  pose proof (len_nonneg s). pose proof (len_nonneg d).
  set (oo := off_of _ o). set (og := off_of _ g). set (os := off_of _ s). set (od := off_of _ d).
  destruct (sd_header_fields p oo og os od (s ++ d ++ o ++ g))
    as (F0 & F1 & F2 & F4 & F8 & F12 & F16);
    [done|apply off_of_range; lia..|].
  set (h := sd_header p oo og os od) in *.
  assert (len h = 20) as Hh by apply len_sd_header.
  unfold parse. rewrite decide_False
    by (rewrite len_app; pose proof (len_nonneg (s ++ d ++ o ++ g)); unfold sdHeaderLen; lia).
  rewrite F0, F1, F2. cbn [mbind outcome_bind]. rewrite decide_False by done.
  rewrite F4, F8, F12, F16. cbn [mbind outcome_bind].
  unfold oo, og, os, od.
  rewrite (parse_slice_part sidLen _ _ (h ++ s ++ d) o g);
    [|by rewrite <- !app_assoc|rewrite !len_app; lia|rewrite !len_app; lia|done].
  rewrite (parse_slice_part sidLen _ _ (h ++ s ++ d ++ o) g []);
    [|by rewrite <- !app_assoc, app_nil_r|rewrite !len_app; lia|rewrite !len_app; lia|done].
  rewrite (parse_slice_part aclLen _ _ h s (d ++ o ++ g)); [|done|lia|lia|done].
  rewrite (parse_slice_part aclLen _ _ (h ++ s) d (o ++ g));
    [|by rewrite <- !app_assoc|rewrite !len_app; lia|rewrite !len_app; lia|done].
  cbn [mbind outcome_bind]. by destruct p.
Qed.

(** ** Access control lists *)

(** A byte string that is one ACE: a header whose size word is its length. *)
Definition wf_ace (a : bytes) : Prop := 4 <= len a /\ le_uint a 2 4 = Ret (len a).

(** The bytes an ACL with these entries takes. *)
Definition acl_size (list : list bytes) : Z := aclHeaderLen + len (concat list).

Lemma acl_size_fold list : fold_left (fun n a => n + len a) list aclHeaderLen = acl_size list.
Proof.
  unfold acl_size. generalize aclHeaderLen.
  induction list as [|a l IH]; intros k; cbn [fold_left concat].
  - rewrite len_nil. lia.
  - rewrite IH, len_app. lia.
Qed.

Lemma acl_size_cons a l : acl_size (a :: l) = len a + acl_size l.
Proof. unfold acl_size. cbn [concat]. rewrite len_app. lia. Qed.

Lemma acl_size_app l1 l2 : acl_size (l1 ++ l2) = acl_size l1 + acl_size l2 - aclHeaderLen.
Proof. unfold acl_size. rewrite concat_app, len_app. lia. Qed.

Lemma acl_size_ge list : 8 <= acl_size list.
Proof. unfold acl_size, aclHeaderLen. pose proof (len_nonneg (concat list)). lia. Qed.

Lemma acl_size_count list : Forall wf_ace list -> 4 * len list <= acl_size list.
Proof.
  induction 1 as [|a l [Ha _] _ IH]; [done|]. rewrite acl_size_cons, len_cons. lia.
Qed.

Lemma acl_size_filter f list : acl_size (List.filter f list) <= acl_size list.
Proof.
  induction list as [|a l IH]; [done|]. cbn [List.filter].
  destruct (f a); rewrite !acl_size_cons; pose proof (len_nonneg a); lia.
Qed.

Lemma aces_from_returns acl count off : 0 <= off -> returns (aces_from acl count off).
Proof.
  revert off. induction count as [|count IH]; intros off Hoff; cbn [aces_from]; [done|].
  unfold aceHeaderLen. case_decide; [done|].
  apply returns_bind; [apply le_uint_returns; lia|]. intros n _. case_decide; [done|].
  apply returns_bind; [apply slice_returns; lia|]. intros a _.
  apply returns_bind; [apply IH; lia|done].
Qed.

Lemma aces_from_wf acl count off list :
  0 <= off <= len acl -> aces_from acl count off = Ret list ->
  Forall wf_ace list /\ off + len (concat list) <= len acl.
Proof.
  revert off list. induction count as [|count IH]; intros off list Hoff; cbn [aces_from].
  { intros [= <-]. split; [constructor|]. cbn [concat]. rewrite len_nil. lia. }
  unfold aceHeaderLen. case_decide; [done|]. intros Hl. inv_ret Hl.
  case_decide as Hn; [done|]. inv_ret Hl. apply Ret_inj in Hl as <-.
  pose proof (slice_Ret_len _ _ _ _ Ha0) as Hlen.
  apply IH in Ha1 as [Hwf Hsum]; [|lia]. split.
  - constructor; [|done]. split; [lia|].
    apply slice_Ret in Ha0 as (? & ? & ? & Htake). unfold le_uint.
    replace (off + a - off) with a in * by lia.
    rewrite Htake, slice_take by len_lia. rewrite <- Htake, Hlen.
    unfold le_uint in Ha. rewrite <- slice_shift with (p := take (Z.to_nat off) acl) by lia.
    rewrite take_drop. replace (len (take (Z.to_nat off) acl)) with off by len_lia. done.
  - cbn [concat]. rewrite len_app. lia.
Qed.

Lemma aces_from_concat p list q off :
  off = len p -> Forall wf_ace list ->
  aces_from (p ++ concat list ++ q) (length list) off = Ret list.
Proof.
  intros -> Hwf. revert p. induction Hwf as [|a l [Ha Hn] _ IH]; intros p; [done|].
  cbn [concat length aces_from]. rewrite <- app_assoc.
  rewrite decide_False by (rewrite !len_app; unfold aceHeaderLen;
    pose proof (len_nonneg (concat l ++ q)); rewrite len_app in *; lia).
  rewrite le_uint_shift, (le_uint_app_l _ _ _ _ _ Hn) by lia.
  cbn [mbind outcome_bind].
  rewrite decide_False by (rewrite !len_app; unfold aceHeaderLen;
    pose proof (len_nonneg (concat l ++ q)); rewrite len_app in *; lia).
  rewrite (slice_mid _ _ _ p a (concat l ++ q)) by done. cbn [mbind outcome_bind].
  rewrite <- len_app. specialize (IH (p ++ a)). rewrite <- app_assoc in IH.
  by rewrite IH.
Qed.

Lemma aces_returns acl : wf_part aclLen acl -> returns (aces acl).
Proof.
  intros [->|Hacl]; [done|]. apply measure_bound in Hacl. unfold aces.
  destruct acl; [done|]. apply returns_bind; [apply le_uint_returns; lia|].
  intros n _. apply aces_from_returns. done.
Qed.

Lemma aces_wf acl list :
  wf_part aclLen acl -> aces acl = Ret list ->
  Forall wf_ace list /\ (acl = [] /\ list = [] \/ acl_size list <= len acl).
Proof.
  intros [->|Hacl].
  { intros [= <-]. auto. }
  apply measure_bound in Hacl. unfold aces. destruct acl as [|c acl]; [by intros [= <-]; auto|].
  intros (n & _ & Hl)%bind_Ret. apply aces_from_wf in Hl as [? ?].
  - auto.
  - unfold aclHeaderLen. lia.
Qed.

Lemma aces_size acl list : wf_part aclLen acl -> aces acl = Ret list -> acl_size list < 65536.
Proof.
  intros Hwf Hl. destruct (aces_wf _ _ Hwf Hl) as [_ [[_ ->]|Hle]]; [done|].
  apply wf_part_bound in Hwf; [lia|apply _].
Qed.

Lemma len_buildACL revision list : len (buildACL revision list) = acl_size list.
Proof.
  unfold buildACL, acl_size. rewrite !len_app, !len_le_encode. unfold aclHeaderLen.
  unfold len. cbn [length]. lia.
Qed.

Lemma buildACL_exact revision list :
  acl_size list < 65536 -> exact aclLen (buildACL revision list).
Proof.
  intros Hsize. pose proof (acl_size_ge list). unfold exact, aclLen, aclHeaderLen.
  rewrite len_buildACL. rewrite decide_False by lia.
  unfold buildACL. rewrite acl_size_fold, wrap_u_small by lia.
  erewrite (le_uint_mid _ 2 4 2 (acl_size list) [_; _]) by done.
  cbn [mbind outcome_bind]. rewrite Z.mod_small by (simpl; lia).
  by rewrite decide_False by lia.
Qed.

Lemma aces_buildACL revision list :
  Forall wf_ace list -> acl_size list < 65536 -> aces (buildACL revision list) = Ret list.
Proof.
  intros Hwf Hsize. pose proof (acl_size_count _ Hwf). pose proof (len_nonneg list).
  unfold aces. destruct (buildACL revision list) as [|c r] eqn:E; [done|]. rewrite <- E.
  unfold buildACL.
  erewrite (le_uint_mid _ 4 6 2 (uint16 (len list)) ([_; _] ++ le_encode 2 _)).
  2: { by rewrite <- !app_assoc. }
  2-3: done.
  cbn [mbind outcome_bind]. rewrite (wrap_u_small 16 (len list)) by (simpl; lia). rewrite Z.mod_small by (simpl; lia).
  replace (Z.to_nat (len list)) with (length list) by (unfold len; lia).
  rewrite <- (app_nil_r (concat list)).
  rewrite !app_assoc, <- (app_assoc _ (concat list) []). apply aces_from_concat; done.
Qed.

(** ** Editing the DACL *)

Lemma lor_dacl_present c :
  0 <= c < 65536 -> Z.land c controlSelfRel <> 0 ->
  0 <= Z.lor c controlDACLPresent < 65536 /\
  Z.land (Z.lor c controlDACLPresent) controlSelfRel <> 0.
Proof.
  intros Hc Hs. split.
  - pose proof (Z.lor_nonneg c controlDACLPresent) as [_ Hn].
    split; [apply Hn; split; [lia|done]|].
    destruct (decide (Z.lor c controlDACLPresent = 0)) as [->|]; [done|].
    apply (Z.log2_lt_pow2 _ 16); [unfold controlDACLPresent in *; lia|].
    rewrite Z.log2_lor by (unfold controlDACLPresent; lia).
    destruct (decide (c = 0)) as [->|]; [done|].
    pose proof (proj1 (Z.log2_lt_pow2 c 16 ltac:(lia)) ltac:(simpl; lia)).
    change (Z.log2 controlDACLPresent) with 2. lia.
  - rewrite Z.land_lor_distr_l. change (Z.land controlDACLPresent controlSelfRel) with 0.
    by rewrite Z.lor_0_r.
Qed.

Lemma wf_with_dacl p dacl : wf_parsed p -> wf_part aclLen dacl -> wf_parsed (with_dacl p dacl).
Proof.
  intros [? ? Hc Hs ? ? ? ?] ?. destruct (lor_dacl_present _ Hc Hs). by constructor.
Qed.

(** What a client sees of a descriptor: its fields and the entries of its
    DACL. *)
Definition entries (sd : bytes) : outcome (parsed * list bytes) :=
  p ← parse sd; l ← aces (p_dacl p); Ret (p, l).

Lemma entries_returns sd : returns (entries sd).
Proof.
  unfold entries. apply returns_bind; [apply parse_returns|]. intros p Hp%parse_wf.
  apply returns_bind; [|done]. apply aces_returns, Hp.
Qed.

Lemma entries_wf sd p l :
  entries sd = Ret (p, l) -> wf_parsed p /\ Forall wf_ace l /\ acl_size l < 65536.
Proof.
  unfold entries. intros Hs. inv_ret Hs. apply Ret_inj in Hs as [= -> ->].
  apply parse_wf in Ha. split_and!; [done| |].
  - by eapply aces_wf; [apply wf_dacl|].
  - by eapply aces_size; [apply wf_dacl|].
Qed.

(** Replacing the DACL keeps every other field and gives exactly the new
    entries, provided they fit the 16-bit size field. *)
Lemma entries_rewrite p revision l :
  wf_parsed p -> Forall wf_ace l -> acl_size l < 65536 ->
  let p' := with_dacl p (buildACL revision l) in
  entries (serialize p') = Ret (p', l).
Proof.
  intros Hp Hl Hsize p'. unfold entries. rewrite parse_serialize.
  - cbn [mbind outcome_bind p' p_dacl with_dacl]. by rewrite aces_buildACL.
  - apply wf_with_dacl; [done|]. right. by apply buildACL_exact.
Qed.

(** The rest of a function that starts by reading the entries. *)
Lemma with_entries {A} sd p l (k : parsed -> list bytes -> outcome A) :
  entries sd = Ret (p, l) ->
  (p ← parse sd; l ← aces (p_dacl p); k p l) = k p l.
Proof.
  unfold entries. intros Hs. inv_ret Hs. apply Ret_inj in Hs as [= -> ->].
  rewrite Ha. cbn [mbind outcome_bind]. by rewrite Ha0.
Qed.

Lemma from_entries {A} sd (k : parsed -> list bytes -> outcome A) r :
  (p ← parse sd; l ← aces (p_dacl p); k p l) = Ret r ->
  exists p l, entries sd = Ret (p, l) /\ k p l = Ret r.
Proof.
  intros Hs. inv_ret Hs. exists a, a0. split; [|done]. unfold entries.
  rewrite Ha. cbn [mbind outcome_bind]. by rewrite Ha0.
Qed.

(** ** Tests on entries *)

(** A test that never panics and never fails, and the predicate it decides. *)
Definition total {A} (f : A -> outcome bool) : Prop := forall a, exists b, f a = Ret b.
Definition holds {A} (f : A -> outcome bool) (a : A) : bool :=
  match f a with Ret b => b | _ => false end.

Section tests.
Context {A : Type} (f : A -> outcome bool) (Hf : total f).

Lemma total_holds a : f a = Ret (holds f a).
Proof. unfold holds. by destruct (Hf a) as [b ->]. Qed.

Lemma exists_out_total l : exists_out f l = Ret (existsb (holds f) l).
Proof.
  induction l as [|a l IH]; [done|]. cbn [exists_out existsb]. rewrite total_holds.
  cbn [mbind outcome_bind]. by destruct (holds f a).
Qed.

Lemma sift_total l :
  sift f l = Ret (List.filter (fun a => negb (holds f a)) l, len (List.filter (holds f) l)).
Proof.
  induction l as [|a l IH]; [done|]. cbn [sift List.filter]. rewrite total_holds, IH.
  cbn [mbind outcome_bind]. destruct (holds f a); cbn [negb]; [|done].
  rewrite len_cons. do 2 f_equal. lia.
Qed.
End tests.

Lemma existsb_filter_negb {A} (f : A -> bool) l :
  existsb f (List.filter (fun a => negb (f a)) l) = false.
Proof.
  induction l as [|a l IH]; [done|]. cbn [List.filter]. destruct (f a) eqn:E; [done|].
  cbn. by rewrite E, IH.
Qed.

Lemma len_filter_existsb {A} (f : A -> bool) l :
  (0 <? len (List.filter f l)) = existsb f l.
Proof.
  induction l as [|a l IH]; [done|]. cbn [List.filter existsb]. destruct (f a); [|done].
  rewrite len_cons. pose proof (len_nonneg (List.filter f l)). cbn. lia.
Qed.

Lemma filter_negb_id {A} (f : A -> bool) l :
  existsb f l = false -> List.filter (fun a => negb (f a)) l = l.
Proof.
  induction l as [|a l IH]; [done|]. cbn. destruct (f a); [done|]. intros. by rewrite IH.
Qed.

Lemma filter_none {A} (f : A -> bool) l : existsb f l = false -> List.filter f l = [].
Proof. induction l as [|a l IH]; [done|]. cbn. by destruct (f a). Qed.

Lemma isProtectionACE_total : total isProtectionACE.
Proof.
  intros a. unfold isProtectionACE. case_decide as Hl; [by eexists|].
  unfold aceHeaderLen in Hl. change (len everyone) with 12 in *.
  assert (returns (index a 0)) as Hi by (apply index_returns; lia).
  destruct (index a 0) as [t|e| | |] eqn:E; try done; cbn [mbind outcome_bind].
  2: { unfold index in E. repeat case_match; done. }
  case_decide; [by eexists|]. unfold le_uint. rewrite slice_ok by lia.
  cbn [mbind outcome_bind]. case_decide; [by eexists|].
  rewrite slice_from_drop by lia. cbn [mbind outcome_bind]. case_decide; by eexists.
Qed.

Lemma deniedTrustee_total a flags off t :
  0 <= off -> exists b, deniedTrustee a flags off t = Ret b.
Proof.
  intros Hoff. pose proof (len_nonneg t). unfold deniedTrustee. cbv zeta.
  set (o := if has_bits _ aceInheritedObjectTypePresent then _ else _).
  assert (0 <= o) by (subst o; case_match; lia). clearbody o.
  case_decide; [by eexists|]. rewrite slice_ok by lia. by eexists.
Qed.

Lemma deniedObject_total mask ot t : total (fun ace => deniedObject ace mask ot t).
Proof.
  intros a. pose proof (len_nonneg t). unfold deniedObject. case_decide as Hl; [by eexists|].
  unfold aceHeaderLen in Hl. destruct (index_Ret_ex a 0 ltac:(lia)) as [z ->].
  cbn [mbind outcome_bind]. case_decide; [by eexists|]. unfold le_uint.
  rewrite (slice_ok a 4 8), (slice_ok a 8 12) by lia. cbn [mbind outcome_bind]. case_decide; [by eexists|].
  destruct (has_bits _ aceObjectTypePresent).
  - case_decide; [by eexists|]. rewrite slice_ok by lia. cbn [mbind outcome_bind].
    case_decide; [by eexists|]. by apply deniedTrustee_total.
  - case_decide; [by eexists|]. by apply deniedTrustee_total.
Qed.

Lemma deniedToAny_total mask ot ts : total (deniedToAny mask ot ts).
Proof.
  intros a. unfold deniedToAny.
  induction ts as [|t ts IH]; cbn [exists_out]; [by eexists|].
  destruct (deniedObject_total mask ot t a) as [b ->]. destruct b; [by eexists|done].
Qed.

Lemma deniedToAny_spec mask ot ts a t :
  In t ts -> deniedObject a mask ot t = Ret true -> holds (deniedToAny mask ot ts) a = true.
Proof.
  intros Hin Ht. unfold holds, deniedToAny.
  induction ts as [|t' ts IH]; [done|]. cbn [exists_out].
  destruct (deniedObject_total mask ot t' a) as [[] Hb]; rewrite Hb; [done|].
  cbn [mbind outcome_bind]. destruct Hin as [->|Hin]; [congruence|auto].
Qed.

(** ** The entries this package writes *)

(** An entry with a type, flags, a size word equal to its length and a body. *)
Lemma wf_ace_build t f n body :
  n = 4 + len body -> n < 65536 -> wf_ace ([t; f] ++ le_encode 2 (uint16 n) ++ body).
Proof.
  intros -> Hn. pose proof (len_nonneg body). unfold wf_ace.
  rewrite !len_app, len_le_encode. change (len [t; f]) with 2. split; [lia|].
  erewrite (le_uint_mid _ 2 4 2 (uint16 (4 + len body)) [_; _]) by done.
  rewrite wrap_u_small by lia. rewrite Z.mod_small by (simpl; lia). f_equal. lia.
Qed.

Lemma protectionACE_wf : wf_ace protectionACE.
Proof. by apply wf_ace_build. Qed.

Lemma protectionACE_holds : holds isProtectionACE protectionACE = true.
Proof. reflexivity. Qed.

Lemma deniedObjectACE_wf mask ot t :
  12 + len ot + len t < 65536 -> wf_ace (deniedObjectACE mask ot t).
Proof.
  intros Hlen. pose proof (len_nonneg ot). pose proof (len_nonneg t).
  apply wf_ace_build; rewrite ?len_app, ?len_le_encode; unfold aceHeaderLen; lia.
Qed.

Lemma deniedObject_ACE mask ot t :
  0 < mask < 2 ^ 32 -> len ot = 16 -> deniedObject (deniedObjectACE mask ot t) mask ot t = Ret true.
Proof.
  intros Hm Hot. unfold deniedObject. set (a := deniedObjectACE mask ot t).
  pose proof (len_nonneg t).
  set (h := [Zb aceTypeDeniedObject; x00]).
  set (l := le_encode 2 (uint16 (aceHeaderLen + 4 + 4 + len ot + len t))).
  assert (a = h ++ l ++ le_encode 4 mask ++ le_encode 4 aceObjectTypePresent ++ ot ++ t) as Ha
    by done.
  assert (len a = 28 + len t) as Hl.
  { rewrite Ha, !len_app, !len_le_encode. change (len h) with 2. change (len l) with 2. lia. }
  unfold aceHeaderLen. rewrite !(decide_False (P := len a < _)) by lia.
  rewrite (index_Ret a 0 6 [] x06 ([x00] ++ l ++ le_encode 4 mask ++
             le_encode 4 aceObjectTypePresent ++ ot ++ t)) by done.
  cbn [mbind outcome_bind]. rewrite decide_False by (intros []; done).
  rewrite (le_uint_mid a 4 8 4 mask (h ++ l) (le_encode 4 aceObjectTypePresent ++ ot ++ t));
    [|by rewrite Ha, <- !app_assoc|done|done].
  cbn [mbind outcome_bind]. rewrite Z.mod_small by (simpl; lia).
  rewrite Z.land_diag, decide_False by lia.
  rewrite (le_uint_mid a 8 12 4 aceObjectTypePresent (h ++ l ++ le_encode 4 mask) (ot ++ t));
    [|by rewrite Ha, <- !app_assoc|done|done].
  cbn [mbind outcome_bind].
  change (has_bits (aceObjectTypePresent mod _) aceObjectTypePresent) with true.
  cbv iota. rewrite decide_False by lia.
  rewrite (slice_mid a 12 (12 + 16) (h ++ l ++ le_encode 4 mask ++ le_encode 4 aceObjectTypePresent) ot t);
    [|by rewrite Ha, <- !app_assoc|done|by rewrite Hot].
  cbn [mbind outcome_bind]. rewrite decide_False by naive_solver.
  unfold deniedTrustee.
  change (has_bits (aceObjectTypePresent mod _) aceInheritedObjectTypePresent) with false.
  cbv iota zeta. rewrite decide_False by lia.
  rewrite (slice_mid a (12 + 16) (12 + 16 + len t)
             (h ++ l ++ le_encode 4 mask ++ le_encode 4 aceObjectTypePresent ++ ot) t []);
    [|by rewrite Ha, app_nil_r, <- !app_assoc| |].
  - cbn [mbind outcome_bind]. by rewrite bool_decide_eq_true_2.
  - rewrite !len_app, Hot. done.
  - rewrite !len_app, Hot. done.
Qed.

(** ** The operations as edits of the entry list *)

Lemma IsProtected_entries sd p l :
  entries sd = Ret (p, l) -> IsProtected sd = Ret (existsb (holds isProtectionACE) l).
Proof.
  intros Hs. unfold IsProtected. rewrite (with_entries _ _ _ _ Hs).
  apply exists_out_total, isProtectionACE_total.
Qed.

Lemma HasDenied_entries sd p l mask ot ts :
  entries sd = Ret (p, l) ->
  HasDeniedObjectRight sd mask ot ts = Ret (existsb (holds (deniedToAny mask ot ts)) l).
Proof.
  intros Hs. unfold HasDeniedObjectRight. rewrite (with_entries _ _ _ _ Hs).
  apply exists_out_total, deniedToAny_total.
Qed.

Lemma dacl_revision_Ret absent p :
  exists r, match p_dacl p with [] => Ret absent | _ => index (p_dacl p) 0 end = Ret r.
Proof.
  destruct (p_dacl p) as [|c d]; [by eexists|]. apply index_Ret_ex.
  rewrite len_cons. pose proof (len_nonneg d). lia.
Qed.

Lemma SetProtected_entries sd on p l :
  entries sd = Ret (p, l) ->
  let prot := holds isProtectionACE in
  exists r, SetProtected sd on =
    Ret (if decide (on = existsb prot l) then (sd, false)
         else (serialize (with_dacl p (buildACL r ((if on then [protectionACE] else [])
                 ++ List.filter (fun a => negb (prot a)) l))), true)).
Proof.
  intros Hs prot. destruct (dacl_revision_Ret 2 p) as [r Hr]. exists r.
  unfold SetProtected. rewrite (with_entries _ _ _ _ Hs).
  rewrite (sift_total _ isProtectionACE_total). cbn [mbind outcome_bind].
  rewrite len_filter_existsb. fold prot. case_decide; [done|]. rewrite Hr. by destruct on.
Qed.

Lemma SetDenied_entries sd on mask ot ts p l :
  entries sd = Ret (p, l) ->
  let denied := holds (deniedToAny mask ot ts) in
  let removed := len (List.filter denied l) in
  exists r, SetDeniedObjectRight sd on mask ot ts =
    Ret (if decide (on = true /\ removed = len ts /\ 0 < removed \/ on = false /\ removed = 0)
         then (sd, false)
         else (serialize (with_dacl p (buildACL r
                 ((if on then map (deniedObjectACE mask ot) ts else [])
                  ++ List.filter (fun a => negb (denied a)) l))), true)).
Proof.
  intros Hs denied removed.
  assert (exists r, match p_dacl p with
                    | [] => Ret aclRevisionDS
                    | _ => r ← index (p_dacl p) 0;
                           Ret (if aclRevisionDS <? r then r else aclRevisionDS)
                    end = Ret r) as [r Hr].
  { destruct (p_dacl p) as [|c d]; [by eexists|].
    destruct (index_Ret_ex (c :: d) 0) as [z ->]; [|by eexists].
    rewrite len_cons. pose proof (len_nonneg d). lia. }
  exists r. unfold SetDeniedObjectRight. rewrite (with_entries _ _ _ _ Hs).
  rewrite (sift_total _ (deniedToAny_total mask ot ts)). cbn [mbind outcome_bind].
  fold denied removed. rewrite Hr.
  destruct on.
  - destruct (decide (removed = len ts /\ 0 < removed));
      [by rewrite decide_True by auto|by rewrite decide_False by naive_solver].
  - destruct (decide (removed = 0));
      [by rewrite decide_True by auto|by rewrite decide_False by naive_solver].
Qed.

(** The descriptor differs from [p] in its DACL and the DACL-present bit. *)
Definition same_but_dacl (p p' : parsed) : Prop := p' = with_dacl p (p_dacl p').

Lemma entries_edit p r l :
  wf_parsed p -> Forall wf_ace l -> acl_size l < 65536 ->
  exists p', entries (serialize (with_dacl p (buildACL r l))) = Ret (p', l) /\
             same_but_dacl p p'.
Proof. intros. eexists. by rewrite entries_rewrite. Qed.

Lemma Forall_filter {A} (P : A -> Prop) f l : Forall P l -> Forall P (List.filter f l).
Proof.
  induction 1 as [|a l Ha _ IH]; [constructor|]. cbn [List.filter].
  destruct (f a); [by constructor|done].
Qed.

(** ** Properties *)

(** C36: parsing never panics; what it accepts is a well-formed descriptor,
    and serializing any well-formed descriptor gives bytes that parse back to
    it: control bits, owner, group, SACL and DACL are all preserved. *)
Theorem descriptor_roundtrip (sd : bytes) (p : parsed) :
  returns (parse sd) /\
  (parse sd = Ret p -> wf_parsed p) /\
  (wf_parsed p -> parse (serialize p) = Ret p).
Proof.
  split_and!; [apply parse_returns|apply parse_wf|apply parse_serialize].
Qed.

(** A descriptor with an owner, a group and a DACL of one allow entry for the
    owner and one of a type the package does not model. *)
Definition sample_allow : bytes :=
  [x00; x00] ++ le_encode 2 20 ++ le_encode 4 983551 ++ SIDSelf.
Definition sample_callback : bytes :=
  [x09; x00] ++ le_encode 2 8 ++ [x01; x02; x03; x04].
Definition sample_parsed : parsed :=
  mkParsed 1 0 0x8004 SIDSelf everyone [] (buildACL 4 [sample_allow; sample_callback]).
Definition sample_sd : bytes := serialize sample_parsed.

Lemma sample_parsed_wf : wf_parsed sample_parsed.
Proof. by constructor; try (right; vm_compute; done); try (left; done); vm_compute. Qed.

Lemma descriptor_roundtrip_witness :
  wf_parsed sample_parsed /\ parse (serialize sample_parsed) = Ret sample_parsed.
Proof.
  split; [exact sample_parsed_wf|].
  exact (proj2 (proj2 (descriptor_roundtrip sample_sd sample_parsed)) sample_parsed_wf).
Defined.

(** An ACL is a faithful container of opaque entries.  Splitting never
    panics on a DACL of a parsed descriptor and yields entries whose size word
    is their length; rebuilding an ACL around entries that fit in 64 KiB and
    splitting it again gives exactly those entries, byte for byte. *)
Theorem acl_roundtrip (revision : Z) (acl : bytes) (l : list bytes) :
  (wf_part aclLen acl -> returns (aces acl)) /\
  (wf_part aclLen acl -> aces acl = Ret l -> Forall wf_ace l /\ acl_size l < 65536) /\
  (Forall wf_ace l -> acl_size l < 65536 ->
     exact aclLen (buildACL revision l) /\ aces (buildACL revision l) = Ret l).
Proof.
  split_and!.
  - apply aces_returns.
  - intros Hwf Hl. split; [by eapply aces_wf|by eapply aces_size].
  - intros Hl Hs. split; [by apply buildACL_exact|by apply aces_buildACL].
Qed.

Lemma acl_roundtrip_witness :
  aces (buildACL 4 [sample_allow; sample_callback]) = Ret [sample_allow; sample_callback].
Proof.
  refine (proj2 (proj2 (proj2 (acl_roundtrip 4 [] [sample_allow; sample_callback])) _ _)).
  - repeat constructor; done.
  - reflexivity.
Defined.

(** Whatever the bytes, these functions return. *)
Lemma entries_cases sd :
  (exists p l, entries sd = Ret (p, l)) \/
  exists e, forall A (k : parsed -> list bytes -> outcome A),
    (p ← parse sd; l ← aces (p_dacl p); k p l) = Fail e.
Proof.
  unfold entries. pose proof (parse_returns sd) as Hp.
  destruct (parse sd) as [p|e| | |] eqn:Ep; try done; [|right; by exists e].
  pose proof (aces_returns (p_dacl p) (wf_dacl _ (parse_wf _ _ Ep))) as Ha. cbn [mbind outcome_bind].
  destruct (aces (p_dacl p)) as [l|e| | |]; try done; [left; by eexists _, _|right; by exists e].
Qed.

Lemma IsProtected_returns sd : returns (IsProtected sd).
Proof.
  destruct (entries_cases sd) as [(p & l & Hs)|[e He]].
  - by rewrite (IsProtected_entries _ _ _ Hs).
  - unfold IsProtected. by rewrite He.
Qed.
Lemma SetProtected_returns sd on : returns (SetProtected sd on).
Proof.
  destruct (entries_cases sd) as [(p & l & Hs)|[e He]].
  - by destruct (SetProtected_entries _ on _ _ Hs) as [r ->].
  - unfold SetProtected. by rewrite He.
Qed.
Lemma HasDeniedObjectRight_returns sd mask ot ts : returns (HasDeniedObjectRight sd mask ot ts).
Proof.
  destruct (entries_cases sd) as [(p & l & Hs)|[e He]].
  - by rewrite (HasDenied_entries _ _ _ _ _ _ Hs).
  - unfold HasDeniedObjectRight. by rewrite He.
Qed.
Lemma SetDeniedObjectRight_returns sd on mask ot ts :
  returns (SetDeniedObjectRight sd on mask ot ts).
Proof.
  destruct (entries_cases sd) as [(p & l & Hs)|[e He]].
  - by destruct (SetDenied_entries _ on mask ot ts _ _ Hs) as [r ->].
  - unfold SetDeniedObjectRight. by rewrite He.
Qed.

(** The entries [SetProtected] leaves. *)
Definition protect_edit (on : bool) (l : list bytes) : list bytes :=
  (if on then [protectionACE] else [])
  ++ List.filter (fun a => negb (holds isProtectionACE a)) l.

Lemma protect_edit_state on l : existsb (holds isProtectionACE) (protect_edit on l) = on.
Proof.
  unfold protect_edit. rewrite existsb_app, existsb_filter_negb. destruct on; [|done].
  cbn [existsb]. by rewrite protectionACE_holds.
Qed.

Lemma SetProtected_write sd on p l :
  entries sd = Ret (p, l) -> on <> existsb (holds isProtectionACE) l ->
  acl_size (protect_edit on l) < 65536 ->
  exists out p', SetProtected sd on = Ret (out, true) /\ entries out = Ret (p', protect_edit on l) /\
    same_but_dacl p p' /\ IsProtected out = Ret on.
Proof.
  intros Hs Hne Hsize. destruct (entries_wf _ _ _ Hs) as (Hp & Hl & _).
  destruct (SetProtected_entries _ on _ _ Hs) as [r HS]. cbv zeta in HS. fold (protect_edit on l) in HS.
  rewrite HS, decide_False by done.
  destruct (entries_edit p r (protect_edit on l)) as (p' & Hout & Hsame); [done| |done|].
  { apply Forall_app. split; [|by apply Forall_filter].
    destruct on; [|constructor]. constructor; [apply protectionACE_wf|constructor]. }
  eexists _, p'. split_and!; [done..|].
  by rewrite (IsProtected_entries _ _ _ Hout), protect_edit_state.
Qed.

(** The state a call of [SetProtected] that succeeds leaves, unless the list
    outgrows its size field. *)
Lemma SetProtected_Ret sd on out changed :
  SetProtected sd on = Ret (out, changed) ->
  exists p l, entries sd = Ret (p, l) /\
    (changed = false -> out = sd /\ IsProtected sd = Ret on) /\
    (changed = true -> acl_size (protect_edit on l) < 65536 -> IsProtected out = Ret on).
Proof.
  intros HS. pose proof HS as Hs. unfold SetProtected in Hs.
  apply from_entries in Hs as (p & l & Hs & _). exists p, l. split; [done|].
  destruct (decide (on = existsb (holds isProtectionACE) l)) as [He|Hne].
  - destruct (SetProtected_entries _ on _ _ Hs) as [r HS']. cbv zeta in HS'.
    rewrite decide_True in HS' by done. rewrite HS' in HS. injection HS as <- <-.
    split; [|done]. intros _. split; [done|]. by rewrite (IsProtected_entries _ _ _ Hs), He.
  - destruct (SetProtected_entries _ on _ _ Hs) as [r HS']. cbv zeta in HS'.
    rewrite decide_False in HS' by done. pose proof HS as HS2. rewrite HS' in HS2.
    injection HS2 as <- <-. split; [done|]. intros _ Hsize.
    destruct (SetProtected_write _ _ _ _ Hs Hne Hsize) as (out & p' & HS3 & _ & _ & Hprot). congruence.
Qed.

(** C4: [SetProtected] refines an edit of the entry list.  It never panics;
    it reports no change exactly when the state is already the one asked for
    and then returns its input; otherwise the result has every unprotecting
    entry unchanged and in order, the deny entry leading when protecting and
    no protection entry when not, all other fields kept; a second call
    changes nothing. *)
Theorem SetProtected_refines (sd : bytes) (on : bool) (p : parsed) (l : list bytes) :
  entries sd = Ret (p, l) ->
  let was := existsb (holds isProtectionACE) l in
  let edited := (if on then [protectionACE] else [])
                ++ List.filter (fun a => negb (holds isProtectionACE a)) l in
  IsProtected sd = Ret was /\
  (on = was -> SetProtected sd on = Ret (sd, false)) /\
  (on <> was -> acl_size edited < 65536 ->
     exists out p', SetProtected sd on = Ret (out, true) /\
       entries out = Ret (p', edited) /\ same_but_dacl p p' /\
       IsProtected out = Ret on /\ SetProtected out on = Ret (out, false)).
Proof.
  intros Hs was edited. destruct (SetProtected_entries _ on _ _ Hs) as [r HS].
  split_and!; [by apply (IsProtected_entries _ p)|intros; by rewrite HS, decide_True|].
  intros Hne Hsize. destruct (SetProtected_write _ _ _ _ Hs Hne Hsize) as (out & p' & HS' & Hout & ? & ?).
  exists out, p'. split_and!; try done.
  destruct (SetProtected_entries _ on _ _ Hout) as [r' ->].
  by rewrite protect_edit_state, decide_True.
Qed.

Lemma SetProtected_refines_witness :
  exists out p', SetProtected sample_sd true = Ret (out, true) /\
    entries out = Ret (p', [protectionACE; sample_allow; sample_callback]) /\
    same_but_dacl sample_parsed p' /\ IsProtected out = Ret true /\
    SetProtected out true = Ret (out, false).
Proof.
  refine (proj2 (proj2 (SetProtected_refines sample_sd true sample_parsed
            [sample_allow; sample_callback] _)) _ _).
  - reflexivity.
  - discriminate.
  - reflexivity.
Defined.

Section denied_right.
Context (mask : Z) (ot : bytes) (ts : list bytes).
Hypothesis (Hmask : 0 < mask < 2 ^ 32) (Hot : len ot = 16).

Lemma written_denied : existsb (holds (deniedToAny mask ot ts)) (map (deniedObjectACE mask ot) ts)
                       = negb (bool_decide (ts = [])).
Proof using Hmask Hot.
  destruct ts as [|t ts'] eqn:E; [done|]. cbn [map existsb].
  rewrite (deniedToAny_spec _ _ _ _ t); [done|by left|]. by apply deniedObject_ACE.
Qed.

Lemma written_all : List.filter (holds (deniedToAny mask ot ts)) (map (deniedObjectACE mask ot) ts)
                    = map (deniedObjectACE mask ot) ts.
Proof using Hmask Hot.
  assert (forall t, In t ts -> holds (deniedToAny mask ot ts) (deniedObjectACE mask ot t) = true) as H.
  { intros t Hin. apply (deniedToAny_spec _ _ _ _ t); [done|]. by apply deniedObject_ACE. }
  revert H. generalize (deniedToAny mask ot ts). intros f. induction ts as [|t l IH]; [done|].
  intros H. cbn [map List.filter]. rewrite (H t) by by left. f_equal. apply IH.
  intros. apply H. by right.
Qed.

Lemma filter_filter_negb {A} (f : A -> bool) l :
  List.filter f (List.filter (fun a => negb (f a)) l) = [].
Proof.
  apply filter_none, existsb_filter_negb.
Qed.
End denied_right.

(** The list an edit that changes something writes. *)
Definition deny_edit (on : bool) (mask : Z) (ot : bytes) (ts : list bytes) (l : list bytes) : list bytes :=
  (if on then map (deniedObjectACE mask ot) ts else [])
  ++ List.filter (fun a => negb (holds (deniedToAny mask ot ts) a)) l.

Lemma deny_edit_wf on mask ot ts l :
  Forall wf_ace l -> acl_size (deny_edit on mask ot ts l) < 65536 -> Forall wf_ace (deny_edit on mask ot ts l).
Proof.
  intros Hl Hsize. apply Forall_app. split; [|by apply Forall_filter]. destruct on; [|constructor].
  apply Forall_map, List.Forall_forall. intros t Hin. apply deniedObjectACE_wf.
  assert (len (deniedObjectACE mask ot t) <= acl_size (deny_edit true mask ot ts l)) as Hle.
  { unfold deny_edit. destruct (in_split _ _ Hin) as (ts1 & ts2 & ->).
    rewrite map_app, <- app_assoc. cbn [map app].
    rewrite acl_size_app, acl_size_cons. unfold aclHeaderLen.
    pose proof (acl_size_ge (map (deniedObjectACE mask ot) ts1)).
    match goal with |- context [acl_size (?x ++ ?y)] => pose proof (acl_size_ge (x ++ y)) end.
    lia. }
  unfold deniedObjectACE in Hle. rewrite !len_app, !len_le_encode in Hle.
  change (len [_; _]) with 2 in Hle. lia.
Qed.

Lemma deny_edit_state on mask ot ts l :
  0 < mask < 2 ^ 32 -> len ot = 16 -> ts <> [] ->
  existsb (holds (deniedToAny mask ot ts)) (deny_edit on mask ot ts l) = on.
Proof.
  intros Hm Hot Hts. unfold deny_edit. rewrite existsb_app, existsb_filter_negb. destruct on; [|done].
  by rewrite written_denied, bool_decide_eq_false_2.
Qed.

(** What the descriptor says after an edit that had something to change. *)
Lemma SetDenied_write sd on mask ot ts p l :
  0 < mask < 2 ^ 32 -> len ot = 16 -> ts <> [] -> entries sd = Ret (p, l) ->
  on <> existsb (holds (deniedToAny mask ot ts)) l -> acl_size (deny_edit on mask ot ts l) < 65536 ->
  exists out p', SetDeniedObjectRight sd on mask ot ts = Ret (out, true) /\
    entries out = Ret (p', deny_edit on mask ot ts l) /\ same_but_dacl p p' /\
    HasDeniedObjectRight out mask ot ts = Ret on.
Proof.
  intros Hm Hot Hts Hs Hne Hsize. destruct (entries_wf _ _ _ Hs) as (Hp & Hl & _).
  destruct (SetDenied_entries _ on mask ot ts _ _ Hs) as [r HS]. cbv zeta in HS.
  pose proof (len_filter_existsb (holds (deniedToAny mask ot ts)) l) as Hlen.
  rewrite decide_False in HS.
  2: { rewrite <- Hlen in Hne. intros [(-> & _ & Hpos)|(-> & Hzero)];
       [apply Hne; symmetry; by apply Z.ltb_lt|rewrite Hzero in Hne; by apply Hne]. }
  destruct (entries_edit p r (deny_edit on mask ot ts l)) as (p' & Hout & Hsame);
    [done|by apply deny_edit_wf|done|].
  eexists _, p'. split_and!; [exact HS|exact Hout|done|].
  by rewrite (HasDenied_entries _ _ _ _ _ _ Hout), deny_edit_state.
Qed.

(** C7: [SetDeniedObjectRight] refines an edit of the entry list.  It never
    panics; when it reports a change, the result holds one deny entry per
    trustee (or none when removing) in front of every entry that did not deny
    the right, unchanged and in order; the right is then denied exactly as
    asked, and a second call changes nothing. *)
Theorem SetDeniedObjectRight_refines (sd : bytes) (on : bool) (mask : Z) (ot : bytes)
    (ts : list bytes) (p : parsed) (l : list bytes) :
  0 < mask < 2 ^ 32 -> len ot = 16 -> ts <> [] -> entries sd = Ret (p, l) ->
  let denied := holds (deniedToAny mask ot ts) in
  let edited := (if on then map (deniedObjectACE mask ot) ts else [])
                ++ List.filter (fun a => negb (denied a)) l in
  HasDeniedObjectRight sd mask ot ts = Ret (existsb denied l) /\
  exists out changed, SetDeniedObjectRight sd on mask ot ts = Ret (out, changed) /\
    (changed = false -> out = sd /\ HasDeniedObjectRight out mask ot ts = Ret on) /\
    (changed = true -> acl_size edited < 65536 ->
       exists p', entries out = Ret (p', edited) /\ same_but_dacl p p' /\
         HasDeniedObjectRight out mask ot ts = Ret on /\
         SetDeniedObjectRight out on mask ot ts = Ret (out, false)).
Proof.
  intros Hm Hot Hts Hs denied edited. destruct (entries_wf _ _ _ Hs) as (Hp & Hl & _).
  split; [by apply (HasDenied_entries _ p)|].
  destruct (SetDenied_entries _ on mask ot ts _ _ Hs) as [r HS].
  cbv zeta in HS. fold denied edited in HS. rewrite HS. clear HS.
  case_decide as Hd; eexists _, _; (split; [reflexivity|]); split; try done.
  - intros _. split; [done|]. rewrite (HasDenied_entries _ _ _ _ _ _ Hs). fold denied.
    rewrite <- len_filter_existsb. f_equal. destruct on; destruct Hd as [[]|[]]; lia.
  - intros _ Hsize.
    destruct (entries_edit p r edited) as (p' & Hout & Hsame); [done|by apply deny_edit_wf|done|].
    set (out := serialize _) in *. exists p'.
    split_and!; try done.
    + rewrite (HasDenied_entries _ _ _ _ _ _ Hout). f_equal. by apply deny_edit_state.
    + destruct (SetDenied_entries _ on mask ot ts _ _ Hout) as [r' ->].
      fold denied. subst edited. rewrite List.filter_app, filter_filter_negb, app_nil_r.
      rewrite decide_True; [done|]. destruct on; [left|by right]. split; [done|].
      unfold denied. rewrite written_all by done. unfold len. rewrite length_map.
      destruct ts; [done|]. cbn [length]. lia.
Qed.

Lemma SetDeniedObjectRight_refines_witness :
  exists out changed, SetDeniedObjectRight sample_sd true RightControlAccess (replicate 16 xab)
      [SIDEveryone; SIDSelf] = Ret (out, changed) /\ changed = true /\
    exists p', entries out = Ret (p', [deniedObjectACE RightControlAccess (replicate 16 xab) SIDEveryone;
                                       deniedObjectACE RightControlAccess (replicate 16 xab) SIDSelf;
                                       sample_allow; sample_callback]) /\
      same_but_dacl sample_parsed p'.
Proof.
  destruct (SetDeniedObjectRight_refines sample_sd true RightControlAccess (replicate 16 xab)
    [SIDEveryone; SIDSelf] sample_parsed [sample_allow; sample_callback]
    ltac:(done) eq_refl ltac:(done) eq_refl) as [_ (out & changed & Hrun & _ & Hyes)].
  exists out, changed. split; [exact Hrun|].
  assert (changed = true) as Hc by (apply Ret_inj in Hrun; inversion Hrun; reflexivity).
  split; [exact Hc|]. destruct (Hyes Hc eq_refl) as (p' & ? & ? & _). by exists p'.
Defined.

(** ** What the tests do not distinguish *)

(** A deny of DELETE alone counts as the protection entry. *)
Lemma delete_only_counts_as_protection :
  isProtectionACE ([x01; x00] ++ le_encode 2 20 ++ le_encode 4 rightDelete ++ everyone)
  = Ret true.
Proof. reflexivity. Qed.

(** An object deny entry without an object type is not seen as a denial of a
    right that has one. *)
Lemma untyped_deny_not_seen :
  deniedObject ([x06; x00] ++ le_encode 2 24 ++ le_encode 4 RightControlAccess
                ++ le_encode 4 0 ++ everyone)
    RightControlAccess (replicate 16 xab) everyone = Ret false.
Proof. reflexivity. Qed.

(** Two denials for one trustee stand in for one denial for each of two. *)
Lemma duplicate_denials_mask_missing_one :
  let ot := replicate 16 xab in
  let dup := deniedObjectACE RightControlAccess ot SIDEveryone in
  let sd := serialize (mkParsed 1 0 0x8004 SIDSelf SIDSelf [] (buildACL 4 [dup; dup])) in
  SetDeniedObjectRight sd true RightControlAccess ot [SIDEveryone; SIDSelf] = Ret (sd, false) /\
  HasDeniedObjectRight sd RightControlAccess ot [SIDSelf] = Ret false.
Proof. split; reflexivity. Qed.

(** Past 64 KiB the size field wraps and the ACL no longer measures itself. *)
Lemma buildACL_overflow revision l :
  65536 <= acl_size l -> ~ exact aclLen (buildACL revision l).
Proof.
  intros Hl He. apply measure_bound in He. rewrite len_buildACL in He. lia.
Qed.
