(* ===== verification/Ace.v ===== *)
(** * internal/secdesc: decoded ACEs, access rights and principal descriptors

    [ace.go] (decode, encode, add and remove access control entries),
    [rights.go] (access masks as ActiveDirectoryRights names) and
    [principals.go] (the descriptors that list principals). *)
From S2P Require Export SecDesc.

(** ** ace.go *)

Definition aceTypeAccessAllowed : Z := 0x00.
Definition aceTypeAllowedObject : Z := 0x05.
Definition AceFlagContainerInherit : Z := 0x02.
Definition AceFlagNoPropagate : Z := 0x04.
Definition AceFlagInheritOnly : Z := 0x08.
Definition AceFlagInherited : Z := 0x10.

Record DecodedACE := mkDecodedACE {
  d_TrusteeSID : bytes;
  d_Deny : bool;
  d_Mask : Z;
  d_ObjectType : bytes;
  d_InheritedObjectType : bytes;
  d_Flags : Z;
  d_Inherited : bool
}.

#[export] Instance DecodedACE_eq_dec : EqDecision DecodedACE.
Proof. solve_decision. Defined.

(** The two GUID blocks: the next 16 bytes when the bit is set. *)
Definition decode_guid (ace : bytes) (objFlags bit off : Z) (what : gostring)
    : outcome (bytes * Z) :=
  if has_bits objFlags bit then
    if decide (len ace < off + 16) then Fail (ErrNew what)
    else g ← slice ace off (off + 16); Ret (g, off + 16)
  else Ret ([], off).

(** [None] stands for [ok == false]: a type the package does not model. *)
Definition decodeACE (ace : bytes) : outcome (option DecodedACE) :=
  if decide (len ace < aceHeaderLen + 4)
  then Fail (ErrNew "secdesc: ACE shorter than its header"%go)
  else
    t ← index ace 0;
    let kind :=
      if t =? aceTypeAccessAllowed then Some (false, false)
      else if t =? aceTypeAccessDenied then Some (true, false)
      else if t =? aceTypeAllowedObject then Some (false, true)
      else if t =? aceTypeDeniedObject then Some (true, true)
      else None in
    match kind with
    | None => Ret None
    | Some (deny, object) =>
        flags ← index ace 1;
        mask ← le_uint ace 4 8;
        '(ot, iot, off) ←
          (if object : bool then
             if decide (len ace < 8 + 4)
             then Fail (ErrNew "secdesc: object ACE has no flags word"%go)
             else
               objFlags ← le_uint ace 8 12;
               '(ot, off) ← decode_guid ace objFlags aceObjectTypePresent 12
                  "secdesc: object ACE truncated before its object type"%go;
               '(iot, off) ← decode_guid ace objFlags aceInheritedObjectTypePresent off
                  "secdesc: object ACE truncated before its inherited object type"%go;
               Ret (ot, iot, off)
           else Ret ([], [], 8));
        sid ← slice_from ace off;
        n ← sidLen sid;
        if decide (len sid < n)
        then Fail (ErrNew "secdesc: ACE trustee SID truncated"%go)
        else
          trustee ← slice sid 0 n;
          Ret (Some (mkDecodedACE trustee deny mask ot iot flags
                       (has_bits flags AceFlagInherited)))
    end.

(** The loop of [DecodeACEs]. *)
Fixpoint decode_list (l : list bytes) : outcome (list DecodedACE) :=
  match l with
  | [] => Ret []
  | ace :: l =>
      d ← decodeACE ace;
      ds ← decode_list l;
      Ret (match d with Some d => d :: ds | None => ds end)
  end.

Definition DecodeACEs (sd : bytes) : outcome (list DecodedACE) :=
  match sd with
  | [] => Ret []
  | _ =>
      p ← parse sd;
      match p_dacl p with
      | [] => Ret []
      | _ => list ← aces (p_dacl p); decode_list list
      end
  end.

(** [adcore.Inheritance], a string type with three named constants. *)
Inductive Inheritance :=
  | InheritanceThis
  | InheritanceChildren
  | InheritanceDescendants
  | InheritanceOther (s : gostring).

Definition InheritanceOf (flags : Z) : Inheritance :=
  if decide (Z.land flags AceFlagContainerInherit = 0) then InheritanceThis
  else if decide (Z.land flags AceFlagNoPropagate <> 0) then InheritanceChildren
  else InheritanceDescendants.

Definition FlagsFor (inh : Inheritance) : Z :=
  match inh with
  | InheritanceDescendants => Z.lor AceFlagContainerInherit AceFlagInheritOnly
  | InheritanceChildren =>
      Z.lor (Z.lor AceFlagContainerInherit AceFlagNoPropagate) AceFlagInheritOnly
  | _ => 0
  end.

Definition EncodeACE (a : DecodedACE) : bytes :=
  let has_ot := len (d_ObjectType a) =? 16 in
  let has_iot := len (d_InheritedObjectType a) =? 16 in
  let object := has_ot || has_iot in
  let t := if object && d_Deny a then aceTypeDeniedObject
           else if object then aceTypeAllowedObject
           else if d_Deny a then aceTypeAccessDenied
           else aceTypeAccessAllowed in
  let body := le_encode 4 (d_Mask a) in
  let body :=
    if object then
      let objFlags := Z.lor (if has_ot then aceObjectTypePresent else 0)
                            (if has_iot then aceInheritedObjectTypePresent else 0) in
      body ++ le_encode 4 objFlags
           ++ (if has_ot then d_ObjectType a else [])
           ++ (if has_iot then d_InheritedObjectType a else [])
    else body in
  let body := body ++ d_TrusteeSID a in
  let size := aceHeaderLen + len body in
  [Zb t; Zb (d_Flags a)] ++ le_encode 2 (uint16 size) ++ body.

Fixpoint aclRevisionFor (l : list bytes) : outcome Z :=
  match l with
  | [] => Ret 2
  | ace :: l =>
      t ← index ace 0;
      if (t =? aceTypeAllowedObject) || (t =? aceTypeDeniedObject)
      then Ret aclRevisionDS else aclRevisionFor l
  end.

Definition AddACEs (sd : bytes) (add : list DecodedACE) : outcome (bytes * bool) :=
  match add with
  | [] => Ret (sd, false)
  | _ =>
      p ← parse sd;
      list ← aces (p_dacl p);
      let list := list ++ map EncodeACE add in
      revision ← aclRevisionFor list;
      Ret (serialize (with_dacl p (buildACL revision list)), true)
  end.

(** Is [ace] one that [RemoveACEs] drops? *)
Definition removable (match_ : DecodedACE -> bool) (ace : bytes) : outcome bool :=
  d ← decodeACE ace;
  Ret (match d with Some d => negb (d_Inherited d) && match_ d | None => false end).

Definition RemoveACEs (sd : bytes) (match_ : DecodedACE -> bool) : outcome (bytes * bool) :=
  p ← parse sd;
  list ← aces (p_dacl p);
  '(kept, removed) ← sift (removable match_) list;
  if decide (removed = 0) then Ret (sd, false)
  else
    revision ← aclRevisionFor kept;
    Ret (serialize (with_dacl p (buildACL revision kept)), true).

(** ** rights.go *)

Definition rightGenericExecute : Z := 0x00020004.
Definition rightGenericWrite : Z := 0x00020028.
Definition rightGenericRead : Z := 0x00020094.
Definition rightGenericAll : Z := 0x000F01FF.
Definition rightCreateChild : Z := 0x00000001.
Definition rightDeleteChild : Z := 0x00000002.
Definition rightListChildren : Z := 0x00000004.
Definition rightSelf : Z := 0x00000008.
Definition rightReadProperty : Z := 0x00000010.
Definition rightWriteProperty : Z := 0x00000020.
Definition rightListObject : Z := 0x00000080.
Definition rightReadControl : Z := 0x00020000.
Definition rightWriteDacl : Z := 0x00040000.
Definition rightWriteOwner : Z := 0x00080000.
Definition rightSynchronize : Z := 0x00100000.
Definition rightAccessSystemSecurity : Z := 0x01000000.

Definition rightsTable : list (Z * gostring) :=
  [(rightCreateChild, "CreateChild"%go);
   (rightDeleteChild, "DeleteChild"%go);
   (rightListChildren, "ListChildren"%go);
   (rightSelf, "Self"%go);
   (rightReadProperty, "ReadProperty"%go);
   (rightWriteProperty, "WriteProperty"%go);
   (rightDeleteTree, "DeleteTree"%go);
   (rightListObject, "ListObject"%go);
   (RightControlAccess, "ExtendedRight"%go);
   (rightDelete, "Delete"%go);
   (rightReadControl, "ReadControl"%go);
   (rightGenericExecute, "GenericExecute"%go);
   (rightGenericWrite, "GenericWrite"%go);
   (rightGenericRead, "GenericRead"%go);
   (rightWriteDacl, "WriteDacl"%go);
   (rightWriteOwner, "WriteOwner"%go);
   (rightGenericAll, "GenericAll"%go);
   (rightSynchronize, "Synchronize"%go);
   (rightAccessSystemSecurity, "AccessSystemSecurity"%go)].

Section rights.
Context `{Unicode}.

(** The inner loop of [RightsMask]: the first row with this name. *)
Definition right_bit (n : gostring) : option Z :=
  let key := ToLower (TrimSpace n) in
  find_map (fun r => if decide (ToLower (snd r) = key) then Some (fst r) else None) rightsTable.

Fixpoint rights_mask_from (mask : Z) (names : list gostring) : outcome Z :=
  match names with
  | [] => Ret mask
  | n :: names =>
      match right_bit n with
      | Some bit => rights_mask_from (Z.lor mask bit) names
      | None => Fail (Errorf "secdesc: unknown access right %q"%go [FStr n] None)
      end
  end.

Definition RightsMask (names : list gostring) : outcome Z := rights_mask_from 0 names.
End rights.

(** The descending loop over the table: what is left of the mask, and which
    rows were taken, in ascending order. *)
Definition take_rights (rows : list (Z * gostring)) (mask : Z) : Z * list (bool * gostring) :=
  fold_right (fun r '(remaining, taken) =>
      let bit := fst r in
      if negb (bit =? 0) && (Z.land remaining bit =? bit)
      then (and_not remaining bit, (true, snd r) :: taken)
      else (remaining, (false, snd r) :: taken))
    (mask, []) rows.

Definition RightsNames (mask : Z) : list gostring :=
  map snd (List.filter fst (snd (take_rights rightsTable mask))).

(** ** principals.go *)

Definition ridDomainAdmins : Z := 512.
Definition rightsFullControl : Z := 0x000F01FF.

Definition domainAdminsSID (domainSID : bytes) : outcome bytes :=
  n ← sidLen domainSID;
  if decide (n <> len domainSID)
  then Fail (Errorf "secdesc: domain SID is %d bytes but declares %d"%go
               [FInt (len domainSID); FInt n] None)
  else
    count ← index domainSID 1;
    if decide (15 <= count)
    then Fail (Errorf "secdesc: domain SID already has %d sub-authorities"%go [FInt count] None)
    else Ret (<[1%nat := Zb (count + 1)]> domainSID ++ le_encode 4 ridDomainAdmins).

Definition allowFullACE (trustee : bytes) : bytes :=
  let size := aceHeaderLen + 4 + len trustee in
  [Zb aceTypeAccessAllowed; x00] ++ le_encode 2 (uint16 size) ++ le_encode 4 rightsFullControl
  ++ trustee.

(** One iteration of the loop of [BuildPrincipalSD]. *)
Definition principal_ace (sid : bytes) : outcome bytes :=
  n ← sidLen sid;
  if decide (n <> len sid)
  then Fail (Errorf "secdesc: principal SID is %d bytes but declares %d"%go
               [FInt (len sid); FInt n] None)
  else Ret (allowFullACE sid).

Definition BuildPrincipalSD (domainSID : bytes) (principalSIDs : list bytes) : outcome bytes :=
  admins ← domainAdminsSID domainSID;
  list ← mapM_out principal_ace principalSIDs;
  let dacl := buildACL 2 list in
  Ret (serialize (mkParsed 1 0 (Z.lor controlDACLPresent controlSelfRel)
                    admins admins [] dacl)).

(** One iteration of the loop of [PrincipalSIDs]; [None] is [continue]. *)
Definition principal_of (ace : bytes) : outcome (option bytes) :=
  if decide (len ace < aceHeaderLen + 4) then Ret None
  else
    t ← index ace 0;
    if decide (t <> aceTypeAccessAllowed) then Ret None
    else
      sid ← slice_from ace (aceHeaderLen + 4);
      let malformed := Errorf "secdesc: malformed trustee SID in principal descriptor"%go [] None in
      n ← wrap_err (fun _ => malformed) (sidLen sid);
      if decide (len sid < n) then Fail malformed
      else s ← slice sid 0 n; Ret (Some s).

Fixpoint principal_list (l : list bytes) : outcome (list bytes) :=
  match l with
  | [] => Ret []
  | ace :: l =>
      d ← principal_of ace;
      ds ← principal_list l;
      Ret (match d with Some d => d :: ds | None => ds end)
  end.

Definition PrincipalSIDs (sd : bytes) : outcome (list bytes) :=
  match sd with
  | [] => Ret []
  | _ =>
      p ← parse sd;
      match p_dacl p with
      | [] => Ret []
      | _ => list ← aces (p_dacl p); principal_list list
      end
  end.

(** ** Lemmas: decoding and encoding *)

Record wf_decoded (a : DecodedACE) : Prop := {
  wf_mask : 0 <= d_Mask a < 2 ^ 32;
  wf_flags : 0 <= d_Flags a < 256;
  wf_inherited : d_Inherited a = has_bits (d_Flags a) AceFlagInherited;
  wf_ot : d_ObjectType a = [] \/ len (d_ObjectType a) = 16;
  wf_iot : d_InheritedObjectType a = [] \/ len (d_InheritedObjectType a) = 16;
  wf_trustee : exact sidLen (d_TrusteeSID a)
}.

Lemma decode_guid_returns ace f b off w : 0 <= off -> returns (decode_guid ace f b off w).
Proof.
  intros. unfold decode_guid. case_match; [|done]. case_decide; [done|].
  apply returns_bind; [apply slice_returns; lia|done].
Qed.

Lemma decode_guid_Ret ace f b off w g off' :
  0 <= off <= len ace -> decode_guid ace f b off w = Ret (g, off') ->
  0 <= off' <= len ace /\ (g = [] \/ len g = 16).
Proof.
  intros Hoff. unfold decode_guid. case_match.
  - case_decide; [done|]. intros (s & Hs & [= <- <-])%bind_Ret.
    apply slice_Ret_len in Hs. split; [lia|right; lia].
  - intros [= <- <-]. auto.
Qed.

Lemma decodeACE_returns ace : returns (decodeACE ace).
Proof.
  unfold decodeACE, aceHeaderLen. case_decide as Hl; [done|].
  apply returns_bind; [apply index_returns; lia|]. intros t _. cbv zeta.
  set (kind := if t =? aceTypeAccessAllowed then _ else _). clearbody kind.
  destruct kind as [[deny object]|]; [|done].
  apply returns_bind; [apply index_returns; lia|]. intros flags _.
  apply returns_bind; [apply le_uint_returns; lia|]. intros mask _.
  apply returns_bind.
  - destruct object; [|done]. case_decide; [done|].
    apply returns_bind; [apply le_uint_returns; lia|]. intros f _.
    apply returns_bind; [by apply decode_guid_returns|]. intros [ot off] Hg.
    apply decode_guid_Ret in Hg as [? _]; [|lia].
    apply returns_bind; [apply decode_guid_returns; lia|]. by intros [].
  - intros [[ot iot] off] Hoff.
    assert (0 <= off <= len ace) as Hr.
    { destruct object; [|injection Hoff as <- <- <-; lia]. revert Hoff. case_decide; [done|].
      intros (f & _ & ([o1 off1] & H1 & ([o2 off2] & H2 & [= <- <- <-])%bind_Ret)%bind_Ret)%bind_Ret.
      apply decode_guid_Ret in H1 as [? _]; [|lia].
      apply decode_guid_Ret in H2 as [? _]; lia. }
    clear Hoff.
    rewrite slice_from_drop by lia. cbn [mbind outcome_bind].
    apply returns_bind; [apply measure_returns|]. intros n [? _]%measure_bound.
    case_decide; [done|]. apply returns_bind; [apply slice_returns; lia|done].
Qed.

Lemma decodeACE_wf ace d : decodeACE ace = Ret (Some d) -> wf_decoded d.
Proof.
  unfold decodeACE, aceHeaderLen. case_decide as Hl; [done|].
  intros (t & _ & Hd)%bind_Ret. cbv zeta in Hd. revert Hd.
  set (kind := if t =? aceTypeAccessAllowed then _ else _). clearbody kind.
  destruct kind as [[deny object]|]; [|done]. intros Hd. inv_ret Hd.
  destruct a1 as [[ot iot] off]. inv_ret Hd. case_decide; [done|]. inv_ret Hd.
  apply Ret_inj in Hd. injection Hd as <-.
  apply index_range in Ha. apply le_uint_range in Ha0.
  constructor; cbn; try done.
  1-2: destruct object; [|injection Ha1 as <- <- <-; auto]; revert Ha1; case_decide; [done|];
    intros (f & _ & ([o1 off1] & H1 & ([o2 off2] & H2 & [= <- <- <-])%bind_Ret)%bind_Ret)%bind_Ret;
    apply decode_guid_Ret in H1 as [? ?]; [|lia];
    apply decode_guid_Ret in H2 as [? ?]; [done|lia].
  apply slice_Ret in Ha4 as (_ & _ & _ & ->). rewrite Z.sub_0_r, drop_0.
  by apply measure_take.
Qed.

(** The parts of an encoded entry. *)
Definition has16 (g : bytes) : bool := len g =? 16.
Definition is_object (a : DecodedACE) : bool :=
  has16 (d_ObjectType a) || has16 (d_InheritedObjectType a).
Definition object_flags (a : DecodedACE) : Z :=
  Z.lor (if has16 (d_ObjectType a) then aceObjectTypePresent else 0)
        (if has16 (d_InheritedObjectType a) then aceInheritedObjectTypePresent else 0).
Definition ace_type (a : DecodedACE) : Z :=
  if is_object a && d_Deny a then aceTypeDeniedObject
  else if is_object a then aceTypeAllowedObject
  else if d_Deny a then aceTypeAccessDenied else aceTypeAccessAllowed.
Definition ace_guids (a : DecodedACE) : bytes :=
  if is_object a
  then le_encode 4 (object_flags a) ++ d_ObjectType a ++ d_InheritedObjectType a
  else [].

Lemma EncodeACE_layout a :
  wf_decoded a ->
  let body := le_encode 4 (d_Mask a) ++ ace_guids a ++ d_TrusteeSID a in
  EncodeACE a = [Zb (ace_type a); Zb (d_Flags a)] ++ le_encode 2 (uint16 (4 + len body)) ++ body.
Proof.
  intros [_ _ _ Hot Hiot _] body.
  assert (EncodeACE a = [Zb (ace_type a); Zb (d_Flags a)] ++
    le_encode 2 (uint16 (4 + len ((if is_object a then le_encode 4 (d_Mask a) ++
      le_encode 4 (object_flags a) ++ (if has16 (d_ObjectType a) then d_ObjectType a else [])
      ++ (if has16 (d_InheritedObjectType a) then d_InheritedObjectType a else [])
      else le_encode 4 (d_Mask a)) ++ d_TrusteeSID a))) ++
    ((if is_object a then le_encode 4 (d_Mask a) ++
      le_encode 4 (object_flags a) ++ (if has16 (d_ObjectType a) then d_ObjectType a else [])
      ++ (if has16 (d_InheritedObjectType a) then d_InheritedObjectType a else [])
      else le_encode 4 (d_Mask a)) ++ d_TrusteeSID a)) as -> by reflexivity.
  assert ((if is_object a then le_encode 4 (d_Mask a) ++
      le_encode 4 (object_flags a) ++ (if has16 (d_ObjectType a) then d_ObjectType a else [])
      ++ (if has16 (d_InheritedObjectType a) then d_InheritedObjectType a else [])
      else le_encode 4 (d_Mask a)) ++ d_TrusteeSID a = body) as ->; [|done].
  subst body. unfold ace_guids, has16.
  assert (forall g : bytes, g = [] \/ len g = 16 -> (if len g =? 16 then g else []) = g) as Hg.
  { intros g [->|E]; [done|]. by rewrite E. }
  rewrite !Hg by done. destruct (is_object a); [|done]. by rewrite <- !app_assoc.
Qed.

Lemma EncodeACE_wf a : wf_decoded a -> wf_ace (EncodeACE a).
Proof.
  intros Ha. rewrite EncodeACE_layout by done. pose proof Ha as [_ _ _ Hot Hiot Hs].
  apply measure_bound in Hs as [_ Hs]. apply wf_ace_build; [done|].
  unfold ace_guids. rewrite !len_app, len_le_encode.
  assert (len (d_TrusteeSID a) <= 1028).
  { destruct Ha as [_ _ _ _ _ He]. unfold exact, sidLen in He. case_decide; [done|].
    apply bind_Ret in He as (c & Hc%index_range & He). case_decide; [done|].
    apply Ret_inj in He. lia. }
  assert (forall g : bytes, g = [] \/ len g = 16 -> len g <= 16) as Hg.
  { intros g [->|E]; [done|lia]. }
  pose proof (Hg _ Hot). pose proof (Hg _ Hiot).
  case_match; [rewrite !len_app, len_le_encode|rewrite len_nil]; lia.
Qed.

(** Reading a GUID block back. *)
Lemma decode_guid_mid ace f b off w p g q :
  ace = p ++ g ++ q -> off = len p -> g = [] \/ len g = 16 -> has_bits f b = has16 g ->
  decode_guid ace f b off w = Ret (g, off + len g).
Proof.
  intros -> -> Hg Hf. unfold decode_guid. rewrite Hf. destruct Hg as [->|Hg].
  - change (has16 []) with false. rewrite len_nil, Z.add_0_r. done.
  - unfold has16. rewrite Hg. pose proof (len_nonneg q).
    rewrite decide_False by (rewrite !len_app; lia).
    rewrite (slice_mid _ _ _ p g q) by (done || by rewrite Hg). done.
Qed.

Lemma decode_kind a :
  let t := ace_type a in
  (if t =? aceTypeAccessAllowed then Some (false, false)
   else if t =? aceTypeAccessDenied then Some (true, false)
   else if t =? aceTypeAllowedObject then Some (false, true)
   else if t =? aceTypeDeniedObject then Some (true, true)
   else None) = Some (d_Deny a, is_object a).
Proof. unfold ace_type. by destruct (is_object a), (d_Deny a). Qed.

Lemma object_flags_bits a :
  0 <= object_flags a < 4 /\
  has_bits (object_flags a) aceObjectTypePresent = has16 (d_ObjectType a) /\
  has_bits (object_flags a) aceInheritedObjectTypePresent = has16 (d_InheritedObjectType a).
Proof.
  unfold object_flags.
  by destruct (has16 (d_ObjectType a)), (has16 (d_InheritedObjectType a)).
Qed.

(** The part of an object ACE after its mask. *)
Lemma decode_object_part a ace p :
  wf_decoded a -> len p = 8 -> ace = p ++ ace_guids a ++ d_TrusteeSID a ->
  (if is_object a then
     if decide (len ace < 8 + 4)
     then Fail (ErrNew "secdesc: object ACE has no flags word"%go)
     else
       objFlags ← le_uint ace 8 12;
       '(ot, off) ← decode_guid ace objFlags aceObjectTypePresent 12
          "secdesc: object ACE truncated before its object type"%go;
       '(iot, off) ← decode_guid ace objFlags aceInheritedObjectTypePresent off
          "secdesc: object ACE truncated before its inherited object type"%go;
       Ret (ot, iot, off)
   else Ret ([], [], 8))
  = Ret (d_ObjectType a, d_InheritedObjectType a, 8 + len (ace_guids a)).
Proof.
  intros [Hm Hf Hi Hot Hiot Hs] Hp Hace. pose proof (len_nonneg (d_TrusteeSID a)).
  assert (len ace = 8 + len (ace_guids a) + len (d_TrusteeSID a)) as Hlen by (rewrite Hace, !len_app; lia).
  unfold ace_guids in *. destruct (is_object a) eqn:Ho.
  - destruct (object_flags_bits a) as (Hof & Hb1 & Hb2).
    set (of_ := le_encode 4 (object_flags a)) in *.
    assert (len of_ = 4) as Hof4 by apply len_le_encode.
    rewrite !len_app, Hof4 in *.
    pose proof (len_nonneg (d_ObjectType a)). pose proof (len_nonneg (d_InheritedObjectType a)).
    rewrite decide_False by lia.
    rewrite (le_uint_mid ace 8 12 4 (object_flags a) p
      (d_ObjectType a ++ d_InheritedObjectType a ++ d_TrusteeSID a));
      [|by rewrite Hace, <- !app_assoc|by rewrite Hp|by rewrite Hp].
    cbn [mbind outcome_bind]. rewrite Z.mod_small by (simpl; lia).
    rewrite (decode_guid_mid ace _ _ _ _ (p ++ of_) (d_ObjectType a)
      (d_InheritedObjectType a ++ d_TrusteeSID a));
      [|by rewrite Hace, <- !app_assoc|by rewrite len_app, Hp, Hof4|done|done].
    cbn [mbind outcome_bind].
    rewrite (decode_guid_mid ace _ _ _ _ (p ++ of_ ++ d_ObjectType a)
      (d_InheritedObjectType a) (d_TrusteeSID a));
      [|by rewrite Hace, <- !app_assoc|rewrite !len_app, Hp, Hof4; lia|done|done].
    cbn [mbind outcome_bind]. do 2 f_equal. lia.
  - unfold is_object, has16 in Ho. apply orb_false_iff in Ho as [E1 E2].
    apply Z.eqb_neq in E1, E2. destruct Hot as [->|]; [|lia]. destruct Hiot as [->|]; [|lia].
    done.
Qed.

Lemma decode_encode a : wf_decoded a -> decodeACE (EncodeACE a) = Ret (Some a).
Proof.
  intros Ha. pose proof Ha as [Hm Hf Hi Hot Hiot Hs].
  rewrite EncodeACE_layout by done. cbv zeta.
  set (h := [Zb (ace_type a); Zb (d_Flags a)]). set (l := le_encode 2 _).
  assert (len l = 2) as Hl by apply len_le_encode.
  set (ace := h ++ l ++ le_encode 4 (d_Mask a) ++ ace_guids a ++ d_TrusteeSID a).
  assert (len ace = 8 + len (ace_guids a) + len (d_TrusteeSID a)) as Hlen.
  { subst ace. rewrite !len_app, len_le_encode, Hl. change (len h) with 2. lia. }
  pose proof (len_nonneg (ace_guids a)). pose proof (len_nonneg (d_TrusteeSID a)).
  unfold decodeACE, aceHeaderLen. rewrite decide_False by lia.
  rewrite (index_Ret ace 0 (ace_type a) [] (Zb (ace_type a))
    ([Zb (d_Flags a)] ++ l ++ le_encode 4 (d_Mask a) ++ ace_guids a ++ d_TrusteeSID a));
    [|done|done|].
  2: { unfold ace_type. by destruct (is_object a), (d_Deny a). }
  cbn [mbind outcome_bind]. cbv zeta. rewrite decode_kind.
  rewrite (index_Ret ace 1 (d_Flags a) [Zb (ace_type a)] (Zb (d_Flags a))
    (l ++ le_encode 4 (d_Mask a) ++ ace_guids a ++ d_TrusteeSID a));
    [|done|done|by rewrite bZ_Zb, Z.mod_small].
  rewrite (le_uint_mid ace 4 8 4 (d_Mask a) (h ++ l) (ace_guids a ++ d_TrusteeSID a));
    [|by subst ace; rewrite <- !app_assoc|by rewrite len_app, Hl|by rewrite len_app, Hl].
  cbn [mbind outcome_bind]. rewrite Z.mod_small by (simpl; lia).
  set (p := h ++ l ++ le_encode 4 (d_Mask a)).
  assert (len p = 8) as Hp by (subst p; by rewrite !len_app, Hl, len_le_encode).
  assert (ace = p ++ ace_guids a ++ d_TrusteeSID a) as Hace
    by (subst ace p; by rewrite <- !app_assoc).
  rewrite (decode_object_part a ace p) by done.
  cbn [mbind outcome_bind].
  rewrite Hace, app_assoc, slice_from_app by (rewrite len_app, Hp; lia).
  cbn [mbind outcome_bind]. rewrite Hs. cbn [mbind outcome_bind].
  rewrite decide_False by lia. rewrite slice_full. cbn [mbind outcome_bind].
  rewrite <- Hi. by destruct a.
Qed.

(** ** Lists of entries *)

Lemma decode_list_app l1 l2 ds1 ds2 :
  decode_list l1 = Ret ds1 -> decode_list l2 = Ret ds2 -> decode_list (l1 ++ l2) = Ret (ds1 ++ ds2).
Proof.
  revert ds1. induction l1 as [|a l IH]; cbn [decode_list app]; intros ds1.
  - by intros <-%Ret_inj.
  - intros (d & Hd & (ds & Hds & <-%Ret_inj)%bind_Ret)%bind_Ret H2.
    rewrite Hd. cbn [mbind outcome_bind]. rewrite (IH _ Hds H2). by destruct d.
Qed.

Lemma decode_list_encoded add :
  Forall wf_decoded add -> decode_list (map EncodeACE add) = Ret add.
Proof.
  induction 1 as [|a l Ha _ IH]; [done|]. cbn [map decode_list].
  rewrite decode_encode by done. cbn [mbind outcome_bind]. by rewrite IH.
Qed.

Lemma aclRevisionFor_Ret l : Forall wf_ace l -> exists r, aclRevisionFor l = Ret r.
Proof.
  induction 1 as [|a l [Ha _] _ [r IH]]; cbn [aclRevisionFor]; [by eexists|].
  destruct (index_Ret_ex a 0) as [t ->]; [lia|]. cbn [mbind outcome_bind].
  case_match; [by eexists|eauto].
Qed.

Lemma DecodeACEs_entries sd p l :
  entries sd = Ret (p, l) -> DecodeACEs sd = decode_list l.
Proof.
  unfold entries. intros Hs. inv_ret Hs. apply Ret_inj in Hs as [= -> ->].
  unfold DecodeACEs. destruct sd as [|c sd].
  { unfold parse in Ha. by case_decide. }
  rewrite Ha. cbn [mbind outcome_bind]. destruct (p_dacl p) as [|c' d] eqn:E.
  - cbn in Ha0. by injection Ha0 as <-.
  - by rewrite Ha0.
Qed.

(** The decoded entries [RemoveACEs] drops. *)
Definition candidate (match_ : DecodedACE -> bool) (d : DecodedACE) : bool :=
  negb (d_Inherited d) && match_ d.

Lemma sift_removable m l ds :
  decode_list l = Ret ds ->
  exists kept, sift (removable m) l = Ret (kept, len (List.filter (candidate m) ds)) /\
    decode_list kept = Ret (List.filter (fun d => negb (candidate m d)) ds) /\
    sublist kept l /\ Forall (fun a => decodeACE a = Ret None -> a ∈ kept) l.
Proof.
  revert ds. induction l as [|a l IH]; cbn [decode_list sift]; intros ds.
  - intros <-%Ret_inj. exists []. by repeat split.
  - intros (d & Hd & (ds' & Hds & <-%Ret_inj)%bind_Ret)%bind_Ret.
    destruct (IH _ Hds) as (kept & Hk & Hdk & Hsub & Hin). unfold removable.
    rewrite Hd. cbn [mbind outcome_bind].
    change (fun ace => d ← decodeACE ace; _) with (removable m). rewrite Hk.
    cbn [mbind outcome_bind].
    assert (Forall (fun a => decodeACE a = Ret None -> a ∈ a :: kept) l) as Hin' by
      (apply List.Forall_forall; intros; by left).
    assert (Forall (fun x => decodeACE x = Ret None -> x ∈ a :: kept) l) as Hin2.
    { eapply List.Forall_impl; [|exact Hin]. intros x Hx Hx'. right. by apply Hx. }
    destruct d as [d|].
    + cbn [List.filter]. fold (candidate m d). destruct (candidate m d); cbn [negb].
      * exists kept. split_and!; [|done|by apply sublist_cons|].
        -- rewrite len_cons. do 2 f_equal. lia.
        -- constructor; [congruence|done].
      * exists (a :: kept). split_and!; [done| |by apply sublist_skip|].
        -- cbn [decode_list]. rewrite Hd. cbn [mbind outcome_bind]. by rewrite Hdk.
        -- constructor; [by left|done].
    + exists (a :: kept). split_and!; [done| |by apply sublist_skip|].
      * cbn [decode_list]. rewrite Hd. cbn [mbind outcome_bind]. by rewrite Hdk.
      * constructor; [by left|done].
Qed.

Lemma sublist_wf k l : sublist k l -> Forall wf_ace l -> Forall wf_ace k.
Proof.
  induction 1 as [|a k l _ IH|a k l _ IH]; intros Hl; inversion Hl; subst; auto.
Qed.

Lemma sublist_acl_size k l : sublist k l -> acl_size k <= acl_size l.
Proof.
  induction 1 as [|a k l _ IH|a k l _ IH]; rewrite ?acl_size_cons; [done|lia|].
  pose proof (len_nonneg a). lia.
Qed.

(** Whatever the bytes, these functions return. *)
Lemma decode_list_returns l : returns (decode_list l).
Proof.
  induction l as [|a l IH]; [done|]. cbn [decode_list].
  apply returns_bind; [apply decodeACE_returns|]. intros d _. by apply returns_bind.
Qed.

Lemma DecodeACEs_returns sd : returns (DecodeACEs sd).
Proof.
  destruct (entries_cases sd) as [(p & l & Hs)|[e He]].
  - rewrite (DecodeACEs_entries _ _ _ Hs). apply decode_list_returns.
  - unfold DecodeACEs. destruct sd as [|c sd]; [done|]. pose proof (parse_returns (c :: sd)) as Hp.
    destruct (parse (c :: sd)) as [p| | | |] eqn:Ep; try done. cbn [mbind outcome_bind].
    destruct (p_dacl p) as [|c' d] eqn:Ed; [done|].
    apply returns_bind; [|intros; apply decode_list_returns]. rewrite <- Ed.
    apply aces_returns, wf_dacl. by apply parse_wf in Ep.
Qed.

Lemma aclRevisionFor_returns l : Forall (fun a => 0 < len a) l -> returns (aclRevisionFor l).
Proof.
  induction 1 as [|a l Ha _ IH]; [done|]. cbn [aclRevisionFor].
  apply returns_bind; [apply index_returns; lia|]. intros t _. by case_match.
Qed.

Lemma AddACEs_returns sd add : returns (AddACEs sd add).
Proof.
  unfold AddACEs. destruct add as [|a add]; [done|].
  destruct (entries_cases sd) as [(p & l & Hs)|[e He]]; [|by rewrite He].
  rewrite (with_entries _ _ _ _ Hs). cbv zeta. destruct (entries_wf _ _ _ Hs) as (_ & Hl & _).
  apply returns_bind; [|done]. apply aclRevisionFor_returns, Forall_app. split.
  - eapply List.Forall_impl; [|exact Hl]. intros b [? _]. lia.
  - apply List.Forall_map, Forall_true. intros d. unfold EncodeACE. cbv zeta.
    rewrite !len_app, len_cons. pose proof (@len_nonneg byte). len_lia.
Qed.

Lemma sift_returns {A} (f : A -> outcome bool) l :
  (forall a, returns (f a)) -> returns (sift f l).
Proof.
  intros Hf. induction l as [|a l IH]; [done|]. cbn [sift].
  apply returns_bind; [apply Hf|]. intros b _. apply returns_bind; [done|]. by intros [].
Qed.
Lemma sift_sublist {A} (f : A -> outcome bool) l kept n :
  sift f l = Ret (kept, n) -> sublist kept l.
Proof.
  revert kept n. induction l as [|a l IH]; cbn [sift]; intros kept n.
  - by intros [= <- <-].
  - intros (b & _ & ([k m] & Hk & Hr)%bind_Ret)%bind_Ret. apply IH in Hk.
    destruct b; injection Hr as <- <-; [by apply sublist_cons|by apply sublist_skip].
Qed.

Lemma RemoveACEs_returns sd m : returns (RemoveACEs sd m).
Proof.
  unfold RemoveACEs. destruct (entries_cases sd) as [(p & l & Hs)|[e He]]; [|by rewrite He].
  rewrite (with_entries _ _ _ _ Hs). destruct (entries_wf _ _ _ Hs) as (_ & Hl & _).
  apply returns_bind.
  - apply sift_returns. intros a. apply returns_bind; [apply decodeACE_returns|done].
  - intros [kept n] Hk%sift_sublist. case_decide; [done|]. apply returns_bind; [|done].
    apply aclRevisionFor_returns. pose proof (sublist_wf _ _ Hk Hl) as Hkw.
    eapply List.Forall_impl; [|exact Hkw]. intros b [? _]. lia.
Qed.

(** ** Properties: decoded entries *)

(** C26: [EncodeACE] and [decodeACE] are inverse: every entry a descriptor can
    hold in the four modelled types encodes to a well-formed ACE that decodes
    to it, decoding yields only such entries, and it never panics. *)
Theorem ace_roundtrip (ace : bytes) (a : DecodedACE) :
  returns (decodeACE ace) /\
  (wf_decoded a -> wf_ace (EncodeACE a) /\ decodeACE (EncodeACE a) = Ret (Some a)) /\
  (decodeACE ace = Ret (Some a) -> wf_decoded a).
Proof.
  split_and!; [apply decodeACE_returns| |apply decodeACE_wf].
  intros. split; [by apply EncodeACE_wf|by apply decode_encode].
Qed.

Definition sample_decoded : DecodedACE :=
  mkDecodedACE SIDSelf true 0x130 (replicate 16 x2a) (replicate 16 x2b) 0x0A false.

Lemma sample_decoded_wf : wf_decoded sample_decoded.
Proof. constructor; try (by right); done. Qed.

Lemma ace_roundtrip_witness : decodeACE (EncodeACE sample_decoded) = Ret (Some sample_decoded).
Proof.
  exact (proj2 (proj1 (proj2 (ace_roundtrip [] sample_decoded)) sample_decoded_wf)).
Defined.

Lemma AddACEs_entries (sd : bytes) (add ds : list DecodedACE) (p : parsed) (l : list bytes) :
  entries sd = Ret (p, l) -> DecodeACEs sd = Ret ds -> add <> [] -> Forall wf_decoded add ->
  acl_size (l ++ map EncodeACE add) < 65536 ->
  exists out p', AddACEs sd add = Ret (out, true) /\
    entries out = Ret (p', l ++ map EncodeACE add) /\ same_but_dacl p p' /\
    DecodeACEs out = Ret (ds ++ add).
Proof.
  intros Hs Hds Hne Hadd Hsize. destruct (entries_wf _ _ _ Hs) as (Hp & Hl & _).
  assert (Forall wf_ace (l ++ map EncodeACE add)) as Hall.
  { apply Forall_app. split; [done|]. apply List.Forall_map.
    eapply List.Forall_impl; [|exact Hadd]. apply EncodeACE_wf. }
  destruct (aclRevisionFor_Ret _ Hall) as [r Hr].
  destruct (entries_edit p r _ Hp Hall Hsize) as (p' & Hout & Hsame).
  eexists _, p'. split_and!; [|exact Hout|done|].
  - unfold AddACEs. destruct add; [done|]. rewrite (with_entries _ _ _ _ Hs). cbv zeta.
    by rewrite Hr.
  - rewrite (DecodeACEs_entries _ _ _ Hout). rewrite (DecodeACEs_entries _ _ _ Hs) in Hds.
    apply decode_list_app; [done|]. by apply decode_list_encoded.
Qed.

(** [AddACEs] appends: every entry already in the DACL, modelled or not,
    stays where it was byte for byte, the new entries follow in order, the
    other fields are kept, and reading the descriptor back gives the old
    decoded entries followed by the added ones. *)
Theorem AddACEs_refines (sd : bytes) (add ds : list DecodedACE) (p : parsed) (l : list bytes) :
  entries sd = Ret (p, l) -> DecodeACEs sd = Ret ds -> add <> [] -> Forall wf_decoded add ->
  acl_size (l ++ map EncodeACE add) < 65536 ->
  exists out p', AddACEs sd add = Ret (out, true) /\
    entries out = Ret (p', l ++ map EncodeACE add) /\ same_but_dacl p p' /\
    DecodeACEs out = Ret (ds ++ add).
Proof. apply AddACEs_entries. Qed.

Lemma AddACEs_refines_witness :
  exists out p', AddACEs sample_sd [sample_decoded] = Ret (out, true) /\
    entries out = Ret (p', [sample_allow; sample_callback] ++ [EncodeACE sample_decoded]) /\
    same_but_dacl sample_parsed p' /\
    DecodeACEs out = Ret ([mkDecodedACE SIDSelf false 983551 [] [] 0 false] ++ [sample_decoded]).
Proof.
  apply (AddACEs_refines sample_sd [sample_decoded] _ sample_parsed
           [sample_allow; sample_callback]); try reflexivity; [discriminate|].
  constructor; [exact sample_decoded_wf|constructor].
Defined.

Lemma RemoveACEs_entries (sd : bytes) (m : DecodedACE -> bool) (ds : list DecodedACE)
    (p : parsed) (l : list bytes) :
  entries sd = Ret (p, l) -> DecodeACEs sd = Ret ds ->
  let ds' := List.filter (fun d => negb (candidate m d)) ds in
  (existsb (candidate m) ds = false -> RemoveACEs sd m = Ret (sd, false)) /\
  (existsb (candidate m) ds = true ->
     exists out p' kept, RemoveACEs sd m = Ret (out, true) /\
       entries out = Ret (p', kept) /\ same_but_dacl p p' /\ sublist kept l /\
       Forall (fun a => decodeACE a = Ret None -> a ∈ kept) l /\
       DecodeACEs out = Ret ds' /\ RemoveACEs out m = Ret (out, false)).
Proof.
  intros Hs Hds ds'. destruct (entries_wf _ _ _ Hs) as (Hp & Hl & Hsize).
  rewrite (DecodeACEs_entries _ _ _ Hs) in Hds.
  destruct (sift_removable m _ _ Hds) as (kept & Hk & Hdk & Hsub & Hin). split.
  - intros Hno. unfold RemoveACEs. rewrite (with_entries _ _ _ _ Hs), Hk.
    cbn [mbind outcome_bind]. by rewrite (filter_none _ _ Hno), decide_True.
  - intros Hyes. assert (Forall wf_ace kept) as Hkwf by by eapply sublist_wf.
    pose proof (sublist_acl_size _ _ Hsub).
    destruct (aclRevisionFor_Ret _ Hkwf) as [r Hr].
    destruct (entries_edit p r _ Hp Hkwf ltac:(lia)) as (p' & Hout & Hsame).
    eexists _, p', kept. split_and!; [|exact Hout|done|done|done| |].
    + unfold RemoveACEs. rewrite (with_entries _ _ _ _ Hs), Hk. cbn [mbind outcome_bind].
      rewrite <- len_filter_existsb in Hyes. apply Z.ltb_lt in Hyes.
      rewrite decide_False by lia. by rewrite Hr.
    + by rewrite (DecodeACEs_entries _ _ _ Hout).
    + destruct (sift_removable m _ _ Hdk) as (kept' & Hk' & _).
      unfold RemoveACEs. rewrite (with_entries _ _ _ _ Hout), Hk'. cbn [mbind outcome_bind].
      by rewrite filter_filter_negb, decide_True.
Qed.

(** [RemoveACEs] drops exactly the explicit entries that match: it
    reports no change and returns its input when there is none; otherwise the
    descriptor reads back as the old decoded entries without them, the kept
    entries are the old bytes in the old order, every entry of an unmodelled
    type is kept, and a second call changes nothing. *)
Theorem RemoveACEs_refines (sd : bytes) (m : DecodedACE -> bool) (ds : list DecodedACE)
    (p : parsed) (l : list bytes) :
  entries sd = Ret (p, l) -> DecodeACEs sd = Ret ds ->
  let ds' := List.filter (fun d => negb (candidate m d)) ds in
  (existsb (candidate m) ds = false -> RemoveACEs sd m = Ret (sd, false)) /\
  (existsb (candidate m) ds = true ->
     exists out p' kept, RemoveACEs sd m = Ret (out, true) /\
       entries out = Ret (p', kept) /\ same_but_dacl p p' /\ sublist kept l /\
       Forall (fun a => decodeACE a = Ret None -> a ∈ kept) l /\
       DecodeACEs out = Ret ds' /\ RemoveACEs out m = Ret (out, false)).
Proof. apply RemoveACEs_entries. Qed.

Lemma RemoveACEs_refines_witness :
  RemoveACEs sample_sd (fun d => d_Deny d) = Ret (sample_sd, false) /\
  exists out p' kept, RemoveACEs sample_sd (fun d => negb (d_Deny d)) = Ret (out, true) /\
    entries out = Ret (p', kept) /\ kept = [sample_callback].
Proof.
  split.
  - apply (RemoveACEs_refines sample_sd (fun d => d_Deny d) _ sample_parsed
      [sample_allow; sample_callback] eq_refl eq_refl). reflexivity.
  - destruct (proj2 (RemoveACEs_refines sample_sd (fun d => negb (d_Deny d)) _ sample_parsed
      [sample_allow; sample_callback] eq_refl eq_refl) eq_refl)
      as (out & p' & kept & Hr & He & _).
    exists out, p', kept. split_and!; [done|done|].
    vm_compute in Hr. injection Hr as <-. vm_compute in He. injection He as _ <-.
    reflexivity.
Defined.

(** A DACL whose only object entry is of an unmodelled type (here a callback
    object ACE, 0x0B) is put back at revision 2, whatever it had. *)
Lemma callback_object_loses_revision :
  aclRevisionFor [[x0b; x00] ++ le_encode 2 8 ++ replicate 4 x00] = Ret 2.
Proof. reflexivity. Qed.

(** Every mask [RightsMask] builds is a 32-bit word. *)
Lemma right_bit_range `{Unicode} n b : right_bit n = Some b -> 0 <= b < 2 ^ 32.
Proof.
  unfold right_bit. generalize (ToLower (TrimSpace n)). intros key.
  assert (Forall (fun r => 0 <= fst r < 2 ^ 32) rightsTable) as Hall
    by (repeat constructor; vm_compute; intuition congruence).
  induction Hall as [|r l Hr _ IH]; [done|]. cbn [find_map]. case_decide; [|done]. by intros [= <-].
Qed.

Lemma lor_range x y : 0 <= x < 2 ^ 32 -> 0 <= y < 2 ^ 32 -> 0 <= Z.lor x y < 2 ^ 32.
Proof.
  intros [Hx0 Hx] [Hy0 Hy]. split; [by apply Z.lor_nonneg|].
  destruct (Z.eq_dec (Z.lor x y) 0) as [->|Hne]; [done|].
  assert (0 <= Z.lor x y) by by apply Z.lor_nonneg.
  apply Z.log2_lt_pow2; [lia|]. rewrite Z.log2_lor by done.
  apply Z.max_lub_lt.
  - destruct (Z.eq_dec x 0) as [->|]; [done|]. apply Z.log2_lt_pow2; lia.
  - destruct (Z.eq_dec y 0) as [->|]; [done|]. apply Z.log2_lt_pow2; lia.
Qed.

Lemma RightsMask_range `{Unicode} names m : RightsMask names = Ret m -> 0 <= m < 2 ^ 32.
Proof.
  unfold RightsMask. assert (forall acc, 0 <= acc < 2 ^ 32 -> rights_mask_from acc names = Ret m ->
    0 <= m < 2 ^ 32) as Hall; [|apply Hall; lia].
  induction names as [|n names IH]; intros acc Hacc; cbn [rights_mask_from]; [by intros [= <-]|].
  destruct (right_bit n) eqn:E; [|done]. apply IH, lor_range; [done|]. by eapply right_bit_range.
Qed.

Lemma RightsMask_returns `{Unicode} names : returns (RightsMask names).
Proof.
  unfold RightsMask. generalize 0. induction names as [|n names IH]; intros acc; [done|].
  cbn [rights_mask_from]. by destruct (right_bit n).
Qed.

(** ** Properties: rights *)

(** Every bit some name sets. *)
Definition all_rights : Z := fold_right (fun r acc => Z.lor (fst r) acc) 0 rightsTable.

Section rights_lemmas.
Context `{Unicode}.

Lemma rights_mask_from_app acc xs ys :
  rights_mask_from acc (xs ++ ys) = m ← rights_mask_from acc xs; rights_mask_from m ys.
Proof.
  revert acc. induction xs as [|x xs IH]; intros acc; [done|]. cbn [rights_mask_from app].
  destruct (right_bit x); [apply IH|done].
Qed.

Lemma rightsTable_names : Forall (fun r => right_bit (snd r) = Some (fst r)) rightsTable.
Proof. repeat constructor. Qed.

Lemma ldiff_keeps_out x b r : Z.land (and_not x b) r = r -> Z.land x r = r.
Proof.
  unfold and_not. intros E. apply Z.bits_inj'. intros i Hi.
  apply (f_equal (fun z => Z.testbit z i)) in E.
  rewrite !Z.land_spec, Z.ldiff_spec in *.
  by destruct (Z.testbit x i), (Z.testbit b i), (Z.testbit r i).
Qed.

Lemma take_rights_spec rows m :
  Forall (fun r => right_bit (snd r) = Some (fst r)) rows ->
  exists T,
    (forall acc, rights_mask_from acc (map snd (List.filter fst (snd (take_rights rows m))))
                 = Ret (Z.lor acc T)) /\
    Z.lor (fst (take_rights rows m)) T = m /\
    Z.ldiff T (fold_right (fun r acc => Z.lor (fst r) acc) 0 rows) = 0 /\
    Forall (fun r => fst r <> 0 -> Z.land (fst (take_rights rows m)) (fst r) <> fst r) rows.
Proof.
  induction 1 as [|[b n] rows Hn _ IH].
  - exists 0. split_and!; [by intros; rewrite Z.lor_0_r|by rewrite Z.lor_0_r|done|constructor].
  - destruct IH as (T & Hacc & Hor & Hsub & Hout).
    unfold take_rights in *. cbn [fold_right fst snd] in *.
    destruct (fold_right _ _ rows) as [rem taken]. cbn [fst snd] in *.
    destruct (negb (b =? 0) && (Z.land rem b =? b)) eqn:E; cbn [fst snd List.filter map].
    + apply andb_true_iff in E as [Hb%negb_true_iff%Z.eqb_neq Hrem%Z.eqb_eq].
      exists (Z.lor b T). split_and!.
      * intros acc. cbn [rights_mask_from]. rewrite Hn, Hacc. by rewrite Z.lor_assoc.
      * rewrite Z.lor_assoc, <- Hor. f_equal. unfold and_not. rewrite <- Hrem at 2.
        apply Z.bits_inj'. intros i Hi. rewrite Z.lor_spec, Z.ldiff_spec, Z.land_spec.
        apply (f_equal (fun z => Z.testbit z i)) in Hrem. rewrite Z.land_spec in Hrem.
        by destruct (Z.testbit rem i), (Z.testbit b i).
      * apply Z.bits_inj'. intros i Hi. apply (f_equal (fun z => Z.testbit z i)) in Hsub.
        rewrite ?Z.ldiff_spec, ?Z.lor_spec, ?Z.bits_0 in *.
        by destruct (Z.testbit b i), (Z.testbit T i), (Z.testbit (fold_right _ _ rows) i).
      * constructor.
        -- intros _. cbn [fst]. unfold and_not. intros E. apply Hb. rewrite <- E.
           apply Z.bits_inj'. intros i Hi. rewrite Z.land_spec, Z.ldiff_spec, Z.bits_0.
           by destruct (Z.testbit rem i), (Z.testbit b i).
        -- eapply List.Forall_impl; [|exact Hout]. intros r Hr Hr0 E.
           by apply (Hr Hr0), (ldiff_keeps_out _ b).
    + exists T. split_and!; [done|done| |].
      * apply Z.bits_inj'. intros i Hi. apply (f_equal (fun z => Z.testbit z i)) in Hsub.
        rewrite ?Z.ldiff_spec, ?Z.lor_spec, ?Z.bits_0 in *.
        by destruct (Z.testbit b i), (Z.testbit T i), (Z.testbit (fold_right _ _ rows) i).
      * constructor; [|done]. cbn [fst]. intros Hb Hl.
        rewrite (proj2 (Z.eqb_neq b 0)), Hl, Z.eqb_refl in E by done. done.
Qed.

(** The 15 single-bit rights make up every bit of the table. *)
Lemma no_right_left rem :
  Forall (fun r => fst r <> 0 -> Z.land rem (fst r) <> fst r) rightsTable ->
  Z.land rem all_rights = 0.
Proof.
  intros Hout.
  assert (forall i, 0 <= i -> 2 ^ i ∈ map fst rightsTable -> Z.testbit rem i = false) as Hbit.
  { intros i Hi Hin. apply list_elem_of_fmap in Hin as (r & Hr & Hin).
    rewrite List.Forall_forall in Hout. apply list_elem_of_In in Hin.
    specialize (Hout r Hin). rewrite <- Hr in Hout.
    destruct (Z.testbit rem i) eqn:E; [|done]. exfalso. apply Hout.
    - pose proof (Z.pow_pos_nonneg 2 i). lia.
    - apply Z.bits_inj'. intros j Hj. rewrite Z.land_spec.
      destruct (decide (i = j)) as [<-|].
      + by rewrite Z.pow2_bits_true, E.
      + rewrite Z.pow2_bits_false by done. apply andb_false_r. }
  apply Z.bits_inj'. intros i Hi. rewrite Z.land_spec, Z.bits_0.
  destruct (Z.testbit all_rights i) eqn:E; [|apply andb_false_r].
  rewrite Hbit; [done|done|].
  destruct (decide (i < 25)) as [Hlt|Hge].
  - assert (i ∈ seqZ 0 25) as Hin by (apply elem_of_seqZ; lia).
    revert E. revert Hin. clear. intros Hin%list_elem_of_In E. cbn in Hin.
    repeat destruct Hin as [<-|Hin]; try done; vm_compute in E; try done;
      apply (bool_decide_unpack _); vm_compute; done.
  - rewrite Z.bits_above_log2 in E; [done|done|]. change (Z.log2 all_rights) with 24. lia.
Qed.
End rights_lemmas.

(** Rendering a mask as right names and folding the names back gives
    exactly the bits of the mask that have a name, so the greedy rendering
    loses and invents nothing; an unknown name is always an error, never a
    smaller mask. *)
Theorem Rights_roundtrip `{Unicode} (mask : Z) (names : list gostring) :
  RightsMask (RightsNames mask) = Ret (Z.land mask all_rights) /\
  ((exists m, RightsMask names = Ret m) <-> Forall (fun n => right_bit n <> None) names).
Proof.
  split.
  - destruct (take_rights_spec rightsTable mask rightsTable_names) as (T & Hacc & Hor & Hsub & Hout).
    unfold RightsMask, RightsNames. rewrite Hacc, Z.lor_0_l. f_equal.
    apply no_right_left in Hout. set (rem := fst _) in *. fold all_rights in Hsub.
    rewrite <- Hor. apply Z.bits_inj'. intros i Hi.
    apply (f_equal (fun z => Z.testbit z i)) in Hsub, Hout.
    rewrite ?Z.ldiff_spec, ?Z.land_spec, ?Z.lor_spec, ?Z.bits_0 in *.
    by destruct (Z.testbit rem i), (Z.testbit T i), (Z.testbit all_rights i).
  - unfold RightsMask. generalize 0. induction names as [|n names IH]; intros acc.
    + split; [constructor|]. intros _. by eexists.
    + cbn [rights_mask_from]. destruct (right_bit n) as [b|] eqn:E.
      * rewrite IH. split; [intros; constructor; [congruence|done]|by inversion 1].
      * split; [by intros []|]. inversion 1; congruence.
Qed.

(** .NET's rendering of the composite masks. *)
Example RightsNames_composites :
  RightsNames rightGenericAll = ["GenericAll"%go] /\
  RightsNames rightGenericRead = ["GenericRead"%go] /\
  RightsNames 0x00020014 = ["ReadProperty"%go; "GenericExecute"%go].
Proof. repeat split. Qed.

(** The three inheritance forms survive their flag encoding. *)
Lemma InheritanceOf_FlagsFor inh :
  InheritanceOf (FlagsFor inh) =
  match inh with InheritanceOther _ => InheritanceThis | _ => inh end.
Proof. by destruct inh. Qed.

(** ** Properties: principal descriptors *)

Lemma exact_sid_bound s : exact sidLen s -> 8 <= len s <= 1028.
Proof.
  unfold exact, sidLen. case_decide; [done|]. intros (c & Hc%index_range & He)%bind_Ret.
  revert He. case_decide; [done|]. intros He%Ret_inj. lia.
Qed.

Lemma domainAdminsSID_exact d admins : domainAdminsSID d = Ret admins -> exact sidLen admins.
Proof.
  unfold domainAdminsSID. intros (n & Hn & Hd)%bind_Ret. revert Hd. case_decide; [done|].
  intros (c & Hc & Hd)%bind_Ret. revert Hd. case_decide; [done|]. intros <-%Ret_inj.
  assert (n = len d) as -> by lia. pose proof (index_range _ _ _ Hc).
  assert (exists b0 b1 d', d = b0 :: b1 :: d' /\ bZ b1 = c /\ 6 + 4 * c = len d') as
    (b0 & b1 & d' & -> & <- & Hlen).
  { unfold sidLen in Hn. destruct (decide (len d < 8)); [done|].
    destruct d as [|b0 [|b1 d']]; [done|by unfold len in *|].
    rewrite (index_Ret _ 1 (bZ b1) [b0] b1 d') in Hn, Hc by done. injection Hc as <-.
    cbn [mbind outcome_bind] in Hn. revert Hn. case_decide; [done|]. intros Hn%Ret_inj.
    exists b0, b1, d'. split_and!; [done|done|]. rewrite !len_cons in *. lia. }
  cbn [insert list_insert]. unfold exact, sidLen. pose proof (bZ_range b1).
  set (l := _ ++ _). assert (len l = 12 + 4 * bZ b1) as Hl.
  { subst l. rewrite len_app, !len_cons, len_le_encode. lia. }
  rewrite Hl, decide_False by lia.
  rewrite (index_Ret l 1 (bZ b1 + 1) [b0] (Zb (bZ b1 + 1)) (d' ++ le_encode 4 ridDomainAdmins));
    [|done|done|rewrite bZ_Zb, Z.mod_small; lia].
  cbn [mbind outcome_bind]. rewrite decide_False by lia. f_equal. lia.
Qed.

Lemma mapM_principal_ace sids :
  Forall (exact sidLen) sids -> mapM_out principal_ace sids = Ret (map allowFullACE sids).
Proof.
  intros H. apply mapM_out_map. eapply List.Forall_impl; [|exact H]. intros s Hs.
  unfold principal_ace. rewrite Hs. cbn [mbind outcome_bind]. by rewrite decide_False by lia.
Qed.

Lemma allowFullACE_wf s : exact sidLen s -> wf_ace (allowFullACE s).
Proof.
  intros Hs%exact_sid_bound. apply wf_ace_build; rewrite ?len_app, ?len_le_encode;
    unfold aceHeaderLen; lia.
Qed.

Lemma principal_of_allow s : exact sidLen s -> principal_of (allowFullACE s) = Ret (Some s).
Proof.
  intros Hs. pose proof (exact_sid_bound _ Hs). unfold principal_of.
  set (h := [Zb aceTypeAccessAllowed; x00] ++ le_encode 2 (uint16 (aceHeaderLen + 4 + len s))
             ++ le_encode 4 rightsFullControl).
  assert (allowFullACE s = h ++ s) as E by (unfold allowFullACE; by subst h; rewrite <- !app_assoc).
  assert (len h = 8) as Hh by done. rewrite E, len_app, Hh. unfold aceHeaderLen.
  rewrite decide_False by lia.
  rewrite (index_Ret (h ++ s) 0 0 [] x00 (drop 1 h ++ s)) by done.
  cbn [mbind outcome_bind]. rewrite decide_False by (intros []; done).
  rewrite slice_from_app by done. cbn [mbind outcome_bind].
  rewrite Hs. cbn [wrap_err mbind outcome_bind].
  rewrite decide_False by lia. by rewrite slice_full.
Qed.

Lemma principal_list_allow sids :
  Forall (exact sidLen) sids -> principal_list (map allowFullACE sids) = Ret sids.
Proof.
  induction 1 as [|s l Hs _ IH]; [done|]. cbn [map principal_list].
  rewrite principal_of_allow by done. cbn [mbind outcome_bind]. by rewrite IH.
Qed.

Lemma sidLen_returns b : returns (sidLen b).
Proof.
  unfold sidLen. case_decide; [done|]. apply returns_bind; [apply index_returns; lia|].
  intros c _. by case_decide.
Qed.

Lemma sidLen_bounds b n : sidLen b = Ret n -> 8 <= n <= len b.
Proof.
  unfold sidLen. case_decide; [done|]. intros (c & Hc%index_range & Hn)%bind_Ret. cbv zeta in Hn.
  revert Hn. case_decide; [done|]. intros <-%Ret_inj. lia.
Qed.

Lemma BuildPrincipalSD_returns d sids : returns (BuildPrincipalSD d sids).
Proof.
  unfold BuildPrincipalSD, domainAdminsSID. apply returns_bind.
  - apply returns_bind; [apply sidLen_returns|]. intros n Hn%sidLen_bounds. case_decide; [done|].
    apply returns_bind; [apply index_returns; lia|]. intros c _. by case_decide.
  - intros admins _. apply returns_bind; [|done]. apply mapM_out_returns, Forall_true. intros sid.
    unfold principal_ace. apply returns_bind; [apply sidLen_returns|]. intros n _. by case_decide.
Qed.

(** When it builds, the domain SID and every principal were well formed. *)
Lemma BuildPrincipalSD_Ret d sids sd :
  BuildPrincipalSD d sids = Ret sd ->
  (exists admins, domainAdminsSID d = Ret admins) /\ Forall (exact sidLen) sids.
Proof.
  unfold BuildPrincipalSD. intros (admins & Ha & (l & Hl & _)%bind_Ret)%bind_Ret.
  split; [by exists admins|]. apply mapM_out_Ret in Hl.
  induction Hl as [|s a sids l Hs _ IH]; constructor; [|done].
  unfold principal_ace in Hs. apply bind_Ret in Hs as (n & Hn & Hs). revert Hs.
  case_decide; [done|]. intros _. unfold exact. rewrite Hn. f_equal. lia.
Qed.

Lemma principal_of_returns ace : returns (principal_of ace).
Proof.
  unfold principal_of. case_decide as Hl; [done|]. unfold aceHeaderLen in *.
  apply returns_bind; [apply index_returns; lia|]. intros t _. case_decide; [done|].
  rewrite slice_from_drop by lia. cbn [mbind outcome_bind]. cbv zeta.
  apply returns_bind; [apply returns_wrap_err, sidLen_returns|]. intros n Hn%wrap_err_Ret%sidLen_bounds.
  case_decide; [done|]. by apply returns_bind; [apply slice_returns; lia|].
Qed.

Lemma PrincipalSIDs_returns sd : returns (PrincipalSIDs sd).
Proof.
  assert (forall l, returns (principal_list l)) as Hl.
  { induction l as [|a l IH]; [done|]. cbn [principal_list].
    apply returns_bind; [apply principal_of_returns|]. intros d _. by apply returns_bind. }
  unfold PrincipalSIDs. destruct sd as [|c sd]; [done|]. pose proof (parse_returns (c :: sd)) as Hp.
  destruct (parse (c :: sd)) as [p| | | |] eqn:Ep; try done. cbn [mbind outcome_bind].
  destruct (p_dacl p) as [|c' d] eqn:Ed; [done|].
  apply returns_bind; [|intros; apply Hl]. rewrite <- Ed.
  apply aces_returns, wf_dacl. by apply parse_wf in Ep.
Qed.

Lemma BuildPrincipalSD_reads (domain admins : bytes) (sids : list bytes) :
  domainAdminsSID domain = Ret admins ->
  acl_size (map allowFullACE sids) < 65536 ->
  (Forall (exact sidLen) sids ->
     exists sd p, BuildPrincipalSD domain sids = Ret sd /\ PrincipalSIDs sd = Ret sids /\
       entries sd = Ret (p, map allowFullACE sids) /\ p_owner p = admins /\
       has_bits (p_control p) controlDACLPresent = true /\ p_dacl p <> []) /\
  (~ Forall (exact sidLen) sids -> forall sd, BuildPrincipalSD domain sids <> Ret sd).
Proof.
  intros Hd Hsize. pose proof (domainAdminsSID_exact _ _ Hd) as Ha. split.
  - intros Hs. unfold BuildPrincipalSD. rewrite Hd. cbn [mbind outcome_bind].
    rewrite mapM_principal_ace by done. cbn [mbind outcome_bind].
    set (p := mkParsed _ _ _ _ _ _ _). exists (serialize p), p.
    assert (Forall wf_ace (map allowFullACE sids)) as Hwf.
    { apply List.Forall_map. eapply List.Forall_impl; [|exact Hs]. apply allowFullACE_wf. }
    assert (wf_parsed p) as Hp.
    { constructor; try done; try (right; done); [by left|right]. by apply buildACL_exact. }
    assert (entries (serialize p) = Ret (p, map allowFullACE sids)) as He.
    { unfold entries. rewrite parse_serialize by done. cbn [mbind outcome_bind p p_dacl].
      by rewrite aces_buildACL. }
    assert (p_dacl p <> []) as Hne by done.
    split_and!; try done. unfold PrincipalSIDs.
    destruct (serialize p) as [|c r] eqn:E; [done|]. rewrite <- E in *.
    unfold entries in He. rewrite parse_serialize in * by done. cbn [mbind outcome_bind] in *.
    destruct (p_dacl p) as [|c' d] eqn:Ed; [done|].
    rewrite <- Ed. change (p_dacl p) with (buildACL 2 (map allowFullACE sids)).
    rewrite aces_buildACL by done.
    cbn [mbind outcome_bind]. by apply principal_list_allow.
  - intros Hbad sd [_ Hs]%BuildPrincipalSD_Ret. by apply Hbad.
Qed.

(** The principal descriptor is an inverse pair: whenever
    [BuildPrincipalSD] accepts a domain SID and a list of principals that fits
    an ACL, the descriptor it builds parses, carries a present DACL (denying
    everyone when the list is empty), and [PrincipalSIDs] reads back exactly
    that list; a malformed principal SID is an error. *)
Theorem PrincipalSD_roundtrip (domain admins : bytes) (sids : list bytes) :
  domainAdminsSID domain = Ret admins ->
  acl_size (map allowFullACE sids) < 65536 ->
  (Forall (exact sidLen) sids ->
     exists sd p, BuildPrincipalSD domain sids = Ret sd /\ PrincipalSIDs sd = Ret sids /\
       entries sd = Ret (p, map allowFullACE sids) /\ p_owner p = admins /\
       has_bits (p_control p) controlDACLPresent = true /\ p_dacl p <> []) /\
  (~ Forall (exact sidLen) sids -> forall sd, BuildPrincipalSD domain sids <> Ret sd).
Proof. apply BuildPrincipalSD_reads. Qed.

Definition sample_domain_sid : bytes :=
  [x01; x01; x00; x00; x00; x00; x00; x05; x15; x00; x00; x00].

Lemma PrincipalSD_roundtrip_witness :
  exists sd p, BuildPrincipalSD sample_domain_sid [SIDSelf; everyone] = Ret sd /\
    PrincipalSIDs sd = Ret [SIDSelf; everyone] /\
    entries sd = Ret (p, map allowFullACE [SIDSelf; everyone]) /\
    p_owner p = [x01; x02; x00; x00; x00; x00; x00; x05; x15; x00; x00; x00; x00; x02; x00; x00] /\
    has_bits (p_control p) controlDACLPresent = true /\ p_dacl p <> [].
Proof.
  refine (proj1 (PrincipalSD_roundtrip sample_domain_sid _ [SIDSelf; everyone] eq_refl eq_refl) _).
  repeat constructor.
Defined.
