(* ===== verification/AdCore.v ===== *)
(** * github.com/nemethhh/go-adcore: the external package the client is built on

    The package is not part of this repository, so nothing of it is defined
    here: its functions are the fields of the class [AdCore], which every
    definition that calls one takes as an argument.  Its data types are
    records and enumerations with the fields and constants the source names.
    [sample_adcore] is one concrete instance, used where a theorem is applied
    to a concrete input. *)
From S2P Require Export Attrs Ace.

(** [adcore.SearchScope], a string type with named constants. *)
Inductive SearchScope :=
  | SearchScopeBase
  | SearchScopeOneLevel
  | SearchScopeSubtree
  | SearchScopeOther (s : gostring).

(** The fields of [adcore.Query] the source reads. *)
Record Query := mkQuery {
  q_Filter : gostring;
  q_SearchBase : gostring;
  q_Scope : SearchScope;
  q_SizeLimit : Z
}.

(** ** The specifications and models of the object classes

    The fields the source reads and writes.  A pointer to a string is an
    [option]; a slice that may be [nil] is an [option] of a list where the
    source distinguishes the two. *)
Record GroupSpec := mkGroupSpec {
  gs_Name : gostring;
  gs_SamAccountName : gostring;
  gs_Container : gostring;
  gs_Scope : GroupScope;
  gs_Category : GroupCategory;
  gs_Description : option gostring;
  gs_ManagedBy : option gostring
}.

Record Group := mkGroup {
  g_GUID : gostring;
  g_DN : gostring;
  g_Name : gostring;
  g_SamAccountName : gostring;
  g_Container : gostring;
  g_Scope : GroupScope;
  g_Category : GroupCategory;
  g_Description : gostring;
  g_ManagedBy : gostring;
  g_SID : gostring
}.

Record Member := mkMember {
  m_GUID : gostring;
  m_DN : gostring;
  m_Class : gostring;
  m_SID : gostring
}.

Record OUSpec := mkOUSpec {
  os_Name : gostring;
  os_Container : gostring;
  os_Description : option gostring;
  os_Protected : option bool
}.

Record OU := mkOU {
  o_GUID : gostring;
  o_DN : gostring;
  o_Name : gostring;
  o_Container : gostring;
  o_Description : gostring;
  o_Protected : bool
}.

Record DeleteOptions := mkDeleteOptions { do_Unprotect : bool }.

(** What [IsSet], [IsClear] and [Value] of an account expiration answer, and
    [IsZero] and [RevealSecret] of a secret. *)
Record Expiration := mkExpiration { exp_IsSet : bool; exp_IsClear : bool; exp_Value : Z }.
Record Secret := mkSecret { secret_IsZero : bool; secret_Reveal : gostring }.

Record UserSpec := mkUserSpec {
  us_Name : option gostring;
  us_SamAccountName : gostring;
  us_Container : gostring;
  us_UserPrincipalName : option gostring;
  us_DisplayName : option gostring;
  us_GivenName : option gostring;
  us_Surname : option gostring;
  us_Description : option gostring;
  us_Enabled : option bool;
  us_PasswordExpires : option bool;
  us_ChangePasswordAtLogon : option bool;
  us_CanChangePassword : option bool;
  us_AccountExpiration : Expiration;
  us_Password : option Secret
}.

Record User := mkUser {
  u_GUID : gostring;
  u_DN : gostring;
  u_Name : gostring;
  u_SamAccountName : gostring;
  u_UserPrincipalName : gostring;
  u_DisplayName : gostring;
  u_GivenName : gostring;
  u_Surname : gostring;
  u_Description : gostring;
  u_Container : gostring;
  u_Enabled : bool;
  u_PasswordExpires : bool;
  u_ChangePasswordAtLogon : bool;
  u_CanChangePassword : bool;
  u_AccountExpiration : option Z;
  u_SID : gostring
}.

(** Computers and group managed service accounts.  [Id] is the type of
    identities; [PrincipalsAllowed] distinguishes [nil] from an empty slice. *)
Record ComputerSpec {Id : Type} := mkComputerSpec {
  cs_Name : gostring;
  cs_SamAccountName : gostring;
  cs_Container : gostring;
  cs_DNSHostName : option gostring;
  cs_Description : option gostring;
  cs_DisplayName : option gostring;
  cs_Location : option gostring;
  cs_ManagedBy : option gostring;
  cs_Enabled : option bool;
  cs_TrustedForDelegation : option bool;
  cs_ServicePrincipalNames : option (list gostring);
  cs_AllowedToDelegateTo : option (list gostring);
  cs_KerberosEncryptionType : option (list gostring);
  cs_AccountExpiration : Expiration;
  cs_PrincipalsAllowed : option (list Id)
}.
Arguments ComputerSpec : clear implicits.

Record Computer := mkComputer {
  cm_GUID : gostring;
  cm_DN : gostring;
  cm_Name : gostring;
  cm_SamAccountName : gostring;
  cm_Container : gostring;
  cm_SID : gostring;
  cm_Enabled : bool;
  cm_DNSHostName : gostring;
  cm_Description : gostring;
  cm_DisplayName : gostring;
  cm_Location : gostring;
  cm_ManagedBy : gostring;
  cm_TrustedForDelegation : bool;
  cm_ServicePrincipalNames : list gostring;
  cm_AllowedToDelegateTo : list gostring;
  cm_KerberosEncryptionType : list gostring;
  cm_AccountExpiration : option Z;
  cm_OperatingSystem : gostring;
  cm_OperatingSystemVersion : gostring;
  cm_PrincipalsAllowed : list gostring
}.

Record GMSASpec {Id : Type} := mkGMSASpec {
  ms_Name : gostring;
  ms_SamAccountName : gostring;
  ms_Container : gostring;
  ms_DNSHostName : option gostring;
  ms_Description : option gostring;
  ms_DisplayName : option gostring;
  ms_Enabled : option bool;
  ms_TrustedForDelegation : option bool;
  ms_ServicePrincipalNames : option (list gostring);
  ms_KerberosEncryptionType : option (list gostring);
  ms_ManagedPasswordIntervalInDays : option Z;
  ms_AccountExpiration : Expiration;
  ms_PrincipalsAllowed : option (list Id)
}.
Arguments GMSASpec : clear implicits.

Record GMSA := mkGMSA {
  ma_GUID : gostring;
  ma_DN : gostring;
  ma_Name : gostring;
  ma_SamAccountName : gostring;
  ma_Container : gostring;
  ma_SID : gostring;
  ma_DNSHostName : gostring;
  ma_Description : gostring;
  ma_DisplayName : gostring;
  ma_Enabled : bool;
  ma_TrustedForDelegation : bool;
  ma_ServicePrincipalNames : list gostring;
  ma_KerberosEncryptionType : list gostring;
  ma_ManagedPasswordIntervalInDays : Z;
  ma_AccountExpiration : option Z;
  ma_PrincipalsAllowed : list gostring
}.

(** [adcore.ACEType]: the source compares with [ACEDeny] only. *)
Inductive ACEType := ACEAllow | ACEDeny | ACETypeOther (s : gostring).
#[export] Instance ACEType_eq_dec : EqDecision ACEType.
Proof. solve_decision. Defined.

Record ACE := mkACE {
  ace_Trustee : gostring;
  ace_Type : ACEType;
  ace_Rights : list gostring;
  ace_ObjectType : gostring;
  ace_InheritedObjectType : gostring;
  ace_Inheritance : Inheritance;
  ace_Inherited : bool
}.

(** [adcore.SchemaRef] and the constants of its kind, a string type. *)
Inductive RefKind := RefAttribute | RefClass | RefExtendedRight | RefOther (s : gostring).
#[export] Instance RefKind_eq_dec : EqDecision RefKind.
Proof. solve_decision. Defined.
Record SchemaRef := mkSchemaRef { ref_Kind : RefKind; ref_Name : gostring }.
#[export] Instance SchemaRef_eq_dec : EqDecision SchemaRef.
Proof. solve_decision. Defined.

Class AdCore := {
  (** [ClassifyCode code]: [None] is [known == false]. *)
  ClassifyCode : Z -> option Kind;
  (** [Kind.Retryable]. *)
  Retryable : Kind -> bool;
  (** [errors.Is(err, ErrNotFound)], which goes through [Error.Is]. *)
  isErrNotFound : error -> bool;
  (** RFC 4515 and RFC 4514 text. *)
  EscapeFilter : gostring -> gostring;
  FilterEqual : gostring -> gostring -> gostring;
  FilterAnd : gostring -> gostring -> gostring;
  EscapeValue : gostring -> gostring;
  ContainerOf : gostring -> gostring + error;
  EqualFoldDN : gostring -> gostring -> bool + error;
  (** Identities. *)
  Identity : Type;
  IdentityArg : Identity -> gostring;
  IdentityForm : Identity -> gostring;
  Identity_String : Identity -> gostring;
  ByDN : gostring -> Identity;
  ByGUID : gostring -> Identity;
  BySID : gostring -> Identity;
  WithIdentity : error -> gostring -> Identity -> error;
  Query_WithDefaults : Query -> gostring -> Query;
  (** Validation of names and containers: [None] is a [nil] error. *)
  ValidateName : gostring -> gostring -> option error;
  ValidateContainer : gostring -> gostring -> option error;
  GroupSpec_Validate : GroupSpec -> gostring -> bool -> option error;
  UserSpec_Validate : UserSpec -> gostring -> option error;
  ComputerSpec_Validate : ComputerSpec Identity -> gostring -> bool -> option error;
  GMSASpec_Validate : GMSASpec Identity -> gostring -> bool -> option error;
  (** [string(kind)] of a schema reference kind. *)
  RefKind_string : RefKind -> gostring;
  CanonicalACEKey : ACE -> gostring
}.

(** [&adcore.Error{Kind: ..., Op: ..., Err: ...}] and its longer forms. *)
Definition adErr (k : Kind) (op : gostring) (err : error) : error :=
  AdError (mkAdError k 0 op [] [] [] false (Some err)).
Definition adErr_id (k : Kind) (op id : gostring) (err : error) : error :=
  AdError (mkAdError k 0 op id [] [] false (Some err)).
Definition adErr_target (k : Kind) (op target : gostring) (err : error) : error :=
  AdError (mkAdError k 0 op [] target [] false (Some err)).
Definition adErr_full (k : Kind) (op id target : gostring) (err : error) : error :=
  AdError (mkAdError k 0 op id target [] false (Some err)).

(** [errors.As(err, &e) && e.Kind == k]. *)
Definition is_kind (k : Kind) (e : error) : bool :=
  match errors_As as_AdError e with
  | Some a => bool_decide (e_Kind a = k)
  | None => false
  end.

(** ** A concrete instance *)

Inductive sample_identity :=
  | SampleDN (s : gostring)
  | SampleGUID (s : gostring)
  | SampleSID (s : gostring)
  | SampleSAM (s : gostring).

Definition sample_arg (i : sample_identity) : gostring :=
  match i with SampleDN s | SampleGUID s | SampleSID s | SampleSAM s => s end.
Definition sample_form (i : sample_identity) : gostring :=
  match i with
  | SampleDN _ => "dn"%go
  | SampleGUID _ => "guid"%go
  | SampleSID _ => "sid"%go
  | SampleSAM _ => "sam"%go
  end.

Definition sample_adcore : AdCore := {|
  ClassifyCode c :=
    if c =? 0x208D then Some KindNotFound
    else if c =? 0x2077 then Some KindTransient
    else None;
  Retryable k := match k with KindTransient => true | _ => false end;
  isErrNotFound e := is_kind KindNotFound e;
  EscapeFilter s := s;
  FilterEqual a v := "("%go ++ a ++ "="%go ++ v ++ ")"%go;
  FilterAnd a b := "(&"%go ++ a ++ b ++ ")"%go;
  EscapeValue s := s;
  ContainerOf dn := match Cut dn ","%byte with (_, c, _) => inl c end;
  EqualFoldDN a b := inl (bool_decide (a = b));
  Identity := sample_identity;
  IdentityArg := sample_arg;
  IdentityForm := sample_form;
  Identity_String i := sample_form i ++ ":"%go ++ sample_arg i;
  ByDN := SampleDN;
  ByGUID := SampleGUID;
  BySID := SampleSID;
  WithIdentity e op i := e;
  Query_WithDefaults q dnc :=
    mkQuery (q_Filter q) (match q_SearchBase q with [] => dnc | b => b end) (q_Scope q)
      (if q_SizeLimit q =? 0 then 1000 else q_SizeLimit q);
  ValidateName op n := None;
  ValidateContainer op c := None;
  GroupSpec_Validate spec op create := None;
  UserSpec_Validate spec op := None;
  ComputerSpec_Validate spec op create := None;
  GMSASpec_Validate spec op create :=
    if create && bool_decide (ms_DNSHostName spec = None)
    then Some (ErrNew "dns_host_name is required"%go) else None;
  RefKind_string k :=
    match k with
    | RefAttribute => "attribute"%go
    | RefClass => "class"%go
    | RefExtendedRight => "extended_right"%go
    | RefOther s => s
    end;
  CanonicalACEKey a :=
    ace_Trustee a ++ match ace_Type a with ACEDeny => "-"%go | _ => "+"%go end
    ++ concat (ace_Rights a) ++ ace_ObjectType a ++ ace_InheritedObjectType a
|}.
