(* ===== verification/LdapErr.v ===== *)
(** * internal/ldaperr: classification of LDAP failures *)
From S2P Require Export AdCore.

Definition is_hex (c : byte) : bool :=
  let z := bZ c in
  ((48 <=? z) && (z <=? 57)) || ((97 <=? z) && (z <=? 102)) || ((65 <=? z) && (z <=? 70)).

(** [None] is [ok == false].  The length test in front of them keeps the index
    8 and the slice [:8] in range. *)
Definition ExtractWin32Code (diagnostic : gostring) : option Z :=
  if decide (len diagnostic < 9 \/ diagnostic !! 8%nat <> Some ":"%byte) then None
  else
    let head := take 8 diagnostic in
    if forallb is_hex head then
      match ParseUint head 16 64 with
      | Ret v => Some (int64 v)
      | _ => None
      end
    else None.

Definition byResultCode : list (Z * Kind) :=
  [(1, KindUnknown); (4, KindTooManyResults); (8, KindDenied); (10, KindReferral);
   (16, KindConstraint); (17, KindInvalidAttribute); (19, KindConstraint);
   (20, KindConstraint); (21, KindInvalidAttribute); (32, KindNotFound);
   (34, KindConstraint); (49, KindDenied); (50, KindDenied); (51, KindTransient);
   (52, KindTransient); (53, KindConstraint); (64, KindConstraint); (65, KindConstraint);
   (66, KindConstraint); (67, KindConstraint); (68, KindAlreadyExists)].

Definition result_kind (code : Z) : option Kind :=
  find_map (fun r => if fst r =? code then Some (snd r) else None) byResultCode.

Definition bindSubStatus : list (gostring * gostring) :=
  [("data 52e"%go, "the username or password is wrong"%go);
   ("data 532"%go, "the account's password has expired or must be changed"%go);
   ("data 773"%go, "the account's password has expired or must be changed"%go);
   ("data 775"%go, "the account is locked out"%go);
   ("data 530"%go, "the account is not permitted to log on at this time"%go);
   ("data 531"%go, "the account is not permitted to log on from this host"%go);
   ("data 533"%go, "the account is disabled"%go);
   ("data 701"%go, "the account has expired"%go)].

Definition explain (code : Z) (diag : gostring) : gostring :=
  if code =? 8 then
    "the domain controller requires channel binding for SASL binds (LdapEnforceChannelBinding). The NTLM bind cannot comply — the LDAP library sends no token for it — so use kerberos, which does, or simple over LDAPS. If kerberos produced this, the token was rejected rather than missing: something is terminating TLS between this client and the controller"%go
  else
    match find_map (fun s => if Contains diag (fst s) then Some (snd s) else None) bindSubStatus with
    | Some e => e
    | None => []
    end.

Definition annotate (e : adError error) (code : Z) (diag : gostring) : error :=
  match explain code diag with
  | [] => AdError e
  | explanation =>
      AdError (mkAdError (e_Kind e) (e_Code e) (e_Op e) (e_Identity e) (e_Target e)
                 (diag ++ " — "%go ++ explanation) (e_Tombstoned e) (e_Err e))
  end.

Section classify.
Context `{AdCore}.

(** The part of [Classify] after [raw] is found. *)
Definition classify_raw (op : gostring) (code : Z) (diag : gostring) (err : option error)
    : error :=
  let out k c := mkAdError k c op [] [] diag false err in
  let by_result c :=
    match result_kind code with
    | Some kind => annotate (out kind c) code diag
    | None => annotate (out KindUnknown c) code diag
    end in
  match ExtractWin32Code diag with
  | Some c =>
      match ClassifyCode c with
      | Some kind => annotate (out kind c) code diag
      | None => by_result c
      end
  | None => by_result 0
  end.

(** [Classify op err] for a non-[nil] error. *)
Definition Classify (op : gostring) (err : error) : error :=
  if errors_Is is_Canceled err || errors_Is is_DeadlineExceeded err
  then adErr KindTransport op err
  else
    match errors_As as_RawError err with
    | None => adErr KindTransport op err
    | Some (code, diag, w) => classify_raw op code diag w
    end.
End classify.

(** ** Lemmas *)

Lemma is_hex_digit_val c : is_hex c = true -> exists d, digit_val c = Some d /\ 0 <= d < 16.
Proof. destruct c; intros H; try discriminate H; eexists; (split; [reflexivity|split; by vm_compute]). Qed.

Lemma parse_hex_range max s n r :
  forallb is_hex s = true -> 0 <= n -> parse_digits 16 max s n = inl r ->
  0 <= r < (n + 1) * 16 ^ len s.
Proof.
  revert n. induction s as [|c s IH]; intros n Hs Hn.
  - cbn [parse_digits]. intros [= <-]. change (len (@nil byte)) with 0. lia.
  - cbn [forallb] in Hs. apply andb_true_iff in Hs as [Hc Hs].
    apply is_hex_digit_val in Hc as (d & Hd & Hr). cbn [parse_digits]. rewrite Hd.
    rewrite (proj2 (Z.ltb_lt d 16)) by lia. cbv zeta. case_match; [done|].
    intros Hp%IH; [|done|lia]. rewrite len_cons, Z.pow_add_r by (pose proof (len_nonneg s); lia).
    pose proof (Z.pow_pos_nonneg 16 (len s) ltac:(lia) (len_nonneg s)). nia.
Qed.

Lemma ExtractWin32Code_Some d c :
  ExtractWin32Code d = Some c ->
  0 <= c < 2 ^ 32 /\ exists tail, d = take 8 d ++ ":"%byte :: tail /\
                                 forallb is_hex (take 8 d) = true /\ length (take 8 d) = 8%nat.
Proof.
  unfold ExtractWin32Code. case_decide as Hl; [done|].
  apply Decidable.not_or in Hl as [Hl Hc%dec_stable].
  destruct (forallb is_hex (take 8 d)) eqn:Hx; [|done].
  assert (length (take 8 d) = 8%nat) as H8 by len_lia.
  destruct (ParseUint (take 8 d) 16 64) as [v|e| | |] eqn:E; try done. intros [= <-].
  unfold ParseUint in E. destruct (take 8 d) as [|x r] eqn:Et; [done|]. rewrite <- Et in *.
  destruct (parse_digits 16 _ _ 0) as [v'|] eqn:Ep; [|done]. apply Ret_inj in E as <-.
  apply parse_hex_range in Ep; [|done|lia]. unfold len in Ep. rewrite H8 in Ep.
  change ((0 + 1) * 16 ^ Z.of_nat 8) with (2 ^ 32) in Ep. split.
  - rewrite wrap_s_small by (simpl; lia). lia.
  - exists (drop 9 d). split_and!; [|done|done].
    rewrite <- (take_drop 8 d) at 1. f_equal. by apply drop_S.
Qed.

(** An eight-digit hexadecimal code is read back. *)
Lemma ExtractWin32Code_text bs tail :
  length bs = 4%nat ->
  ExtractWin32Code (fmt_x_bytes bs ++ ":"%byte :: tail) = Some (be_decode bs).
Proof.
  intros Hl. set (h := fmt_x_bytes bs).
  assert (length h = 8%nat) as Hh by (subst h; rewrite length_fmt_x_bytes; lia).
  unfold ExtractWin32Code. rewrite decide_False.
  2: { intros [H|H]; [rewrite len_app, len_cons in H; pose proof (len_nonneg tail); unfold len in *; lia|].
       apply H. rewrite lookup_app_r, Hh by lia. done. }
  rewrite take_app_exact by done.
  assert (forallb is_hex h = true) as ->.
  { apply forallb_forall. pose proof (fmt_x_bytes_hex bs) as Hx. rewrite List.Forall_forall in Hx.
    intros c Hc. specialize (Hx c Hc). clear -Hx. by destruct c. }
  pose proof (be_decode_range bs) as Hr. rewrite Hl in Hr. change (256 ^ Z.of_nat 4) with (2 ^ 32) in Hr.
  assert (ParseUint h 16 64 = Ret (be_decode bs)) as ->.
  { subst h. clear Hh. destruct bs as [|b1 [|b2 [|b3 [|b4 [|]]]]]; try done. clear Hl Hr.
    unfold ParseUint. set (h := fmt_x_bytes _).
    assert (forall b s n, 0 <= n -> n * 256 + bZ b <= 2 ^ 64 - 1 ->
      parse_digits 16 (2 ^ 64 - 1) (fmt_x 2 (bZ b) ++ s) n =
      parse_digits 16 (2 ^ 64 - 1) s (n * 256 + bZ b)) as Hstep.
    { intros b s n Hn Hle. unfold fmt_x. cbn [hex_digits app parse_digits]. pose proof (bZ_range b).
      pose proof (Z.mod_pos_bound (bZ b) 16 eq_refl).
      assert (0 <= bZ b / 16 < 16) by (split; [apply Z.div_pos; lia|apply Z.div_lt_upper_bound; lia]).
      rewrite (Z.mod_small (bZ b / 16)) by lia.
      rewrite !digit_val_digit by lia. pose proof (Z.div_mod (bZ b) 16 ltac:(lia)).
      rewrite (proj2 (Z.ltb_lt (bZ b / 16) 16)), (proj2 (Z.ltb_lt (bZ b mod 16) 16)) by lia. cbv zeta.
      rewrite (proj2 (Z.ltb_ge (2 ^ 64 - 1) (n * 16 + bZ b / 16))) by lia.
      rewrite (proj2 (Z.ltb_ge (2 ^ 64 - 1) _)) by lia. f_equal. lia. }
    subst h. unfold fmt_x_bytes. cbn [map concat].
    destruct (fmt_x 2 (bZ b1) ++ _) as [|c r] eqn:E; [done|]. rewrite <- E.
    pose proof (bZ_range b1). pose proof (bZ_range b2). pose proof (bZ_range b3).
    pose proof (bZ_range b4).
    rewrite !Hstep by lia. cbn [parse_digits]. f_equal.
    change [b1; b2; b3; b4] with (((([] ++ [b1]) ++ [b2]) ++ [b3]) ++ [b4]).
    rewrite !be_decode_snoc. change (be_decode []) with 0. lia. }
  rewrite wrap_s_small by (simpl; lia). done.
Qed.

(** ** Properties *)

(** The Win32 code AD prefixes to a diagnostic is read exactly: eight
    hexadecimal digits and a colon give the code they spell, whatever follows,
    and a code is only ever read from such a prefix and fits in 32 bits. *)
Theorem Win32Code_exact (bs tail d : bytes) (c : Z) :
  (length bs = 4%nat ->
     ExtractWin32Code (fmt_x_bytes bs ++ ":"%byte :: tail) = Some (be_decode bs)) /\
  (ExtractWin32Code d = Some c ->
     0 <= c < 2 ^ 32 /\ exists rest, d = take 8 d ++ ":"%byte :: rest /\
       forallb is_hex (take 8 d) = true /\ length (take 8 d) = 8%nat).
Proof. split; [apply ExtractWin32Code_text|apply ExtractWin32Code_Some]. Qed.

Lemma Win32Code_exact_witness :
  ExtractWin32Code "0000208d: NameErr: DSID-0310028B"%go = Some 0x208D.
Proof.
  exact (proj1 (Win32Code_exact [x00; x00; x20; x8d] " NameErr: DSID-0310028B"%go [] 0) eq_refl).
Defined.

(** The kind a raw failure must have: the Win32 table first, the result code
    otherwise, unknown when neither knows it. *)
Definition expected_kind `{AdCore} (code : Z) (diag : gostring) : Kind :=
  match ExtractWin32Code diag ≫= ClassifyCode with
  | Some k => k
  | None => default KindUnknown (result_kind code)
  end.

Lemma annotate_fields e code diag :
  exists msg, annotate e code diag =
    AdError (mkAdError (e_Kind e) (e_Code e) (e_Op e) (e_Identity e) (e_Target e) msg
               (e_Tombstoned e) (e_Err e)) /\
    (msg = e_ServerMessage e \/ exists s, s <> [] /\ msg = diag ++ " — "%go ++ s).
Proof.
  unfold annotate. destruct (explain code diag) as [|c s] eqn:E.
  - exists (e_ServerMessage e). split; [by destruct e|by left].
  - eexists. split; [done|]. right. by exists (c :: s).
Qed.

(** C40: [Classify] always yields an [adcore.Error] for the operation, and its
    kind is the right one: a context error or a failure with no LDAP result is
    a transport error that wraps the failure; otherwise the kind and code
    follow the Win32 table, then the result code, then unknown, the wrapped
    cause is kept and the diagnostic is a verbatim prefix of the message.
    Hence only a failure carrying an LDAP result can be transient. *)
Theorem Classify_kind `{AdCore} (op : gostring) (e : error) :
  exists a, Classify op e = AdError a /\ e_Op a = op /\
    let ctx := errors_Is is_Canceled e || errors_Is is_DeadlineExceeded e in
    (ctx = true \/ errors_As as_RawError e = None ->
       e_Kind a = KindTransport /\ e_Err a = Some e) /\
    (forall code diag w, ctx = false -> errors_As as_RawError e = Some (code, diag, w) ->
       e_Kind a = expected_kind code diag /\ e_Code a = default 0 (ExtractWin32Code diag) /\
       e_Err a = w /\ exists sfx, e_ServerMessage a = diag ++ sfx) /\
    (e_Kind a = KindTransient -> ctx = false /\ errors_As as_RawError e <> None).
Proof.
  unfold Classify. cbv zeta. set (ctx := errors_Is is_Canceled e || _).
  destruct ctx eqn:Ectx.
  { eexists. split_and!; [done|done| | |done]; [done|]. intros. done. }
  destruct (errors_As as_RawError e) as [[[code diag] w]|] eqn:Eraw.
  2: { eexists. split_and!; [done|done|done|done|done]. }
  assert (exists k c, classify_raw op code diag w
            = annotate (mkAdError k c op [] [] diag false w) code diag /\
          k = expected_kind code diag /\ c = default 0 (ExtractWin32Code diag))
    as (k & c & -> & -> & ->).
  { unfold classify_raw, expected_kind.
    destruct (ExtractWin32Code diag) as [c|]; cbn [mbind option_bind].
    - destruct (ClassifyCode c) as [k|]; [by exists k, c|].
      destruct (result_kind code) as [k|]; [by exists k, c|by exists KindUnknown, c].
    - destruct (result_kind code) as [k|]; [by exists k, 0|by exists KindUnknown, 0]. }
  destruct (annotate_fields (mkAdError (expected_kind code diag)
    (default 0 (ExtractWin32Code diag)) op [] [] diag false w) code diag) as (msg & -> & Hmsg).
  eexists. split_and!; [done|done| | |]; cbn [e_Kind e_Code e_Err e_ServerMessage].
  - by intros [|].
  - intros code' diag' w' _ [= <- <- <-]. split_and!; try done.
    destruct Hmsg as [->|(s & _ & ->)]; [exists []; by rewrite app_nil_r|by eexists].
  - intros _. by split.
Qed.

Lemma Classify_kind_witness :
  exists a, @Classify sample_adcore "Group.Get"%go
              (RawError 32 "0000208D: NameErr"%go None) = AdError a /\
    e_Kind a = KindNotFound /\ e_Code a = 0x208D.
Proof.
  destruct (@Classify_kind sample_adcore "Group.Get"%go (RawError 32 "0000208D: NameErr"%go None))
    as (a & Ha & _ & _ & Hraw & _).
  destruct (Hraw 32 "0000208D: NameErr"%go None eq_refl eq_refl) as (Hk & Hc & _).
  exists a. split_and!; [exact Ha|exact Hk|exact Hc].
Defined.

(** Result code 8 is explained as channel binding whatever the diagnostic; a
    failed bind by its sub-status. *)
Example explain_examples :
  explain 49 "80090308: LdapErr: DSID-0C090449, data 52e, v4563"%go
    = "the username or password is wrong"%go /\
  explain 49 "no sub-status"%go = [].
Proof. split; reflexivity. Qed.
