(* ===== verification/Conn.v ===== *)
(** * internal/conn: the LDAP seam, its data and its pure parts

    Requests, results and entries; attribute lookup; the RFC 4121
    authenticator checksum and the channel-binding structure; credential-cache
    and Kerberos configuration resolution; the RFC 4121 wrap token reader; and
    the annotation of Kerberos failures.  The LDAP and Kerberos libraries, the
    file system and the digest algorithms are parameters. *)
From S2P Require Export GoStd.

(** ** conn.go *)

Inductive Scope := ScopeBase | ScopeOneLevel | ScopeSubtree.
Inductive ModOp := ModAdd | ModDelete | ModReplace.

#[export] Instance Scope_eq_dec : EqDecision Scope.
Proof. solve_decision. Defined.
#[export] Instance ModOp_eq_dec : EqDecision ModOp.
Proof. solve_decision. Defined.

Record Attribute := mkAttribute { a_Type : gostring; a_Vals : list bytes }.

Record Modification := mkModification {
  m_Op : ModOp;
  m_Type : gostring;
  m_Vals : list bytes
}.

(** [Attrs] is a Go map; the order of the list is the order in which one
    iteration visits it. *)
Record Entry := mkEntry {
  en_DN : gostring;
  en_Attrs : list (gostring * list bytes)
}.

Record Control := mkControl { c_OID : gostring; c_Critical : bool; c_Value : bytes }.

Record SearchRequest := mkSearchRequest {
  sr_BaseDN : gostring;
  sr_Scope : Scope;
  sr_Filter : gostring;
  sr_Attributes : list gostring;
  sr_SizeLimit : Z;
  sr_Controls : list Control
}.

Record SearchResult := mkSearchResult {
  res_Entries : list Entry;
  res_Controls : list Control
}.

(** [m[key]] of a Go map. *)
Definition map_get {A} (m : list (gostring * A)) (key : gostring) : option A :=
  find_map (fun kv => if decide (fst kv = key) then Some (snd kv) else None) m.

Section entry.
Context `{Unicode}.

(** A [nil] result is the empty value: every caller tests its length. *)
Definition First (e : Entry) (attr : gostring) : bytes :=
  match map_get (en_Attrs e) attr with
  | Some (v :: _) => v
  | _ =>
      default [] (find_map (fun kv =>
        match snd kv with
        | v :: _ => if EqualFold (fst kv) attr then Some v else None
        | [] => None
        end) (en_Attrs e))
  end.

Definition FirstString (e : Entry) (attr : gostring) : gostring := First e attr.
End entry.

Definition SDFlagDACL : Z := 0x04.
Definition SDFlagsControl (flags : Z) : Control :=
  mkControl "1.2.840.113556.1.4.801"%go true [x30; x03; x02; x01; Zb flags].

(** ** cbt.go *)

(** [x509.SignatureAlgorithm]: the algorithms the source distinguishes. *)
Inductive SignatureAlgorithm :=
  | SHA384WithRSA | ECDSAWithSHA384 | SHA384WithRSAPSS
  | SHA512WithRSA | ECDSAWithSHA512 | SHA512WithRSAPSS
  | OtherAlgorithm (n : Z).

Inductive Hash := SHA256 | SHA384 | SHA512.

Class Digests := {
  hash_sum : Hash -> bytes -> bytes;
  md5_sum : bytes -> bytes
}.

Record Certificate := mkCertificate { cert_SignatureAlgorithm : SignatureAlgorithm; cert_Raw : bytes }.

Definition certificateHash (alg : SignatureAlgorithm) : Hash :=
  match alg with
  | SHA384WithRSA | ECDSAWithSHA384 | SHA384WithRSAPSS => SHA384
  | SHA512WithRSA | ECDSAWithSHA512 | SHA512WithRSAPSS => SHA512
  | OtherAlgorithm _ => SHA256
  end.

Definition channelBindingStruct (appData : bytes) : bytes :=
  le_encode 4 0 ++ le_encode 4 0 ++ le_encode 4 0 ++ le_encode 4 0
  ++ le_encode 4 (uint32 (len appData)) ++ appData.

Definition channelBindingToken `{Digests} (cert : Certificate) : bytes :=
  let appData := "tls-server-end-point:"%go
    ++ hash_sum (certificateHash (cert_SignatureAlgorithm cert)) (cert_Raw cert) in
  md5_sum (channelBindingStruct appData).

(** [peerCertificate] and [tokenForCertificate] of bind_krb.go; [None] is a
    [nil] certificate or token. *)
Definition peerCertificate (state : list Certificate) (ok : bool) : option Certificate :=
  match state with
  | cert :: _ => if ok then Some cert else None
  | [] => None
  end.

Definition tokenForCertificate `{Digests} (cert : option Certificate) : option bytes :=
  match cert with None => None | Some cert => Some (channelBindingToken cert) end.

(** ** authchksum.go *)

(** The GSSAPI constants of the Kerberos library. *)
Class GssApi := {
  ContextFlagDeleg : Z;
  ContextFlagInteg : Z;
  ContextFlagConf : Z;
  ContextFlagMutual : Z;
  HdrLen : Z;
  FillerByte : Z
}.

Definition channelBindingLen : Z := 16.

(** [copy(dst[i:i+n], src)] on a whole buffer. *)
Definition copy_at (dst : bytes) (i n : nat) (src : bytes) : bytes :=
  take i dst ++ take n src ++ drop (i + length (take n src)) dst.

Section checksum.
Context `{GssApi}.

(** The loop over the context flags: the buffer and the OR of the flags. *)
Fixpoint checksum_flags (flags : list Z) (b : bytes) (f : Z) : outcome (bytes * Z) :=
  match flags with
  | [] => Ret (b, f)
  | flag :: flags =>
      b ← (if decide (flag = ContextFlagDeleg)
           then if decide (28 - len b < 0) then Panic
                else Ret (b ++ replicate (Z.to_nat (28 - len b)) x00)
           else Ret b);
      checksum_flags flags b (Z.lor f (uint32 flag))
  end.

Definition authenticatorChecksum (contextFlags : list Z) (bnd : option bytes) : outcome bytes :=
  match bnd with
  | Some t => if decide (len t <> channelBindingLen) then Panic else Ret tt
  | None => Ret tt
  end;;
  let b := replicate 24 x00 in
  let b := copy_at b 0 4 (le_encode 4 channelBindingLen) in
  let b := copy_at b 4 16 (default [] bnd) in
  '(b, f) ← checksum_flags contextFlags b 0;
  Ret (copy_at b 20 4 (le_encode 4 f)).

(** [gssClient.contextFlags]. *)
Definition contextFlags : list Z := [ContextFlagInteg; ContextFlagConf; ContextFlagMutual].
End checksum.

(** ** ccache.go *)

Definition knownCCacheTypes : list gostring :=
  ["FILE"%go; "DIR"%go; "KEYRING"%go; "KCM"%go; "MEMORY"%go; "MSLSA"%go; "API"%go].

Section ccache.
Context `{Unicode}.

Definition ResolveCCachePath (explicit : gostring) (getenv : gostring -> gostring)
    : outcome gostring :=
  let raw := TrimSpace explicit in
  let raw := match raw with [] => TrimSpace (getenv "KRB5CCNAME"%go) | _ => raw end in
  match raw with
  | [] => Fail (ErrNew "adldap: no Kerberos credential cache: set KRB5CCNAME, or run KRB5CCNAME=FILE:/tmp/krb5cc_tf kinit <user>@<REALM>"%go)
  | _ =>
      match Index raw ":"%go with
      | None => Ret raw
      | Some i =>
          if decide (i <= 0) then Ret raw
          else
            head ← slice raw 0 i;
            let scheme := ToUpper head in
            if decide (scheme = "FILE"%go) then slice_from raw (i + 1)
            else if existsb (fun known => bool_decide (scheme = known)) knownCCacheTypes
            then Fail (Errorf "adldap: KRB5CCNAME names a %s credential cache, which cannot be read from Go (only FILE caches can be). Re-obtain the ticket into a file: KRB5CCNAME=FILE:/tmp/krb5cc_tf kinit <user>@<REALM>, then run Terraform with that same KRB5CCNAME"%go
                         [FStr scheme] None)
            else Ret raw
      end
  end.

(** ** krb5conf.go *)

Definition newline : gostring := [x0a].

Definition synthesizeKrb5Conf (realm kdc : gostring) : outcome gostring :=
  match realm, kdc with
  | [], _ => Fail (ErrNew "adldap: no Kerberos realm: set Kerberos.Realm, or name a krb5.conf with Kerberos.Krb5ConfPath. A realm cannot be guessed — the wrong one sends the request to the wrong KDC and reports the principal as unknown"%go)
  | _, [] => Fail (ErrNew "adldap: no KDC: Config.Server is required"%go)
  | _, _ =>
      let domain := ToLower realm in
      Ret ("[libdefaults]"%go ++ newline
        ++ "    default_realm = "%go ++ realm ++ newline
        ++ "    dns_lookup_realm = false"%go ++ newline
        ++ "    dns_lookup_kdc = false"%go ++ newline
        ++ "    rdns = false"%go ++ newline ++ newline
        ++ "[realms]"%go ++ newline
        ++ "    "%go ++ realm ++ " = {"%go ++ newline
        ++ "        kdc = "%go ++ kdc ++ newline
        ++ "    }"%go ++ newline ++ newline
        ++ "[domain_realm]"%go ++ newline
        ++ "    ."%go ++ domain ++ " = "%go ++ realm ++ newline
        ++ "    "%go ++ domain ++ " = "%go ++ realm ++ newline)
  end.

Definition RealmFromServer (server : gostring) : gostring :=
  let server := TrimSuffix server "."%go in
  let '(_, domain, found) := Cut server "."%byte in
  if negb found || bool_decide (domain = []) then [] else ToUpper domain.
End ccache.

(** The Kerberos library and the file system, as [loadKrb5Conf] and
    [newTicketSource] use them. *)
Class KrbLib := {
  KrbConfig : Type;
  Keytab : Type;
  CCache : Type;
  KrbClient : Type;
  config_Load : gostring -> KrbConfig + error;
  config_NewFromString : gostring -> KrbConfig + error;
  (** [os.Stat]: [None] when the file exists. *)
  os_Stat : gostring -> option error;
  is_ErrNotExist : error -> bool;
  keytab_Load : gostring -> Keytab + error;
  client_NewWithKeytab : gostring -> gostring -> Keytab -> KrbConfig -> KrbClient;
  client_NewWithPassword : gostring -> gostring -> gostring -> KrbConfig -> KrbClient;
  LoadCCache : gostring -> CCache + error;
  client_NewFromCCache : CCache -> KrbConfig -> KrbClient + error
}.

Definition systemKrb5Conf : gostring := "/etc/krb5.conf"%go.

Section krb.
Context `{Unicode} `{KrbLib}.

Definition loadKrb5Conf (explicitPath realm kdc : gostring) : outcome KrbConfig :=
  match explicitPath with
  | _ :: _ =>
      wrap_err (fun err => Errorf "adldap: reading the Kerberos configuration at %s: %w"%go
                             [FStr explicitPath] (Some err))
        (of_sum (config_Load explicitPath))
  | [] =>
      match os_Stat systemKrb5Conf with
      | None =>
          wrap_err (fun err => Errorf "adldap: reading %s: %w"%go [FStr systemKrb5Conf] (Some err))
            (of_sum (config_Load systemKrb5Conf))
      | Some err =>
          if is_ErrNotExist err then
            text ← synthesizeKrb5Conf realm kdc;
            wrap_err (fun err => Errorf "adldap: the synthesized Kerberos configuration did not parse: %w"%go
                                   [] (Some err))
              (of_sum (config_NewFromString text))
          else Fail (Errorf "adldap: checking for %s: %w"%go [FStr systemKrb5Conf] (Some err))
      end
  end.

(** ** ticketsource.go *)

Record ticketSourceOptions := mkTicketSourceOptions {
  o_CCachePath : gostring;
  o_Keytab : gostring;
  o_Password : gostring;
  o_Username : gostring;
  o_Realm : gostring;
  o_Krb5ConfPath : gostring;
  o_KDC : gostring;
  o_Getenv : gostring -> gostring
}.

Definition newTicketSource (o : ticketSourceOptions) : outcome KrbClient :=
  let realm := match o_Realm o with [] => RealmFromServer (o_KDC o) | r => r end in
  krb5conf ← loadKrb5Conf (o_Krb5ConfPath o) realm (o_KDC o);
  match o_Keytab o, o_Password o with
  | _ :: _, _ =>
      match o_Username o with
      | [] => Fail (ErrNew "adldap: Kerberos.Keytab requires Kerberos.Username"%go)
      | user =>
          kt ← wrap_err (fun err => Errorf "adldap: reading the keytab at %s: %w"%go
                                      [FStr (o_Keytab o)] (Some err))
                 (of_sum (keytab_Load (o_Keytab o)));
          Ret (client_NewWithKeytab user realm kt krb5conf)
      end
  | [], _ :: _ =>
      match o_Username o with
      | [] => Fail (ErrNew "adldap: Kerberos.Password requires Kerberos.Username — the AS-REQ has no client name without it, and the KDC reports an unknown principal rather than a missing one"%go)
      | user => Ret (client_NewWithPassword user realm (o_Password o) krb5conf)
      end
  | [], [] =>
      path ← ResolveCCachePath (o_CCachePath o) (o_Getenv o);
      cc ← wrap_err (fun err => Errorf "adldap: reading the credential cache at %s: %w"%go
                                  [FStr path] (Some err)) (of_sum (LoadCCache path));
      of_sum (client_NewFromCCache cc krb5conf)
  end.
End krb.

(** ** gssclient.go *)

Record WrapToken := mkWrapToken {
  wt_Flags : Z;
  wt_EC : Z;
  wt_RRC : Z;
  wt_SndSeqNum : Z;
  wt_CheckSum : bytes;
  wt_Payload : bytes
}.

Definition getGssWrapTokenId : bytes := [x05; x04].

Definition unmarshalWrapToken `{GssApi} (b : bytes) (expectFromAcceptor : bool)
    : outcome WrapToken :=
  if decide (len b < 16) then Fail (ErrNew "bytes shorter than header length"%go)
  else
    id ← slice b 0 2;
    if decide (getGssWrapTokenId <> id)
    then Fail (Errorf "wrong Token ID. Expected %s, was %s"%go
                 [FStr (fmt_x_bytes getGssWrapTokenId); FStr (fmt_x_bytes id)] None)
    else
      wtflags ← index b 2;
      let isFromAcceptor := Z.land wtflags 0x01 =? 1 in
      if isFromAcceptor && negb expectFromAcceptor
      then Fail (ErrNew "unexpected acceptor flag is set: not expecting a token from the acceptor"%go)
      else if negb isFromAcceptor && expectFromAcceptor
      then Fail (ErrNew "expected acceptor flag is not set: expecting a token from the acceptor, not the initiator"%go)
      else
        filler ← index b 3;
        if decide (filler <> FillerByte)
        then
          f ← slice b 3 4;
          Fail (Errorf "unexpected filler byte: expecting 0xFF, was %s "%go
                  [FStr (fmt_x_bytes f)] None)
        else
          checksumL ← be_uint b 4 6;
          if decide (len b - HdrLen < checksumL)
          then Fail (Errorf "inconsistent checksum length: %d bytes to parse, checksum length is %d"%go
                       [FInt (len b); FInt checksumL] None)
          else
            let payloadStart := HdrLen + checksumL in
            rrc ← be_uint b 6 8;
            snd ← be_uint b 8 16;
            checkSum ← slice b 16 payloadStart;
            payload ← slice_from b payloadStart;
            Ret (mkWrapToken wtflags checksumL rrc snd checkSum payload).

(** The Kerberos library's cryptography, as [NegotiateSaslAuth] uses it. *)
Class GssCrypto := {
  EncryptionKey : Type;
  token_Verify : WrapToken -> EncryptionKey -> option error;
  hmac_bits : EncryptionKey -> Z + error;
  (** [SetCheckSum] and [Marshal] of the reply. *)
  token_Seal : WrapToken -> EncryptionKey -> bytes + error;
  (** [types.EncryptionKey{}]. *)
  zero_key : EncryptionKey
}.

(** [g_cbt] is [None] for a [nil] token. *)
Record gssClient `{KrbLib} `{GssCrypto} := mkGssClient {
  g_src : KrbClient;
  g_cbt : option bytes;
  g_ekey : EncryptionKey;
  g_subkey : EncryptionKey
}.
Arguments mkGssClient {_ _} _ _ _ _.

Definition NegotiateSaslAuth `{GssApi} `{KrbLib} `{GssCrypto} (c : gssClient) (input authzid : bytes)
    : outcome bytes :=
  token ← unmarshalWrapToken input true;
  if decide (Z.land (wt_Flags token) 1 = 0)
  then Fail (ErrNew "adldap: the wrapped token did not come from the acceptor"%go)
  else
    let key := if has_bits (wt_Flags token) 4 then g_subkey c else g_ekey c in
    match token_Verify token key with
    | Some err => Fail (Errorf "adldap: verifying the acceptor's token: %w"%go [] (Some err))
    | None =>
        if decide (len (wt_Payload token) <> 4)
        then Fail (Errorf "adldap: the acceptor's final token is %d bytes, want 4"%go
                     [FInt (len (wt_Payload token))] None)
        else
          bits ← of_sum (hmac_bits key);
          of_sum (token_Seal (mkWrapToken 4 (uint16 (Z.quot bits 8)) 0 1 []
                                  ([x00; x00; x00; x00] ++ authzid)) key)
    end.

(** ** bind_krb.go *)

(** [err.Error()]: the text [fmt] and the libraries give an error. *)
Class ErrorText := error_Error : error -> gostring.

Definition annotateTicketError `{ErrorText} (err : error) : error :=
  let msg := error_Error err in
  if Contains msg "TGT not found in CCache"%go then
    Errorf "%w: the credential cache holds no ticket-granting ticket; run kinit again"%go [] (Some err)
  else if Contains msg "KDC_ERR_PREAUTH_FAILED"%go then
    Rejected (Errorf "%w: the KDC rejected the credential; the password is wrong, or the account is disabled or locked out"%go [] (Some err))
  else if Contains msg "KDC_ERR_C_PRINCIPAL_UNKNOWN"%go then
    Rejected (Errorf "%w: the KDC does not know that principal; check both the username and the realm — when Kerberos.Realm is unset it is derived from Config.Server's domain suffix, uppercased"%go [] (Some err))
  else if Contains msg "KDC_ERR_CLIENT_REVOKED"%go then
    Rejected (Errorf "%w: the account is disabled, locked out or expired"%go [] (Some err))
  else if Contains msg "expired"%go || Contains msg "Ticket expired"%go then
    Errorf "%w: the Kerberos ticket has expired; run kinit again (AD's default ticket lifetime is 10 hours and it is not renewed automatically)"%go [] (Some err)
  else err.

(** ** Lemmas *)

Lemma copy_at_mid a x b src :
  length src = length x -> copy_at (a ++ x ++ b) (length a) (length x) src = a ++ src ++ b.
Proof.
  intros Hl. unfold copy_at. rewrite take_app_length, take_ge by lia.
  rewrite (app_assoc a x b), (drop_app_exact (length a + length src) (a ++ x))
    by (rewrite length_app; lia). done.
Qed.

Section checksum_lemmas.
Context `{GssApi}.

Definition flag_word (flags : list Z) (f : Z) : Z :=
  fold_left (fun f flag => Z.lor f (uint32 flag)) flags f.

Lemma checksum_flags_24 flags b f :
  len b = 24 ->
  checksum_flags flags b f =
    Ret (if bool_decide (ContextFlagDeleg ∈ flags) then b ++ replicate 4 x00 else b,
         flag_word flags f).
Proof.
  assert (forall flags b f, len b = 28 -> checksum_flags flags b f = Ret (b, flag_word flags f)) as H28.
  { clear. induction flags as [|x l IH]; intros b f Hb; [done|]. cbn [checksum_flags].
    case_decide.
    - rewrite decide_False by lia. rewrite Hb. cbn [mbind outcome_bind].
      change (Z.to_nat (28 - 28)) with 0%nat. cbn [replicate]. rewrite app_nil_r. by rewrite IH.
    - cbn [mbind outcome_bind]. by rewrite IH. }
  revert b f. induction flags as [|x l IH]; intros b f Hb; [done|]. cbn [checksum_flags].
  destruct (decide (x = ContextFlagDeleg)) as [Hx|Hx].
  - rewrite (decide_False (P := 28 - len b < 0)) by lia. rewrite Hb. cbn [mbind outcome_bind].
    change (Z.to_nat (28 - 24)) with 4%nat. rewrite H28 by (rewrite len_app, Hb; done).
    rewrite bool_decide_eq_true_2; [done|]. subst. by left.
  - cbn [mbind outcome_bind]. rewrite IH by done. cbn [flag_word fold_left].
    do 2 f_equal. rewrite (bool_decide_ext (ContextFlagDeleg ∈ x :: l) (ContextFlagDeleg ∈ l)); [done|].
    rewrite elem_of_cons. naive_solver.
Qed.
End checksum_lemmas.

(** ** Properties *)

(** The authenticator checksum has the RFC 4121 layout: the length word
    16, the channel-binding token or 16 zero bytes, the OR of the context
    flags, and four more zero bytes exactly when delegation is asked for; a
    token of any other width panics instead of shifting the fields. *)
Theorem authenticatorChecksum_layout `{GssApi} (flags : list Z) (bnd : option bytes) :
  let field := default (replicate 16 x00) bnd in
  (len field = 16 ->
     authenticatorChecksum flags bnd =
       Ret (le_encode 4 16 ++ field ++ le_encode 4 (flag_word flags 0)
            ++ (if bool_decide (ContextFlagDeleg ∈ flags) then replicate 4 x00 else []))) /\
  (len field <> 16 -> authenticatorChecksum flags bnd = Panic).
Proof.
  intros field. split.
  - intros Hf. unfold authenticatorChecksum, channelBindingLen.
    assert ((match bnd with
             | Some t => if decide (len t <> 16) then Panic else Ret tt
             | None => Ret tt end : outcome unit) = Ret tt) as ->.
    { destruct bnd as [t|]; [|done]. cbn in field. by rewrite decide_False by naive_solver. }
    cbn [mbind outcome_bind]. cbv zeta.
    assert (copy_at (copy_at (replicate 24 x00) 0 4 (le_encode 4 16)) 4 16 (default [] bnd)
            = le_encode 4 16 ++ field ++ replicate 4 x00) as ->.
    { destruct bnd as [t|]; [|done]. cbn in field. subst field.
      change (copy_at (replicate 24 x00) 0 4 (le_encode 4 16))
        with (le_encode 4 16 ++ replicate 16 x00 ++ replicate 4 x00).
      apply copy_at_mid. unfold len in Hf. cbn [default]. change (length (replicate 16 x00)) with 16%nat. lia. }
    rewrite checksum_flags_24 by (rewrite !len_app, Hf; done).
    cbn [mbind outcome_bind]. f_equal. unfold len in Hf.
    set (w := le_encode 4 (flag_word flags 0)).
    assert (forall z, copy_at ((le_encode 4 16 ++ field) ++ replicate 4 x00 ++ z) 20 4 w
                      = (le_encode 4 16 ++ field) ++ w ++ z) as Hc.
    { intros z. pose proof (copy_at_mid (le_encode 4 16 ++ field) (replicate 4 x00) z w eq_refl) as Hc.
      rewrite length_app in Hc. change (length (le_encode 4 16)) with 4%nat in Hc.
      replace (4 + length field)%nat with 20%nat in Hc by lia. exact Hc. }
    case_bool_decide.
    + specialize (Hc (replicate 4 x00)). rewrite <- !app_assoc in Hc |- *. exact Hc.
    + specialize (Hc []). rewrite app_nil_r in Hc. rewrite <- !app_assoc in Hc. exact Hc.
  - intros Hf. destruct bnd as [t|]; [|done]. cbn in field. unfold authenticatorChecksum.
    by rewrite decide_True.
Qed.

(** The constants of RFC 4121 and RFC 2744. *)
Definition rfc_gssapi : GssApi := {|
  ContextFlagDeleg := 1; ContextFlagMutual := 2; ContextFlagConf := 16; ContextFlagInteg := 32;
  HdrLen := 16; FillerByte := 255
|}.

Lemma authenticatorChecksum_layout_witness :
  @authenticatorChecksum rfc_gssapi (@contextFlags rfc_gssapi) (Some (replicate 16 xcb)) =
  Ret ([x10; x00; x00; x00] ++ replicate 16 xcb ++ [x32; x00; x00; x00]).
Proof.
  exact (proj1 (@authenticatorChecksum_layout rfc_gssapi (@contextFlags rfc_gssapi)
                  (Some (replicate 16 xcb))) eq_refl).
Defined.

(** The bytes of a wrap token. *)
Definition wrap_bytes `{GssApi} (t : WrapToken) : bytes :=
  getGssWrapTokenId ++ [Zb (wt_Flags t); Zb FillerByte] ++ be_encode 2 (wt_EC t)
  ++ be_encode 2 (wt_RRC t) ++ be_encode 8 (wt_SndSeqNum t) ++ wt_CheckSum t ++ wt_Payload t.

Lemma len_be_encode n z : len (be_encode n z) = Z.of_nat n.
Proof. unfold len. by rewrite length_be_encode. Qed.

Lemma be_uint_mid b i j n z p q :
  b = p ++ be_encode n z ++ q -> i = len p -> j = len p + Z.of_nat n ->
  be_uint b i j = Ret (z mod 256 ^ Z.of_nat n).
Proof.
  intros -> -> ->. unfold be_uint.
  rewrite (slice_mid _ _ _ p (be_encode n z) q); [|done|done|].
  - cbn [mbind outcome_bind]. by rewrite be_decode_encode.
  - unfold len. by rewrite length_be_encode.
Qed.

Lemma unmarshalWrapToken_returns `{GssApi} (b : bytes) (expect : bool) :
  HdrLen = 16 -> returns (unmarshalWrapToken b expect).
Proof.
  intros Hhdr.
  unfold unmarshalWrapToken. rewrite Hhdr. case_decide as Hl; [done|].
  apply returns_bind; [apply slice_returns; lia|]. intros id _. case_decide; [done|].
  apply returns_bind; [apply index_returns; lia|]. intros fl _. cbv zeta.
  case_match; [done|]. case_match; [done|].
  apply returns_bind; [apply index_returns; lia|]. intros f _. case_decide.
  { apply returns_bind; [apply slice_returns; lia|done]. }
  unfold be_uint. rewrite (slice_ok b 4 6), (slice_ok b 6 8), (slice_ok b 8 16) by lia.
  cbn [mbind outcome_bind].
  set (cs := be_decode (take (Z.to_nat (6 - 4)) _)). assert (0 <= cs) by apply be_decode_range. case_decide; [done|].
  apply returns_bind; [apply slice_returns; lia|]. intros ? _.
  rewrite slice_from_drop by lia. done.
Qed.

Lemma unmarshalWrapToken_reads `{GssApi} (expect : bool) (t : WrapToken) :
  HdrLen = 16 -> 0 <= FillerByte < 256 ->
  0 <= wt_Flags t < 256 -> (Z.land (wt_Flags t) 1 =? 1) = expect ->
  wt_EC t = len (wt_CheckSum t) -> 0 <= wt_EC t < 2 ^ 16 -> 0 <= wt_RRC t < 2 ^ 16 ->
  0 <= wt_SndSeqNum t < 2 ^ 64 ->
  unmarshalWrapToken (wrap_bytes t) expect = Ret t.
Proof.
  intros Hhdr Hfill.
  destruct t as [fl ec rrc seq cs pl]. cbn [wt_Flags wt_EC wt_RRC wt_SndSeqNum wt_CheckSum].
  intros Hfl Hdir Hec Hec2 Hrrc Hseq. unfold wrap_bytes.
  cbn [wt_Flags wt_EC wt_RRC wt_SndSeqNum wt_CheckSum wt_Payload].
  set (b0 := _ ++ _). set (h := [Zb fl; Zb FillerByte]) in *.
  set (e1 := be_encode 2 ec) in *. set (e2 := be_encode 2 rrc) in *.
  set (e3 := be_encode 8 seq) in *.
  assert (len e1 = 2) as L1 by apply len_be_encode.
  assert (len e2 = 2) as L2 by apply len_be_encode.
  assert (len e3 = 8) as L3 by apply len_be_encode.
  assert (len h = 2) as Lh by done. assert (len getGssWrapTokenId = 2) as Lg by done.
  pose proof (len_nonneg cs). pose proof (len_nonneg pl).
  assert (len b0 = 16 + len cs + len pl) as Hl by (subst b0; rewrite !len_app; lia).
  unfold unmarshalWrapToken. rewrite decide_False by lia.
  rewrite (slice_mid b0 0 2 [] getGssWrapTokenId (h ++ e1 ++ e2 ++ e3 ++ cs ++ pl)) by done.
  cbn [mbind outcome_bind]. rewrite decide_False by naive_solver.
  rewrite (index_Ret b0 2 fl getGssWrapTokenId (Zb fl) ([Zb FillerByte] ++ e1 ++ e2 ++ e3 ++ cs ++ pl));
    [|done|done|by rewrite bZ_Zb, Z.mod_small].
  cbn [mbind outcome_bind]. rewrite Hdir. rewrite andb_negb_r. rewrite andb_comm, andb_negb_r.
  rewrite (index_Ret b0 3 FillerByte (getGssWrapTokenId ++ [Zb fl]) (Zb FillerByte)
    (e1 ++ e2 ++ e3 ++ cs ++ pl)); [|done|done|by rewrite bZ_Zb, Z.mod_small].
  cbn [mbind outcome_bind]. rewrite decide_False by naive_solver.
  rewrite (be_uint_mid b0 4 6 2 ec (getGssWrapTokenId ++ h) (e2 ++ e3 ++ cs ++ pl));
    [|done|done|done].
  cbn [mbind outcome_bind]. rewrite (Z.mod_small ec) by (simpl; lia).
  rewrite Hhdr, decide_False by lia.
  rewrite (be_uint_mid b0 6 8 2 rrc (getGssWrapTokenId ++ h ++ e1) (e3 ++ cs ++ pl));
    [|by subst b0; rewrite <- !app_assoc|by rewrite !len_app, L1|by rewrite !len_app, L1].
  rewrite (be_uint_mid b0 8 16 8 seq (getGssWrapTokenId ++ h ++ e1 ++ e2) (cs ++ pl));
    [|by subst b0; rewrite <- !app_assoc|by rewrite !len_app, L1, L2|by rewrite !len_app, L1, L2].
  cbn [mbind outcome_bind]. rewrite (Z.mod_small rrc), (Z.mod_small seq) by (simpl; lia).
  rewrite (slice_mid b0 16 (16 + ec) (getGssWrapTokenId ++ h ++ e1 ++ e2 ++ e3) cs pl);
    [|by subst b0; rewrite <- !app_assoc|by rewrite !len_app, L1, L2, L3
     |by rewrite !len_app, L1, L2, L3, Hec].
  cbn [mbind outcome_bind].
  assert (b0 = (getGssWrapTokenId ++ h ++ e1 ++ e2 ++ e3 ++ cs) ++ pl) as ->
    by (subst b0; by rewrite <- !app_assoc).
  rewrite slice_from_app by (rewrite !len_app, L1, L2, L3, Hec; lia). done.
Qed.

(** The wrap token reader never panics, whatever the bytes on the wire,
    even when the checksum length would overflow 16 bits; a token laid out per
    RFC 4121 with the right direction flag is read back field by field. *)
Theorem unmarshalWrapToken_total `{GssApi} (b : bytes) (expect : bool) (t : WrapToken) :
  HdrLen = 16 -> 0 <= FillerByte < 256 ->
  returns (unmarshalWrapToken b expect) /\
  (0 <= wt_Flags t < 256 -> (Z.land (wt_Flags t) 1 =? 1) = expect ->
   wt_EC t = len (wt_CheckSum t) -> 0 <= wt_EC t < 2 ^ 16 -> 0 <= wt_RRC t < 2 ^ 16 ->
   0 <= wt_SndSeqNum t < 2 ^ 64 ->
   unmarshalWrapToken (wrap_bytes t) expect = Ret t).
Proof.
  intros Hhdr Hfill. split; [by apply unmarshalWrapToken_returns|by apply unmarshalWrapToken_reads].
Qed.

Definition sample_wrap : WrapToken :=
  mkWrapToken 5 12 0 7 (replicate 12 xaa) [x07; x00; x10; x00].

Lemma unmarshalWrapToken_total_witness :
  returns (@unmarshalWrapToken rfc_gssapi [x05; x04] true) /\
  @unmarshalWrapToken rfc_gssapi (@wrap_bytes rfc_gssapi sample_wrap) true = Ret sample_wrap.
Proof.
  split.
  - apply (@unmarshalWrapToken_total rfc_gssapi [x05; x04] true sample_wrap); [done|cbn; lia].
  - apply (@unmarshalWrapToken_total rfc_gssapi [] true sample_wrap); cbn; try done; lia.
Defined.

(** ** Attribute lookup *)

Lemma find_map_Some {A B} (f : A -> option B) l b :
  find_map f l = Some b -> exists a, In a l /\ f a = Some b.
Proof.
  induction l as [|x l IH]; [done|]. cbn [find_map]. destruct (f x) eqn:E.
  - intros [= <-]. exists x. split; [by left|done].
  - intros (a & Hin & Ha)%IH. exists a. split; [by right|done].
Qed.

Lemma find_map_None {A B} (f : A -> option B) l :
  find_map f l = None <-> forall a, In a l -> f a = None.
Proof.
  induction l as [|x l IH]; cbn [find_map]; [naive_solver|]. destruct (f x) eqn:E.
  - split; [done|]. intros Ha. rewrite <- E. apply Ha. by left.
  - rewrite IH. split; [intros Ha a [<-|]; auto|]. intros Ha a Hin. apply Ha. by right.
Qed.

(** The spellings that [First] takes for [attr]. *)
Definition spells `{Unicode} (attr key : gostring) : Prop :=
  key = attr \/ EqualFold key attr = true.

Lemma map_get_Some {A} (m : list (gostring * A)) k v :
  map_get m k = Some v -> In (k, v) m.
Proof.
  unfold map_get. intros ([k' v'] & Hin & Hk)%find_map_Some. revert Hk. cbn.
  case_decide; [|done]. intros [= ->]. by subst.
Qed.

Lemma map_get_In {A} (m : list (gostring * A)) k v :
  List.NoDup (map fst m) -> In (k, v) m -> map_get m k = Some v.
Proof.
  unfold map_get. induction m as [|[k' v'] m IH]; [done|]. cbn [map find_map fst snd].
  intros [Hni Hnd]%List.NoDup_cons_iff [[= -> ->]|Hin]; [by rewrite decide_True|].
  rewrite decide_False; [by apply IH|]. intros ->. apply Hni.
  apply in_map_iff. by exists (k, v).
Qed.

(** Attribute lookup does not depend on the iteration order of the map
    nor on the spelling the server chose: when one non-empty attribute of the
    entry spells the requested name, its first value is returned wherever it
    sits; when none does the result is empty; and a value returned always
    belongs to an attribute that spells the name. *)
Theorem First_lookup `{Unicode} (e : Entry) (attr : gostring) :
  (forall k v r, List.NoDup (map fst (en_Attrs e)) -> In (k, v :: r) (en_Attrs e) ->
     spells attr k ->
     (forall k' v' r', In (k', v' :: r') (en_Attrs e) -> spells attr k' -> v' = v) ->
     First e attr = v) /\
  ((forall k v r, In (k, v :: r) (en_Attrs e) -> ~ spells attr k) -> First e attr = []) /\
  (First e attr <> [] ->
     exists k r, In (k, First e attr :: r) (en_Attrs e) /\ spells attr k).
Proof.
  assert (forall v, First e attr = v -> v = [] \/
            exists k r, In (k, v :: r) (en_Attrs e) /\ spells attr k) as Hsound.
  { intros v Hv. unfold First in Hv.
    destruct (map_get (en_Attrs e) attr) as [[|w r]|] eqn:E.
    2: { subst w. unfold map_get in E. apply find_map_Some in E as ([k vs] & Hin & Hk).
         revert Hk. cbn. case_decide; [|done]. intros [= ->]. right. exists k, r. split; [done|by left]. }
    all: destruct (find_map _ (en_Attrs e)) as [w|] eqn:Ew in Hv; cbn in Hv; [|by left];
      subst w; apply find_map_Some in Ew as ([k [|w r']] & Hin & Hk); [done|]; cbn in Hk;
      destruct (EqualFold k attr) eqn:Ef; [|done]; injection Hk as ->; right; exists k, r';
      split; [done|by right]. }
  split_and!.
  - intros k v r Hnd Hin Hsp Huniq. destruct (Hsound _ eq_refl) as [Hnil|(k' & r' & Hin' & Hsp')].
    2: { by eapply Huniq. }
    unfold First in Hnil |- *.
    destruct (map_get (en_Attrs e) attr) as [[|w s]|] eqn:E.
    2: { unfold map_get in E. apply find_map_Some in E as ([k' vs] & Hin' & Hk).
         revert Hk. cbn. case_decide; [|done]. intros [= ->]. by eapply Huniq; [|left]. }
    all: destruct (find_map _ (en_Attrs e)) as [w|] eqn:Ew; cbn in *.
    1,3: apply find_map_Some in Ew as ([k' [|w' r']] & Hin' & Hk); [done|]; cbn in Hk;
         destruct (EqualFold k' attr) eqn:Ef; [|done]; injection Hk as ->;
         by eapply Huniq; [|right].
    all: rewrite find_map_None in Ew; specialize (Ew _ Hin); cbn in Ew;
         destruct (EqualFold k attr) eqn:Ef; [done|]; destruct Hsp as [->|?]; [|congruence].
    + rewrite (map_get_In _ _ _ Hnd Hin) in E. done.
    + rewrite (map_get_In _ _ _ Hnd Hin) in E. done.
  - intros Hno. destruct (Hsound _ eq_refl) as [Hnil|(k & r & Hin & Hsp)]; [done|].
    by destruct (Hno _ _ _ Hin).
  - intros Hne. destruct (Hsound _ eq_refl) as [Hnil|H']; [done|exact H'].
Qed.

Lemma First_lookup_witness :
  @First ascii_unicode (mkEntry [] [("cn"%go, ["x"%go]); ("MEMBER"%go, ["CN=a"%go; "CN=b"%go])])
    "member"%go = "CN=a"%go.
Proof.
  set (e := mkEntry _ _).
  refine (proj1 (@First_lookup ascii_unicode e "member"%go) "MEMBER"%go "CN=a"%go ["CN=b"%go] _ _ _ _).
  - repeat constructor; cbn; intuition discriminate.
  - right; left; reflexivity.
  - right; reflexivity.
  - intros k v r [E|[E|[]]]; injection E as <- <- <-; [|reflexivity].
    intros [H|H]; discriminate H.
Defined.

(** ** Kerberos failures and credential caches *)

(** The three failures that mean the credential itself was refused. *)
Definition credential_refused (msg : gostring) : bool :=
  negb (Contains msg "TGT not found in CCache"%go) &&
  (Contains msg "KDC_ERR_PREAUTH_FAILED"%go || Contains msg "KDC_ERR_C_PRINCIPAL_UNKNOWN"%go
   || Contains msg "KDC_ERR_CLIENT_REVOKED"%go).

(** Annotating a Kerberos failure keeps the original error in the chain
    [errors.Is] walks, and marks it as a rejected credential exactly when the
    KDC refused the credential (or it already was so marked). *)
Theorem annotateTicketError_chain `{ErrorText} (err : error) (test : error -> bool) :
  (errors_Is test err = true -> errors_Is test (annotateTicketError err) = true) /\
  errors_Is is_CredentialRejected (annotateTicketError err) =
    credential_refused (error_Error err) || errors_Is is_CredentialRejected err.
Proof.
  unfold annotateTicketError, credential_refused. cbv zeta.
  destruct (Contains _ "TGT not found in CCache"%go); cbn [negb andb].
  { split; [|done]. unfold errors_Is. cbn [chain existsb]. intros ->. apply orb_true_r. }
  destruct (Contains _ "KDC_ERR_PREAUTH_FAILED"%go); cbn [orb].
  { split; [|done]. unfold errors_Is. cbn [chain existsb]. intros ->. by rewrite !orb_true_r. }
  destruct (Contains _ "KDC_ERR_C_PRINCIPAL_UNKNOWN"%go); cbn [orb].
  { split; [|done]. unfold errors_Is. cbn [chain existsb]. intros ->. by rewrite !orb_true_r. }
  destruct (Contains _ "KDC_ERR_CLIENT_REVOKED"%go); cbn [orb].
  { split; [|done]. unfold errors_Is. cbn [chain existsb]. intros ->. by rewrite !orb_true_r. }
  destruct (_ || _); [|done].
  split; [|done]. unfold errors_Is. cbn [chain existsb]. intros ->. apply orb_true_r.
Qed.

Lemma annotateTicketError_chain_witness :
  let text : ErrorText := fun e => match e with ExtError m _ => m | _ => [] end in
  let err := ExtError "KDC_ERR_PREAUTH_FAILED"%go (Some ctx_Canceled) in
  errors_Is is_Canceled (@annotateTicketError text err) = true.
Proof.
  intros text err. exact (proj1 (@annotateTicketError_chain text err is_Canceled) eq_refl).
Defined.

(** A configured path and the environment's go through the same
    normalization; only FILE caches are accepted. *)
Example ResolveCCachePath_examples :
  let env (s : gostring) := "FILE:/tmp/env"%go in
  @ResolveCCachePath ascii_unicode " file:/tmp/cc "%go env = Ret "/tmp/cc"%go /\
  @ResolveCCachePath ascii_unicode [] env = Ret "/tmp/env"%go /\
  @ResolveCCachePath ascii_unicode "C:\Users\svc\krb5cc"%go env = Ret "C:\Users\svc\krb5cc"%go /\
  (exists e, @ResolveCCachePath ascii_unicode "KCM:1000"%go env = Fail e).
Proof. split_and!; try reflexivity. by eexists. Qed.

Example RealmFromServer_examples :
  @RealmFromServer ascii_unicode "dc1.corp.example.com."%go = "CORP.EXAMPLE.COM"%go /\
  @RealmFromServer ascii_unicode "dc1"%go = [].
Proof. split; reflexivity. Qed.
