(* ===== verification/Gss.v ===== *)
(** * internal/conn/gssclient.go: the GSSAPI client of the Kerberos bind

    The handshake of RFC 4752 section 3.1 over a [gssClient]: the AP-REQ whose
    authenticator carries the channel-binding checksum, the acceptor's AP-REP,
    and (in Conn.v) the final SASL token.  The client is state that the calls
    update; the messages of the Kerberos library are parameters. *)
From S2P Require Export Conn.

Class KrbMessages `{KrbLib} `{GssCrypto} := {
  (** What the library's calls depend on besides their arguments: the KDC, the
      clock and the random source. *)
  KrbWorld : Type;
  Ticket : Type;
  PrincipalName : Type;
  Authenticator : Type;
  APReq : Type;
  KRB5Token : Type;
  EncPart : Type;
  GetServiceTicket : KrbClient -> gostring -> KrbWorld -> (Ticket * EncryptionKey + error) * KrbWorld;
  Credentials_Realm : KrbClient -> gostring;
  Credentials_CName : KrbClient -> PrincipalName;
  NewKRB5TokenAPREQ : KrbClient -> Ticket -> EncryptionKey -> list Z -> list Z -> KrbWorld ->
    (KRB5Token + error) * KrbWorld;
  NewAuthenticator : gostring -> PrincipalName -> KrbWorld -> (Authenticator + error) * KrbWorld;
  (** [auth.Cksum = types.Checksum{CksumType: t, Checksum: b}]. *)
  set_Cksum : Authenticator -> Z -> bytes -> Authenticator;
  NewAPReq : Ticket -> EncryptionKey -> Authenticator -> KrbWorld -> (APReq + error) * KrbWorld;
  (** [types.SetFlag(&apReq.APOptions, o)]. *)
  SetFlag : APReq -> Z -> APReq;
  (** [token.APReq = apReq]. *)
  set_APReq : KRB5Token -> APReq -> KRB5Token;
  token_Marshal : KRB5Token -> bytes + error;
  token_Unmarshal : bytes -> KRB5Token + error;
  (** [Some e] when [IsKRBError], with [token.KRBError]. *)
  token_KRBError : KRB5Token -> option error;
  (** [Some] when [IsAPRep], with [token.APRep.EncPart]. *)
  token_APRep : KRB5Token -> option EncPart;
  DecryptEncPart : EncPart -> EncryptionKey -> bytes + error;
  (** [EncAPRepPart.Unmarshal], of which the source reads [Subkey]. *)
  EncAPRepPart_Subkey : bytes -> EncryptionKey + error;
  (** [chksumtype.GSSAPI] and [flags.APOptionMutualRequired]. *)
  chksumtype_GSSAPI : Z;
  APOptionMutualRequired : Z
}.

Section gss.
Context `{GssApi} `{KrbLib} `{GssCrypto} `{!KrbMessages}.

Definition newGSSClient (src : KrbClient) (cbt : option bytes) : gssClient :=
  mkGssClient src cbt zero_key zero_key.

Definition set_ekey (c : gssClient) (k : EncryptionKey) : gssClient :=
  mkGssClient (g_src c) (g_cbt c) k (g_subkey c).
Definition set_subkey (c : gssClient) (k : EncryptionKey) : gssClient :=
  mkGssClient (g_src c) (g_cbt c) (g_ekey c) k.

Definition DeleteSecContext (c : gssClient) : gssClient := set_subkey (set_ekey c zero_key) zero_key.

(** [gssClient.checksum]. *)
Definition checksum (c : gssClient) : outcome bytes := authenticatorChecksum contextFlags (g_cbt c).

(** ** The monad of the client's methods *)

Definition G (A : Type) : Type := gssClient * KrbWorld -> outcome A * (gssClient * KrbWorld).
#[global] Instance G_ret : MRet G := fun A a s => (Ret a, s).
#[global] Instance G_bind : MBind G := fun A B f m s =>
  match m s with
  | (Ret a, s) => f a s
  | (Fail e, s) => (Fail e, s)
  | (Panic, s) => (Panic, s)
  | (Blocked, s) => (Blocked, s)
  | (OutOfFuel, s) => (OutOfFuel, s)
  end.

Definition g_lift {A} (r : outcome A) : G A := fun s => (r, s).
Definition g_ask {A} (f : KrbWorld -> (A + error) * KrbWorld) : G A := fun '(c, w) =>
  let '(r, w) := f w in (of_sum r, (c, w)).
Definition g_wrap {A} (msg : gostring) (m : G A) : G A := fun s =>
  let '(r, s) := m s in (wrap_err (fun err => Errorf msg [] (Some err)) r, s).
Definition g_update (f : gssClient -> gssClient) : G unit := fun '(c, w) => (Ret tt, (f c, w)).
Definition g_client : G gssClient := fun '(c, w) => (Ret c, (c, w)).

(** ** InitSecContext *)

Definition newAPREQToken (tkt : Ticket) (ekey : EncryptionKey) (apOptions : list Z) : G KRB5Token :=
  c ← g_client;
  token ← g_ask (NewKRB5TokenAPREQ (g_src c) tkt ekey contextFlags apOptions);
  auth ← g_wrap "adldap: building the authenticator: %w"%go
           (g_ask (NewAuthenticator (Credentials_Realm (g_src c)) (Credentials_CName (g_src c))));
  sum ← g_lift (checksum c);
  let auth := set_Cksum auth chksumtype_GSSAPI sum in
  apReq ← g_wrap "adldap: building the AP-REQ: %w"%go (g_ask (NewAPReq tkt ekey auth));
  let apReq := fold_left SetFlag apOptions apReq in
  mret (set_APReq token apReq).

(** The two halves; [input] is [None] when it is [nil].  The result is the
    token to send and whether another one is needed. *)
Definition init_first (target : gostring) (apOptions : list Z) : G (bytes * bool) :=
  c ← g_client;
  '(tkt, ekey) ← g_ask (GetServiceTicket (g_src c) target);
  g_update (fun c => set_ekey c ekey);;
  token ← newAPREQToken tkt ekey apOptions;
  out ← g_wrap "adldap: marshalling the AP-REQ: %w"%go (g_lift (of_sum (token_Marshal token)));
  mret (out, true).

Definition init_reply (input : bytes) : G (bytes * bool) :=
  token ← g_wrap "adldap: reading the acceptor's token: %w"%go (g_lift (of_sum (token_Unmarshal input)));
  match token_KRBError token with
  | Some err => g_lift (Fail err)
  | None =>
      match token_APRep token with
      | Some part =>
          c ← g_client;
          encpart ← g_wrap "adldap: decrypting the AP-REP: %w"%go
                      (g_lift (of_sum (DecryptEncPart part (g_ekey c))));
          subkey ← g_wrap "adldap: reading the AP-REP: %w"%go
                     (g_lift (of_sum (EncAPRepPart_Subkey encpart)));
          g_update (fun c => set_subkey c subkey);;
          mret ([], false)
      | None => mret ([], true)
      end
  end.

Definition InitSecContextWithOptions (target : gostring) (input : option bytes)
    (apOptions : list Z) : G (bytes * bool) :=
  match input with
  | None => init_first target apOptions
  | Some input => init_reply input
  end.

Definition InitSecContext (target : gostring) (input : option bytes) : G (bytes * bool) :=
  InitSecContextWithOptions target input [APOptionMutualRequired].
End gss.
Arguments G {_ _ _} _.

(** ** Lemmas *)

Section lemmas.
Context `{GssApi} `{KrbLib} `{GssCrypto} `{!KrbMessages}.

Lemma G_bind_Ret {A B} (m : G A) (f : A -> G B) s b s' :
  (m ≫= f) s = (Ret b, s') -> exists a s1, m s = (Ret a, s1) /\ f a s1 = (Ret b, s').
Proof. unfold mbind, G_bind. destruct (m s) as [[a|e| | |] s1]; try done. by exists a, s1. Qed.

Lemma g_ask_Ret {A} (f : KrbWorld -> (A + error) * KrbWorld) c w a s' :
  g_ask f (c, w) = (Ret a, s') -> exists w', f w = (inl a, w') /\ s' = (c, w').
Proof. cbn. destruct (f w) as [[a'|e] w']; [|done]. intros [= -> <-]. by exists w'. Qed.

Lemma g_wrap_Ret {A} msg (m : G A) s a s' : g_wrap msg m s = (Ret a, s') -> m s = (Ret a, s').
Proof. unfold g_wrap. destruct (m s) as [r s1]. intros [= ->%wrap_err_Ret <-]. done. Qed.

Lemma g_sum_Ret {A} (r : A + error) s a s' :
  g_lift (of_sum r) s = (Ret a, s') -> r = inl a /\ s' = s.
Proof. destruct r; [|done]. cbn. by intros [= -> <-]. Qed.

(** The checksum with the channel binding, as the acceptor reads it. *)
Definition bound_checksum (cbt : option bytes) : bytes :=
  le_encode 4 16 ++ default (replicate 16 x00) cbt ++ le_encode 4 (flag_word contextFlags 0)
  ++ (if bool_decide (ContextFlagDeleg ∈ contextFlags) then replicate 4 x00 else []).

Lemma authenticatorChecksum_Ret cbt sum :
  authenticatorChecksum contextFlags cbt = Ret sum -> sum = bound_checksum cbt.
Proof.
  destruct (authenticatorChecksum_layout contextFlags cbt) as [Hok Hbad].
  destruct (decide (len (default (replicate 16 x00) cbt) = 16)) as [E|E].
  - rewrite Hok by done. by intros <-%Ret_inj.
  - rewrite Hbad by done. done.
Qed.

(** What the first leg has asked for and sent. *)
Definition sent_APREQ (src : KrbClient) (cbt : option bytes) (target : gostring) (opts : list Z)
    (w : KrbWorld) (ekey : EncryptionKey) (out : bytes) (w' : KrbWorld) : Prop :=
  exists tkt token auth req w1 w2 w3,
    GetServiceTicket src target w = (inl (tkt, ekey), w1) /\
    NewKRB5TokenAPREQ src tkt ekey contextFlags opts w1 = (inl token, w2) /\
    NewAuthenticator (Credentials_Realm src) (Credentials_CName src) w2 = (inl auth, w3) /\
    NewAPReq tkt ekey (set_Cksum auth chksumtype_GSSAPI (bound_checksum cbt)) w3 = (inl req, w') /\
    token_Marshal (set_APReq token (fold_left SetFlag opts req)) = inl out.

Lemma init_first_Ret target opts c w out more c' w' :
  init_first target opts (c, w) = (Ret (out, more), (c', w')) ->
  more = true /\ exists ekey, c' = set_ekey c ekey /\
    sent_APREQ (g_src c) (g_cbt c) target opts w ekey out w'.
Proof.
  unfold init_first. intros (c1 & s1 & [= <- <-] & Hm)%G_bind_Ret.
  apply G_bind_Ret in Hm as ([tkt ekey] & s2 & (w1 & Ht & ->)%g_ask_Ret & Hm).
  apply G_bind_Ret in Hm as ([] & s3 & [= <-] & Hm).
  apply G_bind_Ret in Hm as (token' & s4 & Hn & Hm).
  apply G_bind_Ret in Hm as (out' & s5 & Hout%g_wrap_Ret%g_sum_Ret & [= <- <- Hs]).
  destruct Hout as [Hout ->]. subst s4. unfold newAPREQToken in Hn.
  apply G_bind_Ret in Hn as (c2 & s1 & [= <- <-] & Hn).
  apply G_bind_Ret in Hn as (token & s2 & (w2 & Hk & ->)%g_ask_Ret & Hn).
  apply G_bind_Ret in Hn as (auth & s3 & (w3 & Ha & ->)%g_wrap_Ret%g_ask_Ret & Hn).
  apply G_bind_Ret in Hn as (sum & s4 & [= Hsum <-] & Hn).
  cbn zeta in Hn.
  apply G_bind_Ret in Hn as (req & s5 & (w4 & Hr & ->)%g_wrap_Ret%g_ask_Ret & [= <- <- <-]).
  apply authenticatorChecksum_Ret in Hsum as ->.
  split; [done|]. exists ekey. split; [done|].
  by exists tkt, token, auth, req, w1, w2, w3.
Qed.

(** What the second leg has read. *)
Definition read_APREP (ekey subkey : EncryptionKey) (input : bytes) : Prop :=
  exists token part encpart,
    token_Unmarshal input = inl token /\ token_KRBError token = None /\
    token_APRep token = Some part /\ DecryptEncPart part ekey = inl encpart /\
    EncAPRepPart_Subkey encpart = inl subkey.

Lemma init_reply_Ret input c w out c' w' :
  init_reply input (c, w) = (Ret (out, false), (c', w')) ->
  out = [] /\ w' = w /\ exists subkey, c' = set_subkey c subkey /\ read_APREP (g_ekey c) subkey input.
Proof.
  unfold init_reply. intros (token & s1 & (Hu & ->)%g_wrap_Ret%g_sum_Ret & Hm)%G_bind_Ret.
  destruct (token_KRBError token) eqn:Hk; [done|].
  destruct (token_APRep token) as [part|] eqn:Hp; [|done].
  apply G_bind_Ret in Hm as (c1 & s1 & [= <- <-] & Hm).
  apply G_bind_Ret in Hm as (enc & s2 & (Hd & ->)%g_wrap_Ret%g_sum_Ret & Hm).
  apply G_bind_Ret in Hm as (sub & s3 & (He & ->)%g_wrap_Ret%g_sum_Ret & Hm).
  apply G_bind_Ret in Hm as ([] & s4 & [= <-] & [= <- <- <-]).
  split_and!; [done..|]. exists sub. split; [done|]. by exists token, part, enc.
Qed.

(** The reply of the final exchange: no security layer is selected. *)
Definition sealed_reply (key : EncryptionKey) (authzid reply : bytes) : Prop :=
  exists bits, hmac_bits key = inl bits /\
    token_Seal (mkWrapToken 4 (uint16 (Z.quot bits 8)) 0 1 [] (replicate 4 x00 ++ authzid)) key
    = inl reply.

Lemma NegotiateSaslAuth_Ret c input authzid reply :
  NegotiateSaslAuth c input authzid = Ret reply ->
  exists t, unmarshalWrapToken input true = Ret t /\
    let key := if has_bits (wt_Flags t) 4 then g_subkey c else g_ekey c in
    token_Verify t key = None /\ len (wt_Payload t) = 4 /\ sealed_reply key authzid reply.
Proof.
  unfold NegotiateSaslAuth. intros (t & Ht & Hm)%bind_Ret. case_decide; [done|]. cbv zeta in Hm.
  set (key := if has_bits _ 4 then _ else _) in *.
  destruct (token_Verify t key) eqn:Hv; [done|]. case_decide as Hp; [done|].
  apply bind_Ret in Hm as (bits & Hb & Hs). exists t. split; [done|]. cbv zeta. fold key.
  split_and!; [done..|]. exists bits. destruct (hmac_bits key); [|done]. apply Ret_inj in Hb as ->.
  split; [done|]. change (replicate 4 x00) with [x00; x00; x00; x00].
  destruct (token_Seal _ key); [|done]. by apply Ret_inj in Hs as ->.
Qed.
End lemmas.

(** ** Properties *)

(** C22: a Kerberos bind that goes through has bound the channel.  Over a
    fresh client the three legs that succeed have: sent an AP-REQ whose
    authenticator carries the RFC 4121 checksum over the channel-binding token
    of this connection and whose options ask for mutual authentication; taken
    the subkey from an AP-REP that decrypts under the ticket's session key;
    and answered a token that verifies, under the subkey exactly when the
    acceptor's flag says so, with a sealed choice of no security layer. *)
Theorem handshake_binds_channel `{GssApi} `{KrbLib} `{GssCrypto} `{!KrbMessages} (src : KrbClient)
    (cbt : option bytes) (target : gostring) (w w1 w2 : KrbWorld) (c1 c2 : gssClient)
    (aprep final authzid out1 out2 reply : bytes) (more : bool) :
  InitSecContext target None (newGSSClient src cbt, w) = (Ret (out1, more), (c1, w1)) ->
  InitSecContext target (Some aprep) (c1, w1) = (Ret (out2, false), (c2, w2)) ->
  NegotiateSaslAuth c2 final authzid = Ret reply ->
  more = true /\ out2 = [] /\ exists ekey subkey t,
    sent_APREQ src cbt target [APOptionMutualRequired] w ekey out1 w1 /\
    read_APREP ekey subkey aprep /\
    unmarshalWrapToken final true = Ret t /\
    let key := if has_bits (wt_Flags t) 4 then subkey else ekey in
    token_Verify t key = None /\ len (wt_Payload t) = 4 /\ sealed_reply key authzid reply.
Proof.
  intros (-> & ekey & -> & Hsent)%init_first_Ret (-> & -> & subkey & -> & Hread)%init_reply_Ret
    (t & Ht & Hrest)%NegotiateSaslAuth_Ret.
  split_and!; [done..|]. by exists ekey, subkey, t.
Qed.

(** A key distribution center that hands out the ticket [7] under the key [1]
    and an acceptor whose subkey is [2]; a token is the list of what went into
    it. *)
Definition toy_krb : KrbLib := {|
  KrbConfig := unit; Keytab := unit; CCache := unit; KrbClient := gostring;
  config_Load p := inl tt; config_NewFromString t := inl tt; os_Stat p := None;
  is_ErrNotExist e := false; keytab_Load p := inl tt;
  client_NewWithKeytab u r k c := u ++ "@"%go ++ r; client_NewWithPassword u r p c := u ++ "@"%go ++ r;
  LoadCCache p := inl tt; client_NewFromCCache cc c := inl "ambient"%go
|}.

Definition toy_crypto : GssCrypto := {|
  EncryptionKey := Z;
  token_Verify t k := if k =? 2 then None else Some (ErrNew "bad checksum"%go);
  hmac_bits k := inl 96;
  token_Seal t k := inl (Zb k :: wt_Payload t);
  zero_key := 0
|}.

Definition toy_name (c : @KrbClient toy_krb) : gostring := c.

Definition toy_messages : @KrbMessages toy_krb toy_crypto := {|
  KrbWorld := unit; Ticket := Z; PrincipalName := gostring; Authenticator := bytes;
  APReq := bytes; KRB5Token := bytes; EncPart := bytes;
  GetServiceTicket c spn w := (inl (7, 1 : @EncryptionKey toy_crypto), w);
  Credentials_Realm c := "EXAMPLE.COM"%go; Credentials_CName := toy_name;
  NewKRB5TokenAPREQ c t k fl opts w := (inl [x01], w);
  NewAuthenticator r n w := (inl (r ++ n), w);
  set_Cksum a t b := a ++ b;
  NewAPReq t k a w := (inl a, w);
  SetFlag r o := r ++ [Zb o];
  set_APReq t r := t ++ r;
  token_Marshal t := inl t;
  token_Unmarshal b := inl b;
  token_KRBError b := None;
  token_APRep b := match b with x02 :: r => Some r | _ => None end;
  DecryptEncPart p k := if k =? 1 then inl p else inr (ErrNew "decrypt"%go);
  EncAPRepPart_Subkey b := inl (2 : @EncryptionKey toy_crypto);
  chksumtype_GSSAPI := 0x8003; APOptionMutualRequired := 2
|}.

Definition toy_cbt : bytes := replicate 16 xcb.
Definition toy_final : bytes := @wrap_bytes rfc_gssapi (mkWrapToken 5 0 0 0 [] [x07; x00; x10; x00]).

Lemma handshake_binds_channel_witness :
  exists out, @sent_APREQ rfc_gssapi toy_krb toy_crypto toy_messages "svc"%go (Some toy_cbt)
    "ldap/dc1"%go [2] tt (1 : @EncryptionKey toy_crypto) out tt.
Proof.
  pose (src := "svc"%go : @KrbClient toy_krb).
  destruct (@handshake_binds_channel rfc_gssapi toy_krb toy_crypto toy_messages src (Some toy_cbt)
    "ldap/dc1"%go tt tt tt
    (@mkGssClient toy_krb toy_crypto src (Some toy_cbt) 1 0)
    (@mkGssClient toy_krb toy_crypto src (Some toy_cbt) 1 2)
    [x02] toy_final []
    ([x01] ++ "EXAMPLE.COM"%go ++ src ++ @bound_checksum rfc_gssapi (Some toy_cbt) ++ [x02]) []
    [x02; x00; x00; x00; x00] true eq_refl eq_refl eq_refl)
    as (_ & _ & ekey & subkey & t & Hsent & _).
  eexists. destruct Hsent as (tkt & token & auth & req & w1 & w2 & w3 & Ht & Hrest).
  injection Ht as <- <- <-. exists 7, token, auth, req, tt, w2, w3. split; [reflexivity|exact Hrest].
Defined.
