(* ===== verification/Goldap.v ===== *)
(** * internal/conn: dialling, binding and the go-ldap adapter

    dial.go, bind.go, bind_krb.go, bind_ntlm.go and goldap.go over the LDAP
    library, the TLS library, the file system and the environment, which are
    the class [LdapLib].  Every library call maps a world to a result and a
    world, so the order of the calls is visible. *)
From S2P Require Export LdapErr Gss.

(** The fields of [tls.Config] the source sets; [tls_RootCAs] is [None] for
    the system pool. *)
Record TLSConfig {CertPool : Type} := mkTLSConfig {
  tls_ServerName : gostring;
  tls_MinVersion : Z;
  tls_InsecureSkipVerify : bool;
  tls_RootCAs : option CertPool
}.
Arguments TLSConfig : clear implicits.
Arguments mkTLSConfig {_} _ _ _ _.

Definition VersionTLS12 : Z := 0x0303.

(** [*ldap.Error]: its result code, its [Err], and what its [Error] says. *)
Record LdapError := mkLdapError {
  le_ResultCode : Z;
  le_Err : option error;
  le_Error : gostring
}.

(** A control of a request or a response; [ControlOther] is any type that is
    neither a plain nor a paging control. *)
Inductive LdapControl :=
  | ControlString (oid : gostring) (critical : bool) (value : gostring)
  | ControlPaging (oid : gostring) (cookie : bytes)
  | ControlOther (oid : gostring).

Record LdapSearchRequest := mkLdapSearchRequest {
  lsr_BaseDN : gostring;
  lsr_Scope : Z;
  lsr_DerefAliases : Z;
  lsr_SizeLimit : Z;
  lsr_TimeLimit : Z;
  lsr_TypesOnly : bool;
  lsr_Filter : gostring;
  lsr_Attributes : list gostring;
  lsr_Controls : list LdapControl
}.

Record LdapEntry := mkLdapEntry {
  lde_DN : gostring;
  lde_Attributes : list (gostring * list bytes)
}.

Record LdapSearchResult := mkLdapSearchResult {
  lres_Entries : list LdapEntry;
  lres_Controls : list LdapControl
}.

(** One call of [Add], [Delete] or [Replace] on a modify request. *)
Inductive LdapChange :=
  | ChangeAdd (attr : gostring) (vals : list gostring)
  | ChangeDelete (attr : gostring) (vals : list gostring)
  | ChangeReplace (attr : gostring) (vals : list gostring).

Class LdapLib `{KrbLib} := {
  LdapWorld : Type;
  LdapConn : Type;
  CertPool : Type;
  os_ReadFile : gostring -> LdapWorld -> bytes + error;
  os_Getenv : LdapWorld -> gostring -> gostring;
  (** [pool.AppendCertsFromPEM] on a new pool; [None] when it reports false. *)
  AppendCertsFromPEM : bytes -> option CertPool;
  (** [ldap.DialURL] with a timeout and, for ldaps, a TLS configuration. *)
  ldap_DialURL : gostring -> Z -> option (TLSConfig CertPool) -> LdapWorld -> (LdapConn + error) * LdapWorld;
  ldap_StartTLS : LdapConn -> TLSConfig CertPool -> LdapWorld -> option error * LdapWorld;
  ldap_SetTimeout : LdapConn -> Z -> LdapWorld -> LdapWorld;
  ldap_Close : LdapConn -> LdapWorld -> option error * LdapWorld;
  (** [TLSConnectionState]: the peer certificates and [ok]. *)
  ldap_TLSConnectionState : LdapConn -> LdapWorld -> list Certificate * bool;
  ldap_Bind : LdapConn -> gostring -> gostring -> LdapWorld -> option error * LdapWorld;
  ldap_NTLMBind : LdapConn -> gostring -> gostring -> gostring -> LdapWorld -> option error * LdapWorld;
  (** [GSSAPIBindRequestWithAPOptions] with the client [newGSSClient src cbt],
      whose methods (Gss.v) the library calls, a service principal and the AP
      options. *)
  ldap_GSSAPIBind : LdapConn -> KrbClient -> option bytes -> gostring -> list Z -> LdapWorld ->
    option error * LdapWorld;
  (** [cl.Destroy()]. *)
  client_Destroy : KrbClient -> LdapWorld -> LdapWorld;
  ldap_Search : LdapConn -> LdapSearchRequest -> LdapWorld -> (LdapSearchResult + error) * LdapWorld;
  ldap_SearchWithPaging : LdapConn -> LdapSearchRequest -> Z -> LdapWorld ->
    (LdapSearchResult + error) * LdapWorld;
  ldap_Add : LdapConn -> gostring -> list (gostring * list gostring) -> LdapWorld -> option error * LdapWorld;
  ldap_Modify : LdapConn -> gostring -> list LdapControl -> list LdapChange -> LdapWorld ->
    option error * LdapWorld;
  ldap_ModifyDN : LdapConn -> gostring -> gostring -> bool -> gostring -> LdapWorld -> option error * LdapWorld;
  ldap_Del : LdapConn -> gostring -> LdapWorld -> option error * LdapWorld;
  (** Whether one error of a chain is an [*ldap.Error]. *)
  as_ldap_Error : error -> option LdapError;
  (** Constants of the libraries. *)
  ldap_ScopeBaseObject : Z;
  ldap_ScopeSingleLevel : Z;
  ldap_ScopeWholeSubtree : Z;
  ldap_NeverDerefAliases : Z;
  flags_APOptionMutualRequired : Z
}.

Section goldap.
Context `{Unicode} `{ErrorText} `{Digests} `{KrbLib} `{!LdapLib}.

(** ** dial.go *)

Definition BuildTLSConfig (host caFile : gostring) (skipVerify : bool) (w : LdapWorld)
    : TLSConfig CertPool + error :=
  let cfg := mkTLSConfig host VersionTLS12 skipVerify None in
  match caFile with
  | [] => inl cfg
  | _ =>
      match os_ReadFile caFile w with
      | inr err => inr (Errorf "adldap: cannot read CA certificate %q: %w"%go [FStr caFile] (Some err))
      | inl pemBytes =>
          match AppendCertsFromPEM pemBytes with
          | None => inr (Errorf "adldap: %q contains no PEM certificate"%go [FStr caFile] None)
          | Some pool => inl (mkTLSConfig host VersionTLS12 skipVerify (Some pool))
          end
      end
  end.

(** [net.JoinHostPort]. *)
Definition JoinHostPort (host port : gostring) : gostring :=
  if existsb (fun c => bool_decide (c = ":"%byte)) host
  then "["%go ++ host ++ "]:"%go ++ port
  else host ++ ":"%go ++ port.

Record DialOptions := mkDialOptions {
  d_Host : gostring;
  d_Port : Z;
  d_StartTLS : bool;
  d_TLSConfig : TLSConfig CertPool;
  d_Timeout : Z
}.

(** The connection, TLS-protected, before its timeout is set. *)
Definition dial_tls (o : DialOptions) (w : LdapWorld) : (LdapConn + error) * LdapWorld :=
  let addr := JoinHostPort (d_Host o) (fmt_d (d_Port o)) in
  if d_StartTLS o then
    let '(l, w) := ldap_DialURL ("ldap://"%go ++ addr) (d_Timeout o) None w in
    match l with
    | inr err => (inr err, w)
    | inl l =>
        let '(err, w) := ldap_StartTLS l (d_TLSConfig o) w in
        match err with
        | Some err => (inr err, snd (ldap_Close l w))
        | None => (inl l, w)
        end
    end
  else ldap_DialURL ("ldaps://"%go ++ addr) (d_Timeout o) (Some (d_TLSConfig o)) w.

Definition Dial (o : DialOptions) (w : LdapWorld) : (LdapConn + error) * LdapWorld :=
  let '(l, w) := dial_tls o w in
  match l with
  | inr err => (inr err, w)
  | inl l => (inl l, if 0 <? d_Timeout o then ldap_SetTimeout l (d_Timeout o) w else w)
  end.

(** ** goldap.go *)

Definition scopeToGoLDAP (s : Scope) : Z :=
  match s with
  | ScopeBase => ldap_ScopeBaseObject
  | ScopeOneLevel => ldap_ScopeSingleLevel
  | ScopeSubtree => ldap_ScopeWholeSubtree
  end.

(** [toRawError] of a non-[nil] error. *)
Definition toRawError (err : error) : error :=
  match errors_As as_ldap_Error err with
  | Some le =>
      let msg := match le_Err le with Some e => error_Error e | None => le_Error le end in
      RawError (le_ResultCode le) msg (Some err)
  | None => err
  end.

(** The adapter's calls, their errors lifted to the seam's type. *)
Definition raw_error (r : option error * LdapWorld) : option error * LdapWorld :=
  (option_map toRawError (fst r), snd r).

Definition pageSize : Z := 1000.

(** A control of a request. *)
Definition controlToGoLDAP (ct : Control) : LdapControl :=
  ControlString (c_OID ct) (c_Critical ct) (c_Value ct).

Definition controlFromGoLDAP (ct : LdapControl) : Control :=
  match ct with
  | ControlString oid _ _ | ControlOther oid => mkControl oid false []
  | ControlPaging oid cookie => mkControl oid false cookie
  end.

(** [m[k] = v] of a Go map. *)
Fixpoint map_set {A} (m : list (gostring * A)) (k : gostring) (v : A) : list (gostring * A) :=
  match m with
  | [] => [(k, v)]
  | (k', v') :: m => if decide (k' = k) then (k, v) :: m else (k', v') :: map_set m k v
  end.

Definition entryFromGoLDAP (e : LdapEntry) : Entry :=
  mkEntry (lde_DN e)
    (fold_left (fun m a => map_set m (fst a) (snd a)) (lde_Attributes e) []).

Definition searchToGoLDAP (req : SearchRequest) : LdapSearchRequest :=
  mkLdapSearchRequest (sr_BaseDN req) (scopeToGoLDAP (sr_Scope req)) ldap_NeverDerefAliases
    (sr_SizeLimit req) 0 false (sr_Filter req) (sr_Attributes req)
    (map controlToGoLDAP (sr_Controls req)).

Definition goldap_Search (l : LdapConn) (req : SearchRequest) (w : LdapWorld)
    : (SearchResult + error) * LdapWorld :=
  let sr := searchToGoLDAP req in
  let '(res, w) :=
    if decide (sr_Scope req = ScopeBase) then ldap_Search l sr w
    else ldap_SearchWithPaging l sr pageSize w in
  match res with
  | inr err => (inr (toRawError err), w)
  | inl res => (inl (mkSearchResult (map entryFromGoLDAP (lres_Entries res))
                                    (map controlFromGoLDAP (lres_Controls res))), w)
  end.

(** [toStrings]: a Go string is a byte sequence. *)
Definition toStrings (vals : list bytes) : list gostring := vals.

Definition goldap_Add (l : LdapConn) (dn : gostring) (attrs : list Attribute) (w : LdapWorld) :=
  raw_error (ldap_Add l dn (map (fun a => (a_Type a, toStrings (a_Vals a))) attrs) w).

Definition change_of (m : Modification) : LdapChange :=
  match m_Op m with
  | ModAdd => ChangeAdd (m_Type m) (toStrings (m_Vals m))
  | ModDelete => ChangeDelete (m_Type m) (toStrings (m_Vals m))
  | ModReplace => ChangeReplace (m_Type m) (toStrings (m_Vals m))
  end.

Definition goldap_Modify (l : LdapConn) (dn : gostring) (mods : list Modification)
    (controls : list Control) (w : LdapWorld) :=
  raw_error (ldap_Modify l dn (map controlToGoLDAP controls) (map change_of mods) w).

Definition goldap_ModifyDN (l : LdapConn) (dn newRDN : gostring) (del : bool) (sup : gostring)
    (w : LdapWorld) := raw_error (ldap_ModifyDN l dn newRDN del sup w).

Definition goldap_Delete (l : LdapConn) (dn : gostring) (w : LdapWorld) := raw_error (ldap_Del l dn w).

Definition goldap_Close (l : LdapConn) (w : LdapWorld) := ldap_Close l w.

(** ** bind.go, bind_krb.go and bind_ntlm.go *)

Definition errWrongConn (mechanism : gostring) : error :=
  Errorf "adldap: %s requires the go-ldap connection"%go [FStr mechanism] None.

(** [kb_Getenv] is [None] for a [nil] function. *)
Record KerberosBinder := mkKerberosBinder {
  kb_CCachePath : gostring;
  kb_Keytab : gostring;
  kb_Password : gostring;
  kb_Username : gostring;
  kb_Realm : gostring;
  kb_Krb5ConfPath : gostring;
  kb_SPN : gostring;
  kb_Host : gostring;
  kb_Getenv : option (gostring -> gostring)
}.

(** The implementations of [Binder]; [noBinder] is client.go's. *)
Inductive Binder :=
  | SimpleBinder (Username Password : gostring)
  | KerberosBind (b : KerberosBinder)
  | NTLMBinder (Domain Username Password : gostring)
  | noBinder.

Definition SimpleBinder_Describe (user : gostring) : gostring := "simple bind as "%go ++ user.
Definition KerberosBinder_Describe (b : KerberosBinder) : gostring :=
  match kb_Keytab b, kb_Password b with
  | _ :: _, _ => "GSSAPI bind as "%go ++ kb_Username b ++ "@"%go ++ kb_Realm b ++ " from a keytab"%go
  | [], _ :: _ => "GSSAPI bind as "%go ++ kb_Username b ++ "@"%go ++ kb_Realm b ++ " from a supplied password"%go
  | [], [] => "GSSAPI bind from the ambient credential cache"%go
  end.
Definition NTLMBinder_Describe (domain user : gostring) : gostring :=
  "NTLM bind as "%go ++ domain ++ "\"%go ++ user.
Definition noBinder_Describe : gostring := "pre-bound connection"%go.

Definition Describe (b : Binder) : gostring :=
  match b with
  | SimpleBinder user _ => SimpleBinder_Describe user
  | KerberosBind b => KerberosBinder_Describe b
  | NTLMBinder domain user _ => NTLMBinder_Describe domain user
  | noBinder => noBinder_Describe
  end.

Definition spn (b : KerberosBinder) : gostring :=
  match kb_SPN b with [] => "ldap/"%go ++ kb_Host b | s => s end.

Definition apOptions : list Z := [flags_APOptionMutualRequired].

Definition ticket_options (b : KerberosBinder) (w : LdapWorld) : ticketSourceOptions :=
  mkTicketSourceOptions (kb_CCachePath b) (kb_Keytab b) (kb_Password b) (kb_Username b) (kb_Realm b)
    (kb_Krb5ConfPath b) (kb_Host b) (default (os_Getenv w) (kb_Getenv b)).

(** The bind once the connection is known to be go-ldap's. *)
Definition krb_bind (b : KerberosBinder) (g : LdapConn) (w : LdapWorld) : outcome unit * LdapWorld :=
  let '(state, tlsOK) := ldap_TLSConnectionState g w in
  match peerCertificate state tlsOK with
  | None => (Fail (ErrNew "adldap: no TLS state on this connection; TLS is mandatory in this package, and binding without a channel-binding token would be a silent downgrade"%go), w)
  | Some cert =>
      match newTicketSource (ticket_options b w) with
      | Ret src =>
          let '(err, w) := ldap_GSSAPIBind g src (tokenForCertificate (Some cert)) (spn b) apOptions w in
          (of_nil (option_map (fun e => annotateTicketError (toRawError e)) err), client_Destroy src w)
      | Fail err => (Fail (annotateTicketError err), w)
      | Panic => (Panic, w)
      | Blocked => (Blocked, w)
      | OutOfFuel => (OutOfFuel, w)
      end
  end.

(** [Bind(ctx, c)] of each implementation; [c] is [None] when the connection is
    not go-ldap's. *)
Definition SimpleBinder_Bind (user password : gostring) (c : option LdapConn) (w : LdapWorld)
    : outcome unit * LdapWorld :=
  match password with
  | [] => (Fail (ErrNew "adldap: simple bind with an empty password would bind anonymously"%go), w)
  | _ =>
      match c with
      | None => (Fail (errWrongConn "SimpleBinder"%go), w)
      | Some g => let '(err, w) := raw_error (ldap_Bind g user password w) in (of_nil err, w)
      end
  end.

Definition KerberosBinder_Bind (b : KerberosBinder) (c : option LdapConn) (w : LdapWorld)
    : outcome unit * LdapWorld :=
  match c with
  | None => (Fail (errWrongConn "KerberosBinder"%go), w)
  | Some g => krb_bind b g w
  end.

Definition NTLMBinder_Bind (domain user password : gostring) (c : option LdapConn) (w : LdapWorld)
    : outcome unit * LdapWorld :=
  match c with
  | None => (Fail (errWrongConn "NTLMBinder"%go), w)
  | Some g => let '(err, w) := raw_error (ldap_NTLMBind g domain user password w) in (of_nil err, w)
  end.

Definition noBinder_Bind (w : LdapWorld) : outcome unit * LdapWorld := (Ret tt, w).

(** A call through the interface. *)
Definition Bind (b : Binder) (c : option LdapConn) (w : LdapWorld) : outcome unit * LdapWorld :=
  match b with
  | SimpleBinder user password => SimpleBinder_Bind user password c w
  | KerberosBind b => KerberosBinder_Bind b c w
  | NTLMBinder domain user password => NTLMBinder_Bind domain user password c w
  | noBinder => noBinder_Bind w
  end.
End goldap.

(** The implementation behind a call of [Bind]. *)
Ltac unfold_bind :=
  cbn [Bind]; unfold SimpleBinder_Bind, KerberosBinder_Bind, NTLMBinder_Bind, noBinder_Bind.

(** ** Lemmas *)

Lemma Index_bound s sub i : Index s sub = Some i -> 0 <= i /\ i + len sub <= len s.
Proof.
  revert i. induction s as [|c s IH]; intros i; cbn [Index];
    destruct (strip_prefix sub _) eqn:E; try done.
  - intros [= <-]. apply strip_prefix_spec in E as [-> _]%eq_sym%app_eq_nil. done.
  - intros [= <-]. apply strip_prefix_spec in E. rewrite E, len_app. pose proof (len_nonneg l). lia.
  - destruct (Index s sub) as [j|]; [|done]. intros [= <-]. specialize (IH j eq_refl).
    rewrite len_cons. lia.
Qed.

Lemma ResolveCCachePath_returns `{Unicode} explicit getenv : returns (ResolveCCachePath explicit getenv).
Proof.
  unfold ResolveCCachePath. cbv zeta. set (raw := match TrimSpace explicit with [] => _ | _ => _ end).
  destruct raw as [|c r] eqn:E; [done|]. destruct (Index (c :: r) ":"%go) as [i|] eqn:Ei; [|done].
  apply Index_bound in Ei as [H0i H1i]. rewrite len_cons in H1i at 1. change (len []) with 0 in H1i.
  case_decide; [done|]. apply returns_bind; [apply slice_returns; lia|]. intros head _.
  case_decide; [apply slice_returns; lia|]. by case_match.
Qed.

Lemma loadKrb5Conf_returns `{Unicode} `{KrbLib} path realm kdc : returns (loadKrb5Conf path realm kdc).
Proof.
  unfold loadKrb5Conf. destruct path as [|c r].
  - destruct (os_Stat _) as [err|].
    + destruct (is_ErrNotExist err); [|done]. apply returns_bind.
      * unfold synthesizeKrb5Conf. by destruct realm, kdc.
      * intros text _. apply returns_wrap_err. by destruct (config_NewFromString text).
    + apply returns_wrap_err. by destruct (config_Load _).
  - apply returns_wrap_err. by destruct (config_Load _).
Qed.

Lemma newTicketSource_returns `{Unicode} `{KrbLib} o : returns (newTicketSource o).
Proof.
  unfold newTicketSource. cbv zeta. apply returns_bind; [apply loadKrb5Conf_returns|]. intros conf _.
  destruct (o_Keytab o) as [|k kt].
  - destruct (o_Password o) as [|p pw]; [|by destruct (o_Username o)].
    apply returns_bind; [apply ResolveCCachePath_returns|]. intros path _.
    apply returns_bind; [apply returns_wrap_err; by destruct (LoadCCache path)|].
    intros cc _. by destruct (client_NewFromCCache cc conf).
  - destruct (o_Username o); [done|]. apply returns_bind; [|done].
    apply returns_wrap_err. by destruct (keytab_Load _).
Qed.

Section lemmas.
Context `{Unicode} `{ErrorText} `{Digests} `{KrbLib} `{!LdapLib}.

(** [Bind] neither panics nor blocks. *)
Lemma Bind_returns b c w : returns (fst (Bind b c w)).
Proof.
  destruct b as [user pw|kb|dom user pw|]; unfold_bind.
  - destruct pw; [done|]. destruct c as [g|]; [|done].
    destruct (raw_error _) as [err w']. by destruct err.
  - destruct c as [g|]; [|done]. unfold krb_bind.
    destruct (ldap_TLSConnectionState g w) as [state ok]. destruct (peerCertificate state ok); [|done].
    pose proof (newTicketSource_returns (ticket_options kb w)) as Hr.
    destruct (newTicketSource _); try done.
    destruct (ldap_GSSAPIBind _ _ _ _ _ _) as [err w']. by destruct err.
  - destruct c as [g|]; [|done]. destruct (raw_error _) as [err w']. by destruct err.
  - done.
Qed.

(** ** A connection is protected before it is used *)

(** [l] was dialled as ldaps, or upgraded by StartTLS, with the configuration
    [tls]. *)
Definition encrypted (o : DialOptions) (l : LdapConn) (w w' : LdapWorld) : Prop :=
  let addr := JoinHostPort (d_Host o) (fmt_d (d_Port o)) in
  if d_StartTLS o then
    exists w0, ldap_DialURL ("ldap://"%go ++ addr) (d_Timeout o) None w = (inl l, w0) /\
      ldap_StartTLS l (d_TLSConfig o) w0 = (None, w')
  else ldap_DialURL ("ldaps://"%go ++ addr) (d_Timeout o) (Some (d_TLSConfig o)) w = (inl l, w').

Lemma dial_tls_encrypted o w l w' : dial_tls o w = (inl l, w') -> encrypted o l w w'.
Proof.
  unfold dial_tls, encrypted. destruct (d_StartTLS o); [|done].
  destruct (ldap_DialURL _ _ _ _) as [[l0|e] w0]; [|done].
  destruct (ldap_StartTLS l0 _ w0) as [[e|] w1] eqn:Es; [done|].
  intros [= -> <-]. by exists w0.
Qed.

(** The connection after its timeout is set. *)
Definition timed (o : DialOptions) (l : LdapConn) (w : LdapWorld) : LdapWorld :=
  if 0 <? d_Timeout o then ldap_SetTimeout l (d_Timeout o) w else w.

Lemma Dial_encrypted o w l w' :
  Dial o w = (inl l, w') -> exists w0, encrypted o l w w0 /\ w' = timed o l w0.
Proof.
  unfold Dial. destruct (dial_tls o w) as [[l0|e] w0] eqn:Ed; [|done].
  intros [= -> <-]. exists w0. by split; [apply dial_tls_encrypted|].
Qed.

(** ** What a Kerberos bind has sent *)

Definition bound_to_channel (kb : KerberosBinder) (l : LdapConn) (w w' : LdapWorld) : Prop :=
  exists cert certs src w1,
    ldap_TLSConnectionState l w = (cert :: certs, true) /\
    newTicketSource (ticket_options kb w) = Ret src /\
    ldap_GSSAPIBind l src (Some (channelBindingToken cert)) (spn kb) apOptions w = (None, w1) /\
    w' = client_Destroy src w1.

Lemma krb_bind_Ret kb l w w' : krb_bind kb l w = (Ret tt, w') -> bound_to_channel kb l w w'.
Proof.
  unfold krb_bind. destruct (ldap_TLSConnectionState l w) as [state ok] eqn:Es.
  destruct (peerCertificate state ok) as [cert|] eqn:Ec; [|done].
  destruct (newTicketSource _) as [src|e| | |] eqn:Et; try done.
  destruct (ldap_GSSAPIBind _ _ _ _ _ _) as [[e|] w1] eqn:Eg; [done|]. intros [= <-].
  unfold peerCertificate in Ec. destruct state as [|c0 certs]; [done|]. destruct ok; [|done].
  injection Ec as ->. by exists cert, certs, src, w1.
Qed.

(** ** Search results *)

Lemma map_set_fresh {A} (m : list (gostring * A)) k v :
  k ∉ map fst m -> map_set m k v = m ++ [(k, v)].
Proof.
  induction m as [|[k' v'] m IH]; [done|]. cbn. intros Hk. apply not_elem_of_cons in Hk as [Hka Hkb].
  rewrite decide_False by done. by rewrite IH.
Qed.

Lemma map_get_set {A} (m : list (gostring * A)) k v k' :
  map_get (map_set m k v) k' = if decide (k = k') then Some v else map_get m k'.
Proof.
  unfold map_get. induction m as [|[k0 v0] m IH]; cbn; [by case_decide|].
  destruct (decide (k0 = k)) as [->|Hk]; cbn.
  - by case_decide.
  - rewrite IH. destruct (decide (k0 = k')), (decide (k = k')); congruence.
Qed.

(** Attribute names that are distinct keep their order and values. *)
Lemma entryFromGoLDAP_distinct e :
  List.NoDup (map fst (lde_Attributes e)) -> entryFromGoLDAP e = mkEntry (lde_DN e) (lde_Attributes e).
Proof.
  intros Hnd. unfold entryFromGoLDAP. f_equal.
  assert (forall (l acc : list (gostring * list bytes)), List.NoDup (map fst (acc ++ l)) ->
    fold_left (fun m a => map_set m (fst a) (snd a)) l acc = acc ++ l) as Hg.
  { clear. induction l as [|[k v] l IH]; intros acc Hnd; cbn; [by rewrite app_nil_r|].
    rewrite map_set_fresh.
    - rewrite IH by (by rewrite <- app_assoc). by rewrite <- app_assoc.
    - rewrite map_app in Hnd. cbn in Hnd. apply List.NoDup_remove_2 in Hnd.
      intros Hk. apply Hnd, in_app_iff. left. by apply list_elem_of_In. }
  by apply Hg.
Qed.

(** A repeated attribute keeps the values the library listed last. *)
Lemma entryFromGoLDAP_last e k v l1 l2 :
  lde_Attributes e = l1 ++ (k, v) :: l2 -> k ∉ map fst l2 ->
  map_get (en_Attrs (entryFromGoLDAP e)) k = Some v.
Proof.
  intros He Hk. unfold entryFromGoLDAP. rewrite He. cbn [en_Attrs]. rewrite fold_left_app. cbn.
  set (acc := map_set _ k v).
  assert (map_get acc k = Some v) as Ha by (subst acc; rewrite map_get_set; by rewrite decide_True).
  clearbody acc. clear He. revert acc Ha. induction l2 as [|[k' v'] l2 IH]; intros acc Ha; [done|].
  cbn in *. apply not_elem_of_cons in Hk as [Hka Hkb]. apply IH; [done|].
  rewrite map_get_set. rewrite decide_False; [done|congruence].
Qed.
End lemmas.

(** ** Properties *)

(** A binder with another secret, as long as the same secrets are set. *)
Definition with_secret (b : Binder) (p : gostring) : Binder :=
  match b with
  | SimpleBinder user _ => SimpleBinder user p
  | KerberosBind kb =>
      match kb_Password kb with
      | [] => b
      | _ => KerberosBind (mkKerberosBinder (kb_CCachePath kb) (kb_Keytab kb) p (kb_Username kb)
               (kb_Realm kb) (kb_Krb5ConfPath kb) (kb_SPN kb) (kb_Host kb) (kb_Getenv kb))
      end
  | NTLMBinder dom user _ => NTLMBinder dom user p
  | noBinder => noBinder
  end.

(** The text a binder logs about itself does not depend on its password. *)
Lemma Describe_hides_secrets b p : p <> [] -> Describe (with_secret b p) = Describe b.
Proof.
  intros Hp. destruct b as [user pw|kb|dom user pw|]; try done. cbn.
  destruct (kb_Password kb) eqn:E; cbn; unfold KerberosBinder_Describe; cbn; rewrite ?E; [done|].
  by destruct p, (kb_Keytab kb).
Qed.

(** C33: a refusal keeps its identity across the seam.  An LDAP error, however
    deeply it is wrapped, is classified by its own result code and the
    diagnostic of the domain controller, and stays in the chain; a
    cancellation stays a transport failure; and an error that carries no LDAP
    result is a transport failure of the operation. *)
Theorem refusal_classified `{ErrorText} `{KrbLib} `{!LdapLib} `{AdCore} (op : gostring) (err : error) :
  (forall test, errors_Is test err = true -> errors_Is test (toRawError err) = true) /\
  (forall le, errors_As as_ldap_Error err = Some le ->
     errors_Is is_Canceled err = false -> errors_Is is_DeadlineExceeded err = false ->
     Classify op (toRawError err) =
       classify_raw op (le_ResultCode le)
         (match le_Err le with Some e => error_Error e | None => le_Error le end) (Some err)) /\
  (errors_Is is_Canceled err || errors_Is is_DeadlineExceeded err = true ->
     is_kind KindTransport (Classify op (toRawError err)) = true) /\
  (errors_As as_ldap_Error err = None -> errors_As as_RawError err = None ->
     Classify op (toRawError err) = adErr KindTransport op err).
Proof.
  assert (forall test, errors_Is test err = true -> errors_Is test (toRawError err) = true) as Hkeep.
  { intros test Ht. unfold toRawError. destruct (errors_As _ err); [|done].
    unfold errors_Is in *. cbn [chain existsb]. rewrite Ht. apply orb_true_r. }
  split_and!; [exact Hkeep|..].
  - intros le Hle Hc Hd. unfold toRawError. rewrite Hle. unfold Classify.
    unfold errors_Is in *. cbn [chain existsb is_Canceled is_DeadlineExceeded]. rewrite Hc, Hd.
    done.
  - intros Hcd. unfold Classify.
    assert (errors_Is is_Canceled (toRawError err) || errors_Is is_DeadlineExceeded (toRawError err) = true)
      as ->; [|done].
    apply orb_true_iff. apply orb_true_iff in Hcd as [E|E]; apply Hkeep in E; tauto.
  - intros Hle Hraw. unfold toRawError. rewrite Hle. unfold Classify. rewrite Hraw. by case_match.
Qed.

(** ** A concrete library

    A world is the log of the calls, newest first; a connection is the URL it
    was dialled at; every search answers the rootDSE of example.com. *)
Definition toy_root : LdapEntry :=
  mkLdapEntry [] [("defaultNamingContext"%go, ["DC=example,DC=com"%go]);
                  ("schemaNamingContext"%go, ["CN=Schema"%go]);
                  ("configurationNamingContext"%go, ["CN=Configuration"%go])].
Definition toy_certificate : Certificate := mkCertificate SHA384WithRSA [x30; x01].
Definition toy_conn : Type := gostring.
Definition toy_log : Type := list gostring.
Definition say (call : gostring) (w : toy_log) : option error * toy_log := (None, call :: w).

Definition toy_ldap : @LdapLib toy_krb := {|
  LdapWorld := toy_log; LdapConn := toy_conn; CertPool := gostring;
  os_ReadFile p w := if decide (p = "/ca.pem"%go) then inl "PEM"%go else inr (ErrNew "no such file"%go);
  os_Getenv w k := "/tmp/krb5cc"%go;
  AppendCertsFromPEM b := if decide (b = "PEM"%go) then Some b else None;
  ldap_DialURL url t tls w := (inl url, ("Dial "%go ++ url) :: w);
  ldap_StartTLS l tls w := say ("StartTLS "%go ++ tls_ServerName tls) w;
  ldap_SetTimeout l t w := w;
  ldap_Close l w := say "Close"%go w;
  ldap_TLSConnectionState l w := ([toy_certificate], true);
  ldap_Bind l u p w := say ("Bind "%go ++ u) w;
  ldap_NTLMBind l d u p w := say ("NTLM "%go ++ u) w;
  ldap_GSSAPIBind l src cbt spn opts w := say ("GSSAPI "%go ++ spn) w;
  client_Destroy src w := "Destroy"%go :: w;
  ldap_Search l sr w := (inl (mkLdapSearchResult [toy_root] []), "Search"%go :: w);
  ldap_SearchWithPaging l sr n w := (inl (mkLdapSearchResult [toy_root] []), "Search"%go :: w);
  ldap_Add l dn attrs w := say "Add"%go w;
  ldap_Modify l dn cs ms w := say "Modify"%go w;
  ldap_ModifyDN l dn rdn d sup w := say "ModifyDN"%go w;
  ldap_Del l dn w := say "Delete"%go w;
  as_ldap_Error e := match e with ExtError m w => Some (mkLdapError 50 w m) | _ => None end;
  ldap_ScopeBaseObject := 0; ldap_ScopeSingleLevel := 1; ldap_ScopeWholeSubtree := 2;
  ldap_NeverDerefAliases := 0; flags_APOptionMutualRequired := 2
|}.

Definition toy_text : ErrorText := fun e => match e with ErrNew m | ExtError m _ => m | _ => [] end.

(** "00000005: ..." is ERROR_ACCESS_DENIED, which the code table leaves to
    the result code. *)
Lemma refusal_classified_witness :
  let err := Errorf "add: %w"%go [] (Some (ExtError "LDAP 50"%go (Some (ErrNew "00000005: SecErr"%go)))) in
  @Classify sample_adcore "Group.Create"%go (@toRawError toy_text toy_krb toy_ldap err) =
  @classify_raw sample_adcore "Group.Create"%go 50 "00000005: SecErr"%go (Some err).
Proof.
  intros err.
  exact (proj1 (proj2 (@refusal_classified toy_text toy_krb toy_ldap sample_adcore "Group.Create"%go err))
    (mkLdapError 50 (Some (ErrNew "00000005: SecErr"%go)) "LDAP 50"%go) eq_refl eq_refl eq_refl).
Defined.
