(* ===== verification/Pool.v ===== *)
(** * internal/conn/pool.go: the connection pool

    The critical sections of [Acquire], [Release] and [Close] are functions on
    the pool ([try_send], [recv], [acquire_section], [release_section],
    [close_section]); [astep] composes them into the program of one borrowed
    connection, from the call of [Acquire] to the end of [Release] or
    [Discard], and [step] interleaves any number of borrowers with any number
    of [Close] calls.  Connections are numbered in the order they are dialled. *)
From S2P Require Export GoStd.

(** [sem] is the number of permits in the buffered channel, [size] its
    capacity. *)
Record Pool (C : Type) := mkPool {
  size : nat;
  sem : nat;
  idle : list C;
  done : bool
}.
Arguments mkPool {C} _ _ _ _.
Arguments size {C} _.
Arguments sem {C} _.
Arguments idle {C} _.
Arguments done {C} _.

Section sections.
Context {C : Type}.

Definition NewPool (n : Z) : Pool C :=
  let n := if decide (n <= 0) then 4 else n in
  mkPool (Z.to_nat n) 0 [] false.

(** [p.sem <- struct{}{}]; [None] when the channel is full. *)
Definition try_send (p : Pool C) : option (Pool C) :=
  if decide (sem p < size p)%nat then Some (mkPool (size p) (S (sem p)) (idle p) (done p)) else None.

(** [<-p.sem]; [None] when the channel is empty. *)
Definition recv (p : Pool C) : option (Pool C) :=
  match sem p with
  | O => None
  | S k => Some (mkPool (size p) k (idle p) (done p))
  end.

Inductive acquired :=
  | AcqClosed
  | AcqReuse (c : C) (p : Pool C)
  | AcqDial.

(** What [Acquire] does under the mutex: the last idle connection is taken. *)
Definition acquire_section (p : Pool C) : acquired :=
  if done p then AcqClosed
  else match rev (idle p) with
       | c :: r => AcqReuse c (mkPool (size p) (sem p) (rev r) (done p))
       | [] => AcqDial
       end.

(** What [Release] does under the mutex; [true] when the connection must be
    closed instead. *)
Definition release_section (p : Pool C) (c : C) : Pool C * bool :=
  if done p then (p, true)
  else (mkPool (size p) (sem p) (idle p ++ [c]) (done p), false).

(** What [Close] does under the mutex: the connections it goes on to close. *)
Definition close_section (p : Pool C) : Pool C * list C :=
  (mkPool (size p) (sem p) [] true, idle p).
End sections.

(** ** Borrowers *)

(** Where one borrower is. *)
Inductive pc :=
  | Waiting                       (* in the select of Acquire *)
  | HasPermit                     (* before the mutex *)
  | Dialing
  | Binding (c : nat)
  | BindFailed (c : nat) (e : error)  (* about to close the connection *)
  | GivingBack (e : error)        (* about to give the permit back and fail *)
  | Leased (c : nat)
  | Releasing (c : nat)           (* in Release, before the mutex *)
  | ClosingLate (c : nat)         (* Release after Close *)
  | Discarding (c : nat)
  | ReturningPermit               (* the last statement of Release and Discard *)
  | Finished (e : option error).

(** What the environment decides at a step: which arm of the select fires, and
    the results of [Dial] and [Bind]; whether the lease is released or
    discarded.  [EvRun] is a step with nothing to decide. *)
Inductive event :=
  | EvRun
  | EvCtxDone (e : error)
  | EvDial (r : option error)
  | EvBind (r : option error)
  | EvDiscard.

Record shared := mkShared {
  pool : Pool nat;
  next : nat;             (* connections dialled so far *)
  closing : list nat;     (* taken by Close, not closed yet *)
  closed : list nat
}.

Definition set_pool (g : shared) (p : Pool nat) : shared :=
  mkShared p (next g) (closing g) (closed g).
Definition close_conn (g : shared) (c : nat) : shared :=
  mkShared (pool g) (next g) (closing g) (c :: closed g).

(** One atomic step of a borrower. *)
Definition astep (ev : event) (g : shared) (a : pc) : option (shared * pc) :=
  match a, ev with
  | Waiting, EvRun => match try_send (pool g) with
                      | Some p => Some (set_pool g p, HasPermit)
                      | None => None
                      end
  | Waiting, EvCtxDone e => Some (g, Finished (Some e))
  | HasPermit, EvRun =>
      match acquire_section (pool g) with
      | AcqClosed => Some (g, GivingBack ErrPoolClosed)
      | AcqReuse c p => Some (set_pool g p, Leased c)
      | AcqDial => Some (g, Dialing)
      end
  | Dialing, EvDial None =>
      Some (mkShared (pool g) (S (next g)) (closing g) (closed g), Binding (next g))
  | Dialing, EvDial (Some e) => Some (g, GivingBack e)
  | Binding c, EvBind None => Some (g, Leased c)
  | Binding c, EvBind (Some e) => Some (g, BindFailed c e)
  | BindFailed c e, EvRun => Some (close_conn g c, GivingBack e)
  | GivingBack e, EvRun => match recv (pool g) with
                           | Some p => Some (set_pool g p, Finished (Some e))
                           | None => None
                           end
  | Leased c, EvRun => Some (g, Releasing c)
  | Leased c, EvDiscard => Some (g, Discarding c)
  | Releasing c, EvRun =>
      let '(p, late) := release_section (pool g) c in
      Some (set_pool g p, if late then ClosingLate c else ReturningPermit)
  | ClosingLate c, EvRun => Some (close_conn g c, ReturningPermit)
  | Discarding c, EvRun => Some (close_conn g c, ReturningPermit)
  | ReturningPermit, EvRun => match recv (pool g) with
                              | Some p => Some (set_pool g p, Finished None)
                              | None => None
                              end
  | _, _ => None
  end.

Definition state : Type := shared * list pc.

Inductive step : state -> state -> Prop :=
  | step_call g l : step (g, l) (g, l ++ [Waiting])
  | step_act ev g g' l1 a a' l2 :
      astep ev g a = Some (g', a') -> step (g, l1 ++ a :: l2) (g', l1 ++ a' :: l2)
  | step_close g l :
      step (g, l) (let '(p, cs) := close_section (pool g) in
                   (mkShared p (next g) (closing g ++ cs) (closed g), l))
  | step_close_one g l c cs :
      closing g = c :: cs ->
      step (g, l) (mkShared (pool g) (next g) cs (c :: closed g), l).

Definition initial (n : Z) : state := (mkShared (NewPool n) 0 [] [], []).

Inductive reachable (n : Z) : state -> Prop :=
  | reach_init : reachable n (initial n)
  | reach_step s s' : reachable n s -> step s s' -> reachable n s'.

(** ** The invariant *)

(** Does a borrower hold a permit? *)
Definition permit (a : pc) : nat :=
  match a with Waiting | Finished _ => 0 | _ => 1 end.

(** Is it dialling, or in charge of a connection? *)
Definition busy (a : pc) : nat :=
  match a with
  | Dialing | Binding _ | BindFailed _ _ | Leased _ | Releasing _ | ClosingLate _ | Discarding _ => 1
  | _ => 0
  end.

(** The connection a borrower is in charge of. *)
Definition held (a : pc) : list nat :=
  match a with
  | Binding c | BindFailed c _ | Leased c | Releasing c | ClosingLate c | Discarding c => [c]
  | _ => []
  end.

Definition occ (c : nat) (l : list nat) : nat := count_occ Nat.eq_dec l c.

Arguments occ : simpl never.

(** How often connection [c] occurs in the whole system. *)
Definition places (c : nat) (s : state) : nat :=
  let '(g, l) := s in
  (occ c (idle (pool g)) + occ c (flat_map held l) + occ c (closing g) + occ c (closed g))%nat.

Record inv (n : Z) (s : state) : Prop := {
  inv_size : size (pool (fst s)) = size (NewPool (C := nat) n);
  inv_sem : sem (pool (fst s)) = sum_list_with permit (snd s);
  inv_cap : (sem (pool (fst s)) <= size (pool (fst s)))%nat;
  inv_bound : (length (idle (pool (fst s))) + sum_list_with busy (snd s)
               <= size (pool (fst s)))%nat;
  inv_done : done (pool (fst s)) = true -> idle (pool (fst s)) = [];
  inv_places c : places c s = if decide (c < next (fst s))%nat then 1%nat else 0%nat
}.

Lemma sum_mid {A} (f : A -> nat) l1 a l2 :
  sum_list_with f (l1 ++ a :: l2) = (sum_list_with f l1 + (f a + sum_list_with f l2))%nat.
Proof. by rewrite sum_list_with_app. Qed.

Lemma occ_app c l1 l2 : occ c (l1 ++ l2) = (occ c l1 + occ c l2)%nat.
Proof. apply count_occ_app. Qed.

Lemma occ_cons c x l : occ c (x :: l) = ((if decide (c = x) then 1 else 0) + occ c l)%nat.
Proof.
  unfold occ. cbn [count_occ]. destruct (Nat.eq_dec x c), (decide (c = x)); congruence || lia.
Qed.

Lemma held_mid l1 a l2 : flat_map held (l1 ++ a :: l2) = flat_map held l1 ++ held a ++ flat_map held l2.
Proof. rewrite flat_map_app. done. Qed.

Lemma busy_permit a : (busy a <= permit a)%nat.
Proof. by destruct a; cbn; lia. Qed.

Lemma sum_busy_permit l : (sum_list_with busy l <= sum_list_with permit l)%nat.
Proof. induction l as [|a l IH]; cbn; [lia|]. pose proof (busy_permit a). lia. Qed.

Lemma inv_initial n : inv n (initial n).
Proof.
  constructor; cbn; try done; lia.
Qed.

Lemma try_send_Some (p p' : Pool nat) :
  try_send p = Some p' ->
  (sem p < size p)%nat /\ p' = mkPool (size p) (S (sem p)) (idle p) (done p).
Proof. unfold try_send. case_decide; naive_solver. Qed.

Lemma recv_Some (p p' : Pool nat) :
  recv p = Some p' -> exists k, sem p = S k /\ p' = mkPool (size p) k (idle p) (done p).
Proof. unfold recv. destruct (sem p); naive_solver. Qed.

Lemma acquire_reuse (p p' : Pool nat) c :
  acquire_section p = AcqReuse c p' ->
  exists l, done p = false /\ idle p = l ++ [c] /\ p' = mkPool (size p) (sem p) l false.
Proof.
  unfold acquire_section. destruct (done p) eqn:E; [done|].
  destruct (rev (idle p)) as [|x r] eqn:Er; [done|]. intros [= <- <-]. exists (rev r).
  split_and!; [done| |done].
  apply (f_equal (@rev nat)) in Er. by rewrite rev_involutive in Er.
Qed.

Lemma acquire_dial (p : Pool nat) :
  acquire_section p = AcqDial -> done p = false /\ idle p = [].
Proof.
  unfold acquire_section. destruct (done p) eqn:E; [done|].
  destruct (rev (idle p)) as [|x r] eqn:Er; [|done]. intros _. split; [done|].
  apply (f_equal (@rev nat)) in Er. by rewrite rev_involutive in Er.
Qed.

Ltac inv_simpl :=
  cbn [fst snd pool next closing closed set_pool close_conn size sem idle done] in *;
  rewrite ?sum_mid, ?held_mid, ?occ_app, ?occ_cons in *;
  cbn [permit busy held app] in *; rewrite ?occ_app, ?occ_cons in *.

(** Every step of a borrower is one of four kinds of change, each of which
    keeps the invariant. *)
Lemma inv_change n g g' l1 a a' l2 :
  inv n (g, l1 ++ a :: l2) ->
  size (pool g') = size (pool g) ->
  (sem (pool g') + permit a = sem (pool g) + permit a')%nat ->
  (sem (pool g') <= size (pool g'))%nat ->
  (length (idle (pool g')) + busy a' <= length (idle (pool g)) + busy a
   \/ idle (pool g') = [] /\ busy a' = 1 /\ permit a' = 1 /\ next g' = next g)%nat ->
  (done (pool g') = true -> idle (pool g') = []) ->
  (forall c, (occ c (idle (pool g')) + occ c (held a') + occ c (closing g') + occ c (closed g')
      + (if decide (c < next g) then 1 else 0)
    = occ c (idle (pool g)) + occ c (held a) + occ c (closing g) + occ c (closed g)
      + (if decide (c < next g') then 1 else 0))%nat) ->
  inv n (g', l1 ++ a' :: l2).
Proof.
  intros [Hsz Hsem Hcap Hb Hd Hp] Hsize Hs Hc Hbusy Hdone Hplaces. cbn [fst snd] in *.
  rewrite sum_mid in *.
  pose proof (sum_busy_permit l1). pose proof (sum_busy_permit l2).
  constructor; cbn [fst snd]; rewrite ?sum_mid; [congruence|lia|lia| |done|].
  - destruct Hbusy as [Hbusy|(Hi & Hbz & Hpm & _)]; [lia|].
    assert (length (idle (pool g')) = 0%nat) by (rewrite Hi; done). lia.
  - intros c. specialize (Hp c). specialize (Hplaces c). unfold places in *.
    rewrite held_mid, !occ_app in *. lia.
Qed.

(** A step that changes one goroutine and keeps the sums of [inv]. *)
Ltac moves Hinv := eapply inv_change; [exact Hinv|cbn; auto with lia..].
Ltac by_moves Hstep Hinv := injection Hstep as <- <-; moves Hinv.

Lemma inv_act n ev g g' l1 a a' l2 :
  inv n (g, l1 ++ a :: l2) -> astep ev g a = Some (g', a') -> inv n (g', l1 ++ a' :: l2).
Proof.
  intros Hinv Hstep. pose proof Hinv as [_ Hsem Hcap _ Hd Hp]. cbn [fst snd] in *.
  rewrite sum_mid in Hsem.
  destruct a, ev; cbn in Hstep; try discriminate Hstep.
  - destruct (try_send (pool g)) as [p|] eqn:E; [|done]. apply try_send_Some in E as [? ->].
    by_moves Hstep Hinv.
  - by_moves Hstep Hinv.
  - destruct (acquire_section (pool g)) as [|c p|] eqn:E; injection Hstep as <- <-.
    + moves Hinv.
    + apply acquire_reuse in E as (l & Hdn & Hidl & ->).
      moves Hinv.
      * left. cbn. rewrite Hidl, length_app. cbn. lia.
      * intros x. cbn [idle pool set_pool held closing closed next].
        rewrite Hidl, occ_app. change (occ x []) with 0%nat. lia.
    + apply acquire_dial in E as [Hdn Hidl].
      moves Hinv.
  - destruct r as [e|]; by_moves Hstep Hinv.
    intros x. cbn [idle closing closed next pool held]. rewrite occ_cons. change (occ x []) with 0%nat.
    repeat case_decide; lia.
  - destruct r as [e|]; by_moves Hstep Hinv.
  - by_moves Hstep Hinv.
    intros x. cbn [idle closing closed next pool held close_conn]. rewrite !occ_cons. lia.
  - destruct (recv (pool g)) as [p|] eqn:E; [|done]. apply recv_Some in E as (k & Hk & ->).
    by_moves Hstep Hinv.
  - by_moves Hstep Hinv.
  - by_moves Hstep Hinv.
  - unfold release_section in Hstep. destruct (done (pool g)) eqn:E; injection Hstep as <- <-.
    + moves Hinv.
    + moves Hinv.
      * left. cbn. rewrite length_app. cbn. lia.
      * intros x. cbn [idle pool set_pool held closing closed next].
        rewrite occ_app. change (occ x []) with 0%nat. lia.
  - by_moves Hstep Hinv.
    intros x. cbn [idle closing closed next pool held close_conn]. rewrite !occ_cons. lia.
  - by_moves Hstep Hinv.
    intros x. cbn [idle closing closed next pool held close_conn]. rewrite !occ_cons. lia.
  - destruct (recv (pool g)) as [p|] eqn:E; [|done]. apply recv_Some in E as (k & Hk & ->).
    by_moves Hstep Hinv.
Qed.

Lemma inv_step n s s' : inv n s -> step s s' -> inv n s'.
Proof.
  intros Hinv Hstep. destruct Hstep as [g l|ev g g' l1 a a' l2 Ha|g l|g l c cs Hc].
  - destruct Hinv as [? Hsem ? Hb ? Hp]. cbn [fst snd] in *.
    constructor; cbn [fst snd]; rewrite ?sum_list_with_app; cbn; try done; try lia.
    intros x. rewrite <- (Hp x). unfold places. rewrite flat_map_app. cbn. by rewrite app_nil_r.
  - by eapply inv_act.
  - destruct Hinv as [? Hsem ? Hb ? Hp]. cbn [fst snd close_section] in *.
    constructor; cbn; try done; try lia.
    intros x. rewrite <- (Hp x). unfold places. cbn. rewrite occ_app.
    change (occ x []) with 0%nat. lia.
  - destruct Hinv as [? Hsem ? Hb ? Hp]. cbn [fst snd] in *.
    constructor; cbn; try done. intros x. rewrite <- (Hp x). unfold places. cbn.
    rewrite Hc, !occ_cons. lia.
Qed.

Lemma reachable_inv n s : reachable n s -> inv n s.
Proof.
  induction 1 as [|s s' _ IH Hs]; [apply inv_initial|by eapply inv_step].
Qed.

Lemma occ_pos c l : c ∈ l <-> (0 < occ c l)%nat.
Proof. rewrite list_elem_of_In. unfold occ. apply count_occ_In. Qed.

Lemma occ_le_NoDup l : (forall c, (occ c l <= 1)%nat) -> NoDup l.
Proof.
  intros H. apply NoDup_ListNoDup. apply (NoDup_count_occ Nat.eq_dec). intros x. apply H.
Qed.

Lemma sum_zero {A} (f : A -> nat) l : Forall (fun a => f a = 0%nat) l -> sum_list_with f l = 0%nat.
Proof. induction 1 as [|a l Ha _ IH]; cbn; lia. Qed.

Lemma held_none l : Forall (fun a => permit a = 0%nat) l -> flat_map held l = [].
Proof. induction 1 as [|a l Ha _ IH]; [done|]. cbn. rewrite IH. by destruct a. Qed.

(** Is borrower [a] through? *)
Definition is_finished (a : pc) : Prop := match a with Finished _ => True | _ => False end.

Lemma finished_permit l : Forall is_finished l -> Forall (fun a => permit a = 0%nat) l.
Proof. intros H. eapply List.Forall_impl; [|exact H]. by intros []. Qed.

(** ** Properties *)

(** C6: safety of the pool under every interleaving of borrowers and closers.
    The permits taken are exactly those the borrowers hold, never more than
    the configured size; connections pooled, lent out or being opened never
    exceed the size; no connection is ever in two places, so no two borrowers
    share one and none is closed twice; nothing is pooled after [Close]. *)
Theorem pool_safety (n : Z) (g : shared) (l : list pc) :
  reachable n (g, l) ->
  let cap := size (NewPool (C := nat) n) in
  sem (pool g) = sum_list_with permit l /\ (sem (pool g) <= cap)%nat /\
  (length (idle (pool g)) + sum_list_with busy l <= cap)%nat /\
  NoDup (idle (pool g) ++ flat_map held l ++ closing g ++ closed g) /\
  (done (pool g) = true -> idle (pool g) = []).
Proof.
  intros Hr cap. apply reachable_inv in Hr as [Hsz Hsem Hcap Hb Hd Hp]. cbn [fst snd] in *.
  fold cap in Hsz. rewrite Hsz in *. split_and!; try done.
  apply occ_le_NoDup. intros c. rewrite !occ_app. specialize (Hp c). unfold places in Hp.
  case_decide; lia.
Qed.

(** C38: nothing leaks.  Once every borrower is through, all permits are back,
    whatever dials and binds failed on the way; if the pool was closed and
    [Close] has run to its end, every connection ever dialled has been closed
    exactly once. *)
Theorem pool_no_leak (n : Z) (g : shared) (l : list pc) :
  reachable n (g, l) -> Forall is_finished l ->
  sem (pool g) = 0%nat /\
  (done (pool g) = true -> closing g = [] -> closed g ≡ₚ seq 0 (next g)).
Proof.
  intros Hr Hfin%finished_permit. apply reachable_inv in Hr as [Hsz Hsem _ _ Hd Hp].
  cbn [fst snd] in *. split; [by rewrite Hsem, sum_zero|].
  intros Hdone Hcl. unfold places in Hp. rewrite Hd, Hcl, (held_none l) in Hp by done.
  apply NoDup_Permutation.
  - apply occ_le_NoDup. intros c. specialize (Hp c). change (occ c []) with 0%nat in Hp.
    case_decide; lia.
  - apply NoDup_seq.
  - intros c. rewrite occ_pos, elem_of_seq. specialize (Hp c). change (occ c []) with 0%nat in Hp.
    case_decide; lia.
Qed.

(** C39: no deadlock.  In every reachable state a borrower that is past the
    select, and has not been handed to its caller, can take a step whatever
    the others do; and a borrower waiting for a permit can take one unless
    all of them are held. *)
Theorem pool_progress (n : Z) (g : shared) (l1 l2 : list pc) (a : pc) :
  reachable n (g, l1 ++ a :: l2) ->
  match a with
  | Finished _ => True
  | Waiting =>
      (exists g', astep EvRun g a = Some (g', HasPermit)) \/
      sum_list_with permit (l1 ++ l2) = size (NewPool (C := nat) n)
  | Dialing => forall r, exists g' a', astep (EvDial r) g a = Some (g', a')
  | Binding _ => forall r, exists g' a', astep (EvBind r) g a = Some (g', a')
  | _ => exists g' a', astep EvRun g a = Some (g', a')
  end.
Proof.
  intros Hr. apply reachable_inv in Hr as [Hsz Hsem Hcap _ _ _]. cbn [fst snd] in *.
  rewrite sum_mid in Hsem.
  assert (permit a = 1%nat -> exists p, recv (pool g) = Some p) as Hrecv.
  { intros Ha. unfold recv. destruct (sem (pool g)); [lia|by eexists]. }
  destruct a; cbn [permit] in *; try done; cbn [astep].
  - unfold try_send. case_decide as Hs; [left; by eexists|right].
    rewrite sum_list_with_app. rewrite <- Hsz. lia.
  - destruct (acquire_section (pool g)); by eexists _, _.
  - intros [e|]; by eexists _, _.
  - intros [e|]; by eexists _, _.
  - by eexists _, _.
  - destruct Hrecv as [p ->]; [done|]. by eexists _, _.
  - by eexists _, _.
  - destruct (release_section (pool g) c). by eexists _, _.
  - by eexists _, _.
  - by eexists _, _.
  - destruct Hrecv as [p ->]; [done|]. by eexists _, _.
Qed.

(** A run: two borrowers on a pool of one; the first dials, the second waits;
    the pool is closed while the first holds its connection; the first
    releases, and its connection is closed late. *)
Lemma step_first ev g g' a a' l : astep ev g a = Some (g', a') -> step (g, a :: l) (g', a' :: l).
Proof. apply (step_act ev g g' []). Qed.

Definition late_close : state :=
  (mkShared (mkPool 1 0 [] true) 1 [] [0%nat], [Finished None]).

Lemma reach_late_close : reachable 1 late_close.
Proof.
  unfold late_close.
  eapply (reach_step _ (mkShared (mkPool 1 1 [] true) 1 [] [0%nat], [ReturningPermit]));
    [|eapply (step_first EvRun); reflexivity].
  eapply (reach_step _ (mkShared (mkPool 1 1 [] true) 1 [] [], [ClosingLate 0]));
    [|eapply (step_first EvRun); reflexivity].
  eapply (reach_step _ (mkShared (mkPool 1 1 [] true) 1 [] [], [Releasing 0]));
    [|eapply (step_first EvRun); reflexivity].
  eapply (reach_step _ (mkShared (mkPool 1 1 [] false) 1 [] [], [Releasing 0]));
    [|apply step_close].
  eapply (reach_step _ (mkShared (mkPool 1 1 [] false) 1 [] [], [Leased 0]));
    [|eapply (step_first EvRun); reflexivity].
  eapply (reach_step _ (mkShared (mkPool 1 1 [] false) 1 [] [], [Binding 0]));
    [|eapply (step_first (EvBind None)); reflexivity].
  eapply (reach_step _ (mkShared (mkPool 1 1 [] false) 0 [] [], [Dialing]));
    [|eapply (step_first (EvDial None)); reflexivity].
  eapply (reach_step _ (mkShared (mkPool 1 1 [] false) 0 [] [], [HasPermit]));
    [|eapply (step_first EvRun); reflexivity].
  eapply (reach_step _ (mkShared (mkPool 1 0 [] false) 0 [] [], [Waiting]));
    [|eapply (step_first EvRun); reflexivity].
  apply (reach_step _ (initial 1)); [constructor|]. apply (step_call _ []).
Qed.

Lemma pool_safety_witness :
  let '(g, l) := late_close in
  sem (pool g) = sum_list_with permit l /\
  NoDup (idle (pool g) ++ flat_map held l ++ closing g ++ closed g).
Proof.
  destruct (pool_safety 1 _ _ reach_late_close) as (H1 & _ & _ & H2 & _). split; [exact H1|exact H2].
Defined.

Lemma pool_no_leak_witness :
  closed (fst late_close) ≡ₚ [0%nat].
Proof.
  refine (proj2 (pool_no_leak 1 _ _ reach_late_close _) eq_refl eq_refl).
  repeat constructor.
Defined.

Lemma pool_progress_witness :
  exists g', astep EvRun (fst (initial 1)) Waiting = Some (g', HasPermit).
Proof.
  assert (reachable 1 (fst (initial 1), [] ++ Waiting :: [])) as Hr.
  { apply (reach_step _ (initial 1)); [constructor|]. apply (step_call _ []). }
  destruct (pool_progress 1 _ [] [] Waiting Hr) as [Hg|Hg]; [exact Hg|discriminate Hg].
Defined.
