(* ===== verification/Exec.v ===== *)
(** * exec.go: running one operation on a pooled connection

    The state of a client (the outside world, the pool, the keys locked in the
    mutex, the cached domain SID), the monad its operations run in, the
    sequential composition of the pool's critical sections, and [withConn].
    Everything outside the client is the class [Env]: the directory servers
    behind the [conn.Conn] interface, the dialler, the binder, the context and
    the clock; each of its calls maps a world to a result and a world.

    A call that would wait for another goroutine (a permit or a key that only
    someone else can give back) is the outcome [Blocked]. *)
From S2P Require Export AdCore LdapErr Conn Pool.

Class Env := {
  World : Type;
  Handle : Type;
  (** [PoolOptions.Dial] and [Binder.Bind]; [None] is a [nil] error. *)
  env_dial : World -> (Handle + error) * World;
  env_bind : Handle -> World -> option error * World;
  (** The methods of [conn.Conn]. *)
  env_search : Handle -> SearchRequest -> World -> (SearchResult + error) * World;
  env_add : Handle -> gostring -> list Attribute -> World -> option error * World;
  env_modify : Handle -> gostring -> list Modification -> list Control -> World -> option error * World;
  env_modifydn : Handle -> gostring -> gostring -> bool -> gostring -> World -> option error * World;
  env_delete : Handle -> gostring -> World -> option error * World;
  env_close : Handle -> World -> option error * World;
  (** The select of [Acquire]: [Some err] when the arm of the done context is
      taken. *)
  env_select : World -> option error * World;
  (** [adcore.Backoff(ctx, retry, attempt)]. *)
  env_backoff : Z -> World -> option error * World;
  (** [core.dialOther]. *)
  env_dial_other : gostring -> World -> (Handle + error) * World;
  (** [time.Now] in nanoseconds, and the wait for the poll timer or the
      context, whichever fires first. *)
  env_now : World -> Z * World;
  env_wait : Z -> World -> option error * World;
  (** [adcore.KeyedMutex]: [None] when the key is held by someone else. *)
  Mutex : Type;
  mutex_lock : gostring -> Mutex -> option Mutex;
  mutex_unlock : gostring -> Mutex -> Mutex
}.

Record ReplicationConfig := mkReplicationConfig {
  repl_Wait : bool;
  repl_Targets : list gostring;
  repl_ForceSync : bool;
  repl_Timeout : Z;
  repl_PollInterval : Z
}.

(** The fields of [core] that never change after [New]. *)
Record core := mkCore {
  c_server : gostring;
  c_dnc : gostring;
  c_schemaNC : gostring;
  c_configNC : gostring;
  c_MaxAttempts : Z;
  c_repl : ReplicationConfig
}.

Section exec.
Context `{AdCore} `{Env}.

Record St := mkSt {
  st_world : World;
  st_pool : Pool Handle;
  st_locks : Mutex;
  (** [domainSIDCache]: [None] before the [once] has run. *)
  st_dsid : option (bytes + error)
}.

Definition set_world (s : St) (w : World) : St := mkSt w (st_pool s) (st_locks s) (st_dsid s).
Definition set_st_pool (s : St) (p : Pool Handle) : St :=
  mkSt (st_world s) p (st_locks s) (st_dsid s).
Definition set_locks (s : St) (l : Mutex) : St :=
  mkSt (st_world s) (st_pool s) l (st_dsid s).
Definition set_dsid (s : St) (d : option (bytes + error)) : St :=
  mkSt (st_world s) (st_pool s) (st_locks s) d.

(** ** The monad *)

Definition M (A : Type) : Type := St -> outcome A * St.

#[global] Instance M_ret : MRet M := fun A a s => (Ret a, s).
#[global] Instance M_bind : MBind M := fun A B f m s =>
  match m s with
  | (Ret a, s) => f a s
  | (Fail e, s) => (Fail e, s)
  | (Panic, s) => (Panic, s)
  | (Blocked, s) => (Blocked, s)
  | (OutOfFuel, s) => (OutOfFuel, s)
  end.

(** A pure call. *)
Definition lift {A} (r : outcome A) : M A := fun s => (r, s).
Definition fail {A} (e : error) : M A := lift (Fail e).

(** [x, err := m()] with the error examined by what follows. *)
Definition attempt {A} (m : M A) : M (A + error) := fun s =>
  match m s with
  | (Ret a, s) => (Ret (inl a), s)
  | (Fail e, s) => (Ret (inr e), s)
  | (Panic, s) => (Panic, s)
  | (Blocked, s) => (Blocked, s)
  | (OutOfFuel, s) => (OutOfFuel, s)
  end.

(** [if err := m(); err != nil { return f(err) }] *)
Definition on_error {A} (m : M A) (f : error -> M A) : M A :=
  r ← attempt m;
  match r with inl a => mret a | inr e => f e end.

(** A call that only wraps the error it returns. *)
Definition map_error {A} (f : error -> error) (m : M A) : M A :=
  on_error m (fun e => fail (f e)).

(** Calls to the environment. *)
Definition ask {A} (f : World -> (A + error) * World) : M A := fun s =>
  let '(r, w) := f (st_world s) in (of_sum r, set_world s w).
Definition tell (f : World -> option error * World) : M unit := fun s =>
  let '(r, w) := f (st_world s) in (of_nil r, set_world s w).

Definition conn_Search (h : Handle) (req : SearchRequest) : M SearchResult := ask (env_search h req).
Definition conn_Add (h : Handle) (dn : gostring) (attrs : list Attribute) : M unit :=
  tell (env_add h dn attrs).
Definition conn_Modify (h : Handle) (dn : gostring) (mods : list Modification)
    (controls : list Control) : M unit := tell (env_modify h dn mods controls).
Definition conn_ModifyDN (h : Handle) (dn newRDN : gostring) (del : bool) (superior : gostring)
    : M unit := tell (env_modifydn h dn newRDN del superior).
Definition conn_Delete (h : Handle) (dn : gostring) : M unit := tell (env_delete h dn).

(** [c.Close()] with the error dropped. *)
Definition conn_Close (h : Handle) : M unit := fun s =>
  (Ret tt, set_world s (snd (env_close h (st_world s)))).

(** ** The pool, sequentially *)

Definition take_permit : M unit := fun s =>
  match try_send (st_pool s) with
  | Some p => (Ret tt, set_st_pool s p)
  | None => (Blocked, s)
  end.

Definition give_permit : M unit := fun s =>
  match recv (st_pool s) with
  | Some p => (Ret tt, set_st_pool s p)
  | None => (Blocked, s)
  end.

(** What follows the critical section when the pool had no connection. *)
Definition dial_and_bind : M Handle :=
  h ← on_error (ask env_dial) (fun e => give_permit;; fail e);
  on_error (tell (env_bind h)) (fun e => conn_Close h;; give_permit;; fail e);;
  mret h.

Definition take_conn : M Handle := fun s =>
  match acquire_section (st_pool s) with
  | AcqClosed => (give_permit;; (fail ErrPoolClosed : M Handle)) s
  | AcqReuse h p => (Ret h, set_st_pool s p)
  | AcqDial => dial_and_bind s
  end.

Definition Acquire : M Handle := tell env_select;; take_permit;; take_conn.

Definition put_back (h : Handle) : M unit := fun s =>
  let '(p, late) := release_section (st_pool s) h in
  if late then conn_Close h (set_st_pool s p) else (Ret tt, set_st_pool s p).

Definition Release (h : Handle) : M unit := put_back h;; give_permit.

Definition Discard (h : Handle) : M unit := conn_Close h;; give_permit.

(** The loop of [Pool.Close] over the connections it took: the first error. *)
Fixpoint close_all (hs : list Handle) (w : World) : option error * World :=
  match hs with
  | [] => (None, w)
  | h :: hs =>
      let '(e, w) := env_close h w in
      let '(e', w) := close_all hs w in
      (match e with Some e => Some e | None => e' end, w)
  end.

Definition Pool_Close : M unit := fun s =>
  let '(p, hs) := close_section (st_pool s) in
  tell (close_all hs) (set_st_pool s p).

(** ** withConn *)

(** The error for a failed [Acquire]. *)
Definition acquire_error (op : gostring) (err : error) : error :=
  match errors_As as_RawError err with
  | Some _ => Classify op err
  | None =>
      if errors_Is is_CredentialRejected err then adErr KindDenied op err
      else adErr KindTransport op err
  end.

(** [errors.As(lastErr, &e) && e.Kind.Retryable()]. *)
Definition is_retryable (e : error) : bool :=
  match errors_As as_AdError e with
  | Some a => Retryable (e_Kind a)
  | None => false
  end.

Section with_conn.
Context {A : Type} (c : core) (op : gostring) (zero : A) (fn : Handle -> M A).

(** The loop from [attempt] on; [fuel] attempts are left.  The loop that makes
    no attempt at all returns the zero value of what [fn] would have set. *)
Fixpoint withConn_from (fuel : nat) (attempt_no : Z) : M A :=
  match fuel with
  | O => mret zero
  | S fuel =>
      h ← map_error (acquire_error op) Acquire;
      r ← attempt (fn h);
      match r with
      | inl a => Release h;; mret a
      | inr e =>
          let lastErr := Classify op e in
          (if is_kind KindTransport lastErr then Discard h else Release h);;
          if negb (is_retryable lastErr) || (attempt_no =? c_MaxAttempts c)
          then fail lastErr
          else tell (env_backoff attempt_no);; withConn_from fuel (attempt_no + 1)
      end
  end.

Definition withConn : M A := withConn_from (Z.to_nat (c_MaxAttempts c)) 1.
End with_conn.

(** ** The keyed mutex *)

(** Locking a key that is held blocks until its holder unlocks it. *)
Definition lock (key : gostring) : M unit := fun s =>
  match mutex_lock key (st_locks s) with
  | None => (Blocked, s)
  | Some l => (Ret tt, set_locks s l)
  end.

Definition unlock (key : gostring) (s : St) : St :=
  set_locks s (mutex_unlock key (st_locks s)).

(** [unlock := c.locks.Lock(key); defer unlock()]: the key is given back
    however the body ends. *)
Definition deferred_unlock {A} (key : gostring) (m : M A) : M A := fun s =>
  let '(r, s) := m s in (r, unlock key s).
Definition with_lock {A} (key : gostring) (m : M A) : M A :=
  lock key;; deferred_unlock key m.

Definition isNotFound (e : error) : bool := isErrNotFound e.
End exec.
Arguments M {_} _.
Arguments St {_}.

(** ** Operations that return what they took *)

Section quiet.
Context `{AdCore} `{Env}.

(** A permit is free. *)
Definition free (s : St) : Prop := (sem (st_pool s) < size (st_pool s))%nat.

(** [m] returns (a value or an error) from every state satisfying [P] that has
    a free permit, gives back every permit and unlocks every key it took. *)
Definition runs {A} (P : St -> Prop) (m : M A) : Prop := forall s, free s -> P s ->
  returns (fst (m s)) /\ sem (st_pool (snd (m s))) = sem (st_pool s) /\
  size (st_pool (snd (m s))) = size (st_pool s) /\ st_locks (snd (m s)) = st_locks s.

Definition quiet {A} (m : M A) : Prop := runs (fun _ => True) m.

(** [m] does not touch the pool or the locks at all: what a callback of
    [withConn] may do with the connection it is lent. *)
Definition steady {A} (m : M A) : Prop := forall s,
  returns (fst (m s)) /\ st_pool (snd (m s)) = st_pool s /\ st_locks (snd (m s)) = st_locks s.

Lemma steady_quiet {A} (m : M A) : steady m -> quiet m.
Proof. intros Hm s _ _. destruct (Hm s) as (? & -> & ->). done. Qed.

Lemma steady_ret {A} (a : A) : steady (mret a).
Proof. by intros s. Qed.
Lemma steady_lift {A} (r : outcome A) : returns r -> steady (lift r).
Proof. by intros Hr s. Qed.
Lemma steady_fail {A} e : steady (fail (A := A) e).
Proof. by apply steady_lift. Qed.

Lemma steady_bind {A B} (m : M A) (f : A -> M B) :
  steady m -> (forall a, steady (f a)) -> steady (m ≫= f).
Proof.
  intros Hm Hf s. specialize (Hm s). unfold mbind, M_bind. destruct (m s) as [[a|e| | |] s1]; cbn in *; try tauto.
  destruct (Hf a s1) as (? & -> & ->). tauto.
Qed.

Lemma steady_attempt {A} (m : M A) : steady m -> steady (attempt m).
Proof.
  intros Hm s. specialize (Hm s). unfold attempt. destruct (m s) as [[a|e| | |] s1]; cbn in *; tauto.
Qed.

Lemma steady_on_error {A} (m : M A) (f : error -> M A) :
  steady m -> (forall e, steady (f e)) -> steady (on_error m f).
Proof.
  intros Hm Hf. apply steady_bind; [by apply steady_attempt|].
  intros [a|e]; [apply steady_ret|apply Hf].
Qed.

Lemma steady_ask {A} (f : World -> (A + error) * World) : steady (ask f).
Proof. intros s. unfold ask. destruct (f _) as [[a|e] w]; done. Qed.
Lemma steady_tell f : steady (tell f).
Proof. intros s. unfold tell. destruct (f _) as [[e|] w]; done. Qed.
Lemma steady_close h : steady (conn_Close h).
Proof. by intros s. Qed.

Lemma free_same (s s' : St) :
  sem (st_pool s') = sem (st_pool s) -> size (st_pool s') = size (st_pool s) -> free s -> free s'.
Proof. unfold free. intros -> ->. done. Qed.

Lemma runs_bind {A B} P (m : M A) (f : A -> M B) :
  runs P m -> (forall a, quiet (f a)) -> runs P (m ≫= f).
Proof.
  intros Hm Hf s Hs HP. specialize (Hm s Hs HP). unfold mbind, M_bind.
  destruct (m s) as [[a|e| | |] s1]; cbn in *; try tauto.
  destruct Hm as (_ & E1 & E2 & E3).
  destruct (Hf a s1 (free_same _ _ E1 E2 Hs) I) as (? & -> & -> & ->). tauto.
Qed.

Lemma quiet_bind {A B} (m : M A) (f : A -> M B) :
  quiet m -> (forall a, quiet (f a)) -> quiet (m ≫= f).
Proof. apply runs_bind. Qed.

Lemma quiet_ret {A} (a : A) : quiet (mret a).
Proof. apply steady_quiet, steady_ret. Qed.
Lemma quiet_fail {A} e : quiet (fail (A := A) e).
Proof. apply steady_quiet, steady_fail. Qed.
Lemma quiet_lift {A} (r : outcome A) : returns r -> quiet (lift r).
Proof. intros. by apply steady_quiet, steady_lift. Qed.
Lemma quiet_ask {A} (f : World -> (A + error) * World) : quiet (ask f).
Proof. apply steady_quiet, steady_ask. Qed.
Lemma quiet_tell f : quiet (tell f).
Proof. apply steady_quiet, steady_tell. Qed.
Lemma quiet_conn_Close h : quiet (conn_Close h).
Proof. apply steady_quiet, steady_close. Qed.

Lemma quiet_attempt {A} (m : M A) : quiet m -> quiet (attempt m).
Proof.
  intros Hm s Hs _. specialize (Hm s Hs I). unfold attempt.
  destruct (m s) as [[a|e| | |] s1]; cbn in *; tauto.
Qed.

Lemma quiet_on_error {A} (m : M A) (f : error -> M A) :
  quiet m -> (forall e, quiet (f e)) -> quiet (on_error m f).
Proof.
  intros Hm Hf. apply quiet_bind; [by apply quiet_attempt|].
  intros [a|e]; [apply quiet_ret|apply Hf].
Qed.

Lemma quiet_map_error {A} f (m : M A) : quiet m -> quiet (map_error f m).
Proof. intros. apply quiet_on_error; [done|]. intros. apply quiet_fail. Qed.

(** The key is free, and unlocking it undoes locking it. *)
Definition unlocked (key : gostring) (s : St) : Prop :=
  exists l, mutex_lock key (st_locks s) = Some l /\ mutex_unlock key l = st_locks s.

Lemma runs_with_lock {A} key (m : M A) : quiet m -> runs (unlocked key) (with_lock key m).
Proof.
  intros Hm s Hs (l & Hl & Hu). unfold with_lock, lock, mbind, M_bind. rewrite Hl.
  unfold deferred_unlock. specialize (Hm (set_locks s l) Hs I).
  destruct (m _) as [r s1]. cbn in *. destruct Hm as (? & -> & -> & ->). done.
Qed.

(** ** The pool and withConn are quiet *)

(** [Acquire] takes one permit when it succeeds and none when it fails;
    [Release] and [Discard] give it back. *)
Lemma Acquire_takes s :
  free s ->
  let '(r, s') := Acquire s in
  returns r /\ size (st_pool s') = size (st_pool s) /\ st_locks s' = st_locks s /\
  sem (st_pool s') = match r with Ret _ => S (sem (st_pool s)) | _ => sem (st_pool s) end.
Proof.
  intros Hs. unfold Acquire, tell, mbind, M_bind.
  destruct (env_select (st_world s)) as [[e|] w]; cbn; [done|].
  unfold take_permit, try_send. cbn. rewrite decide_True by done. unfold take_conn. cbn.
  unfold acquire_section. cbn. destruct (done (st_pool s)); [done|].
  destruct (rev (idle (st_pool s))) as [|h r]; [|done].
  unfold dial_and_bind, on_error, attempt, ask, tell, mbind, M_bind. cbn.
  destruct (env_dial w) as [[h|e] w1]; cbn; [|done].
  destruct (env_bind h w1) as [[e|] w2]; done.
Qed.

Lemma give_permit_S s k :
  sem (st_pool s) = S k ->
  give_permit s = (Ret tt, set_st_pool s (mkPool (size (st_pool s)) k (idle (st_pool s)) (done (st_pool s)))).
Proof. intros E. unfold give_permit, recv. by rewrite E. Qed.

Lemma Release_gives h s k :
  sem (st_pool s) = S k ->
  let '(r, s') := Release h s in
  r = Ret tt /\ sem (st_pool s') = k /\ size (st_pool s') = size (st_pool s) /\
  st_locks s' = st_locks s.
Proof.
  intros E. unfold Release, put_back, release_section, mbind, M_bind.
  destruct (done (st_pool s)); cbn; by erewrite give_permit_S.
Qed.

Lemma Discard_gives h s k :
  sem (st_pool s) = S k ->
  let '(r, s') := Discard h s in
  r = Ret tt /\ sem (st_pool s') = k /\ size (st_pool s') = size (st_pool s) /\
  st_locks s' = st_locks s.
Proof.
  intros E. unfold Discard, mbind, M_bind. cbn. by erewrite give_permit_S.
Qed.

Section with_conn_quiet.
Context {A : Type} (c : core) (op : gostring) (zero : A) (fn : Handle -> M A).
Hypothesis (Hfn : forall h, steady (fn h)).

(** One permit is out: what holds while [fn] runs. *)
Lemma returning_permit_quiet (h : Handle) (late : bool) k s :
  sem (st_pool s) = S k ->
  let '(r, s') := (if late then Discard h else Release h) s in
  r = Ret tt /\ sem (st_pool s') = k /\ size (st_pool s') = size (st_pool s) /\
  st_locks s' = st_locks s.
Proof. intros. destruct late; [by apply Discard_gives|by apply Release_gives]. Qed.

Lemma withConn_from_quiet fuel n : quiet (withConn_from c op zero fn fuel n).
Proof using Hfn.
  revert n. induction fuel as [|fuel IH]; intros n; [apply quiet_ret|].
  intros s Hs _. cbn [withConn_from]. unfold map_error, on_error, attempt, mbind, M_bind.
  pose proof (Acquire_takes s Hs) as Ha. destruct (Acquire s) as [[h|e| | |] s1];
    destruct Ha as (Hr & Hsz & Hl & Hsem); try done.
  cbn. destruct (Hfn h s1) as (Hr1 & Hp1 & Hl1).
  destruct (fn h s1) as [[a|e| | |] s2]; cbn in *; try done.
  - pose proof (Release_gives h s2 (sem (st_pool s))) as Hrel. rewrite Hp1 in Hrel.
    specialize (Hrel Hsem). destruct (Release h s2) as [r s3].
    destruct Hrel as (-> & ? & ? & ?). cbn. split_and!; congruence || done.
  - pose proof (returning_permit_quiet h (is_kind KindTransport (Classify op e))
      (sem (st_pool s)) s2) as Hret. rewrite Hp1 in Hret. specialize (Hret Hsem).
    set (g := if is_kind KindTransport (Classify op e) then Discard h else Release h) in *.
    destruct (g s2) as [r s3].
    destruct Hret as (-> & ? & ? & ?).
    destruct (negb _ || _); [cbn; split_and!; congruence || done|].
    unfold tell. destruct (env_backoff n (st_world s3)) as [[e'|] w]; cbn;
      [split_and!; congruence || done|].
    destruct (IH (n + 1) (set_world s3 w)) as (? & E1 & E2 & E3); [|done|].
    + unfold free in *. cbn. congruence.
    + cbn in *. split_and!; congruence || done.
Qed.

Lemma withConn_quiet : quiet (withConn c op zero fn).
Proof using Hfn. apply withConn_from_quiet. Qed.
End with_conn_quiet.
End quiet.

(** ** Retrying *)

Section retry.
Context `{AdCore} `{Env}.

Lemma Classify_AdError op e : exists a, Classify op e = AdError a.
Proof.
  unfold Classify. case_match; [by eexists|]. case_match; [|by eexists].
  destruct p as [[code diag] w]. unfold classify_raw, annotate.
  repeat case_match; by eexists.
Qed.

(** The calls of the pool and of the retry loop relate the world before to the
    world after by [R]. *)
Record calm (R : relation World) : Prop := {
  calm_select w : R w (snd (env_select w));
  calm_dial w : R w (snd (env_dial w));
  calm_bind h w : R w (snd (env_bind h w));
  calm_close h w : R w (snd (env_close h w));
  calm_backoff n w : R w (snd (env_backoff n w))
}.

(** What [writes] measures is changed by the calls of a callback only. *)
Definition inert (writes : World -> nat) : Prop := calm (fun w w' => writes w' = writes w).

(** [m] relates the worlds around it by [R]. *)
Definition respects {A} (R : relation World) (m : M A) : Prop := forall s,
  R (st_world s) (st_world (snd (m s))).

Section respects.
Context (R : relation World) `{!PreOrder R}.

Lemma respects_pure {A} (m : M A) : (forall s, st_world (snd (m s)) = st_world s) -> respects R m.
Proof using PreOrder0. intros Hm s. rewrite Hm. reflexivity. Qed.
Lemma respects_lift {A} (r : outcome A) : respects R (lift r).
Proof using PreOrder0. by apply respects_pure. Qed.
Lemma respects_ret {A} (a : A) : respects R (mret a).
Proof using PreOrder0. by apply respects_pure. Qed.
Lemma respects_give_permit : respects R give_permit.
Proof using PreOrder0. apply respects_pure. intros s. unfold give_permit. by destruct (recv _). Qed.
Lemma respects_take_permit : respects R take_permit.
Proof using PreOrder0. apply respects_pure. intros s. unfold take_permit. by destruct (try_send _). Qed.

Lemma respects_bind {A B} (m : M A) (f : A -> M B) :
  respects R m -> (forall a, respects R (f a)) -> respects R (m ≫= f).
Proof using PreOrder0.
  intros Hm Hf s. specialize (Hm s). unfold mbind, M_bind.
  destruct (m s) as [[a|e| | |] s1]; cbn in *; try done. etransitivity; [exact Hm|apply Hf].
Qed.

Lemma respects_attempt {A} (m : M A) : respects R m -> respects R (attempt m).
Proof using Type.
  intros Hm s. specialize (Hm s). unfold attempt. by destruct (m s) as [[a|e| | |] s1].
Qed.

Lemma respects_on_error {A} (m : M A) (f : error -> M A) :
  respects R m -> (forall e, respects R (f e)) -> respects R (on_error m f).
Proof using PreOrder0.
  intros Hm Hf. apply respects_bind; [by apply respects_attempt|].
  intros [a|e]; [apply respects_ret|apply Hf].
Qed.

Lemma respects_ask {A} (f : World -> (A + error) * World) :
  (forall w, R w (snd (f w))) -> respects R (ask f).
Proof using Type. intros Hf s. specialize (Hf (st_world s)). unfold ask. by destruct (f _). Qed.
Lemma respects_tell f : (forall w, R w (snd (f w))) -> respects R (tell f).
Proof using Type. intros Hf s. specialize (Hf (st_world s)). unfold tell. by destruct (f _). Qed.

Context (Hcalm : calm R).

Lemma respects_close h : respects R (conn_Close h).
Proof using Hcalm. intros s. apply (calm_close _ Hcalm). Qed.

Lemma respects_Acquire : respects R Acquire.
Proof using Hcalm PreOrder0.
  apply respects_bind; [apply respects_tell, (calm_select _ Hcalm)|]. intros _.
  apply respects_bind; [apply respects_take_permit|]. intros _ s. unfold take_conn.
  destruct (acquire_section (st_pool s)) as [|h p|]; [|reflexivity|]; revert s.
  - apply respects_bind; [apply respects_give_permit|intros _; apply respects_lift].
  - apply respects_bind.
    + apply respects_on_error; [apply respects_ask, (calm_dial _ Hcalm)|intros e].
      apply respects_bind; [apply respects_give_permit|intros _; apply respects_lift].
    + intros h. apply respects_bind; [|intros _; apply respects_ret].
      apply respects_on_error; [apply respects_tell, (calm_bind _ Hcalm)|intros e].
      apply respects_bind; [apply respects_close|intros _].
      apply respects_bind; [apply respects_give_permit|intros _; apply respects_lift].
Qed.

Lemma respects_give_back h (late : bool) : respects R (if late then Discard h else Release h).
Proof using Hcalm PreOrder0.
  destruct late; (apply respects_bind; [|intros _; apply respects_give_permit]).
  - apply respects_close.
  - intros s. unfold put_back. destruct (release_section (st_pool s) h) as [p []]; [|reflexivity].
    apply (respects_close h (set_st_pool s p)).
Qed.

Lemma respects_withConn {A} (c : core) op (zero : A) fn :
  (forall h, respects R (fn h)) -> respects R (withConn c op zero fn).
Proof using Hcalm PreOrder0.
  intros Hfn. unfold withConn. generalize 1. induction (Z.to_nat _) as [|fuel IH]; intros n;
    [apply respects_ret|]. cbn [withConn_from].
  apply respects_bind;
    [apply respects_on_error; [apply respects_Acquire|intros; apply respects_lift]|].
  intros h. apply respects_bind; [by apply respects_attempt|]. intros [a|e].
  - apply respects_bind; [apply (respects_give_back h false)|intros _; apply respects_ret].
  - apply respects_bind; [apply respects_give_back|intros _].
    destruct (_ || _); [apply respects_lift|].
    apply respects_bind; [apply respects_tell, (calm_backoff _ Hcalm)|intros _; apply IH].
Qed.
End respects.

Section once.
Context (writes : World -> nat) (Hinert : inert writes).

#[local] Instance same_writes_preorder : PreOrder (fun w w' => writes w' = writes w).
Proof. split; [by intros w|]. intros w1 w2 w3 E1 E2. congruence. Qed.

Lemma Acquire_inert s : writes (st_world (snd (Acquire s))) = writes (st_world s).
Proof using Hinert. exact (respects_Acquire _ Hinert s). Qed.

Lemma give_back_inert h (late : bool) s :
  writes (st_world (snd ((if late then Discard h else Release h) s))) = writes (st_world s).
Proof using Hinert. exact (respects_give_back _ Hinert h late s). Qed.

Context {A : Type} (c : core) (op : gostring) (zero : A) (fn : Handle -> M A).

(** [fn] has at most one effect, and none when it fails with an error that may
    be retried: what [KindTransient] promises. *)
Definition at_most_one_effect : Prop := forall h s,
  (writes (st_world (snd (fn h s))) <= S (writes (st_world s)))%nat /\
  (forall e, fst (fn h s) = Fail e -> is_retryable (Classify op e) = true ->
     writes (st_world (snd (fn h s))) = writes (st_world s)).

Lemma withConn_from_once fuel n s :
  at_most_one_effect ->
  (writes (st_world (snd (withConn_from c op zero fn fuel n s))) <= S (writes (st_world s)))%nat.
Proof using Hinert.
  intros Hfn. revert n s. induction fuel as [|fuel IH]; intros n s; [cbn; lia|].
  cbn [withConn_from]. unfold map_error, on_error, attempt, mbind, M_bind.
  pose proof (Acquire_inert s) as Ha. destruct (Acquire s) as [[h|e| | |] s1]; cbn in *; try lia.
  destruct (Hfn h s1) as [Hle Heq]. destruct (fn h s1) as [[a|e| | |] s2]; cbn in *; try lia.
  - pose proof (give_back_inert h false s2) as Hr. cbn in Hr.
    destruct (Release h s2) as [[]?]; cbn in *; lia.
  - specialize (Heq e eq_refl). set (l := is_kind KindTransport (Classify op e)) in *.
    pose proof (give_back_inert h l s2) as Hr.
    set (g := if l then Discard h else Release h) in *.
    destruct (g s2) as [[]s3]; cbn in *; try lia.
    destruct (is_retryable (Classify op e)); cbn; [|lia].
    destruct (n =? c_MaxAttempts c); cbn; [lia|]. unfold tell.
    pose proof (calm_backoff _ Hinert n (st_world s3)) as Hb.
    destruct (env_backoff n (st_world s3)) as [[e'|] w]; cbn in *; [lia|].
    specialize (IH (n + 1) (set_world s3 w)). cbn in IH. specialize (Heq eq_refl). lia.
Qed.
End once.

(** What an error of [withConn] can be. *)
Lemma withConn_from_error {A} (c : core) op (zero : A) fn fuel n s e s' :
  withConn_from c op zero fn fuel n s = (Fail e, s') ->
  (exists a, e = AdError a) \/ exists k w, fst (env_backoff k w) = Some e.
Proof.
  revert n s. induction fuel as [|fuel IH]; intros n s; [done|].
  cbn [withConn_from]. unfold map_error, on_error, attempt, mbind, M_bind.
  destruct (Acquire s) as [[h|e0| | |] s1]; cbn; try done.
  - destruct (fn h s1) as [[a|e0| | |] s2]; cbn; try done.
    + unfold Release, put_back, mbind, M_bind. destruct (release_section _ h) as [p []]; cbn;
        unfold give_permit; destruct (recv _); done.
    + set (g := if is_kind _ _ then Discard h else Release h).
      assert (forall e1 s3, g s2 <> (Fail e1, s3)) as Hg.
      { subst g. intros e1 s3. destruct (is_kind _ _).
        - unfold Discard, mbind, M_bind, give_permit. cbn. by destruct (recv _).
        - unfold Release, put_back, mbind, M_bind. destruct (release_section _ h) as [p []]; cbn;
            unfold give_permit; by destruct (recv _). }
      destruct (g s2) as [[[]|e1| | |] s3]; try done; [|by destruct (Hg e1 s3)].
      destruct (negb _ || _).
      * cbn. intros [= <- <-]. left. apply Classify_AdError.
      * unfold tell. destruct (env_backoff n (st_world s3)) as [[e'|] w] eqn:Eb; cbn.
        -- intros [= <- <-]. right. exists n, (st_world s3). by rewrite Eb.
        -- apply IH.
  - intros [= <- <-]. left. unfold acquire_error. case_match; [apply Classify_AdError|].
    case_match; by eexists.
Qed.
End retry.

(** ** What a successful withConn did *)

Section success.
Context `{AdCore} `{Env} {A : Type} (c : core) (op : gostring) (zero : A) (fn : Handle -> M A).

Lemma withConn_from_Ret fuel n s a s' :
  Z.of_nat fuel = c_MaxAttempts c - n + 1 -> (1 <= fuel)%nat ->
  withConn_from c op zero fn fuel n s = (Ret a, s') ->
  exists h s1 s2, fn h s1 = (Ret a, s2).
Proof.
  revert n s. induction fuel as [|fuel IH]; intros n s Hn Hf; [lia|].
  cbn [withConn_from]. unfold map_error, on_error, attempt, mbind, M_bind.
  destruct (Acquire s) as [[h|e| | |] s1]; cbn; try done.
  destruct (fn h s1) as [[a0|e| | |] s2] eqn:Efn; cbn; try done.
  - destruct (Release h s2) as [[]s3]; cbn; try done. intros [= <- <-]. by exists h, s1, s2.
  - destruct ((if is_kind KindTransport (Classify op e) then Discard h else Release h) s2)
      as [[]s3]; try done.
    destruct (is_retryable _); cbn; [|done]. destruct (n =? c_MaxAttempts c) eqn:En; cbn; [done|].
    unfold tell. destruct (env_backoff n _) as [[e'|] w]; cbn; [done|].
    apply IH; lia.
Qed.

(** The value of a successful call is the value of one run of the callback. *)
Lemma withConn_Ret s a s' :
  1 <= c_MaxAttempts c -> withConn c op zero fn s = (Ret a, s') ->
  exists h s1 s2, fn h s1 = (Ret a, s2).
Proof. intros Hmax. apply withConn_from_Ret; lia. Qed.

(** A directory that can be reached: no context is done, every dial and bind
    succeeds. *)
Record up : Prop := {
  up_select w : fst (env_select w) = None;
  up_dial w : exists h, fst (env_dial w) = inl h;
  up_bind h w : fst (env_bind h w) = None
}.

(** A permit is free and the pool is open. *)
Definition ready (s : St) : Prop := free s /\ done (st_pool s) = false.

Lemma Acquire_up s :
  up -> ready s -> exists h s', Acquire s = (Ret h, s') /\
    sem (st_pool s') = S (sem (st_pool s)) /\ size (st_pool s') = size (st_pool s) /\
    done (st_pool s') = false.
Proof.
  intros [Hsel Hdial Hbind] [Hf Hd]. unfold Acquire, tell, mbind, M_bind.
  specialize (Hsel (st_world s)). destruct (env_select (st_world s)) as [e w]; cbn in *; subst.
  unfold take_permit, try_send. cbn. rewrite decide_True by done. unfold take_conn. cbn.
  unfold acquire_section. cbn. rewrite Hd.
  destruct (rev (idle (st_pool s))) as [|h r]; [|by eexists _, _].
  unfold dial_and_bind, on_error, attempt, ask, tell, mbind, M_bind. cbn.
  destruct (Hdial w) as [h Hh]. destruct (env_dial w) as [r w1]; cbn in *; subst. cbn.
  specialize (Hbind h w1). destruct (env_bind h w1) as [r w2]; cbn in *; subst. by eexists _, _.
Qed.

(** Against a reachable directory whose answers make the callback succeed,
    [withConn] succeeds at the first attempt. *)
Lemma withConn_up (Q : A -> Prop) s :
  up -> ready s -> 1 <= c_MaxAttempts c -> (forall h, steady (fn h)) ->
  (forall h s1, exists a, fst (fn h s1) = Ret a /\ Q a) ->
  exists a s', withConn c op zero fn s = (Ret a, s') /\ Q a /\ ready s'.
Proof.
  intros Hup Hs Hmax Hst HQ. destruct (Acquire_up s Hup Hs) as (h & s1 & Ha & Hsem & Hsz & Hd).
  destruct (HQ h s1) as (a & Hfa & Hqa). destruct (Hst h s1) as (_ & Hp & _).
  unfold withConn. destruct (Z.to_nat (c_MaxAttempts c)) as [|fuel] eqn:E; [lia|].
  cbn [withConn_from]. unfold map_error, on_error, attempt, mbind, M_bind. rewrite Ha. cbn.
  destruct (fn h s1) as [r s2]; cbn in *; subst r.
  unfold Release, put_back, release_section, mbind, M_bind. rewrite Hp, Hd. cbn.
  rewrite (give_permit_S _ (sem (st_pool s))) by (cbn; congruence). eexists _, _.
  split_and!; [done|done|]. destruct Hs as [Hf _]. unfold ready, free in *. cbn. rewrite Hsz.
  split; [done|done].
Qed.
End success.
Arguments up {_}.

(** ** Automation for the operations built on withConn *)

Create HintDb quiet.
#[export] Hint Resolve quiet_ret quiet_fail quiet_ask quiet_tell quiet_conn_Close
  steady_ret steady_fail steady_ask steady_tell steady_close : quiet.

Ltac quiet_step :=
  lazymatch goal with
  | |- quiet (mbind _ _) => apply quiet_bind; [|intros ?]
  | |- quiet (on_error _ _) => apply quiet_on_error; [|intros ?]
  | |- quiet (map_error _ _) => apply quiet_map_error
  | |- quiet (attempt _) => apply quiet_attempt
  | |- quiet (withConn _ _ _ _) => apply withConn_quiet; intros ?
  | |- quiet (lift _) => apply quiet_lift
  | |- quiet (match ?x with _ => _ end) => destruct x
  | |- steady (mbind _ _) => apply steady_bind; [|intros ?]
  | |- steady (on_error _ _) => apply steady_on_error; [|intros ?]
  | |- steady (lift _) => apply steady_lift
  | |- steady (match ?x with _ => _ end) => destruct x
  | |- steady (conn_Search _ _) => apply steady_ask
  | |- steady (conn_Add _ _ _) => apply steady_tell
  | |- steady (conn_Modify _ _ _ _) => apply steady_tell
  | |- steady (conn_ModifyDN _ _ _ _ _) => apply steady_tell
  | |- steady (conn_Delete _ _) => apply steady_tell
  | |- returns (of_sum ?x) => by destruct x
  | |- returns (of_nil ?x) => by destruct x
  end.
Ltac solve_quiet := cbv zeta; repeat (solve [eauto with quiet] || (quiet_step; cbv zeta)).

(** Everything but a write relates the worlds around it by [R]. *)
Record reading `{Env} (R : relation World) : Prop := {
  reading_calm : calm R;
  reading_search h req w : R w (snd (env_search h req w));
  reading_dial_other host w : R w (snd (env_dial_other host w));
  reading_now w : R w (snd (env_now w));
  reading_wait d w : R w (snd (env_wait d w))
}.

Create HintDb calm.
Ltac respects_step :=
  lazymatch goal with
  | |- respects _ (mbind _ _) => apply respects_bind; [exact _| |intros ?]
  | |- respects _ (on_error _ _) => apply respects_on_error; [exact _| |intros ?]
  | |- respects _ (map_error _ _) => apply respects_on_error; [exact _| |intros ?]
  | |- respects _ (attempt _) => apply respects_attempt
  | |- respects _ (withConn _ _ _ _) =>
      
      apply respects_withConn;
        [exact _|match goal with Hr : reading _ |- _ => exact (reading_calm _ Hr) end|intros ?]
  | |- respects _ (lift _) => apply respects_lift; exact _
  | |- respects _ (fail _) => apply respects_lift; exact _
  | |- respects _ (mret _) => apply respects_ret; exact _
  | |- respects _ (conn_Search _ _) => 
      apply respects_ask; match goal with Hr : reading _ |- _ => apply (reading_search _ Hr) end
  | |- respects _ (match ?x with _ => _ end) => destruct x
  end.
Ltac solve_respects := cbv zeta; repeat (solve [eauto with calm] || (respects_step; cbv zeta)).

(** ** A scripted environment *)

(** Searches and writes are answered from lists; a write answered [nil] is
    counted. *)
Record script := mkScript {
  w_searches : list (SearchResult + error);
  w_replies : list (option error);
  w_writes : nat;
  w_dials : nat;
  w_closed : list nat
}.

Definition script_write (w : script) : option error * script :=
  match w_replies w with
  | Some e :: r => (Some e, mkScript (w_searches w) r (w_writes w) (w_dials w) (w_closed w))
  | None :: r => (None, mkScript (w_searches w) r (S (w_writes w)) (w_dials w) (w_closed w))
  | [] => (None, mkScript (w_searches w) [] (S (w_writes w)) (w_dials w) (w_closed w))
  end.

Definition script_search (w : script) : (SearchResult + error) * script :=
  match w_searches w with
  | r :: l => (r, mkScript l (w_replies w) (w_writes w) (w_dials w) (w_closed w))
  | [] => (inl (mkSearchResult [] []), w)
  end.

Definition script_env : Env := {|
  World := script;
  Handle := nat;
  env_dial w := (inl (w_dials w),
    mkScript (w_searches w) (w_replies w) (w_writes w) (S (w_dials w)) (w_closed w));
  env_bind h w := (None, w);
  env_search h req w := script_search w;
  env_add h dn attrs w := script_write w;
  env_modify h dn mods ctrls w := script_write w;
  env_modifydn h dn rdn del sup w := script_write w;
  env_delete h dn w := script_write w;
  env_close h w := (None,
    mkScript (w_searches w) (w_replies w) (w_writes w) (w_dials w) (h :: w_closed w));
  env_select w := (None, w);
  env_backoff n w := (None, w);
  env_dial_other host w := (inl (w_dials w),
    mkScript (w_searches w) (w_replies w) (w_writes w) (S (w_dials w)) (w_closed w));
  env_now w := (0, w);
  env_wait d w := (None, w);
  Mutex := list gostring;
  mutex_lock key l := if decide (key ∈ l) then None else Some (key :: l);
  mutex_unlock key l := filter (fun k => k <> key) l
|}.

Definition script_state (searches : list (SearchResult + error)) (replies : list (option error))
    : @St script_env :=
  @mkSt script_env (mkScript searches replies 0 0 []) (NewPool 1) [] None.

Definition sample_repl : ReplicationConfig := mkReplicationConfig false [] false 0 0.
Definition sample_core : core :=
  mkCore "dc1.example.com"%go "DC=example,DC=com"%go [] [] 3 sample_repl.

(** ** Properties *)

(** [withConn] balances the pool: from any state with a free permit it
    returns (it never blocks, panics or runs out), whatever the directory, the
    dialler and the binder answer, with every permit given back and the locks
    untouched; and an error it returns is an [adcore.Error] or the one the
    backoff reported. *)
Theorem withConn_balanced `{AdCore} `{Env} {A : Type} (c : core) (op : gostring) (zero : A)
    (fn : Handle -> M A) (s : St) :
  (forall h, steady (fn h)) -> free s ->
  let '(r, s') := withConn c op zero fn s in
  returns r /\ sem (st_pool s') = sem (st_pool s) /\ size (st_pool s') = size (st_pool s) /\
  st_locks s' = st_locks s /\
  (forall e, r = Fail e -> (exists a, e = AdError a) \/ exists k w, fst (env_backoff k w) = Some e).
Proof.
  intros Hfn Hs. pose proof (withConn_quiet c op zero fn Hfn s Hs I) as (H1 & H2 & H3 & H4).
  destruct (withConn c op zero fn s) as [r s'] eqn:E. cbn in *. split_and!; try done.
  intros e ->. by eapply withConn_from_error.
Qed.

(** C5: retrying cannot duplicate a side effect.  If a callback performs at
    most one write, and none when its failure is classified as retryable, then
    [withConn] as a whole performs at most one write, however many attempts it
    makes and however it ends. *)
Theorem withConn_at_most_once `{AdCore} `{Env} {A : Type} (writes : World -> nat) (c : core)
    (op : gostring) (zero : A) (fn : Handle -> M A) (s : St) :
  inert writes -> at_most_one_effect writes op fn ->
  (writes (st_world (snd (withConn c op zero fn s))) <= S (writes (st_world s)))%nat.
Proof. intros Hi Hfn. by apply withConn_from_once. Qed.

(** Only a transient failure is retried, and a dead connection is never
    pooled.  When the first failure is not retryable, [withConn] ends there
    with its classification: after a transport failure the connection is
    closed and the idle list is unchanged, otherwise (the pool being open) it
    is put back at the end of the idle list. *)
Theorem withConn_first_failure `{AdCore} `{Env} {A : Type} (c : core) (op : gostring) (zero : A)
    (fn : Handle -> M A) (s s1 s2 : St) (h : Handle) (e : error) (k : nat) :
  1 <= c_MaxAttempts c -> Acquire s = (Ret h, s1) -> fn h s1 = (Fail e, s2) ->
  is_retryable (Classify op e) = false -> sem (st_pool s2) = S k -> done (st_pool s2) = false ->
  exists s3, withConn c op zero fn s = (Fail (Classify op e), s3) /\ sem (st_pool s3) = k /\
    (if is_kind KindTransport (Classify op e)
     then idle (st_pool s3) = idle (st_pool s2) /\ st_world s3 = snd (env_close h (st_world s2))
     else idle (st_pool s3) = idle (st_pool s2) ++ [h] /\ st_world s3 = st_world s2).
Proof.
  intros Hmax Ha Hf Hnr Hsem Hdone. unfold withConn.
  destruct (Z.to_nat (c_MaxAttempts c)) as [|fuel] eqn:E; [lia|].
  cbn [withConn_from]. unfold map_error, on_error, attempt, mbind, M_bind. rewrite Ha. cbn.
  rewrite Hf. rewrite Hnr. cbn [negb orb].
  destruct (is_kind KindTransport (Classify op e)).
  - unfold Discard, mbind, M_bind. cbn. erewrite give_permit_S by done. by eexists.
  - unfold Release, put_back, release_section, mbind, M_bind. rewrite Hdone. cbn.
    erewrite give_permit_S by done. by eexists.
Qed.

Definition busy_error : error := RawError 51 "busy"%go None.
Definition sample_delete : Handle (Env := script_env) -> @M script_env unit :=
  fun h => @conn_Delete script_env h "CN=x"%go.

Lemma script_inert : @inert script_env w_writes.
Proof. by constructor. Qed.

Lemma sample_delete_effect : @at_most_one_effect sample_adcore script_env w_writes unit "op"%go sample_delete.
Proof.
  intros h [[srch rep wr di cl] p l d]. unfold sample_delete, conn_Delete, tell. cbn.
  destruct rep as [|[e|] r]; cbn; (split; [lia|done]).
Qed.

Lemma withConn_balanced_witness :
  let s := script_state [] [Some busy_error; Some busy_error; None] in
  sem (st_pool (snd (@withConn sample_adcore script_env unit sample_core "op"%go tt sample_delete s))) = 0%nat.
Proof.
  intros s.
  pose proof (@withConn_balanced sample_adcore script_env unit sample_core "op"%go tt sample_delete s
    (fun h => steady_tell _) (le_n 1)) as Hb.
  destruct (@withConn sample_adcore script_env unit sample_core "op"%go tt sample_delete s) as [r s'].
  destruct Hb as (_ & Hsem & _). exact Hsem.
Defined.

Lemma withConn_at_most_once_witness :
  let s := script_state [] [Some busy_error; Some busy_error; None] in
  w_writes (st_world (snd (@withConn sample_adcore script_env unit sample_core "op"%go tt sample_delete s))) = 1%nat /\
  (w_writes (st_world (snd (@withConn sample_adcore script_env unit sample_core "op"%go tt sample_delete s))) <= 1)%nat.
Proof.
  intros s. split; [reflexivity|].
  exact (@withConn_at_most_once sample_adcore script_env unit w_writes sample_core "op"%go tt
           sample_delete s script_inert sample_delete_effect).
Defined.

Lemma withConn_first_failure_witness :
  let s := script_state [] [Some (ExtError "connection reset"%go None)] in
  exists s3, @withConn sample_adcore script_env unit sample_core "op"%go tt sample_delete s
      = (Fail (@Classify sample_adcore "op"%go (ExtError "connection reset"%go None)), s3) /\
    idle (st_pool s3) = [].
Proof.
  intros s.
  destruct (@withConn_first_failure sample_adcore script_env unit sample_core "op"%go tt sample_delete
    s (snd (@Acquire script_env s)) (snd (sample_delete 0%nat (snd (@Acquire script_env s)))) 0%nat
    (ExtError "connection reset"%go None) 0
    ltac:(cbn; lia) eq_refl eq_refl eq_refl eq_refl eq_refl) as (s3 & Hr & _ & Hi & _).
  exists s3. split; [exact Hr|exact Hi].
Defined.
