(* ===== verification/Config.v ===== *)
(** * config.go: the configuration of a client and its validation *)
From S2P Require Export Goldap Exec.

(** [TLSMode] is a string type. *)
Definition TLSMode : Type := gostring.
Definition TLSLDAPS : TLSMode := "ldaps"%go.
Definition TLSStartTLS : TLSMode := "starttls"%go.

Definition DefaultPort (m : TLSMode) : Z := if decide (m = TLSStartTLS) then 389 else 636.

Record SimpleAuth := mkSimpleAuth { sa_Username : gostring; sa_Password : Secret }.

Record KerberosAuth := mkKerberosAuth {
  ka_CCachePath : gostring;
  ka_Keytab : gostring;
  ka_Username : gostring;
  ka_Password : Secret;
  ka_Realm : gostring;
  ka_Krb5ConfPath : gostring;
  ka_SPN : gostring
}.

Record NTLMAuth := mkNTLMAuth {
  na_Domain : gostring;
  na_Username : gostring;
  na_Password : Secret
}.

(** [adcore.RetryConfig]: the source applies its defaults, reads the number of
    attempts and hands it to the backoff. *)
Class Retries := {
  RetryConfig : Type;
  Retry_WithDefaults : RetryConfig -> RetryConfig;
  Retry_MaxAttempts : RetryConfig -> Z
}.

(** A pointer is an [option].  [Log] is left out: nothing is written to it. *)
Record Config `{KrbLib} `{!LdapLib} `{Retries} := mkConfig {
  Server : gostring;
  Port : Z;
  TLS : TLSMode;
  CACertificateFile : gostring;
  InsecureSkipVerify : bool;
  cfg_TLSConfig : option (TLSConfig CertPool);
  Simple : option SimpleAuth;
  Kerberos : option KerberosAuth;
  NTLM : option NTLMAuth;
  MaxConcurrency : Z;
  Timeout : Z;
  Retry : RetryConfig;
  Replication : ReplicationConfig
}.

Definition constraint (msg : gostring) : error :=
  adErr KindConstraint "New"%go (ErrNew ("adldap: "%go ++ msg)).

(** The two modes in double quotes, as the messages name them. *)
Definition either_mode : gostring :=
  [x22] ++ TLSLDAPS ++ [x22] ++ " or "%go ++ [x22] ++ TLSStartTLS ++ [x22].

Definition count_set (l : list bool) : Z := len (List.filter (fun b => b) l).
Definition set {A} (p : option A) : bool := match p with Some _ => true | None => false end.
Definition nonempty (s : gostring) : bool := negb (bool_decide (s = [])).

Section config.
Context `{KrbLib} `{!LdapLib} `{Retries}.

(** The checks on the Kerberos block; [None] is [nil]. *)
Definition validate_kerberos (k : KerberosAuth) : option error :=
  let sources := count_set [nonempty (ka_CCachePath k); nonempty (ka_Keytab k);
                            negb (secret_IsZero (ka_Password k))] in
  if 1 <? sources then
    Some (constraint "at most one of Kerberos.CCachePath, Kerberos.Keytab or Kerberos.Password may be set; with none set the ambient KRB5CCNAME applies. Choosing between two silently would authenticate as an identity nobody picked"%go)
  else if negb (secret_IsZero (ka_Password k)) && negb (nonempty (ka_Username k)) then
    Some (constraint "Kerberos.Password requires Kerberos.Username"%go)
  else if nonempty (ka_Keytab k) && negb (nonempty (ka_Username k)) then
    Some (constraint "Kerberos.Keytab requires Kerberos.Username"%go)
  else None.

(** The checks on the authentication blocks. *)
Definition validate_auth (c : Config) : option error :=
  let n := count_set [set (Simple c); set (Kerberos c); set (NTLM c)] in
  if n =? 0 then
    Some (constraint "exactly one of Simple, Kerberos or NTLM is required; there is no default, because guessing would authenticate as the wrong identity"%go)
  else if negb (n =? 1) then
    Some (constraint "exactly one of Simple, Kerberos or NTLM may be set"%go)
  else if match Simple c with Some s => negb (nonempty (sa_Username s)) | None => false end then
    Some (constraint "Simple.Username is required"%go)
  else if match NTLM c with Some s => negb (nonempty (na_Username s)) | None => false end then
    Some (constraint "NTLM.Username is required"%go)
  else match Kerberos c with Some k => validate_kerberos k | None => None end.

Definition Validate (c : Config) : option error :=
  if negb (nonempty (Server c)) then
    Some (constraint "Config.Server is required; there is no discovery, because a pinned DC is an invariant"%go)
  else if decide (TLS c = TLSLDAPS \/ TLS c = TLSStartTLS) then validate_auth c
  else match TLS c with
       | [] => Some (constraint ("Config.TLS is required: "%go ++ either_mode ++ ". Plain LDAP is not offered"%go))
       | _ => Some (constraint ("Config.TLS must be "%go ++ either_mode))
       end.
End config.

(** ** What a valid configuration is *)

Section valid.
Context `{KrbLib} `{!LdapLib} `{Retries}.

(** At most one explicit credential source, each with the name it needs. *)
Definition valid_kerberos (k : KerberosAuth) : Prop :=
  match ka_CCachePath k, ka_Keytab k, secret_IsZero (ka_Password k) with
  | [], [], true => True
  | _ :: _, [], true => True
  | [], _ :: _, true | [], [], false => ka_Username k <> []
  | _, _, _ => False
  end.

(** Exactly one block, with a user name. *)
Definition valid_auth (c : Config) : Prop :=
  match Simple c, Kerberos c, NTLM c with
  | Some s, None, None => sa_Username s <> []
  | None, Some k, None => valid_kerberos k
  | None, None, Some n => na_Username n <> []
  | _, _, _ => False
  end.

Definition valid (c : Config) : Prop :=
  Server c <> [] /\ (TLS c = TLSLDAPS \/ TLS c = TLSStartTLS) /\ valid_auth c.

Lemma nonempty_true s : nonempty s = true <-> s <> [].
Proof. unfold nonempty. rewrite negb_true_iff, bool_decide_eq_false. done. Qed.

Lemma validate_kerberos_exact k : validate_kerberos k = None <-> valid_kerberos k.
Proof.
  destruct k as [cc kt user [z p] realm conf sp]. unfold validate_kerberos, valid_kerberos. cbn.
  destruct cc as [|a cc], kt as [|b kt], z; cbn; try (split; [discriminate|done]); try done;
    destruct user; cbn; split; intros; try done; congruence.
Qed.

Lemma validate_auth_exact c : validate_auth c = None <-> valid_auth c.
Proof.
  unfold validate_auth, valid_auth.
  destruct (Simple c) as [s|], (Kerberos c) as [k|], (NTLM c) as [n|]; cbn;
    try (split; [discriminate|done]).
  - destruct (sa_Username s); cbn; split; intros; try done; congruence.
  - apply validate_kerberos_exact.
  - destruct (na_Username n); cbn; split; intros; try done; congruence.
Qed.

Definition is_constraint (e : error) : Prop := exists msg, e = constraint msg.

Lemma validate_kerberos_constraint k e : validate_kerberos k = Some e -> is_constraint e.
Proof. unfold validate_kerberos. repeat case_match; intros [= <-]; by eexists. Qed.

Lemma validate_auth_constraint c e : validate_auth c = Some e -> is_constraint e.
Proof.
  unfold validate_auth. repeat (case_match; try (intros [= <-]; by eexists)); try done.
  apply validate_kerberos_constraint.
Qed.

Lemma Validate_valid c : Validate c = None <-> valid c.
Proof.
  unfold Validate, valid. destruct (nonempty (Server c)) eqn:Hs; cbn [negb].
  2: { split; [done|]. intros [Hne _]. apply nonempty_true in Hne. congruence. }
  apply nonempty_true in Hs. destruct (decide _) as [Ht|Ht].
  - rewrite validate_auth_exact. tauto.
  - split; [by case_match|tauto].
Qed.
End valid.

(** ** Properties *)

(** C23: [Validate] accepts exactly the configurations that name a server, a
    TLS mode and one way to authenticate: one block only, with a user name,
    and for Kerberos at most one explicit credential source, with the user
    name a keytab or a password needs.  Every other configuration is refused
    with a constraint error of the operation New. *)
Theorem Validate_exact `{KrbLib} `{!LdapLib} `{Retries} (c : Config) :
  (Validate c = None <-> valid c) /\ (forall e, Validate c = Some e -> exists msg, e = constraint msg).
Proof.
  split; [apply Validate_valid|]. intros e. unfold Validate. case_match; [intros [= <-]; by eexists|].
  case_decide; [apply validate_auth_constraint|]. case_match; intros [= <-]; by eexists.
Qed.
