(* ===== verification/Search.v ===== *)
(** * search.go, ranged.go, tombstone.go: reading the directory

    Class-scoped searches, lookups of one object by identity, AD's ranged
    retrieval of a multi-valued attribute, and the probe for deleted objects. *)
From S2P Require Export Attrs Exec.

Definition ControlShowDeleted : gostring := "1.2.840.113556.1.4.417"%go.
Definition MatchingRuleInChain : gostring := "1.2.840.113556.1.4.1941"%go.

Definition scopeOf (s : SearchScope) : Scope :=
  match s with
  | SearchScopeBase => ScopeBase
  | SearchScopeOneLevel => ScopeOneLevel
  | _ => ScopeSubtree
  end.

(** [\xx] for every byte. *)
Definition escapeBinary (b : bytes) : gostring :=
  concat (map (fun x => "\"%byte :: fmt_x 2 (bZ x)) b).

Section search.
Context `{Unicode} `{AdCore} `{Env}.

Definition tooMany (op : gostring) (limit : Z) : error :=
  adErr KindTooManyResults op
    (Errorf "more than %d objects matched; narrow the filter or raise the limit"%go [FInt limit] None).

Definition classTerm (objectClass : gostring) : gostring :=
  if decide (objectClass = "*"%go) then "(objectClass=*)"%go
  else FilterEqual "objectClass"%go objectClass.

(** The callback most searches share: the entries of one search. *)
Definition search_cb (req : SearchRequest) (h : Handle) : M (list Entry) :=
  res ← conn_Search h req;
  mret (res_Entries res).

Definition searchEntries (c : core) (op : gostring) (q : Query) (objectClass : gostring)
    (want : list gostring) (controls : list Control) : M (list Entry) :=
  let q := Query_WithDefaults q (c_dnc c) in
  let filter := classTerm objectClass in
  let filter := match q_Filter q with [] => filter | f => FilterAnd filter f end in
  r ← attempt (withConn c op [] (search_cb
        (mkSearchRequest (q_SearchBase q) (scopeOf (q_Scope q)) filter want
           (q_SizeLimit q + 1) controls)));
  match r with
  | inr err =>
      if is_kind KindTooManyResults err then fail (tooMany op (q_SizeLimit q)) else fail err
  | inl entries =>
      if decide (q_SizeLimit q < len entries) then fail (tooMany op (q_SizeLimit q))
      else mret entries
  end.

Definition identityFilter (id : Identity) : outcome gostring :=
  let arg := IdentityArg id in
  if decide (IdentityForm id = "guid"%go) then
    b ← GUIDToBytes arg;
    Ret ("(objectGUID="%go ++ escapeBinary b ++ ")"%go)
  else if decide (IdentityForm id = "sid"%go) then Ret (FilterEqual "objectSid"%go arg)
  else if decide (IdentityForm id = "sam"%go) then Ret (FilterEqual "sAMAccountName"%go arg)
  else Ret (FilterEqual "distinguishedName"%go arg).

Definition notFound (op : gostring) (id : Identity) (objectClass : gostring) : error :=
  let what := if decide (objectClass = "*"%go) then "object"%go else objectClass in
  adErr_id KindNotFound op (Identity_String id)
    (Errorf "no %s matches %s"%go [FStr what; FStr (Identity_String id)] None).

Definition getOne_request (c : core) (objectClass f : gostring) (want : list gostring)
    (controls : list Control) : SearchRequest :=
  mkSearchRequest (c_dnc c) ScopeSubtree (FilterAnd (classTerm objectClass) f) want 2 controls.

Definition getOne (c : core) (op : gostring) (id : Identity) (objectClass : gostring)
    (want : list gostring) (controls : list Control) : M Entry :=
  f ← map_error (adErr_id KindConstraint op (Identity_String id)) (lift (identityFilter id));
  r ← attempt (withConn c op [] (search_cb (getOne_request c objectClass f want controls)));
  match r with
  | inr err =>
      if is_kind KindNotFound err then fail (notFound op id objectClass)
      else fail (WithIdentity err op id)
  | inl [e] => mret e
  | inl [] => fail (notFound op id objectClass)
  | inl entries =>
      fail (adErr_id KindConstraint op (Identity_String id)
              (Errorf "%d objects match %s; the identity is ambiguous"%go
                 [FInt (len entries); FStr (Identity_String id)] None))
  end.

Definition resolveDN (c : core) (op : gostring) (id : Identity) : M gostring :=
  if decide (IdentityForm id = "dn"%go) then mret (IdentityArg id)
  else
    e ← getOne c op id "*"%go ["distinguishedName"%go] [];
    mret (en_DN e).

(** ** ranged.go *)

(** The loop of [findRangedAttr] over the attributes. *)
Fixpoint find_ranged (prefix attr : gostring) (attrs : list (gostring * list bytes))
    : outcome (gostring * bool) :=
  match attrs with
  | [] => Ret (attr, true)
  | (k, _) :: attrs =>
      match strip_prefix prefix (ToLower k) with
      | None => find_ranged prefix attr attrs
      | Some spec =>
          let '(_, upper, found) := Cut spec "-"%byte in
          if negb found
          then Fail (Errorf "malformed range option %q on %s"%go [FStr spec; FStr attr] None)
          else if decide (upper = "*"%go) then Ret (k, true)
          else match Atoi upper with
               | Ret _ => Ret (k, false)
               | _ => Fail (Errorf "malformed range upper bound %q on %s"%go
                              [FStr upper; FStr attr] None)
               end
      end
  end.

Definition findRangedAttr (e : Entry) (attr : gostring) : outcome (gostring * bool) :=
  match map_get (en_Attrs e) attr with
  | Some _ => Ret (attr, true)
  | None => find_ranged (ToLower attr ++ ";range="%go) attr (en_Attrs e)
  end.

Definition ranged_request (dn attr : gostring) (lo : Z) : SearchRequest :=
  mkSearchRequest dn ScopeBase "(objectClass=*)"%go
    [attr ++ ";range="%go ++ fmt_d lo ++ "-*"%go] 1 [].

(** The callback of one page. *)
Definition page_cb (op dn attr : gostring) (lo : Z) (h : Handle) : M Entry :=
  res ← conn_Search h (ranged_request dn attr lo);
  match res_Entries res with
  | [] => fail (adErr_target KindNotFound op dn
                  (Errorf "the object disappeared while its %s was being read"%go [FStr attr] None))
  | e :: _ => mret e
  end.

(** The loop of [rangedValues]; [fuel] bounds the number of pages. *)
Fixpoint rangedValues_from (c : core) (op dn attr : gostring) (fuel : nat) (lo : Z)
    (out : list bytes) : M (list bytes) :=
  match fuel with
  | O => lift OutOfFuel
  | S fuel =>
      e ← withConn c op (mkEntry [] []) (page_cb op dn attr lo);
      '(key, last) ← map_error (adErr_target KindConstraint op dn) (lift (findRangedAttr e attr));
      let vals := default [] (map_get (en_Attrs e) key) in
      let out := out ++ vals in
      if last || (len vals =? 0) then mret out
      else rangedValues_from c op dn attr fuel (lo + len vals) out
  end.

Definition rangedValues (c : core) (op dn attr : gostring) (fuel : nat) : M (list bytes) :=
  rangedValues_from c op dn attr fuel 0 [].

(** ** tombstone.go *)

Record deletedMatch := mkDeletedMatch { dm_DN : gostring; dm_LastKnownParent : gostring }.

Definition probeDeleted (c : core) (filter : gostring) : M (list deletedMatch) :=
  entries ← withConn c "deleted_probe"%go [] (search_cb
    (mkSearchRequest (c_dnc c) ScopeSubtree filter
       ["distinguishedName"%go; "lastKnownParent"%go] 16
       [mkControl ControlShowDeleted true []]));
  mret (map (fun e => mkDeletedMatch (en_DN e) (FirstString e "lastKnownParent"%go)) entries).

Definition annotateAlreadyExists (c : core) (err : error) (dn filter : gostring) : M error :=
  match errors_As as_AdError err with
  | Some e =>
      if decide (e_Kind e <> KindAlreadyExists) then mret err
      else
        let target := match e_Target e with [] => dn | t => t end in
        let with_target t tomb :=
          AdError (mkAdError (e_Kind e) (e_Code e) (e_Op e) (e_Identity e) t
                     (e_ServerMessage e) tomb (e_Err e)) in
        r ← attempt (probeDeleted c filter);
        match r with
        | inl (m :: _) => mret (with_target (dm_DN m) true)
        | _ => mret (with_target target (e_Tombstoned e))
        end
  | None => mret err
  end.

Definition deletedFilter (objectClass name container : gostring) : gostring :=
  "(&(isDeleted=TRUE)"%go ++ FilterEqual "objectClass"%go objectClass
  ++ FilterEqual "lastKnownParent"%go container
  ++ "(name="%go ++ EscapeFilter name ++ "*))"%go.
End search.

(** ** Lemmas *)

Section search_lemmas.
Context `{Unicode} `{AdCore} `{Env}.

Lemma identityFilter_returns id : returns (identityFilter id).
Proof.
  unfold identityFilter. cbv zeta. repeat case_decide; try done.
  apply returns_bind; [apply GUIDToBytes_returns|done].
Qed.

Lemma find_ranged_returns prefix attr l : returns (find_ranged prefix attr l).
Proof.
  induction l as [|[k v] l IH]; [done|]. cbn [find_ranged].
  destruct (strip_prefix _ _); [|done]. destruct (Cut _ _) as [[? upper] found].
  case_match; [done|]. case_decide; [done|].
  destruct (Atoi upper) as [?|?| | |] eqn:E; done.
Qed.

Lemma findRangedAttr_returns e attr : returns (findRangedAttr e attr).
Proof. unfold findRangedAttr. case_match; [done|]. apply find_ranged_returns. Qed.

Lemma search_cb_steady req h : steady (search_cb req h).
Proof. unfold search_cb. solve_quiet. Qed.
Lemma page_cb_steady op dn attr lo h : steady (page_cb op dn attr lo h).
Proof. unfold page_cb. solve_quiet. Qed.
Hint Resolve search_cb_steady page_cb_steady identityFilter_returns findRangedAttr_returns : quiet.

Lemma searchEntries_quiet c op q class want controls :
  quiet (searchEntries c op q class want controls).
Proof. unfold searchEntries. solve_quiet. Qed.
Lemma getOne_quiet c op id class want controls : quiet (getOne c op id class want controls).
Proof. unfold getOne. solve_quiet. Qed.
Hint Resolve getOne_quiet : quiet.
Lemma resolveDN_quiet c op id : quiet (resolveDN c op id).
Proof. unfold resolveDN. solve_quiet. Qed.
Lemma probeDeleted_quiet c filter : quiet (probeDeleted c filter).
Proof. unfold probeDeleted. solve_quiet. Qed.
Hint Resolve probeDeleted_quiet : quiet.
Lemma annotateAlreadyExists_quiet c err dn filter : quiet (annotateAlreadyExists c err dn filter).
Proof. unfold annotateAlreadyExists. solve_quiet. Qed.
End search_lemmas.

#[export] Hint Resolve identityFilter_returns findRangedAttr_returns search_cb_steady page_cb_steady
  searchEntries_quiet getOne_quiet resolveDN_quiet probeDeleted_quiet annotateAlreadyExists_quiet
  : quiet.

(** Reading performs no write. *)
Section search_reads.
Context `{Unicode} `{AdCore} `{Env} (R : relation World) `{!PreOrder R} (HR : reading R).

Lemma search_cb_reads req h : respects R (search_cb req h).
Proof using All. unfold search_cb. solve_respects. Qed.
Hint Resolve search_cb_reads : calm.
Lemma getOne_reads c op id class want controls : respects R (getOne c op id class want controls).
Proof using All. unfold getOne. solve_respects. Qed.
Hint Resolve getOne_reads : calm.
Lemma searchEntries_reads c op q class want controls :
  respects R (searchEntries c op q class want controls).
Proof using All. unfold searchEntries. solve_respects. Qed.
Lemma resolveDN_reads c op id : respects R (resolveDN c op id).
Proof using All. unfold resolveDN. solve_respects. Qed.
Lemma page_cb_reads op dn attr lo h : respects R (page_cb op dn attr lo h).
Proof using All. unfold page_cb. solve_respects. Qed.
Lemma annotateAlreadyExists_reads c err dn filter : respects R (annotateAlreadyExists c err dn filter).
Proof using All. unfold annotateAlreadyExists, probeDeleted. solve_respects. Qed.
End search_reads.
#[export] Hint Resolve search_cb_reads getOne_reads searchEntries_reads resolveDN_reads page_cb_reads
  annotateAlreadyExists_reads : calm.

(** ** Ranged retrieval *)

Lemma Cut_cons s r sep : sep ∉ s -> Cut (s ++ sep :: r) sep = (s, r, true).
Proof.
  induction s as [|c s IH]; cbn [app Cut]; intros Hs.
  - by rewrite decide_True.
  - apply not_elem_of_cons in Hs as [? ?]. rewrite decide_False by done. by rewrite IH.
Qed.

Lemma is_ascii_app s t : is_ascii (s ++ t) = is_ascii s && is_ascii t.
Proof. apply forallb_app. Qed.

Lemma digits_lower s :
  Forall (fun c => is_digit c = true) s -> is_ascii s = true /\ map ascii_lower s = s.
Proof.
  induction 1 as [|c s Hc _ [IH1 IH2]]; [done|]. unfold is_ascii in *. cbn. rewrite IH1, IH2.
  split; [|f_equal]; by destruct c.
Qed.

(** What a domain controller may answer to a request for the values from [lo]
    on: everything at once under the bare name, nothing at all when there are
    no values, the last page (marked ["*"]), or a proper page.  It picks the
    page size and the spelling of the attribute, page by page. *)
Inductive page_of `{Unicode} (attr : gostring) (vs : list bytes) (lo : Z) : Entry -> Prop :=
  | page_bare dn :
      lo = 0 -> page_of attr vs lo (mkEntry dn [(attr, vs)])
  | page_none dn :
      vs = [] -> page_of attr vs lo (mkEntry dn [])
  | page_last dn attr' :
      is_ascii attr' = true -> ToLower attr' = ToLower attr ->
      page_of attr vs lo
        (mkEntry dn [(attr' ++ ";range="%go ++ fmt_d lo ++ "-"%go ++ "*"%go, drop (Z.to_nat lo) vs)])
  | page_more dn attr' (n : nat) :
      is_ascii attr' = true -> ToLower attr' = ToLower attr ->
      (1 <= n)%nat -> (Z.to_nat lo + n < length vs)%nat ->
      page_of attr vs lo
        (mkEntry dn [(attr' ++ ";range="%go ++ fmt_d lo ++ "-"%go ++ fmt_d (lo + Z.of_nat n - 1),
                      take n (drop (Z.to_nat lo) vs))]).

Section ranged.
Context `{Unicode} `{AdCore} `{Env}.

Lemma fmt_d_digits n : 0 <= n -> Forall (fun c => is_digit c = true) (fmt_d n).
Proof.
  intros Hn. unfold fmt_d, FormatInt. rewrite (proj2 (Z.ltb_ge n 0)) by lia.
  by apply FormatUint_digits.
Qed.

(** Reading the range option of a response key. *)
Lemma findRangedAttr_key dn attr attr' lo upper vals :
  is_ascii attr = true -> is_ascii attr' = true -> ToLower attr' = ToLower attr -> 0 <= lo ->
  is_ascii upper = true -> map ascii_lower upper = upper ->
  upper = "*"%go \/ (exists z, Atoi upper = Ret z) ->
  let key := attr' ++ ";range="%go ++ fmt_d lo ++ "-"%go ++ upper in
  findRangedAttr (mkEntry dn [(key, vals)]) attr = Ret (key, bool_decide (upper = "*"%go)) /\
  map_get [(key, vals)] key = Some vals.
Proof.
  intros Ha Ha' Heq Hlo Hu Hul Hup key.
  destruct (digits_lower _ (fmt_d_digits lo Hlo)) as [Hd1 Hd2].
  assert (ToLower key = ToLower attr ++ ";range="%go ++ fmt_d lo ++ "-"%byte :: upper) as Hk.
  { unfold ToLower at 1. subst key. rewrite !is_ascii_app, Ha', Hd1, Hu. cbn [andb].
    change (is_ascii ";range="%go) with true. change (is_ascii "-"%go) with true. cbn [andb].
    rewrite !map_app, Hd2, Hul. rewrite <- Heq. unfold ToLower. by rewrite Ha'. }
  assert (key <> attr) as Hne.
  { intros E. assert (length attr' = length attr) as Hl.
    { unfold ToLower in Heq. rewrite Ha, Ha' in Heq. apply (f_equal length) in Heq.
      by rewrite !length_map in Heq. }
    apply (f_equal length) in E. subst key. rewrite length_app in E. cbn in E. lia. }
  assert (map_get [(key, vals)] key = Some vals) as Hget.
  { unfold map_get. cbn. by rewrite decide_True. }
  split; [|exact Hget]. unfold findRangedAttr. cbn [en_Attrs].
  assert (map_get [(key, vals)] attr = None) as ->.
  { unfold map_get. cbn. by rewrite decide_False. }
  cbn [find_ranged]. rewrite Hk.
  assert (strip_prefix (ToLower attr ++ ";range="%go)
    (ToLower attr ++ ";range="%go ++ fmt_d lo ++ "-"%byte :: upper)
    = Some (fmt_d lo ++ "-"%byte :: upper)) as ->.
  { apply strip_prefix_spec. by rewrite <- app_assoc. }
  rewrite Cut_cons.
  2: { intros Hin. pose proof (fmt_d_digits lo Hlo) as Hd. rewrite List.Forall_forall in Hd.
       apply list_elem_of_In in Hin. apply Hd in Hin. done. }
  cbn [negb]. destruct Hup as [->|[z Hz]]; [done|].
  case_decide as Hs; [by subst|]. rewrite Hz. by rewrite bool_decide_eq_false_2.
Qed.

(** What one page adds, and whether it is the last. *)
Lemma page_of_read attr vs lo e :
  is_ascii attr = true -> len vs < 2 ^ 63 -> 0 <= lo <= len vs -> page_of attr vs lo e ->
  exists key last, findRangedAttr e attr = Ret (key, last) /\
    let vals := default [] (map_get (en_Attrs e) key) in
    if (last || (len vals =? 0) : bool) then take (Z.to_nat lo) vs ++ vals = vs
    else vals = take (length vals) (drop (Z.to_nat lo) vs) /\ (1 <= length vals)%nat /\
         lo + len vals < len vs.
Proof.
  intros Ha Hvs Hlo Hp. destruct Hp as [dn ->|dn ->|dn attr' Ha' Heq|dn attr' n Ha' Heq Hn1 Hn2].
  - exists attr, true. unfold findRangedAttr, map_get. cbn. rewrite decide_True by done. done.
  - exists attr, true. unfold findRangedAttr, map_get. cbn. by rewrite take_nil.
  - destruct (findRangedAttr_key dn attr attr' lo "*"%go (drop (Z.to_nat lo) vs))
      as [Hf Hg]; try done; [lia|by left|].
    eexists _, _. split; [exact Hf|]. cbn [en_Attrs]. rewrite Hg. cbn. apply take_drop.
  - set (upper := fmt_d (lo + Z.of_nat n - 1)).
    assert (0 <= lo + Z.of_nat n - 1) as Hup by lia.
    destruct (digits_lower _ (fmt_d_digits _ Hup)) as [Hd1 Hd2].
    assert (Atoi upper = Ret (lo + Z.of_nat n - 1)) as Hz.
    { apply ParseInt_FormatInt; [lia|]. unfold len in *. simpl. lia. }
    set (vals := take n (drop (Z.to_nat lo) vs)).
    assert (length vals = n) as Hlen by (subst vals; unfold len in *; len_lia).
    destruct (findRangedAttr_key dn attr attr' lo upper vals) as [Hf Hg]; try done; [lia|eauto|].
    eexists _, _. split; [exact Hf|]. cbn [en_Attrs]. rewrite Hg.
    change (default [] (Some vals)) with vals.
    assert (len vals = Z.of_nat n) as Hlv by (unfold len; by rewrite Hlen).
    rewrite bool_decide_eq_false_2.
    2: { intros E. rewrite E in Hz. discriminate Hz. }
    rewrite Hlv, (proj2 (Z.eqb_neq (Z.of_nat n) 0)) by lia. cbn [orb].
    split_and!; [by rewrite Hlen|lia|unfold len; lia].
Qed.

(** A directory that holds the values [vs] of an attribute. *)
Definition serves (dn attr : gostring) (vs : list bytes) : Prop := forall h w lo,
  0 <= lo <= len vs -> exists e es ctrls, page_of attr vs lo e /\
    fst (env_search h (ranged_request dn attr lo) w) = inl (mkSearchResult (e :: es) ctrls).

Lemma rangedValues_from_complete c op dn attr vs fuel lo s :
  up -> 1 <= c_MaxAttempts c -> is_ascii attr = true -> len vs < 2 ^ 63 -> serves dn attr vs ->
  ready s -> 0 <= lo <= len vs -> (length vs < fuel + Z.to_nat lo)%nat ->
  exists s', rangedValues_from c op dn attr fuel lo (take (Z.to_nat lo) vs) s = (Ret vs, s') /\
             ready s'.
Proof.
  intros Hup Hmax Ha Hvs Hsrv. revert lo s.
  induction fuel as [|fuel IH]; intros lo s Hs Hlo Hfuel; [unfold len in *; lia|].
  cbn [rangedValues_from].
  destruct (withConn_up c op (mkEntry [] []) (page_cb op dn attr lo) (page_of attr vs lo) s)
    as (e & s1 & Hrun & Hpage & Hs1); try done.
  { intros. apply page_cb_steady. }
  { intros h s1. destruct (Hsrv h (st_world s1) lo Hlo) as (e & es & ctrls & He & Hr).
    exists e. split; [|done]. unfold page_cb, conn_Search, ask, mbind, M_bind.
    destruct (env_search h _ _) as [r w]; cbn in *. subst. done. }
  destruct (page_of_read attr vs lo e Ha Hvs Hlo Hpage) as (key & last & Hf & Hvals).
  unfold mbind, M_bind. rewrite Hrun. unfold map_error, on_error, attempt, lift, mbind, M_bind.
  rewrite Hf. cbn [mret M_ret]. cbv zeta in *.
  set (vals := default [] (map_get (en_Attrs e) key)) in *.
  destruct (last || (len vals =? 0)) eqn:E.
  - rewrite Hvals. by exists s1.
  - destruct Hvals as (Hv & Hl1 & Hlt).
    assert (take (Z.to_nat lo) vs ++ vals = take (Z.to_nat (lo + len vals)) vs) as ->.
    { rewrite Hv at 1. rewrite take_take_drop. f_equal. unfold len. lia. }
    apply IH; [done|pose proof (len_nonneg vals); lia|unfold len in *; lia].
Qed.

(** One answer under the bare name is the whole retrieval. *)
Lemma rangedValues_from_bare c op dn attr vs fuel s :
  up -> 1 <= c_MaxAttempts c -> ready s ->
  (forall h w, exists dn' es ctrls, fst (env_search h (ranged_request dn attr 0) w)
     = inl (mkSearchResult (mkEntry dn' [(attr, vs)] :: es) ctrls)) ->
  exists s', rangedValues_from c op dn attr (S fuel) 0 [] s = (Ret vs, s') /\ ready s'.
Proof.
  intros Hup Hmax Hs Hsrv. cbn [rangedValues_from].
  destruct (withConn_up c op (mkEntry [] []) (page_cb op dn attr 0)
    (fun e => exists dn', e = mkEntry dn' [(attr, vs)]) s) as (e & s1 & Hrun & [dn' ->] & Hs1); try done.
  { intros. apply page_cb_steady. }
  { intros h s1. destruct (Hsrv h (st_world s1)) as (dn' & es & ctrls & Hr).
    exists (mkEntry dn' [(attr, vs)]). split; [|by exists dn']. unfold page_cb, conn_Search, ask, mbind, M_bind.
    destruct (env_search h _ _) as [r w]; cbn in *. by subst. }
  unfold mbind, M_bind. rewrite Hrun. unfold map_error, on_error, attempt, lift, mbind, M_bind.
  unfold findRangedAttr. cbn [en_Attrs]. assert (map_get [(attr, vs)] attr = Some vs) as Hg
    by (unfold map_get; cbn; by rewrite decide_True).
  rewrite Hg. cbn [mret M_ret en_Attrs default orb]. rewrite Hg. by exists s1.
Qed.
End ranged.

(** ** Properties *)

Section search_results.
Context `{Unicode} `{AdCore} `{Env}.

(** A successful search callback returns the entries of one answer. *)
Lemma search_cb_Ret req h s es s' :
  search_cb req h s = (Ret es, s') ->
  exists ctrls, fst (env_search h req (st_world s)) = inl (mkSearchResult es ctrls).
Proof.
  unfold search_cb, conn_Search, ask, mbind, M_bind.
  destruct (env_search h req (st_world s)) as [[[es' ctrls]|e] w]; cbn; [|done].
  intros [= -> _]. by exists ctrls.
Qed.

Lemma search_cb_up req (es : list Entry) :
  (forall h w, exists ctrls, fst (env_search h req w) = inl (mkSearchResult es ctrls)) ->
  forall h s, exists a, fst (search_cb req h s) = Ret a /\ a = es.
Proof.
  intros Hs h s. destruct (Hs h (st_world s)) as [ctrls Hr]. exists es. split; [|done].
  unfold search_cb, conn_Search, ask, mbind, M_bind.
  destruct (env_search h req _) as [r w]; cbn in *; subst. done.
Qed.
End search_results.

(** The directory answered the lookup of [id] with [e] alone. *)
Definition looked_up `{AdCore} `{Env} (c : core) (id : Identity) (class : gostring)
    (want : list gostring) (ctl : list Control) (e : Entry) : Prop :=
  exists f h w ctrls, identityFilter id = Ret f /\
    fst (env_search h (getOne_request c class f want ctl) w) = inl (mkSearchResult [e] ctrls).

Lemma getOne_Ret `{AdCore} `{Env} (c : core) op id class want ctl s e :
  1 <= c_MaxAttempts c -> fst (getOne c op id class want ctl s) = Ret e ->
  looked_up c id class want ctl e.
Proof.
  intros Hmax. unfold looked_up, getOne, map_error, on_error, attempt, lift, mbind, M_bind.
  destruct (identityFilter id) as [f|err| | |]; cbn; try done.
  destruct (withConn _ _ _ _ s) as [[es|err| | |] s1] eqn:E; cbn; try done.
  2: { by destruct (is_kind _ _). }
  apply withConn_Ret in E as (h & s2 & s3 & Hcb); [|done].
  apply search_cb_Ret in Hcb as [ctrls Hr].
  destruct es as [|e1 [|e2 es]]; cbn; try done. intros [= <-].
  by exists f, h, (st_world s2), ctrls.
Qed.

(** What a lookup makes of the entries of its one search. *)
Definition one_entry `{AdCore} (op : gostring) (id : Identity) (class : gostring) (es : list Entry)
    : outcome Entry :=
  match es with
  | [e] => Ret e
  | [] => Fail (notFound op id class)
  | _ => Fail (adErr_id KindConstraint op (Identity_String id)
                 (Errorf "%d objects match %s; the identity is ambiguous"%go
                    [FInt (len es); FStr (Identity_String id)] None))
  end.

Lemma getOne_up `{AdCore} `{Env} (c : core) op id class want ctl s f es :
  1 <= c_MaxAttempts c -> identityFilter id = Ret f -> up -> ready s ->
  (forall h w, exists ctrls,
     fst (env_search h (getOne_request c class f want ctl) w) = inl (mkSearchResult es ctrls)) ->
  exists s', getOne c op id class want ctl s = (one_entry op id class es, s') /\ ready s'.
Proof.
  intros Hmax Hf Hup Hs Hsrv.
  unfold getOne, map_error, on_error, attempt, lift, mbind, M_bind. rewrite Hf. cbn.
  destruct (withConn_up c op [] (search_cb (getOne_request c class f want ctl))
    (fun a => a = es) s) as (a & s1 & -> & -> & Hs1); try done.
  { intros. apply search_cb_steady. }
  { by apply search_cb_up. }
  exists s1. by destruct es as [|e1 [|e2 es]].
Qed.

(** C29: ranged retrieval is complete.  Against a reachable directory that
    pages the values of an attribute as it likes (any page sizes, any
    spelling, the bare name, or no attribute when there is no value),
    [rangedValues] terminates within one page more than there are values and
    returns exactly all of them in order, whatever the last page's size. *)
Theorem rangedValues_complete `{Unicode} `{AdCore} `{Env} (c : core) (op dn attr : gostring)
    (vs : list bytes) (fuel : nat) (s : St) :
  up -> ready s -> 1 <= c_MaxAttempts c -> is_ascii attr = true -> len vs < 2 ^ 63 ->
  serves dn attr vs -> (length vs < fuel)%nat ->
  exists s', rangedValues c op dn attr fuel s = (Ret vs, s') /\ ready s'.
Proof.
  intros Hup Hs Hmax Ha Hvs Hsrv Hfuel. unfold rangedValues.
  apply (rangedValues_from_complete c op dn attr vs fuel 0 s Hup Hmax Ha Hvs Hsrv Hs);
    [pose proof (len_nonneg vs); lia|]. cbn. lia.
Qed.

(** C8: a lookup by identity never picks silently.  Success means that one
    search of the whole naming context, for the class and the escaped
    identity, answered with exactly the entry returned; and when a reachable
    directory answers that search with no entry the error is not-found, with
    several it is a constraint error. *)
Theorem getOne_exact `{AdCore} `{Env} (c : core) (op : gostring) (id : Identity)
    (class : gostring) (want : list gostring) (ctl : list Control) (s : St) :
  1 <= c_MaxAttempts c ->
  let run := getOne c op id class want ctl s in
  (forall e, fst run = Ret e -> looked_up c id class want ctl e) /\
  (forall f es, identityFilter id = Ret f -> up -> ready s ->
     (forall h w, exists ctrls,
        fst (env_search h (getOne_request c class f want ctl) w) = inl (mkSearchResult es ctrls)) ->
     match es with
     | [e] => fst run = Ret e
     | [] => fst run = Fail (notFound op id class)
     | _ => exists msg, fst run = Fail (adErr_id KindConstraint op (Identity_String id) msg)
     end).
Proof.
  intros Hmax run. split.
  - intros e. by apply getOne_Ret.
  - intros f es Hf Hup Hs Hsrv. subst run.
    destruct (getOne_up c op id class want ctl s f es) as (s' & -> & _); [done..|].
    destruct es as [|e1 [|e2 es]]; [done|done|by eexists].
Qed.

(** C30: a class-scoped search is never silently truncated: on success the
    result is the whole answer to one search that asked for one entry more
    than the limit, and no longer than the limit. *)
Theorem searchEntries_whole `{AdCore} `{Env} (c : core) (op : gostring) (q : Query)
    (class : gostring) (want : list gostring) (ctl : list Control) (s : St) (es : list Entry) :
  1 <= c_MaxAttempts c ->
  fst (searchEntries c op q class want ctl s) = Ret es ->
  let limit := q_SizeLimit (Query_WithDefaults q (c_dnc c)) in
  len es <= limit /\
  exists h req w ctrls, sr_SizeLimit req = limit + 1 /\
    sr_BaseDN req = q_SearchBase (Query_WithDefaults q (c_dnc c)) /\
    fst (env_search h req w) = inl (mkSearchResult es ctrls).
Proof.
  intros Hmax Hr limit. revert Hr. unfold searchEntries, attempt, mbind, M_bind. cbv zeta.
  fold limit. set (req := mkSearchRequest _ _ _ _ _ _).
  destruct (withConn _ _ _ _ s) as [[es'|err| | |] s1] eqn:E; cbn; try done.
  2: { by destruct (is_kind _ _). }
  apply withConn_Ret in E as (h & s2 & s3 & Hcb); [|done].
  apply search_cb_Ret in Hcb as [ctrls Hr].
  case_decide as Hl; cbn; [done|]. intros [= <-]. split; [lia|].
  by exists h, req, (st_world s2), ctrls.
Qed.

(** The "disappeared" error of [rangedValues] does not keep its kind: built
    inside the callback, it is reclassified as a transport failure. *)
Lemma disappeared_is_transport `{AdCore} op dn attr :
  let e := adErr_target KindNotFound op dn
             (Errorf "the object disappeared while its %s was being read"%go [FStr attr] None) in
  Classify op e = adErr KindTransport op e.
Proof. reflexivity. Qed.

(** ** Witnesses *)

(** A directory that serves two values in two pages, by the offset asked for. *)
Definition two_values : list bytes := ["CN=a"%go; "CN=b"%go].
Definition page_key (tail : gostring) : gostring := "Member;Range="%go ++ tail.

Definition paging_env : Env := {|
  World := unit;
  Handle := nat;
  env_dial w := (inl 0%nat, w);
  env_bind h w := (None, w);
  env_search h req w :=
    (inl (mkSearchResult
       (if decide (sr_Attributes req = ["member;range=0-*"%go])
        then [mkEntry [] [("member;range=0-0"%go, ["CN=a"%go])]]
        else if decide (sr_Attributes req = ["member;range=1-*"%go])
        then [mkEntry [] [("member;range=1-*"%go, ["CN=b"%go])]]
        else [mkEntry [] [("member;range=2-*"%go, [])]]) []), w);
  env_add h dn attrs w := (None, w);
  env_modify h dn mods ctrls w := (None, w);
  env_modifydn h dn rdn del sup w := (None, w);
  env_delete h dn w := (None, w);
  env_close h w := (None, w);
  env_select w := (None, w);
  env_backoff n w := (None, w);
  env_dial_other host w := (inl 0%nat, w);
  env_now w := (0, w);
  env_wait d w := (None, w);
  Mutex := unit;
  mutex_lock key l := Some l;
  mutex_unlock key l := l
|}.

Definition paging_state : @St paging_env := @mkSt paging_env tt (NewPool 2) tt None.

Lemma paging_up : @up paging_env.
Proof. constructor; [done| |done]. intros w. by exists 0%nat. Qed.

Lemma paging_serves : @serves ascii_unicode paging_env "CN=g"%go "member"%go two_values.
Proof.
  intros h w lo Hlo. unfold len in Hlo. cbn in Hlo.
  assert (lo = 0 \/ lo = 1 \/ lo = 2) as [->|[->| ->]] by lia; eexists _, _, _; (split; [|reflexivity]).
  - by apply (@page_more ascii_unicode "member"%go two_values 0 [] "member"%go 1); cbn; try lia.
  - by apply (@page_last ascii_unicode "member"%go two_values 1 [] "member"%go).
  - by apply (@page_last ascii_unicode "member"%go two_values 2 [] "member"%go).
Qed.

Lemma rangedValues_complete_witness :
  exists s', @rangedValues ascii_unicode sample_adcore paging_env sample_core "op"%go "CN=g"%go
               "member"%go 3 paging_state = (Ret two_values, s') /\ ready s'.
Proof.
  apply (@rangedValues_complete ascii_unicode sample_adcore paging_env sample_core "op"%go
           "CN=g"%go "member"%go two_values 3 paging_state).
  - exact paging_up.
  - split; [exact (le_S _ _ (le_n 1))|reflexivity].
  - done.
  - reflexivity.
  - done.
  - exact paging_serves.
  - exact (le_n 3).
Defined.

Definition sample_entry : Entry := mkEntry "CN=x,DC=example,DC=com"%go [].

Lemma getOne_exact_witness :
  fst (@getOne sample_adcore paging_env sample_core "op"%go (SampleSAM "x"%go)
         "user"%go ["cn"%go] [] paging_state) = Ret (mkEntry [] [("member;range=2-*"%go, [])]).
Proof.
  refine (proj2 (@getOne_exact sample_adcore paging_env sample_core "op"%go
    (SampleSAM "x"%go) "user"%go ["cn"%go] [] paging_state _) _ [_] eq_refl paging_up _ _).
  - done.
  - split; [exact (le_S _ _ (le_n 1))|reflexivity].
  - intros h w. by exists [].
Defined.

Lemma searchEntries_whole_witness :
  len (A := Entry) [mkEntry [] [("member;range=2-*"%go, [])]] <= 10.
Proof.
  apply (@searchEntries_whole sample_adcore paging_env sample_core "op"%go
    (mkQuery [] [] SearchScopeSubtree 10) "user"%go ["cn"%go] [] paging_state
    [mkEntry [] [("member;range=2-*"%go, [])]]); [done|reflexivity].
Defined.
