(* ===== verification/Filters.v ===== *)
(** * internal/adtest: distinguished names and filters of the in-process directory

    The directory the package's tests run against decides which entries a
    search returns with the functions below (server.go, handlers.go, sid.go).
    A slice out of range panics, as in Go; [matchFilter] recurses into strictly
    shorter strings, so its fuel is the length of the filter. *)
From S2P Require Export Search.

Section filters.
Context `{Unicode}.

(** [strings.Join]. *)
Fixpoint Join (parts : list gostring) (sep : gostring) : gostring :=
  match parts with
  | [] => []
  | [p] => p
  | p :: ps => p ++ sep ++ Join ps sep
  end.

(** ** Distinguished names *)

Definition normalizeDN (dn : gostring) : gostring := Join (map TrimSpace (Split dn ","%byte)) ","%go.

Definition equalFoldDN (a b : gostring) : bool := EqualFold (normalizeDN a) (normalizeDN b).

Definition isUnder (dn base : gostring) : bool :=
  equalFoldDN dn base
  || HasSuffix (ToLower (normalizeDN dn)) (","%go ++ ToLower (normalizeDN base)).

Definition isChildOf (dn base : gostring) : outcome bool :=
  if negb (isUnder dn base) || equalFoldDN dn base then Ret false
  else
    rest ← slice (normalizeDN dn) 0 (len (normalizeDN dn) - len (normalizeDN base) - 1);
    Ret (negb (Contains rest ","%go)).

Definition inScopeMem (dn base : gostring) (scope : Scope) : outcome bool :=
  match scope with
  | ScopeBase => Ret (equalFoldDN dn base)
  | ScopeOneLevel => isChildOf dn base
  | ScopeSubtree => Ret (isUnder dn base)
  end.

(** ** Assertion values *)

Definition unhex (c : byte) : option Z :=
  let z := bZ c in
  if (48 <=? z) && (z <=? 57) then Some (z - 48)
  else if (97 <=? z) && (z <=? 102) then Some (z - 97 + 10)
  else if (65 <=? z) && (z <=? 70) then Some (z - 65 + 10)
  else None.

(** The loop of [unescapeFilterValue]. *)
Fixpoint unescape (s : gostring) : gostring :=
  match s with
  | [] => []
  | c :: tl =>
      match tl with
      | a :: b :: r =>
          if decide (c = "\"%byte) then
            match unhex a, unhex b with
            | Some hi, Some lo => Zb (Z.lor (Z.shiftl hi 4) lo) :: unescape r
            | _, _ => c :: unescape tl
            end
          else c :: unescape tl
      | _ => c :: unescape tl
      end
  end.

Definition unescapeFilterValue (s : gostring) : gostring :=
  if Contains s "\"%go then unescape s else s.

(** The inner pieces of a substring assertion, each after the one before. *)
Fixpoint match_mids (mids : list gostring) (h : gostring) : bool :=
  match mids with
  | [] => true
  | [] :: mids => match_mids mids h
  | mid :: mids =>
      match Index h mid with
      | None => false
      | Some i => match_mids mids (drop (Z.to_nat i + length mid) h)
      end
  end.

Definition matchValue (have want : gostring) : bool :=
  if negb (Contains want "*"%go) then EqualFold have want
  else
    let parts := Split (ToLower want) "*"%byte in
    let h := ToLower have in
    let pre := hd [] parts in
    let last := List.last parts [] in
    match strip_prefix pre h with
    | None => false
    | Some h =>
        if negb (HasSuffix h last) then false
        else match_mids (removelast (tl parts)) (take (length h - length last) h)
    end.

Definition sidMatches (have want : bytes) : bool :=
  match SIDToString have with
  | Ret s => EqualFold s want
  | _ => false
  end.

(** The value under the first spelling met that equals [name] up to case. *)
Definition lookupFold (attrs : list (gostring * list bytes)) (name : gostring) : option (list bytes) :=
  find_map (fun kv => if EqualFold (fst kv) name then Some (snd kv) else None) attrs.

(** ** matchFilter *)

(** [s[start:i+1]] for every balanced term of [s]; [i] is the position of
    [rest] in [s]. *)
Fixpoint split_terms (s rest : gostring) (i : nat) (depth : Z) (start : nat) : list gostring :=
  match rest with
  | [] => []
  | c :: rest =>
      if decide (c = "("%byte) then
        split_terms s rest (S i) (depth + 1) (if depth =? 0 then i else start)
      else if decide (c = ")"%byte) then
        let terms := split_terms s rest (S i) (depth - 1) start in
        if depth - 1 =? 0 then take (S i - start) (drop start s) :: terms else terms
      else split_terms s rest (S i) depth start
  end.
Definition splitTerms (s : gostring) : list gostring := split_terms s s 0 0 0.

(** The two loops over the terms, which stop at the first answer. *)
Fixpoint all_terms (f : gostring -> outcome bool) (l : list gostring) : outcome bool :=
  match l with
  | [] => Ret true
  | x :: l => b ← f x; if (b : bool) then all_terms f l else Ret false
  end.
Fixpoint any_term (f : gostring -> outcome bool) (l : list gostring) : outcome bool :=
  match l with
  | [] => Ret false
  | x :: l => b ← f x; if (b : bool) then Ret true else any_term f l
  end.

(** An extensible match, [attr:<rule-oid>:=value], as a plain comparison. *)
Definition plain_body (body : gostring) : gostring :=
  match Index body ":"%go, Index body ":="%go with
  | Some j, Some k => if 0 <? j then take (Z.to_nat j) body ++ drop (Z.to_nat (k + 1)) body else body
  | _, _ => body
  end.

(** One comparison [attr=want]. *)
Definition match_item (attrs : list (gostring * list bytes)) (body : gostring) : bool :=
  let body := plain_body body in
  match Index body "="%go with
  | None => false
  | Some i =>
      let attr := take (Z.to_nat i) body in
      let want := drop (Z.to_nat (i + 1)) body in
      match lookupFold attrs attr with
      | None => false
      | Some vals =>
          if decide (want = "*"%go) then negb (bool_decide (vals = []))
          else
            let unescaped := unescapeFilterValue want in
            existsb (fun v => if EqualFold attr "objectSid"%go then sidMatches v unescaped
                              else matchValue v unescaped) vals
      end
  end.

Fixpoint matchFilter_from (fuel : nat) (attrs : list (gostring * list bytes)) (filter : gostring)
    : outcome bool :=
  match fuel with
  | O => OutOfFuel
  | S fuel =>
      let filter := TrimSpace filter in
      if decide (filter = []) then Ret true
      else if HasPrefix filter "(&"%go then
        body ← slice filter 2 (len filter - 1);
        all_terms (matchFilter_from fuel attrs) (splitTerms body)
      else if HasPrefix filter "(|"%go then
        body ← slice filter 2 (len filter - 1);
        any_term (matchFilter_from fuel attrs) (splitTerms body)
      else if HasPrefix filter "(!"%go then
        body ← slice filter 2 (len filter - 1);
        b ← matchFilter_from fuel attrs body;
        Ret (negb b)
      else if negb (HasPrefix filter "("%go) || negb (HasSuffix filter ")"%go) then Ret false
      else
        body ← slice filter 1 (len filter - 1);
        Ret (match_item attrs body)
  end.

Definition matchFilter (attrs : list (gostring * list bytes)) (filter : gostring) : outcome bool :=
  matchFilter_from (S (length filter)) attrs filter.
End filters.

(** ** Lemmas *)

Lemma unhex_hex z : 0 <= z < 16 -> unhex (digit z) = Some z.
Proof.
  intros Hz. assert (In z (seqZ 0 16)) as Hin by (apply list_elem_of_In, elem_of_seqZ; lia).
  cbn in Hin. repeat destruct Hin as [<-|Hin]; [reflexivity..|done].
Qed.

(** Decoding undoes the client's escaping of binary values. *)
Lemma unescape_escapeBinary b : unescape (escapeBinary b) = b.
Proof.
  induction b as [|x b IH]; [done|]. unfold escapeBinary in *. cbn [map concat].
  assert (exists hi lo, fmt_x 2 (bZ x) = [digit hi; digit lo] /\ 0 <= hi < 16 /\ 0 <= lo < 16 /\
            Z.lor (Z.shiftl hi 4) lo = bZ x) as (hi & lo & -> & Hhi & Hlo & Hx).
  { exists (bZ x / 16), (bZ x mod 16). pose proof (bZ_range x).
    destruct x; (split; [reflexivity|]); (split; [by vm_compute|]); (split; [by vm_compute|reflexivity]). }
  cbn [app unescape]. rewrite decide_True by done. rewrite !unhex_hex by done. rewrite Hx, Zb_bZ.
  by rewrite IH.
Qed.

Lemma length_trim_front fuel ws s : (length (trim_front fuel ws s) <= length s)%nat.
Proof.
  revert s. induction fuel as [|fuel IH]; intros s; [done|]. cbn [trim_front].
  destruct (find_map _ ws) as [r|] eqn:E; [|done].
  apply find_map_Some in E as (w & _ & ->%strip_prefix_spec). rewrite IH, length_app. lia.
Qed.

Lemma length_TrimSpace s : (length (TrimSpace s) <= length s)%nat.
Proof. unfold TrimSpace. rewrite length_rev, length_trim_front, length_rev. apply length_trim_front. Qed.

Lemma length_terms s : Forall (fun t => (length t <= length s)%nat) (splitTerms s).
Proof.
  assert (forall rest i d st, Forall (fun t => (length t <= length s)%nat) (split_terms s rest i d st))
    as Hall; [|apply Hall].
  induction rest as [|c rest IH]; intros i d st; [constructor|].
  cbn [split_terms]. case_decide; [apply IH|]. case_decide; [|apply IH].
  case_match; [|apply IH]. constructor; [len_lia|apply IH].
Qed.

(** Not out of fuel: a value, an error or a panic. *)
Definition ends {A} (r : outcome A) : Prop := r <> OutOfFuel.

Lemma ends_bind {A B} (m : outcome A) (f : A -> outcome B) :
  ends m -> (forall a, m = Ret a -> ends (f a)) -> ends (m ≫= f).
Proof. destruct m; cbn; try done. intros _ Hf. by apply Hf. Qed.

Lemma ends_slice b i j : ends (slice b i j).
Proof. unfold slice. by case_match. Qed.

Lemma ends_all_terms f l : Forall (fun x => ends (f x)) l -> ends (all_terms f l).
Proof.
  induction 1 as [|x l Hx _ IH]; [done|]. cbn [all_terms]. apply ends_bind; [done|]. by intros [] _.
Qed.
Lemma ends_any_term f l : Forall (fun x => ends (f x)) l -> ends (any_term f l).
Proof.
  induction 1 as [|x l Hx _ IH]; [done|]. cbn [any_term]. apply ends_bind; [done|]. by intros [] _.
Qed.

(** [length filter + 1] levels are enough: each recursion is on a string that
    lost its parentheses and operator. *)
Lemma matchFilter_from_ends `{Unicode} fuel attrs filter :
  (length filter < fuel)%nat -> ends (matchFilter_from fuel attrs filter).
Proof.
  revert filter. induction fuel as [|fuel IH]; intros filter Hf; [lia|]. cbn [matchFilter_from].
  pose proof (length_TrimSpace filter) as Ht. set (f := TrimSpace filter) in *. clearbody f.
  assert (forall body, slice f 2 (len f - 1) = Ret body -> (length body < fuel)%nat) as Hbody.
  { intros body Hs%slice_Ret_len. unfold len in Hs. lia. }
  assert (forall body, slice f 2 (len f - 1) = Ret body ->
            Forall (fun t => ends (matchFilter_from fuel attrs t)) (splitTerms body)) as Hterms.
  { intros body Hs%Hbody. eapply List.Forall_impl; [|apply length_terms].
    intros t Hl. cbn in Hl. apply IH. lia. }
  case_decide; [done|]. case_match; [|case_match; [|case_match; [|case_match; [done|]]]];
    (apply ends_bind; [apply ends_slice|]; intros body Hb); try done.
  - by apply ends_all_terms, Hterms.
  - by apply ends_any_term, Hterms.
  - apply ends_bind; [by apply IH, Hbody|]. done.
Qed.

(** An escaped asterisk still is a wildcard, since the value is unescaped
    before the wildcards are looked for. *)
Example escaped_star_is_a_wildcard :
  matchFilter (H := ascii_unicode) [("cn"%go, ["abc"%go])] "(cn=a\2ac)"%go = Ret true.
Proof. reflexivity. Qed.
