(* ===== verification/Replication.v ===== *)
(** * replication.go: waiting for a write to reach the other controllers

    After a write the client can be configured to poll other domain
    controllers until each of them shows the object.  The wait is a loop over
    a clock, so the model takes fuel for it; [replicate_terminates] gives the
    fuel that always suffices when the clock moves. *)
From S2P Require Export Search.

Definition defaultReplicationTimeout : Z := 60 * 10 ^ 9.
Definition defaultPollInterval : Z := 2 * 10 ^ 9.

Section replication.
Context `{Unicode} `{AdCore} `{Env}.

(** [time.Now()]. *)
Definition time_Now : M Z := fun s =>
  let '(t, w) := env_now (st_world s) in (Ret t, set_world s w).

(** [defer cn.Close()] around what follows a successful dial. *)
Definition deferred_close {A} (h : Handle) (m : M A) : M A := fun s =>
  let '(r, s) := m s in (r, snd (conn_Close h s)).

Definition repl_timeout (c : core) : Z :=
  let timeout := repl_Timeout (c_repl c) in
  if timeout <=? 0 then defaultReplicationTimeout else timeout.
Definition repl_poll (c : core) : Z :=
  let poll := repl_PollInterval (c_repl c) in
  if poll <=? 0 then defaultPollInterval else poll.

Definition dclist_request (c : core) : SearchRequest :=
  mkSearchRequest ("CN=Configuration,"%go ++ c_dnc c) ScopeSubtree "(objectClass=nTDSDSA)"%go
    ["dNSHostName"%go; "distinguishedName"%go] 128 [].

Definition dclist_cb (c : core) (h : Handle) : M (list gostring) :=
  res ← conn_Search h (dclist_request c);
  mret (filter (fun host => host <> [] /\ host <> c_server c)
          (map (fun e => FirstString e "dNSHostName"%go) (res_Entries res))).

Definition replicationTargets (c : core) : M (list gostring) :=
  if decide (repl_Targets (c_repl c) <> ["all"%go])
  then mret (filter (fun t => t <> c_server c) (repl_Targets (c_repl c)))
  else withConn c "dclist"%go [] (dclist_cb c).

Definition present_request (c : core) (filter : gostring) : SearchRequest :=
  mkSearchRequest (c_dnc c) ScopeSubtree filter ["distinguishedName"%go] 1 [].

Definition objectPresentOn (c : core) (host filter : gostring) : M bool :=
  h ← ask (env_dial_other host);
  deferred_close h
    (res ← conn_Search h (present_request c filter);
     mret (0 <? len (res_Entries res))).

Definition forceSync_cb (guid target : gostring) (h : Handle) : M unit :=
  conn_Modify h [] [mkModification ModReplace "replicateSingleObject"%go
                      [target ++ ":"%go ++ guid]] [].

Definition forceSync (c : core) (guid target : gostring) : M unit :=
  withConn c "replicate_force"%go tt (forceSync_cb guid target).

(** Best effort: the error is dropped. *)
Definition try_sync (c : core) (guid target : gostring) : M unit :=
  if repl_ForceSync (c_repl c) then attempt (forceSync c guid target);; mret tt else mret tt.

(** One pass over the pending targets: the ones still without the object. *)
Fixpoint poll_round (c : core) (guid filter : gostring) (pending : list gostring)
    : M (list gostring) :=
  match pending with
  | [] => mret []
  | target :: pending =>
      try_sync c guid target;;
      present ← attempt (objectPresentOn c target filter);
      still ← poll_round c guid filter pending;
      mret (match present with inl true => still | _ => target :: still end)
  end.

Definition replication_error (c : core) (guid : gostring) (still : list gostring) : error :=
  adErr_id KindReplication "replicate"%go ("guid:"%go ++ guid)
    (Errorf "the object did not appear on %v within %s; it exists on %s"%go
       [FStrs still; FInt (repl_timeout c); FStr (c_server c)] None).

(** The polling loop. *)
Fixpoint replicate_from (c : core) (guid filter : gostring) (deadline : Z) (fuel : nat)
    (pending : list gostring) : M unit :=
  match fuel with
  | O => lift OutOfFuel
  | S fuel =>
      still ← poll_round c guid filter pending;
      match still with
      | [] => mret tt
      | _ =>
          now ← time_Now;
          if deadline <? now then fail (replication_error c guid still)
          else
            map_error (adErr KindTransport "replicate"%go) (tell (env_wait (repl_poll c)));;
            replicate_from c guid filter deadline fuel still
      end
  end.

Definition replicate (c : core) (fuel : nat) (guid : gostring) : M unit :=
  if negb (repl_Wait (c_repl c)) then mret tt
  else
    targets ← replicationTargets c;
    match targets with
    | [] => mret tt
    | _ =>
        guidBytes ← map_error (adErr KindTransport "replicate"%go) (lift (GUIDToBytes guid));
        now ← time_Now;
        replicate_from c guid ("(objectGUID="%go ++ escapeBinary guidBytes ++ ")"%go)
          (now + repl_timeout c) fuel targets
    end.
End replication.

(** ** The wait gives back what it takes, and its clock only advances *)

Section replication_lemmas.
Context `{Unicode} `{AdCore} `{Env}.

Lemma repl_poll_pos c : 0 < repl_poll c.
Proof. unfold repl_poll, defaultPollInterval. destruct (_ <=? 0) eqn:E; lia. Qed.

Lemma repl_timeout_pos c : 0 < repl_timeout c.
Proof. unfold repl_timeout, defaultReplicationTimeout. destruct (_ <=? 0) eqn:E; lia. Qed.

Lemma steady_time_Now : steady time_Now.
Proof. intros s. unfold time_Now. by destruct (env_now _). Qed.

Lemma steady_deferred_close {A} h (m : M A) : steady m -> steady (deferred_close h m).
Proof. intros Hm s. specialize (Hm s). unfold deferred_close. by destruct (m s). Qed.

Lemma dclist_cb_steady c h : steady (dclist_cb c h).
Proof. unfold dclist_cb. solve_quiet. Qed.
Lemma forceSync_cb_steady guid t h : steady (forceSync_cb guid t h).
Proof. unfold forceSync_cb. solve_quiet. Qed.
Hint Resolve steady_time_Now dclist_cb_steady forceSync_cb_steady : quiet.

Lemma replicationTargets_quiet c : quiet (replicationTargets c).
Proof. unfold replicationTargets. case_decide; solve_quiet. Qed.

Lemma objectPresentOn_quiet c host filter : quiet (objectPresentOn c host filter).
Proof.
  apply quiet_bind; [apply quiet_ask|]. intros h. apply steady_quiet, steady_deferred_close.
  solve_quiet.
Qed.

Lemma forceSync_quiet c guid t : quiet (forceSync c guid t).
Proof. unfold forceSync. solve_quiet. Qed.
Hint Resolve replicationTargets_quiet objectPresentOn_quiet forceSync_quiet : quiet.

Lemma poll_round_quiet c guid filter pending : quiet (poll_round c guid filter pending).
Proof.
  induction pending as [|t pending IH]; cbn [poll_round]; [solve_quiet|].
  unfold try_sync. destruct (repl_ForceSync _); solve_quiet.
Qed.

(** A clock of the world: it never goes back, [time.Now] reads it, and a wait
    that ends by its timer takes at least its duration. *)
Record ticking (clock : World -> Z) : Prop := {
  tick_calm : calm (fun w w' => clock w <= clock w');
  tick_search h req w : clock w <= clock (snd (env_search h req w));
  tick_modify h dn mods ctl w : clock w <= clock (snd (env_modify h dn mods ctl w));
  tick_dial_other host w : clock w <= clock (snd (env_dial_other host w));
  tick_now w : fst (env_now w) = clock w /\ clock w <= clock (snd (env_now w));
  tick_wait d w : 0 <= d -> fst (env_wait d w) = None -> clock w + d <= clock (snd (env_wait d w))
}.

Section clock.
Context (clock : World -> Z) (Ht : ticking clock).

Abbreviation later := (fun w w' => clock w <= clock w').
#[local] Instance later_preorder : PreOrder later.
Proof. split; [intros w; lia|intros w1 w2 w3; lia]. Qed.

Lemma objectPresentOn_later c host filter : respects later (objectPresentOn c host filter).
Proof using Ht.
  apply respects_bind; [exact _|apply respects_ask, (tick_dial_other _ Ht)|]. intros h s.
  unfold deferred_close. set (m := conn_Search _ _ ≫= _).
  assert (respects later m) as Hm.
  { apply respects_bind; [exact _|apply respects_ask, (tick_search _ Ht)|].
    intros a. apply respects_ret. exact _. }
  specialize (Hm s). destruct (m s) as [r s1]. cbn in *.
  pose proof (calm_close _ (tick_calm _ Ht) h (st_world s1)) as Hc. cbn in Hc. lia.
Qed.

Lemma poll_round_later c guid filter pending : respects later (poll_round c guid filter pending).
Proof using Ht.
  induction pending as [|t pending IH]; cbn [poll_round]; [apply respects_ret; exact _|].
  apply respects_bind; [exact _| |intros _].
  - unfold try_sync. destruct (repl_ForceSync _); [|apply respects_ret; exact _].
    apply respects_bind; [exact _| |intros _; apply respects_ret; exact _].
    apply respects_attempt, respects_withConn; [exact _|exact (tick_calm _ Ht)|].
    intros h. apply respects_tell, (tick_modify _ Ht).
  - apply respects_bind; [exact _|apply respects_attempt, objectPresentOn_later|]. intros r.
    apply respects_bind; [exact _|exact IH|]. intros still. apply respects_ret. exact _.
Qed.

(** The loop returns as soon as the fuel outlasts the time left. *)
Lemma replicate_from_quiet c guid filter deadline fuel pending :
  runs (fun s => deadline - clock (st_world s) < repl_poll c * Z.of_nat fuel)
    (replicate_from c guid filter deadline (S fuel) pending).
Proof using Ht.
  pose proof (repl_poll_pos c) as Hpoll. revert pending.
  induction fuel as [|fuel IH]; intros pending s Hs Hb.
  all: cbn [replicate_from].
  all: pose proof (poll_round_quiet c guid filter pending s Hs I) as Hq;
       pose proof (poll_round_later c guid filter pending s) as Hl;
       unfold mbind, M_bind in *; destruct (poll_round _ _ _ _ s) as [[still|e| | |] s1];
       cbn [fst snd] in *; try tauto; destruct Hq as (_ & Q1 & Q2 & Q3);
       destruct still as [|t still]; [done|].
  all: unfold time_Now; destruct (tick_now _ Ht (st_world s1)) as [Hnow Hn'];
       destruct (env_now (st_world s1)) as [now w1]; cbn [fst snd] in *; subst now.
  all: destruct (deadline <? clock (st_world s1)) eqn:E; [done|].
  - lia.
  - unfold map_error, on_error, attempt, tell, mbind, M_bind. cbn [st_world set_world].
    pose proof (tick_wait _ Ht (repl_poll c) w1 ltac:(lia)) as Hw.
    destruct (env_wait (repl_poll c) w1) as [[e|] w2]; cbn [fst snd of_nil] in *; [done|].
    specialize (Hw eq_refl).
    specialize (IH (t :: still) (set_world (set_world s1 w1) w2)).
    cbn [st_pool st_locks st_world set_world] in IH. rewrite Q1, Q2, Q3 in IH.
    apply IH; [|cbn; lia]. eapply free_same; [..|exact Hs]; done.
Qed.

(** Fuel that suffices for the wait. *)
Definition replicate_fuel (c : core) : nat := Z.to_nat (repl_timeout c / repl_poll c) + 2.

Lemma replicate_quiet c fuel guid : (replicate_fuel c <= fuel)%nat -> quiet (replicate c fuel guid).
Proof using Ht.
  intros Hfuel. unfold replicate. destruct (repl_Wait _); cbn [negb]; [|solve_quiet].
  apply quiet_bind; [apply replicationTargets_quiet|]. intros [|t targets]; [solve_quiet|].
  apply quiet_bind.
  { apply quiet_map_error, quiet_lift, GUIDToBytes_returns. }
  intros b s Hs _. unfold mbind, M_bind, time_Now.
  destruct (tick_now _ Ht (st_world s)) as [Hnow Hn'].
  destruct (env_now (st_world s)) as [now w1]; cbn [fst snd] in *; subst now.
  destruct fuel as [|fuel]; [unfold replicate_fuel in *; lia|].
  apply (replicate_from_quiet c guid _ _ fuel (t :: targets) (set_world s w1)); [exact Hs|].
  cbn [st_world set_world]. pose proof (repl_poll_pos c). pose proof (repl_timeout_pos c).
  unfold replicate_fuel in *.
  pose proof (Z.mul_succ_div_gt (repl_timeout c) (repl_poll c) ltac:(lia)).
  pose proof (Z.div_pos (repl_timeout c) (repl_poll c) ltac:(lia) ltac:(lia)).
  assert (Z.succ (repl_timeout c / repl_poll c) <= Z.of_nat fuel) by lia. nia.
Qed.
End clock.

(** ** What a finished wait has seen *)

(** [target] answered a probe for the object. *)
Definition seen (c : core) (filter target : gostring) : Prop :=
  exists h w w' e es ctrls, fst (env_dial_other target w) = inl h /\
    fst (env_search h (present_request c filter) w') = inl (mkSearchResult (e :: es) ctrls).

Lemma objectPresentOn_seen c host filter s s' :
  objectPresentOn c host filter s = (Ret true, s') -> seen c filter host.
Proof.
  unfold objectPresentOn, ask, mbind, M_bind.
  destruct (env_dial_other host (st_world s)) as [[h|e] w] eqn:Ed; cbn; [|done].
  unfold deferred_close, conn_Search, ask, mbind, M_bind. cbn.
  destruct (env_search h _ w) as [[[es ctrls]|e] w1] eqn:Es; cbn; [|done].
  destruct es as [|e es]; [done|]. intros _.
  exists h, (st_world s), w, e, es, ctrls. by rewrite Ed, Es.
Qed.

Lemma poll_round_seen c guid filter pending s still s' :
  poll_round c guid filter pending s = (Ret still, s') ->
  forall t, t ∈ pending -> t ∈ still \/ seen c filter t.
Proof.
  revert s still s'. induction pending as [|p pending IH]; intros s still s'; cbn [poll_round].
  { intros _ t Ht. by apply not_elem_of_nil in Ht. }
  unfold mbind, M_bind.
  destruct (try_sync c guid p s) as [[[]|e| | |] s1]; try done.
  unfold attempt.
  assert (forall b, fst (objectPresentOn c p filter s1) = Ret b -> b = true -> seen c filter p) as Hp.
  { intros b Hb ->. destruct (objectPresentOn c p filter s1) eqn:E. cbn in Hb. subst.
    by eapply objectPresentOn_seen. }
  destruct (objectPresentOn c p filter s1) as [[b|e| | |] s2]; try done;
    destruct (poll_round c guid filter pending s2) as [[st|e'| | |] s3] eqn:Er; try done;
    intros [= <- <-] t [->|Ht]%elem_of_cons.
  - destruct b; [right; by eapply Hp|left; by left].
  - destruct (IH _ _ _ Er t Ht); [|by right]. left. destruct b; [done|by right].
  - left. by left.
  - destruct (IH _ _ _ Er t Ht); [|by right]. left. by right.
Qed.

Lemma replicate_from_seen c guid filter deadline fuel pending s s' :
  replicate_from c guid filter deadline fuel pending s = (Ret tt, s') ->
  forall t, t ∈ pending -> seen c filter t.
Proof.
  revert pending s. induction fuel as [|fuel IH]; intros pending s; [done|].
  cbn [replicate_from]. unfold mbind, M_bind.
  destruct (poll_round c guid filter pending s) as [[still|e| | |] s1] eqn:Er; try done.
  destruct still as [|t0 still].
  { intros _ t Ht. destruct (poll_round_seen _ _ _ _ _ _ _ Er t Ht) as [Hin|]; [|done].
    by apply not_elem_of_nil in Hin. }
  unfold time_Now. destruct (env_now _) as [now w1]. destruct (deadline <? now); [done|].
  unfold map_error, on_error, attempt, tell, mbind, M_bind.
  destruct (env_wait _ _) as [[e|] w2]; cbn; [done|]. intros Hr t Ht.
  destruct (poll_round_seen _ _ _ _ _ _ _ Er t Ht) as [Hin|]; [|done]. by eapply IH.
Qed.
End replication_lemmas.

#[export] Hint Resolve replicationTargets_quiet : quiet.

(** ** Properties *)

(** C27: the replication wait terminates.  On a clock that only advances,
    with a round of fuel for each poll interval in the timeout and two more,
    [replicate] returns (it never blocks, panics or runs out of fuel) from any
    state with a free permit, whatever the directory and the other controllers
    answer, and leaves permits and locks as they were. *)
Theorem replicate_terminates `{Unicode} `{AdCore} `{Env} (clock : World -> Z) (c : core)
    (fuel : nat) (guid : gostring) (s : St) :
  ticking clock -> (replicate_fuel c <= fuel)%nat -> free s ->
  let '(r, s') := replicate c fuel guid s in
  returns r /\ sem (st_pool s') = sem (st_pool s) /\ size (st_pool s') = size (st_pool s) /\
  st_locks s' = st_locks s.
Proof.
  intros Ht Hfuel Hs. pose proof (replicate_quiet clock Ht c fuel guid Hfuel s Hs I) as Hq.
  destruct (replicate c fuel guid s). exact Hq.
Qed.

(** C28: a wait that succeeds has seen the object everywhere.  When
    [replicate] returns no error with waiting switched on, every target (the
    configured ones, or all the domain lists, without the pinned controller)
    answered a probe for the object's GUID over a connection dialled to it
    with at least one entry. *)
Theorem replicate_confirms `{Unicode} `{AdCore} `{Env} (c : core) (fuel : nat) (guid : gostring)
    (s : St) :
  repl_Wait (c_repl c) = true -> fst (replicate c fuel guid s) = Ret tt ->
  exists targets, fst (replicationTargets c s) = Ret targets /\
    forall t, t ∈ targets -> exists b, GUIDToBytes guid = Ret b /\
      seen c ("(objectGUID="%go ++ escapeBinary b ++ ")"%go) t.
Proof.
  unfold replicate. intros ->. cbn [negb]. unfold mbind, M_bind.
  destruct (replicationTargets c s) as [[[|t0 targets]|e| | |] s1]; cbn [fst]; try done.
  { intros _. exists []. split; [done|]. intros t Ht. by apply not_elem_of_nil in Ht. }
  unfold map_error, on_error, attempt, lift, mbind, M_bind.
  destruct (GUIDToBytes guid) as [b|e| | |]; cbn [fst]; try done.
  cbn [mret M_ret]. unfold time_Now. destruct (env_now _) as [now w].
  destruct (replicate_from _ _ _ _ _ _ _) as [r s2] eqn:E. cbn [fst]. intros ->.
  exists (t0 :: targets). split; [done|]. intros t Ht. exists b. split; [done|].
  by eapply replicate_from_seen.
Qed.

(** ** Witnesses *)

(** A world that is its own clock, where the object reaches every other
    controller at time 5. *)
Definition late_env : Env := {|
  World := Z;
  Handle := nat;
  env_dial w := (inl 0%nat, w);
  env_bind h w := (None, w);
  env_search h req w :=
    (inl (mkSearchResult (if 5 <=? w then [mkEntry "CN=x"%go []] else []) []), w);
  env_add h dn attrs w := (None, w);
  env_modify h dn mods ctrls w := (None, w);
  env_modifydn h dn rdn del sup w := (None, w);
  env_delete h dn w := (None, w);
  env_close h w := (None, w);
  env_select w := (None, w);
  env_backoff n w := (None, w);
  env_dial_other host w := (inl 1%nat, w);
  env_now w := (w, w);
  env_wait d w := (None, w + d);
  Mutex := unit;
  mutex_lock key l := Some l;
  mutex_unlock key l := l
|}.

Definition late_state : @St late_env := @mkSt late_env 0 (NewPool 1) tt None.
Definition waiting_core : core :=
  mkCore "dc1"%go "DC=example"%go [] [] 3
    (mkReplicationConfig true ["dc1"%go; "dc2"%go] true 10 2).
Definition sample_guid_text : gostring := "ab721a53-1e2f-11d0-9819-00aa0040529b"%go.

Lemma late_ticking : @ticking late_env (fun w : Z => w).
Proof. split; cbn; intros; try (split; cbn; intros); lia. Qed.

Lemma replicate_terminates_witness :
  let '(r, s') := @replicate ascii_unicode sample_adcore late_env waiting_core 7 sample_guid_text late_state in
  r = Ret tt /\ returns r /\ sem (st_pool s') = 0%nat.
Proof.
  pose proof (@replicate_terminates ascii_unicode sample_adcore late_env (fun w : Z => w) waiting_core 7
    sample_guid_text late_state late_ticking (le_n 7) (le_n 1)) as Hr.
  destruct (replicate _ _ _ _) as [r s'] eqn:E. destruct Hr as (Hr & Hs & _).
  split; [|split; [exact Hr|exact Hs]]. apply (f_equal fst) in E. by vm_compute in E.
Defined.

Lemma replicate_confirms_witness :
  exists targets, targets = ["dc2"%go] /\ forall t, t ∈ targets ->
    exists b, GUIDToBytes sample_guid_text = Ret b /\
      @seen late_env waiting_core ("(objectGUID="%go ++ escapeBinary b ++ ")"%go) t.
Proof.
  destruct (@replicate_confirms ascii_unicode sample_adcore late_env waiting_core 7 sample_guid_text
    late_state eq_refl ltac:(vm_compute; reflexivity)) as (targets & Ht & Hs).
  exists targets. split; [|exact Hs]. injection Ht as <-. reflexivity.
Defined.
