(* ===== verification/Trace.v ===== *)
(** * What an operation did, and in which order

    A success or a failure says little about an operation of several requests:
    this file adds the history.  A [journal] is a history variable of the
    environment, the list of the directory calls it answered, each with its
    connection, what it asked and what the answer was; [accepted] is its
    projection on the writes the directory accepted.  [logs m Q X] is a triple
    about the part of the journal an operation adds, with a rule for every
    construction of the monad, so the log of an operation is the concatenation
    of the logs of its parts, in the order of the code.

    The second half is about one connection: [opened] says where it was
    dialled and bound, and [withConn_opened] that a callback runs on such a
    connection only. *)
From stdpp Require Export relations.
From S2P Require Export Replication.

(** The writes of [conn.Conn]. *)
Inductive write :=
  | WAdd (dn : gostring) (attrs : list Attribute)
  | WModify (dn : gostring) (mods : list Modification) (controls : list Control)
  | WModifyDN (dn newRDN : gostring) (del : bool) (superior : gostring)
  | WDelete (dn : gostring).

(** One call the environment answered. *)
Inductive event {Conn : Type} :=
  | Dialled (r : Conn + error)
  | BindAnswered (h : Conn) (r : option error)
  | Closed (h : Conn)
  | DialledOther (host : gostring) (r : Conn + error)
  | SearchAnswered (h : Conn) (req : SearchRequest) (r : SearchResult + error)
  | WriteAnswered (h : Conn) (x : write) (r : option error).
Arguments event : clear implicits.

(** The writes the directory accepted, oldest first. *)
Definition accepted_by {Conn} (ev : event Conn) : option write :=
  match ev with WriteAnswered _ x None => Some x | _ => None end.
Definition accepted {Conn} (l : list (event Conn)) : list write := omap accepted_by l.

Lemma accepted_app {Conn} (l1 l2 : list (event Conn)) :
  accepted (l1 ++ l2) = accepted l1 ++ accepted l2.
Proof. apply omap_app. Qed.

Section journal.
Context `{Env}.

Definition perform (h : Handle) (x : write) : World -> option error * World :=
  match x with
  | WAdd dn attrs => env_add h dn attrs
  | WModify dn mods controls => env_modify h dn mods controls
  | WModifyDN dn newRDN del superior => env_modifydn h dn newRDN del superior
  | WDelete dn => env_delete h dn
  end.

(** [log] is the history of the world: every call appends what happened. *)
Record journal (log : World -> list (event Handle)) : Prop := {
  journal_dial w : log (snd (env_dial w)) = log w ++ [Dialled (fst (env_dial w))];
  journal_bind h w : log (snd (env_bind h w)) = log w ++ [BindAnswered h (fst (env_bind h w))];
  journal_close h w : log (snd (env_close h w)) = log w ++ [Closed h];
  journal_dial_other host w :
    log (snd (env_dial_other host w)) = log w ++ [DialledOther host (fst (env_dial_other host w))];
  journal_search h req w :
    log (snd (env_search h req w)) = log w ++ [SearchAnswered h req (fst (env_search h req w))];
  journal_write h x w :
    log (snd (perform h x w)) = log w ++ [WriteAnswered h x (fst (perform h x w))];
  journal_select w : log (snd (env_select w)) = log w;
  journal_backoff n w : log (snd (env_backoff n w)) = log w;
  journal_now w : log (snd (env_now w)) = log w;
  journal_wait d w : log (snd (env_wait d w)) = log w
}.
End journal.

(** Every environment can be given a journal: the world of [with_journal env]
    carries the list beside the world of [env]. *)
Section with_journal.
Context (env : Env).

Definition noting {A} (ev : A -> list (event (@Handle env))) (f : @World env -> A * @World env)
    (w : @World env * list (event (@Handle env))) : A * (@World env * list (event (@Handle env))) :=
  let '(r, w1) := f (fst w) in (r, (w1, snd w ++ ev r)).

Definition with_journal : Env := {|
  World := @World env * list (event (@Handle env));
  Handle := @Handle env;
  env_dial := noting (fun r => [Dialled r]) env_dial;
  env_bind h := noting (fun r => [BindAnswered h r]) (env_bind h);
  env_search h req := noting (fun r => [SearchAnswered h req r]) (env_search h req);
  env_add h dn attrs := noting (fun r => [WriteAnswered h (WAdd dn attrs) r]) (env_add h dn attrs);
  env_modify h dn mods controls :=
    noting (fun r => [WriteAnswered h (WModify dn mods controls) r]) (env_modify h dn mods controls);
  env_modifydn h dn newRDN del superior :=
    noting (fun r => [WriteAnswered h (WModifyDN dn newRDN del superior) r])
      (env_modifydn h dn newRDN del superior);
  env_delete h dn := noting (fun r => [WriteAnswered h (WDelete dn) r]) (env_delete h dn);
  env_close h := noting (fun _ => [Closed h]) (env_close h);
  env_select := noting (fun _ => []) env_select;
  env_backoff n := noting (fun _ => []) (env_backoff n);
  env_dial_other host := noting (fun r => [DialledOther host r]) (env_dial_other host);
  env_now := noting (fun _ => []) env_now;
  env_wait d := noting (fun _ => []) (env_wait d);
  Mutex := @Mutex env;
  mutex_lock := @mutex_lock env;
  mutex_unlock := @mutex_unlock env
|}.

Lemma with_journal_journal : @journal with_journal snd.
Proof.
  assert (forall A (ev : A -> list (event (@Handle env))) f (w : @World env * list (event (@Handle env))),
    snd (snd (noting ev f w)) = snd w ++ ev (fst (noting ev f w))) as Hn.
  { intros A ev f w. unfold noting. by destruct (f (fst w)) as [r w1]. }
  constructor; intros; try destruct x.
  all: try (etransitivity; [apply Hn|apply app_nil_r]).
  all: apply Hn.
Qed.

(** Keeping a journal changes no answer. *)
Lemma noting_answer {A} (ev : A -> list (event (@Handle env))) f (w : @World env * list (event (@Handle env))) :
  fst (noting ev f w) = fst (f (fst w)) /\ fst (snd (noting ev f w)) = snd (f (fst w)).
Proof. unfold noting. by destruct (f (fst w)). Qed.
End with_journal.

(** ** The triple *)

Section logs.
Context `{AdCore} `{Env} (log : World -> list (event Handle)).

(** From every state, [m] adds some [l] to the journal; [Q] relates [l] to the
    value of a success, [X] to the error of a failure ([None]: any other
    outcome). *)
Definition logs {A} (m : M A) (Q : A -> list (event Handle) -> Prop) (X : option error -> list (event Handle) -> Prop)
    : Prop := forall s, exists l,
  log (st_world (snd (m s))) = log (st_world s) ++ l /\
  match fst (m s) with Ret a => Q a l | Fail e => X (Some e) l | _ => X None l end.

Lemma logs_mono {A} (m : M A) (Q Q' : A -> list (event Handle) -> Prop) (X X' : option error -> list (event Handle) -> Prop) :
  logs m Q X -> (forall a l, Q a l -> Q' a l) -> (forall r l, X r l -> X' r l) -> logs m Q' X'.
Proof.
  intros Hm HQ HX s. destruct (Hm s) as (l & Hl & Ho). exists l. split; [done|].
  destruct (fst (m s)); auto.
Qed.

Lemma logs_ret {A} (a : A) (Q : A -> list (event Handle) -> Prop) X : Q a [] -> logs (mret a) Q X.
Proof. intros HQ s. exists []. by rewrite app_nil_r. Qed.

Lemma logs_lift {A} (r : outcome A) (Q : A -> list (event Handle) -> Prop) (X : option error -> list (event Handle) -> Prop) :
  match r with Ret a => Q a [] | Fail e => X (Some e) [] | _ => X None [] end -> logs (lift r) Q X.
Proof. intros HQ s. exists []. by rewrite app_nil_r. Qed.

(** The log of a sequence is the concatenation of the logs. *)
Lemma logs_bind {A B} (m : M A) (f : A -> M B) P Q (X : option error -> list (event Handle) -> Prop) :
  logs m P X ->
  (forall a l1, P a l1 -> logs (f a) (fun b l2 => Q b (l1 ++ l2)) (fun r l2 => X r (l1 ++ l2))) ->
  logs (m ≫= f) Q X.
Proof.
  intros Hm Hf s. destruct (Hm s) as (l1 & Hl1 & Ho). unfold mbind, M_bind.
  destruct (m s) as [[a|e| | |] s1]; cbn [fst snd] in *; try (by exists l1).
  destruct (Hf a l1 Ho s1) as (l2 & Hl2 & Ho2). exists (l1 ++ l2).
  by rewrite Hl2, Hl1, app_assoc.
Qed.

Lemma logs_attempt {A} (m : M A) Q (X : option error -> list (event Handle) -> Prop) :
  logs m Q X ->
  logs (attempt m) (fun r l => match r with inl a => Q a l | inr e => X (Some e) l end)
    (fun r l => r = None /\ X None l).
Proof.
  intros Hm s. destruct (Hm s) as (l & Hl & Ho). unfold attempt.
  destruct (m s) as [[a|e| | |] s1]; by exists l.
Qed.

Lemma logs_on_error {A} (m : M A) (f : error -> M A) P Q (X0 X : option error -> list (event Handle) -> Prop) :
  logs m P X0 -> (forall a l, P a l -> Q a l) -> (forall l, X0 None l -> X None l) ->
  (forall e l1, X0 (Some e) l1 ->
     logs (f e) (fun b l2 => Q b (l1 ++ l2)) (fun r l2 => X r (l1 ++ l2))) ->
  logs (on_error m f) Q X.
Proof.
  intros Hm HQ HX Hf s. destruct (Hm s) as (l1 & Hl1 & Ho).
  unfold on_error, attempt, mbind, M_bind.
  destruct (m s) as [[a|e| | |] s1]; cbn [fst snd mret M_ret] in *; try (exists l1; by auto).
  destruct (Hf e l1 Ho s1) as (l2 & Hl2 & Ho2). exists (l1 ++ l2). by rewrite Hl2, Hl1, app_assoc.
Qed.

Lemma logs_map_error {A} g (m : M A) Q (X0 X : option error -> list (event Handle) -> Prop) :
  logs m Q X0 -> (forall l, X0 None l -> X None l) ->
  (forall e l, X0 (Some e) l -> X (Some (g e)) l) -> logs (map_error g m) Q X.
Proof.
  intros Hm HN HX. eapply logs_on_error; [exact Hm|done|exact HN|].
  intros e l1 He. apply logs_lift. rewrite app_nil_r. by apply HX.
Qed.

Lemma logs_with_lock {A} key (m : M A) (Q : A -> list (event Handle) -> Prop)
    (X : option error -> list (event Handle) -> Prop) :
  logs m Q X -> X None [] -> logs (with_lock key m) Q X.
Proof.
  intros Hm HX s. unfold with_lock, lock, mbind, M_bind.
  destruct (mutex_lock key (st_locks s)) as [k|]; [|exists []; by rewrite app_nil_r].
  destruct (Hm (set_locks s k)) as (l & Hl & Ho). exists l. unfold deferred_unlock.
  by destruct (m (set_locks s k)) as [r s1].
Qed.

(** *** Operations whose writes all satisfy a predicate *)

(** The journal grew, and what was accepted meanwhile satisfies [P]. *)
Definition adds (P : write -> Prop) (w w' : World) : Prop :=
  exists l, log w' = log w ++ l /\ Forall P (accepted l).

#[export] Instance adds_preorder P : PreOrder (adds P).
Proof using Type.
  split.
  - intros w. exists []. by rewrite app_nil_r.
  - intros w1 w2 w3 (l1 & E1 & H1) (l2 & E2 & H2). exists (l1 ++ l2).
    rewrite E2, E1, app_assoc, accepted_app. split; [done|]. by apply Forall_app_2.
Qed.

Context (Hlog : journal log).

Lemma adds_reading P : reading (adds P).
Proof using Hlog.
  split; [split|..]; intros; unfold adds.
  all: first [ exists []; rewrite app_nil_r; split; [apply Hlog|done]
             | eexists; split; [apply Hlog|repeat constructor] ].
Qed.

Lemma adds_write (P : write -> Prop) h x w : P x -> adds P w (snd (perform h x w)).
Proof using Hlog.
  intros Hx. eexists. split; [apply (journal_write _ Hlog)|].
  destruct (fst (perform h x w)); by repeat constructor.
Qed.

(** An operation that only adds writes of one kind. *)
Lemma logs_adds {A} (P : write -> Prop) (m : M A) : respects (adds P) m ->
  logs m (fun a l => Forall P (accepted l) /\ exists s, fst (m s) = Ret a)
    (fun r l => Forall P (accepted l) /\ forall e, r = Some e -> exists s, fst (m s) = Fail e).
Proof using Type.
  intros Hm s. destruct (Hm s) as (l & Hl & HP). exists l. split; [done|].
  destruct (fst (m s)) eqn:E; (split; [done|]); first [by exists s|intros ? [= <-]; by exists s|done].
Qed.

Definition silent : relation World := adds (fun _ => False).

(** An operation that only reads. *)
Lemma logs_silent {A} (m : M A) : respects silent m ->
  logs m (fun a l => accepted l = [] /\ exists s, fst (m s) = Ret a)
    (fun r l => accepted l = [] /\ forall e, r = Some e -> exists s, fst (m s) = Fail e).
Proof using Type.
  assert (forall l : list write, Forall (fun _ => False) l -> l = []) as Hn.
  { intros l Hf. destruct Hf; done. }
  intros Hm. eapply logs_mono; [by apply logs_adds|..]; cbn; naive_solver.
Qed.

(** A read in front of an operation. *)
Lemma logs_silent_bind {A B} (m : M A) (f : A -> M B) Q (X : option error -> list (event Handle) -> Prop) :
  respects silent m ->
  (forall l, accepted l = [] -> X None l) ->
  (forall e l s, accepted l = [] -> fst (m s) = Fail e -> X (Some e) l) ->
  (forall a l1 s, accepted l1 = [] -> fst (m s) = Ret a ->
     logs (f a) (fun b l2 => Q b (l1 ++ l2)) (fun r l2 => X r (l1 ++ l2))) ->
  logs (m ≫= f) Q X.
Proof using Type.
  intros Hm HN HE Hf. eapply logs_bind.
  - eapply logs_mono; [by apply logs_silent| |].
    + intros a l Hl. exact Hl.
    + intros [e|] l [Hl He]; [|by apply HN]. destruct (He e eq_refl) as [s Hs]. by eapply HE.
  - intros a l1 [Hl [s Hs]]. by eapply Hf.
Qed.

(** *** One write, retried *)

(** What a [withConn] that sends the write [x] fails with: the classified
    answer of the directory to [x], or the failure to reach a directory. *)
Definition unreached (op : gostring) (e : error) : Prop :=
  (exists s1 e1, fst (Acquire s1) = Fail e1 /\ e = acquire_error op e1) \/
  (exists n w, fst (env_backoff n w) = Some e).
Definition refused_as (op : gostring) (x : write) (e : error) (l : list (event Handle)) : Prop :=
  exists h raw, In (WriteAnswered h x (Some raw)) l /\ e = Classify op raw.

Lemma logs_attempt_perform h x :
  logs (attempt (tell (perform h x)))
    (fun r l => l = [WriteAnswered h x (match r with inl _ => None | inr e => Some e end)])
    (fun _ _ => False).
Proof using Hlog.
  intros s. unfold attempt, tell. pose proof (journal_write _ Hlog h x (st_world s)) as Hj.
  destruct (perform h x (st_world s)) as [[e|] w]; by eexists.
Qed.

#[export] Instance silent_preorder : PreOrder silent := adds_preorder _.
Lemma silent_reading : reading silent.
Proof using Hlog. apply adds_reading. Qed.

Lemma silent_give_back (late : bool) h : respects silent (if late then Discard h else Release h).
Proof using Hlog.
  apply (respects_give_back silent (reading_calm _ (adds_reading _))).
Qed.

(** What the loop of [withConn] adds for one write: the accepted write when it
    succeeds, none when it fails. *)
Definition write_failed (op : gostring) (x : write) (r : option error) (l : list (event Handle)) : Prop :=
  match r with
  | Some e => accepted l = [] /\ (refused_as op x e l \/ unreached op e)
  | None => accepted l = [] \/ accepted l = [x]
  end.

Lemma write_failed_cases op x r l : write_failed op x r l -> accepted l = [] \/ accepted l = [x].
Proof using Type. destruct r; cbn; [|done]. intros [? _]. by left. Qed.

Lemma write_failed_after op x l1 r l2 :
  accepted l1 = [] -> write_failed op x r l2 -> write_failed op x r (l1 ++ l2).
Proof using Type.
  unfold write_failed, refused_as. intros E. rewrite accepted_app, E. cbn.
  destruct r as [e|]; [|done]. intros [? [(h & raw & Hin & ->)|?]]; (split; [done|]); [|by right].
  left. exists h, raw. by rewrite in_app_iff; auto.
Qed.

Lemma give_back_not_Fail (late : bool) h s e :
  fst ((if late then Discard h else Release h) s) <> Fail e.
Proof using Type.
  destruct late; unfold Discard, Release, put_back, mbind, M_bind; cbn.
  - unfold give_permit. by destruct (recv _).
  - destruct (release_section _ h) as [p []]; cbn; unfold give_permit; by destruct (recv _).
Qed.

Context (c : core) (op : gostring) (x : write).

(** The last step of an attempt, and the retry when there is one. *)
Lemma logs_retry h e n (next : M unit) :
  (is_retryable (Classify op e) = true -> n <> c_MaxAttempts c ->
   logs next (fun _ l => accepted l = [x]) (write_failed op x)) ->
  logs ((if is_kind KindTransport (Classify op e) then Discard h else Release h);;
        if negb (is_retryable (Classify op e)) || (n =? c_MaxAttempts c)
        then fail (Classify op e) else tell (env_backoff n);; next)
    (fun _ l => accepted l = [x])
    (fun r l => write_failed op x r (WriteAnswered h x (Some e) :: l)).
Proof using Hlog.
  intros Hnext. apply logs_silent_bind; [apply silent_give_back|by left| |].
  { intros e' l s _ Hs. by destruct (give_back_not_Fail _ _ _ _ Hs). }
  intros _ l1 _ Hl1 _. destruct (negb _ || _) eqn:Eb.
  - apply logs_lift. rewrite app_nil_r. split; [exact Hl1|]. left. exists h, e. split; [by left|done].
  - apply orb_false_iff in Eb as [Er En]. apply logs_silent_bind.
    + apply respects_tell, (calm_backoff _ (reading_calm _ (adds_reading _))).
    + intros l Hl. left. change (accepted (l1 ++ l) = []). by rewrite accepted_app, Hl1.
    + intros e' l s Hl Hs. split; [change (accepted (l1 ++ l) = []); by rewrite accepted_app, Hl1|].
      right. right. exists n, (st_world s). revert Hs. unfold tell.
      destruct (env_backoff n (st_world s)) as [[e0|] w]; [|done]. by intros [= ->].
    + intros _ l2 _ Hl2 _. eapply logs_mono; [apply Hnext; [by destruct (is_retryable _)|lia]|..].
      * intros [] l Hl. by rewrite !accepted_app, Hl1, Hl2.
      * intros r l Hr. apply (write_failed_after op x (_ :: l1)); [exact Hl1|].
        by apply write_failed_after.
Qed.

Lemma logs_withConn_from fuel n :
  Z.of_nat fuel = c_MaxAttempts c - n + 1 -> (1 <= fuel)%nat ->
  logs (withConn_from c op tt (fun h => tell (perform h x)) fuel n)
    (fun _ l => accepted l = [x]) (write_failed op x).
Proof using Hlog.
  revert n. induction fuel as [|fuel IH]; intros n Hn Hf; [lia|]. cbn [withConn_from].
  apply logs_silent_bind.
  - apply respects_on_error; [exact _|apply respects_Acquire; [exact _|apply adds_reading]|].
    intros e. apply respects_lift. exact _.
  - by left.
  - intros e l s Hl Hs. split; [done|]. right. left. exists s. revert Hs.
    unfold map_error, on_error, attempt, mbind, M_bind.
    destruct (Acquire s) as [[h|e1| | |] s1]; try done. intros [= <-]. by exists e1.
  - intros h l1 _ Hl1 _. eapply logs_bind.
    { eapply logs_mono; [apply logs_attempt_perform|intros r l; exact id|done]. }
    intros [[]|e] l2 ->.
    + apply logs_silent_bind; [apply (silent_give_back false)|..].
      * intros l Hl. right. by rewrite !accepted_app, Hl1, Hl.
      * intros e l s _ Hs. by destruct (give_back_not_Fail false _ _ _ Hs).
      * intros _ l3 _ Hl3 _. apply logs_ret. by rewrite !accepted_app, Hl1, Hl3.
    + eapply logs_mono; [apply (logs_retry h e n (withConn_from c op tt _ fuel (n + 1)))|..].
      * intros _ Hne. apply IH; lia.
      * intros [] l Hl. by rewrite !accepted_app, Hl1, Hl.
      * intros r l Hr. by apply write_failed_after.
Qed.

(** [withConn] around one write: a success is one accepted write. *)
Lemma logs_withConn_write :
  1 <= c_MaxAttempts c ->
  logs (withConn c op tt (fun h => tell (perform h x)))
    (fun _ l => accepted l = [x]) (write_failed op x).
Proof using Hlog. intros. apply logs_withConn_from; lia. Qed.

(** The same where only the writes matter, whatever the error becomes. *)
Definition at_most (x : write) (l : list (event Handle)) : Prop := accepted l = [] \/ accepted l = [x].
Lemma logs_withConn_at_most :
  1 <= c_MaxAttempts c ->
  logs (withConn c op tt (fun h => tell (perform h x)))
    (fun _ l => accepted l = [x]) (fun _ l => at_most x l).
Proof using Hlog.
  intros Hmax. eapply logs_mono; [by apply logs_withConn_write|done|].
  intros r l. apply write_failed_cases.
Qed.
End logs.

(** ** The writes of a replication wait *)

Section replication_writes.
Context `{Unicode} `{AdCore} `{Env} (log : World -> list (event Handle)) (Hlog : journal log).

(** [replicateSingleObject] on the rootDSE, best effort. *)
Definition sync_write (guid : gostring) (x : write) : Prop :=
  exists target, x = WModify [] [mkModification ModReplace "replicateSingleObject"%go
                                   [target ++ ":"%go ++ guid]] [].

Context (guid : gostring).
#[local] Abbreviation R := (adds log (sync_write guid)).
#[local] Lemma sync_reading : reading R.
Proof using Hlog. by apply adds_reading. Qed.
Hint Resolve sync_reading : calm.

Lemma objectPresentOn_adds c host filter : respects R (objectPresentOn c host filter).
Proof using Hlog.
  pose proof sync_reading as HR.
  apply respects_bind; [exact _|apply respects_ask, (reading_dial_other _ HR)|]. intros h s.
  unfold deferred_close. set (m := conn_Search _ _ ≫= _).
  assert (respects R m) as Hm by (subst m; solve_respects).
  specialize (Hm s). destruct (m s) as [r s1]. cbn [snd] in *.
  etransitivity; [exact Hm|]. apply (respects_close R (reading_calm _ HR) h s1).
Qed.

Lemma poll_round_adds c filter pending : respects R (poll_round c guid filter pending).
Proof using Hlog.
  pose proof sync_reading as HR. pose proof (objectPresentOn_adds c) as Hp.
  induction pending as [|t pending IH]; cbn [poll_round]; [apply respects_ret; exact _|].
  unfold try_sync. destruct (repl_ForceSync _).
  all: unfold forceSync; solve_respects; try apply Hp; try apply IH.
  apply respects_tell. intros w.
  apply (adds_write log Hlog (sync_write guid) _
    (WModify [] [mkModification ModReplace "replicateSingleObject"%go [t ++ ":"%go ++ guid]] [])).
  by exists t.
Qed.

Lemma replicate_from_adds c filter deadline fuel pending :
  respects R (replicate_from c guid filter deadline fuel pending).
Proof using Hlog.
  pose proof sync_reading as HR. revert pending.
  induction fuel as [|fuel IH]; intros pending; cbn [replicate_from]; [apply respects_lift; exact _|].
  apply respects_bind; [exact _|apply poll_round_adds|]. intros [|t still]; [apply respects_ret; exact _|].
  apply respects_bind; [exact _| |intros now].
  { intros s. unfold time_Now. pose proof (reading_now _ HR (st_world s)) as Hn. by destruct (env_now _). }
  destruct (deadline <? now); [apply respects_lift; exact _|].
  apply respects_bind; [exact _| |intros _; apply IH].
  apply respects_on_error; [exact _|apply respects_tell, (reading_wait _ HR)|].
  intros e. apply respects_lift. exact _.
Qed.

(** A wait writes nothing but requests to replicate the object. *)
Lemma replicate_adds c fuel : respects R (replicate c fuel guid).
Proof using Hlog.
  pose proof sync_reading as HR. unfold replicate, replicationTargets. destruct (negb _); [apply respects_ret; exact _|].
  apply respects_bind; [exact _| |].
  { case_decide; [apply respects_ret; exact _|]. unfold dclist_cb. solve_respects. }
  intros [|t targets]; [apply respects_ret; exact _|].
  apply respects_bind; [exact _|solve_respects|intros b].
  apply respects_bind; [exact _| |intros now; apply replicate_from_adds].
  intros s. unfold time_Now. pose proof (reading_now _ HR (st_world s)) as Hn. by destruct (env_now _).
Qed.
End replication_writes.

(** ** The connection a callback runs on *)

Section opened.
Context `{AdCore} `{Env}.

(** What may happen around a connection that stays in use. *)
Inductive in_use (h : Handle) : relation World :=
  | in_use_select w : in_use h w (snd (env_select w))
  | in_use_backoff n w : in_use h w (snd (env_backoff n w))
  | in_use_search req w : in_use h w (snd (env_search h req w)).

(** Any call of the pool, the retry loop or a reading callback. *)
Inductive calling : relation World :=
  | calling_in_use h w w' : in_use h w w' -> calling w w'
  | calling_dial w : calling w (snd (env_dial w))
  | calling_bind h w : calling w (snd (env_bind h w))
  | calling_close h w : calling w (snd (env_close h w)).

(** From [w0] on, [h] was dialled, then bound, and since then nothing was
    dialled, bound or closed. *)
Definition opened (w0 : World) (h : Handle) (w : World) : Prop :=
  exists wd wb wc, rtc calling w0 wd /\ env_dial wd = (inl h, wb) /\ env_bind h wb = (None, wc) /\
    rtc (in_use h) wc w.

Lemma opened_in_use w0 h w w' : opened w0 h w -> rtc (in_use h) w w' -> opened w0 h w'.
Proof.
  intros (wd & wb & wc & Hd & Hb & Hc & Hu) Hw. exists wd, wb, wc. split_and!; try done. by etransitivity.
Qed.

Lemma in_use_calling h w w' : rtc (in_use h) w w' -> rtc calling w w'.
Proof. induction 1 as [|w w1 w2 Hs _ IH]; [done|]. eapply rtc_l; [by eapply calling_in_use|done]. Qed.

Lemma opened_calling w0 h w : opened w0 h w -> rtc calling w0 w.
Proof.
  intros (wd & wb & wc & Hd & Hb & Hc & Hu). etransitivity; [exact Hd|].
  eapply rtc_l; [apply calling_dial|]. rewrite Hb. cbn [snd].
  eapply rtc_l; [apply (calling_bind h)|]. rewrite Hc. by apply in_use_calling in Hu.
Qed.

(** The pool of a client nothing else uses: open, and holding at most one
    connection, opened since [w0]. *)
Definition alone (w0 : World) (s : St) : Prop :=
  done (st_pool s) = false /\
  ((idle (st_pool s) = [] /\ rtc calling w0 (st_world s)) \/
   exists h, idle (st_pool s) = [h] /\ opened w0 h (st_world s)).

Lemma Acquire_opened w0 s h s' :
  alone w0 s -> Acquire s = (Ret h, s') ->
  done (st_pool s') = false /\ idle (st_pool s') = [] /\ opened w0 h (st_world s').
Proof.
  intros [Hd Hi]. unfold Acquire, tell, mbind, M_bind.
  pose proof (in_use_select h (st_world s)) as Hsel. destruct (env_select (st_world s)) as [[e|] w]; [done|].
  cbn [of_nil set_world snd] in *. unfold take_permit, try_send. cbn.
  destruct (decide _); [|done]. unfold take_conn. cbn. unfold acquire_section. cbn. rewrite Hd.
  destruct Hi as [[-> Hw]|(h1 & -> & Hw)]; cbn.
  - unfold dial_and_bind, on_error, attempt, ask, tell, mbind, M_bind. cbn.
    destruct (env_dial w) as [[h1|e] w1] eqn:Edial; cbn; [|done].
    destruct (env_bind h1 w1) as [[e|] w2] eqn:Ebind; cbn; [done|].
    intros [= -> <-]. cbn. split_and!; [done|done|]. exists w, w1, w2. split_and!; try done.
    eapply rtc_r; [exact Hw|]. by eapply calling_in_use.
  - intros [= <- <-]. cbn. split_and!; [done|done|]. eapply opened_in_use; [exact Hw|]. 
    by apply rtc_once.
Qed.

Context {A : Type} (c : core) (op : gostring) (zero : A) (fn : Handle -> M A)
  (Hst : forall h, steady (fn h)) (Huse : forall h, respects (rtc (in_use h)) (fn h)).

Lemma give_permit_same s u s' : give_permit s = (Ret u, s') ->
  st_world s' = st_world s /\ idle (st_pool s') = idle (st_pool s) /\ done (st_pool s') = done (st_pool s).
Proof.
  unfold give_permit, recv. destruct (sem (st_pool s)); cbn; [done|]. by intros [= <- <-].
Qed.

(** After an attempt the connection is back in the pool, or closed. *)
Lemma give_back_alone w0 (late : bool) h s u s' :
  done (st_pool s) = false -> idle (st_pool s) = [] -> opened w0 h (st_world s) ->
  (if late then Discard h else Release h) s = (Ret u, s') ->
  alone w0 s' /\ (late = false -> idle (st_pool s') = [h] /\ st_world s' = st_world s).
Proof.
  intros Hd Hi Ho. destruct late.
  - unfold Discard, mbind, M_bind. cbn. intros (Ew & Ei & Ed)%give_permit_same.
    split; [|done]. split; [by rewrite Ed|]. left. rewrite Ei, Ew. split; [done|]. cbn.
    eapply rtc_r; [by eapply opened_calling|]. apply calling_close.
  - unfold Release, put_back, release_section, mbind, M_bind. rewrite Hd, Hi. cbn.
    intros (Ew & Ei & Ed)%give_permit_same. cbn in *.
    split; [|done]. split; [by rewrite Ed|]. right. exists h. by rewrite Ei, Ew.
Qed.

Lemma withConn_from_opened w0 fuel n s a s' :
  Z.of_nat fuel = c_MaxAttempts c - n + 1 -> (1 <= fuel)%nat -> alone w0 s ->
  withConn_from c op zero fn fuel n s = (Ret a, s') ->
  exists h s1 s2, fn h s1 = (Ret a, s2) /\ opened w0 h (st_world s1) /\
    idle (st_pool s') = [h] /\ st_world s' = st_world s2.
Proof using Hst Huse.
  revert n s. induction fuel as [|fuel IH]; intros n s Hn Hf Ha; [lia|].
  cbn [withConn_from]. unfold map_error, on_error, attempt, mbind, M_bind.
  destruct (Acquire s) as [[h|e| | |] s1] eqn:Eacq; cbn; try done.
  destruct (Acquire_opened w0 s h s1 Ha Eacq) as (Hd & Hi & Ho).
  destruct (Hst h s1) as (_ & Hp & _). specialize (Huse h s1).
  destruct (fn h s1) as [[a0|e| | |] s2] eqn:Efn; cbn [fst snd] in *; try done.
  all: rewrite <- Hp in Hd, Hi; pose proof (opened_in_use _ _ _ _ Ho Huse) as Ho2.
  - destruct (Release h s2) as [[[]| | | |]s3] eqn:Er; cbn; try done. intros [= <- <-].
    destruct (give_back_alone w0 false h s2 _ s3 Hd Hi Ho2 Er) as [_ [Hi3 Hw3]]; [done|].
    by exists h, s1, s2.
  - set (late := is_kind KindTransport (Classify op e)) in *.
    destruct ((if late then Discard h else Release h) s2) as [[[]| | | |]s3] eqn:Er; try done.
    destruct (give_back_alone w0 late h s2 _ s3 Hd Hi Ho2 Er) as [[Hd3 Hi3] _].
    destruct (is_retryable _); cbn; [|done]. destruct (n =? c_MaxAttempts c) eqn:En; cbn; [done|].
    unfold tell. assert (forall h', rtc (in_use h') (st_world s3) (snd (env_backoff n (st_world s3)))) as Hb
      by (intros; apply rtc_once, in_use_backoff).
    destruct (env_backoff n (st_world s3)) as [[e'|] w]; cbn [of_nil snd] in *; [done|].
    apply IH; [lia|lia|]. split; [exact Hd3|]. cbn.
    destruct Hi3 as [[Hi3 Hw3]|(h3 & Hi3 & Ho3)]; [left|right; exists h3].
    + split; [done|]. etransitivity; [exact Hw3|]. apply (in_use_calling h), Hb.
    + split; [done|]. eapply opened_in_use; [exact Ho3|apply Hb].
Qed.

(** Starting from an empty pool, the value of a successful [withConn] is the
    value of the callback on a connection dialled and bound before, which is
    then the one connection of the pool. *)
Lemma withConn_opened s a s' :
  1 <= c_MaxAttempts c -> done (st_pool s) = false -> idle (st_pool s) = [] ->
  withConn c op zero fn s = (Ret a, s') ->
  exists h s1 s2, fn h s1 = (Ret a, s2) /\ opened (st_world s) h (st_world s1) /\
    idle (st_pool s') = [h] /\ st_world s' = st_world s2.
Proof using Hst Huse.
  intros Hmax Hd Hi. apply withConn_from_opened; [lia|lia|]. split; [done|]. by left.
Qed.
End opened.
