(* ===== verification/Directory.v ===== *)
(** * What the object classes share

    group.go, ou.go, user.go, computer.go and gmsa.go repeat the same shapes
    around their own models: a read that models what [getOne] found, a search
    that models every entry, a rename or move, a create that is read back and
    then awaited, and a delete that is confirmed by a second read.  Each shape
    is defined once here, over the class's own [Get], and proved once. *)
From S2P Require Export Trace.

Section directory.
Context `{Unicode} `{AdCore} `{Env}.

(** [cnRDN] of group.go. *)
Definition cnRDN (name : gostring) : gostring := "CN="%go ++ EscapeValue name.

(** [sdDACL] of ou.go. *)
Definition sdDACL : Control := SDFlagsControl SDFlagDACL.

(** [appendStringMod] of group.go. *)
Definition appendStringMod (mods : list Modification) (attr : gostring) (want : option gostring)
    (current : gostring) : list Modification :=
  match want with
  | None => mods
  | Some w =>
      if decide (w = current) then mods
      else match w with
           | [] => mods ++ [mkModification ModDelete attr []]
           | _ => mods ++ [mkModification ModReplace attr [w]]
           end
  end.

(** [if val != nil && *val != "" { add = append(add, ...) }] *)
Definition appendStringAttr (add : list Attribute) (attr : gostring) (val : option gostring)
    : list Attribute :=
  match val with
  | None | Some [] => add
  | Some v => add ++ [mkAttribute attr [v]]
  end.

(** The tail of every [Get]: an entry that does not model is an error. *)
Definition modelled {A} (op : gostring) (model : Entry -> outcome A) (e : Entry) : M A :=
  map_error (adErr KindTransport op) (lift (model e)).

(** The loop of every [Search]. *)
Definition model_all {A} (op : gostring) (model : Entry -> outcome A) (entries : list Entry)
    : M (list A) :=
  lift (mapM_out (fun e => wrap_err (adErr KindTransport op) (model e)) entries).

(** [return m, c.replicate(ctx, m.GUID)]: the model comes with the error. *)
Definition with_replication {A} (c : core) (fuel : nat) (guid : gostring) (m : A)
    : M (A * option error) :=
  r ← attempt (replicate c fuel guid);
  mret (m, match r with inl _ => None | inr e => Some e end).

(** A write to one object, its error naming the identity. *)
Definition modify_object (c : core) (op : gostring) (id : Identity) (dn : gostring)
    (mods : list Modification) : M unit :=
  match mods with
  | [] => mret tt
  | _ =>
      map_error (fun err => WithIdentity err op id)
        (withConn c op tt (fun h => conn_Modify h dn mods []))
  end.

Definition sameContainer (op container current : gostring) : M bool :=
  map_error (adErr KindConstraint op) (lift (of_sum (EqualFoldDN container current))).

(** The ModifyDN that renames, moves, or both. *)
Definition move_object (c : core) (op : gostring) (id : Identity) (dn rdn : gostring)
    (same : bool) (container : gostring) : M unit :=
  map_error (fun err => WithIdentity err op id)
    (withConn c op tt (fun h => conn_ModifyDN h dn rdn true (if same then [] else container))).

Definition rename_move (c : core) (op : gostring) (id : Identity) (dn cur_name cur_container
    name container : gostring) : M unit :=
  same ← sameContainer op container cur_container;
  if bool_decide (name <> cur_name) || negb same
  then move_object c op id dn (cnRDN name) same container
  else mret tt.

(** The delete every class has: locked, idempotent, confirmed by a re-read.
    [before] is what a class does between the read and the delete. *)
Section delete.
Context {A : Type} (get : Identity -> M A) (guid dn : A -> gostring).

Definition confirm_gone (op : gostring) (id : Identity) (current : A) : M unit :=
  r ← attempt (get (ByGUID (guid current)));
  match r with
  | inr err => if isNotFound err then mret tt else fail err
  | inl _ =>
      fail (adErr_full KindConstraint op (Identity_String id) (dn current)
        (Errorf "the delete returned success but the object is still readable"%go [] None))
  end.

Definition delete_locked (c : core) (op : gostring) (id : Identity) (before : A -> M unit)
    : M unit :=
  r ← attempt (get id);
  match r with
  | inr err => if isNotFound err then mret tt else fail err
  | inl current =>
      before current;;
      map_error (fun err => WithIdentity err op id)
        (withConn c op tt (fun h => conn_Delete h (dn current)));;
      confirm_gone op id current
  end.

Definition delete_object (c : core) (op : gostring) (id : Identity) (before : A -> M unit)
    : M unit := with_lock (IdentityArg id) (delete_locked c op id before).
End delete.

(** Reading nTSecurityDescriptor of one object, for a read-modify-write. *)
Definition descriptor_request (dn : gostring) : SearchRequest :=
  mkSearchRequest dn ScopeBase "(objectClass=*)"%go ["nTSecurityDescriptor"%go] 1 [sdDACL].

Definition descriptor_cb (gone dn : gostring) (h : Handle) : M bytes :=
  res ← conn_Search h (descriptor_request dn);
  match res_Entries res with
  | [] => fail (Errorf gone [] None)
  | e :: _ => mret (First e "nTSecurityDescriptor"%go)
  end.

Definition write_descriptor (c : core) (op dn : gostring) (sd : bytes) : M unit :=
  withConn c op tt (fun h =>
    conn_Modify h dn [mkModification ModReplace "nTSecurityDescriptor"%go [sd]] [sdDACL]).

(** The body of [setProtection] and [setCanChangePassword]: read, refuse an
    empty descriptor, edit, and write when the edit changed something. *)
Definition edit_descriptor (c : core) (op dn gone empty : gostring)
    (edit : bytes -> outcome (bytes * bool)) : M unit :=
  current ← withConn c op [] (descriptor_cb gone dn);
  if decide (current = []) then fail (adErr_target KindDenied op dn (ErrNew empty))
  else
    '(updated, changed) ← map_error (adErr_target KindTransport op dn) (lift (edit current));
    if negb (changed : bool) then mret tt else write_descriptor c op dn updated.
End directory.

(** ** Lemmas *)

Section directory_lemmas.
Context `{Unicode} `{AdCore} `{Env}.

Lemma modelled_quiet {A} op (model : Entry -> outcome A) e : returns (model e) -> quiet (modelled op model e).
Proof. intros. unfold modelled. solve_quiet. Qed.

Lemma model_all_quiet {A} op (model : Entry -> outcome A) es :
  (forall e, returns (model e)) -> quiet (model_all op model es).
Proof.
  intros Hm. apply quiet_lift, mapM_out_returns, Forall_true. intros e. specialize (Hm e). by destruct (model e).
Qed.

Lemma modify_object_quiet c op id dn mods : quiet (modify_object c op id dn mods).
Proof. unfold modify_object. solve_quiet. Qed.
Lemma sameContainer_quiet op a b : quiet (sameContainer op a b).
Proof. unfold sameContainer. solve_quiet. Qed.
Lemma move_object_quiet c op id dn rdn same container : quiet (move_object c op id dn rdn same container).
Proof. unfold move_object. solve_quiet. Qed.
Hint Resolve modify_object_quiet sameContainer_quiet move_object_quiet : quiet.
Lemma rename_move_quiet c op id dn n1 c1 n2 c2 : quiet (rename_move c op id dn n1 c1 n2 c2).
Proof. unfold rename_move. solve_quiet. Qed.

Lemma with_replication_quiet {A} c fuel guid (m : A) :
  quiet (replicate c fuel guid) -> quiet (with_replication c fuel guid m).
Proof. intros. unfold with_replication. solve_quiet. Qed.

Lemma descriptor_cb_steady gone dn h : steady (descriptor_cb gone dn h).
Proof. unfold descriptor_cb. solve_quiet. Qed.
Lemma write_descriptor_quiet c op dn sd : quiet (write_descriptor c op dn sd).
Proof. unfold write_descriptor. solve_quiet. Qed.
Hint Resolve descriptor_cb_steady write_descriptor_quiet : quiet.
Lemma edit_descriptor_quiet c op dn gone empty edit :
  (forall sd, returns (edit sd)) -> quiet (edit_descriptor c op dn gone empty edit).
Proof. intros Hedit. unfold edit_descriptor. solve_quiet. Qed.

(** *** Deletes *)

Section delete.
Context {A : Type} (get : Identity -> M A) (guid dn : A -> gostring).

Lemma delete_object_runs c op id before :
  (forall id, quiet (get id)) -> (forall a, quiet (before a)) ->
  runs (unlocked (IdentityArg id)) (delete_object get guid dn c op id before).
Proof.
  intros Hget Hbefore. apply runs_with_lock. unfold delete_locked, confirm_gone. solve_quiet.
Qed.

(** A delete that succeeds ends in a read that reports not-found. *)
Lemma delete_locked_confirmed c op id before s :
  fst (delete_locked get guid dn c op id before s) = Ret tt ->
  exists id' s' e, fst (get id' s') = Fail e /\ isNotFound e = true /\
    (id' = id \/ exists current s1, fst (get id s1) = Ret current /\ id' = ByGUID (guid current)).
Proof.
  unfold delete_locked, confirm_gone, attempt, mbind, M_bind.
  destruct (get id s) as [[current|e| | |] s1] eqn:Eg; cbn; try done.
  - destruct (before current s1) as [[[]|e| | |] s2]; cbn; try done.
    unfold map_error, on_error, attempt, mbind, M_bind.
    destruct (withConn _ _ _ _ _) as [[[]|e| | |] s3]; cbn; try done.
    destruct (get (ByGUID (guid current)) s3) as [[a|e| | |] s4] eqn:Eg2; cbn; try done.
    destruct (isNotFound e) eqn:En; cbn; [|done]. intros _.
    exists (ByGUID (guid current)), s3, e. rewrite Eg2. split_and!; [done..|].
    right. exists current, s. by rewrite Eg.
  - destruct (isNotFound e) eqn:En; cbn; [|done]. intros _.
    exists id, s, e. rewrite Eg. by split_and!; [..|left].
Qed.

Lemma with_lock_Ret {B} key (m : M B) s r :
  fst (with_lock key m s) = Ret r -> exists s', st_world s' = st_world s /\ fst (m s') = Ret r /\
    st_world (snd (with_lock key m s)) = st_world (snd (m s')).
Proof.
  unfold with_lock, lock, mbind, M_bind. destruct (mutex_lock _ _) as [l|]; [|done].
  unfold deferred_unlock. intros Hr. exists (set_locks s l). split; [done|].
  destruct (m (set_locks s l)) as [o s1]. cbn in *. by subst.
Qed.

Lemma with_lock_fst {B} key (m : M B) s r :
  fst (with_lock key m s) = Ret r -> exists s', fst (m s') = Ret r.
Proof.
  unfold with_lock, lock, mbind, M_bind. destruct (mutex_lock _ _) as [l|]; [|done].
  unfold deferred_unlock. destruct (m (set_locks s l)) as [o s1] eqn:E. cbn. intros ->.
  exists (set_locks s l). by rewrite E.
Qed.
End delete.
End directory_lemmas.

#[export] Hint Resolve modify_object_quiet sameContainer_quiet move_object_quiet rename_move_quiet
  descriptor_cb_steady write_descriptor_quiet : quiet.

(** ** Writing nothing when nothing changes *)

Section directory_reads.
Context `{Unicode} `{AdCore} `{Env} (R : relation World) `{!PreOrder R} (HR : reading R).

Lemma modify_object_nil c op id dn : respects R (modify_object c op id dn []).
Proof using PreOrder0. unfold modify_object. solve_respects. Qed.

Lemma sameContainer_reads op a b : respects R (sameContainer op a b).
Proof using PreOrder0. unfold sameContainer. solve_respects. Qed.

Lemma rename_move_same c op id dn name cont container :
  EqualFoldDN container cont = inl true ->
  respects R (rename_move c op id dn name cont name container).
Proof using PreOrder0.
  intros Heq. unfold rename_move, sameContainer. rewrite Heq. intros s. cbn.
  rewrite bool_decide_eq_false_2 by naive_solver. reflexivity.
Qed.

Lemma appendStringMod_nil attr want current :
  want = None \/ want = Some current -> appendStringMod [] attr want current = [].
Proof using Type. intros [->| ->]; cbn; [done|]. by rewrite decide_True. Qed.

Lemma descriptor_cb_reads gone dn h : respects R (descriptor_cb gone dn h).
Proof using All. unfold descriptor_cb. solve_respects. Qed.
End directory_reads.
#[export] Hint Resolve descriptor_cb_reads sameContainer_reads : calm.

(** ** What a descriptor edit reads and writes *)

Section descriptor.
Context `{Unicode} `{AdCore} `{Env}.

(** The directory answered a read of the descriptor of [dn] with [sd]. *)
Definition descriptor_read (dn : gostring) (sd : bytes) : Prop :=
  exists h w e es ctrls,
    fst (env_search h (descriptor_request dn) w) = inl (mkSearchResult (e :: es) ctrls) /\
    First e "nTSecurityDescriptor"%go = sd.

(** The directory accepted a write of the descriptor, scoped to the DACL. *)
Definition descriptor_written (dn : gostring) (sd : bytes) : Prop :=
  exists h w,
    fst (env_modify h dn [mkModification ModReplace "nTSecurityDescriptor"%go [sd]] [sdDACL] w) = None.

Lemma write_descriptor_Ret c op dn sd s :
  1 <= c_MaxAttempts c -> fst (write_descriptor c op dn sd s) = Ret tt -> descriptor_written dn sd.
Proof.
  intros Hmax. unfold write_descriptor. destruct (withConn _ _ _ _ s) as [r s'] eqn:Ew. cbn.
  intros ->. apply withConn_Ret in Ew as (h & s1 & s2 & Hm); [|done].
  exists h, (st_world s1). unfold conn_Modify, tell in Hm. by destruct (env_modify h dn _ _ _) as [[e|] w].
Qed.

Lemma descriptor_cb_read c op dn gone s sd :
  1 <= c_MaxAttempts c -> fst (withConn c op [] (descriptor_cb gone dn) s) = Ret sd ->
  descriptor_read dn sd.
Proof.
  intros Hmax. destruct (withConn _ _ _ _ s) as [r s1] eqn:Ew. cbn. intros ->.
  apply withConn_Ret in Ew as (h & s2 & s3 & Hcb); [|done].
  unfold descriptor_cb, conn_Search, ask, mbind, M_bind in Hcb.
  destruct (env_search h _ _) as [[[es ctrls]|e] w] eqn:Es; cbn in Hcb; [|done].
  destruct es as [|e es]; [done|]. injection Hcb as <- _.
  exists h, (st_world s2), e, es, ctrls. by rewrite Es.
Qed.

Lemma edit_descriptor_success c op dn gone empty edit s :
  1 <= c_MaxAttempts c -> fst (edit_descriptor c op dn gone empty edit s) = Ret tt ->
  exists sd out changed, sd <> [] /\ descriptor_read dn sd /\ edit sd = Ret (out, changed) /\
    (changed = true -> descriptor_written dn out).
Proof.
  intros Hmax. unfold edit_descriptor, mbind, M_bind.
  destruct (withConn _ _ _ _ s) as [[sd|e| | |] s1] eqn:Ew; cbn; try done.
  pose proof (descriptor_cb_read c op dn gone s sd Hmax ltac:(by rewrite Ew)) as Hread.
  destruct (decide (sd = [])) as [|Hne]; [done|].
  unfold map_error, on_error, attempt, lift, mbind, M_bind.
  destruct (edit sd) as [[out changed]|e| | |] eqn:Ee; cbn; try done.
  intros Hr. exists sd, out, changed. split_and!; [done..|]. intros ->. cbn in Hr.
  by eapply write_descriptor_Ret.
Qed.

(** *** In the journal *)

Definition descriptor_write (dn : gostring) (sd : bytes) : write :=
  WModify dn [mkModification ModReplace "nTSecurityDescriptor"%go [sd]] [sdDACL].

Context (log : World -> list (event Handle)) (Hlog : journal log).

Lemma logs_with_replication {A} c fuel guid (m : A) :
  logs log (with_replication c fuel guid m)
    (fun r l => fst r = m /\ Forall (sync_write guid) (accepted l))
    (fun _ l => Forall (sync_write guid) (accepted l)).
Proof using Hlog.
  eapply logs_bind.
  - eapply logs_mono; [apply logs_attempt, logs_adds, (replicate_adds log Hlog guid c fuel)| |];
      intros r l Hl; [exact Hl|apply Hl].
  - intros r l1 Hl1. apply logs_ret. rewrite app_nil_r. split; [done|]. destruct r; apply Hl1.
Qed.

(** A descriptor edit that succeeds has written the edited descriptor, once,
    if the edit changed it, and nothing otherwise. *)
Lemma logs_edit_descriptor c op dn gone empty edit :
  1 <= c_MaxAttempts c ->
  logs log (edit_descriptor c op dn gone empty edit)
    (fun _ l => exists sd out changed, descriptor_read dn sd /\ edit sd = Ret (out, changed) /\
       accepted l = if changed : bool then [descriptor_write dn out] else [])
    (fun _ l => accepted l = [] \/ exists sd, accepted l = [descriptor_write dn sd]).
Proof using Hlog.
  intros Hmax. pose proof (silent_reading log Hlog) as HR.
  apply logs_silent_bind; [apply respects_withConn; [exact _|apply HR|intros h; apply (descriptor_cb_reads _ HR)]
                          |intros; by left|intros; by left|].
  intros sd l1 s Hl1 Hsd. destruct (decide (sd = [])); [apply logs_lift; left; by rewrite app_nil_r|].
  apply logs_silent_bind; [solve_respects| | |];
    [intros l Hl; left; by rewrite accepted_app, Hl1, Hl|intros ? l ? Hl _; left; by rewrite accepted_app, Hl1, Hl|].
  intros [out changed] l2 s2 Hl2 Hedit.
  assert (edit sd = Ret (out, changed)) as He.
  { revert Hedit. unfold map_error, on_error, attempt, lift, mbind, M_bind.
    by destruct (edit sd) as [[]|e| | |]; cbn; try done; intros [= -> ->]. }
  pose proof (descriptor_cb_read c op dn gone s sd Hmax Hsd) as Hread.
  destruct changed; cbn [negb].
  - eapply logs_mono; [apply (logs_withConn_write log Hlog c op (descriptor_write dn out) Hmax)|..].
    + intros [] l Hl. exists sd, out, true. by rewrite !accepted_app, Hl1, Hl2, Hl.
    + intros r l Hr. rewrite !accepted_app, Hl1, Hl2. apply write_failed_cases in Hr as [->| ->]; [by left|].
      right. by exists out.
  - apply logs_ret. exists sd, out, false. by rewrite app_nil_r, accepted_app, Hl1, Hl2.
Qed.
End descriptor.

(** ** The effect of a Modify

    What RFC 4511 (4.6) says a directory does with the modifications of one
    request, on the attributes of one entry. *)
Definition modified (m : Modification) (old : list bytes) : list bytes :=
  match m_Op m with
  | ModReplace => m_Vals m
  | ModAdd => old ++ m_Vals m
  | ModDelete => match m_Vals m with [] => [] | vals => filter (fun v => v ∉ vals) old end
  end.

Definition apply_mod (e : Entry) (m : Modification) : Entry :=
  let rest := filter (fun kv => fst kv <> m_Type m) (en_Attrs e) in
  mkEntry (en_DN e)
    (match modified m (default [] (map_get (en_Attrs e) (m_Type m))) with
     | [] => rest
     | vals => (m_Type m, vals) :: rest
     end).

Definition apply_mods (e : Entry) (mods : list Modification) : Entry := fold_left apply_mod mods e.

(** What the modifications write to an attribute, as a function of the
    modification: its first value, or all of them. *)
Definition written_as {B} (f : Modification -> B) (attr : gostring) (mods : list Modification)
    : option B :=
  find_map (fun m => if decide (m_Type m = attr) then Some (f m) else None) mods.
Definition first_value (m : Modification) : bytes := hd [] (m_Vals m).
Abbreviation written := (written_as first_value).
Abbreviation written_vals := (written_as m_Vals).

Section modifications.
Context `{Unicode}.

(** The server spells the attribute the way it was asked for. *)
Definition spelled (attr : gostring) (e : Entry) : Prop := forall k vs,
  In (k, vs) (en_Attrs e) -> EqualFold k attr = true -> k = attr.

(** The modifications this client sends replace or clear a whole attribute. *)
Definition whole (m : Modification) : Prop :=
  m_Op m = ModReplace \/ (m_Op m = ModDelete /\ m_Vals m = []).

Lemma In_filter {A} (P : A -> Prop) `{!forall x, Decision (P x)} (l : list A) x :
  In x (filter P l) <-> P x /\ In x l.
Proof. rewrite <- !list_elem_of_In. apply list_elem_of_filter. Qed.

Lemma apply_mod_In e m k vs :
  In (k, vs) (en_Attrs (apply_mod e m)) ->
  (k = m_Type m /\ vs = modified m (default [] (map_get (en_Attrs e) (m_Type m))) /\ vs <> []) \/
  (k <> m_Type m /\ In (k, vs) (en_Attrs e)).
Proof.
  unfold apply_mod. cbn. destruct (modified _ _) as [|v vals] eqn:E.
  - intros [? ?]%In_filter. by right.
  - intros [[= <- <-]|[? ?]%In_filter]; [by left|by right].
Qed.

Lemma spelled_apply attr e m :
  (m_Type m = attr \/ EqualFold (m_Type m) attr = false) -> spelled attr e ->
  spelled attr (apply_mod e m).
Proof.
  intros Hm He k vs [(-> & _)|[_ Hin]]%apply_mod_In Hf; [|by eapply He].
  destruct Hm; congruence.
Qed.

Lemma map_get_filter {A} (l : list (gostring * A)) k k' :
  k <> k' -> map_get (filter (fun kv => fst kv <> k') l) k = map_get l k.
Proof.
  intros Hk. unfold map_get. induction l as [|[k1 v] l IH]; [done|].
  destruct (decide (k1 = k')) as [->|Hne].
  - rewrite filter_cons_False by naive_solver. cbn. by rewrite decide_False.
  - rewrite filter_cons_True by done. cbn. case_decide; [done|exact IH].
Qed.

Lemma map_get_none {A} (l : list (gostring * A)) k :
  map_get (filter (fun kv => fst kv <> k) l) k = None.
Proof.
  unfold map_get. apply find_map_None. intros [k1 v] [Hne _]%In_filter. cbn in *.
  by rewrite decide_False.
Qed.

Lemma First_apply_other attr e m :
  m_Type m <> attr -> EqualFold (m_Type m) attr = false ->
  First (apply_mod e m) attr = First e attr.
Proof.
  intros Hne Hf. unfold First.
  set (fallback := fun kv : gostring * list bytes => _).
  assert (forall vs, fallback (m_Type m, vs) = None) as Hfb.
  { intros vs. subst fallback. cbn. rewrite Hf. by destruct vs. }
  assert (map_get (en_Attrs (apply_mod e m)) attr = map_get (en_Attrs e) attr) as ->.
  { unfold apply_mod. cbn. rewrite <- (map_get_filter (en_Attrs e) attr (m_Type m)) by done.
    destruct (modified _ _); [done|]. unfold map_get at 1. cbn. by rewrite decide_False. }
  assert (find_map fallback (en_Attrs (apply_mod e m)) = find_map fallback (en_Attrs e)) as ->;
    [|done].
  assert (find_map fallback (filter (fun kv => fst kv <> m_Type m) (en_Attrs e))
          = find_map fallback (en_Attrs e)) as Hrest.
  { induction (en_Attrs e) as [|[k vs] l IH]; [done|]. destruct (decide (k = m_Type m)) as [->|].
    - rewrite filter_cons_False by naive_solver. cbn [find_map]. by rewrite Hfb, IH.
    - rewrite filter_cons_True by done. cbn [find_map]. by rewrite IH. }
  unfold apply_mod. cbn [en_Attrs]. destruct (modified _ _) as [|v vals]; [done|].
  cbn [find_map]. by rewrite Hfb.
Qed.

Lemma First_apply_same attr e m :
  m_Type m = attr -> whole m -> spelled attr e -> First (apply_mod e m) attr = hd [] (m_Vals m).
Proof.
  intros <- Hw He. unfold First, apply_mod. cbn [en_Attrs].
  assert (forall old, modified m old = m_Vals m) as Hmod.
  { intros old. unfold modified. destruct Hw as [->|[-> ->]]; done. }
  rewrite !Hmod. destruct (m_Vals m) as [|v vals].
  - rewrite map_get_none. set (f := fun kv : gostring * list bytes => _).
    destruct (find_map f _) as [v|] eqn:E; [|done]. exfalso.
    apply find_map_Some in E as ([k vs] & [Hne Hin]%In_filter & Hk). subst f. cbn in *.
    destruct vs; [done|]. destruct (EqualFold k (m_Type m)) eqn:Ef; [|done].
    by apply Hne, (He _ _ Hin).
  - unfold map_get. cbn. by rewrite decide_True.
Qed.

(** The first value of an attribute after a list of modifications of distinct
    attributes: what one of them wrote, or what was there. *)
Lemma First_apply_mods attr e mods :
  spelled attr e -> Forall whole mods -> List.NoDup (map m_Type mods) ->
  Forall (fun m => m_Type m = attr \/ EqualFold (m_Type m) attr = false) mods ->
  First (apply_mods e mods) attr = default (First e attr) (written attr mods).
Proof.
  unfold apply_mods, written_as. intros He Hw Hnd Hf. revert e He Hw Hnd Hf.
  induction mods as [|m mods IH]; intros e He Hw Hnd Hf; [done|].
  inversion_clear Hw as [|?? Hm Hw']. inversion_clear Hnd as [|?? Hni Hnd'].
  inversion_clear Hf as [|?? Hfm Hf']. cbn [fold_left find_map].
  rewrite (IH (apply_mod e m)); [|by apply spelled_apply|done..].
  destruct (decide (m_Type m = attr)) as [Ha|Ha].
  - rewrite (First_apply_same _ _ _ Ha Hm He).
    assert (find_map (fun m => if decide (m_Type m = attr) then Some (first_value m) else None) mods
            = None) as ->; [|done].
    apply find_map_None. intros m' Hin. rewrite decide_False; [done|]. intros <-.
    apply Hni. rewrite Ha. by apply in_map.
  - destruct Hfm as [|Hfm]; [done|]. by rewrite First_apply_other.
Qed.

(** All the values of an attribute under its exact name. *)
Definition vals_of (e : Entry) (attr : gostring) : list bytes :=
  default [] (map_get (en_Attrs e) attr).

Lemma vals_apply_mod_any attr e m :
  vals_of (apply_mod e m) attr
  = if decide (m_Type m = attr) then modified m (vals_of e attr) else vals_of e attr.
Proof.
  unfold vals_of at 1, apply_mod. cbn [en_Attrs]. fold (vals_of e (m_Type m)).
  destruct (decide (m_Type m = attr)) as [<-|Hne].
  - destruct (modified m _) as [|v vs]; [by rewrite map_get_none|]. unfold map_get. cbn. by rewrite decide_True.
  - unfold vals_of at 2. rewrite <- (map_get_filter (en_Attrs e) attr (m_Type m)) by done.
    destruct (modified m _) as [|v vs]; [done|].
    unfold map_get at 1. cbn [find_map fst snd]. by rewrite decide_False by done.
Qed.

Lemma vals_apply_mod attr e m :
  whole m -> vals_of (apply_mod e m) attr = if decide (m_Type m = attr) then m_Vals m else vals_of e attr.
Proof.
  intros Hw. rewrite vals_apply_mod_any. unfold modified. by destruct Hw as [->|[-> ->]].
Qed.

Lemma vals_apply_mods attr e mods :
  Forall whole mods -> List.NoDup (map m_Type mods) ->
  vals_of (apply_mods e mods) attr = default (vals_of e attr) (written_vals attr mods).
Proof.
  unfold apply_mods, written_as. intros Hw Hnd. revert e Hw Hnd.
  induction mods as [|m mods IH]; intros e Hw Hnd; [done|].
  inversion_clear Hw as [|?? Hm Hw']. inversion_clear Hnd as [|?? Hni Hnd'].
  cbn [fold_left find_map]. rewrite (IH (apply_mod e m)), vals_apply_mod by done.
  destruct (decide (m_Type m = attr)) as [Ha|Ha]; [|done].
  assert (find_map (fun m => if decide (m_Type m = attr) then Some (m_Vals m) else None) mods = None)
    as ->; [|done].
  apply find_map_None. intros m' Hin. rewrite decide_False; [done|]. intros <-.
  apply Hni. rewrite Ha. by apply in_map.
Qed.

Lemma en_DN_apply_mods e mods : en_DN (apply_mods e mods) = en_DN e.
Proof. unfold apply_mods. revert e. induction mods as [|m mods IH]; intros e; [done|]. cbn [fold_left]. by rewrite IH. Qed.

(** *** Deltas: at most one modification for each of some attributes *)

Definition delta := list (gostring * list Modification).
Definition mods_of (d : delta) : list Modification := concat (map snd d).

Definition at_most_one (attr : gostring) (mods : list Modification) : Prop :=
  mods = [] \/ exists m, mods = [m] /\ m_Type m = attr /\ whole m.
Definition wf_delta (d : delta) : Prop :=
  List.NoDup (map fst d) /\ Forall (fun p => at_most_one (fst p) (snd p)) d.

Lemma written_app {B} (f : Modification -> B) attr l1 l2 :
  written_as f attr (l1 ++ l2)
  = match written_as f attr l1 with Some v => Some v | None => written_as f attr l2 end.
Proof.
  unfold written_as. induction l1 as [|m l1 IH]; [done|]. cbn [app find_map]. by case_decide.
Qed.

Lemma written_other {B} (f : Modification -> B) a attr mods :
  at_most_one a mods -> a <> attr -> written_as f attr mods = None.
Proof. intros [->|(m & -> & <- & _)] Hne; [done|]. unfold written_as. cbn. by rewrite decide_False. Qed.

Lemma written_absent {B} (f : Modification -> B) d attr :
  wf_delta d -> ~ In attr (map fst d) -> written_as f attr (mods_of d) = None.
Proof.
  intros [_ Hd]. unfold mods_of. induction Hd as [|[a ms] d Ha _ IH]; [done|].
  cbn [map concat fst snd] in *. intros Hni. rewrite written_app, (written_other f a) by naive_solver.
  apply IH. naive_solver.
Qed.

Lemma written_in {B} (f : Modification -> B) d attr ms :
  wf_delta d -> In (attr, ms) d -> written_as f attr (mods_of d) = written_as f attr ms.
Proof.
  intros [Hnd Hd]. unfold mods_of. induction Hd as [|[a l] d Ha Hd IH]; [done|].
  cbn [map concat fst snd] in *. inversion_clear Hnd as [|?? Hni Hnd']. rewrite written_app.
  intros [[= -> ->]|Hin].
  - destruct (written_as f attr ms); [done|]. by apply (written_absent f d).
  - rewrite (written_other f a); [by apply IH|done|]. intros ->. apply Hni, in_map_iff.
    by exists (attr, ms).
Qed.

Lemma mods_of_In d m :
  wf_delta d -> In m (mods_of d) -> whole m /\ In (m_Type m) (map fst d).
Proof.
  intros [_ Hd]. unfold mods_of. induction Hd as [|[a l] d Ha Hd IH]; [done|].
  cbn [map concat fst snd] in *. intros [Hin|Hin]%in_app_iff; [|naive_solver].
  destruct Ha as [->|(m' & -> & <- & Hw)]; [done|]. destruct Hin as [->|[]]. naive_solver.
Qed.

Lemma mods_of_NoDup d : wf_delta d -> List.NoDup (map m_Type (mods_of d)).
Proof.
  intros [Hnd Hd]. unfold mods_of. induction Hd as [|[a l] d Ha Hd IH]; [constructor|].
  cbn [map concat fst snd] in *. inversion_clear Hnd as [|?? Hni Hnd'].
  destruct Ha as [->|(m & -> & <- & Hw)]; [by apply IH|]. constructor; [|by apply IH].
  intros (m' & Ht & Hin)%in_map_iff. apply Hni. rewrite <- Ht.
  by apply (mods_of_In d m'); [split|].
Qed.

(** Reading an attribute after a delta: what the delta writes to it, or what
    was there. *)
Lemma First_delta d attr e :
  wf_delta d -> (forall a, In a (map fst d) -> a = attr \/ EqualFold a attr = false) ->
  spelled attr e ->
  First (apply_mods e (mods_of d)) attr = default (First e attr) (written attr (mods_of d)).
Proof.
  intros Hd Ha He. apply First_apply_mods; [done| |by apply mods_of_NoDup|].
  - apply List.Forall_forall. intros m Hm. by apply (mods_of_In d).
  - apply List.Forall_forall. intros m Hm. by apply Ha, (mods_of_In d).
Qed.

Lemma vals_delta d attr e :
  wf_delta d ->
  vals_of (apply_mods e (mods_of d)) attr = default (vals_of e attr) (written_vals attr (mods_of d)).
Proof.
  intros Hd. apply vals_apply_mods; [|by apply mods_of_NoDup].
  apply List.Forall_forall. intros m Hm. by apply (mods_of_In d).
Qed.

Lemma appendStringMod_app mods attr want current :
  appendStringMod mods attr want current = mods ++ appendStringMod [] attr want current.
Proof.
  unfold appendStringMod. destruct want as [w|]; [|by rewrite app_nil_r].
  case_decide; [by rewrite app_nil_r|]. by destruct w.
Qed.

Lemma string_piece_one attr want current :
  at_most_one attr (appendStringMod [] attr want current).
Proof.
  unfold appendStringMod. destruct want as [w|]; [|by left]. case_decide; [by left|].
  right. destruct w; eexists; (split; [done|]); (split; [done|]); [by right|by left].
Qed.

Lemma replace_one attr (P : Prop) `{!Decision P} v :
  at_most_one attr (if decide P then [mkModification ModReplace attr [v]] else []).
Proof. case_decide; [right|by left]. eexists. by split_and!; [..|left]. Qed.

Lemma value_one attr (b : bool) v :
  at_most_one attr (if b then [mkModification ModReplace attr [v]] else []).
Proof. destruct b; [right|by left]. eexists. by split_and!; [..|left]. Qed.

Lemma written_string attr want current :
  default current (written attr (appendStringMod [] attr want current)) = default current want.
Proof.
  unfold appendStringMod, written_as. destruct want as [w|]; [|done].
  case_decide as Hw; [by subst|]. destruct w; cbn; by rewrite decide_True.
Qed.

Lemma written_name attr want current :
  default current (written attr (if decide (want <> [] /\ want <> current)
                                 then [mkModification ModReplace attr [want]] else []))
  = match want with [] => current | w => w end.
Proof.
  unfold written_as. case_decide as Hw; cbn.
  - rewrite decide_True by done. cbn. by destruct want, Hw.
  - destruct want as [|b l] eqn:E; [done|]. destruct (decide (b :: l = current)); [done|naive_solver].
Qed.

Lemma written_replace attr v : written attr [mkModification ModReplace attr [v]] = Some v.
Proof. unfold written_as. cbn. by rewrite decide_True. Qed.
End modifications.

(** Well-formedness of a concrete delta. *)
Ltac solve_wf_delta :=
  split; [cbn; repeat constructor; cbn; intuition discriminate|];
  repeat (apply List.Forall_cons || apply List.Forall_nil); cbn [fst snd];
  first [apply string_piece_one | apply replace_one | apply value_one | idtac].

(** Side conditions of [First_delta] for a concrete attribute. *)
Ltac solve_other_spelling :=
  let a := fresh in let Ha := fresh in
  intros a Ha; cbn in Ha; repeat destruct Ha as [<-|Ha]; try done; (by left) || by right.

