(* ===== verification/Direct.v ===== *)
(** * Operations against a directory that answers

    Against a directory that can be reached and that only changes when it is
    asked to, an operation is a function of the directory: [yields m w r w']
    says that [m], started when the directory is [w] with a free permit and an
    open pool, ends with [r] and the directory [w'], the pool ready again.  The
    rules below follow the shape of the operations. *)
From S2P Require Export Directory.

Section direct.
Context `{AdCore} `{Env}.

(** Connecting does not change the directory. *)
Record still : Prop := {
  still_select w : env_select w = (None, w);
  still_dial w : exists h, env_dial w = (inl h, w);
  still_bind h w : env_bind h w = (None, w);
  still_close h w : snd (env_close h w) = w
}.

Definition yields {A} (m : M A) (w : World) (r : outcome A) (w' : World) : Prop := forall s,
  ready s -> st_world s = w ->
  exists s', m s = (r, s') /\ st_world s' = w' /\ ready s' /\ st_locks s' = st_locks s.

(** The same of a callback, whatever the connection. *)
Definition performs {A} (m : M A) (w : World) (r : outcome A) (w' : World) : Prop := forall s,
  st_world s = w -> exists s', m s = (r, s') /\ st_world s' = w'.

Lemma yields_lift {A} (r : outcome A) w : yields (lift r) w r w.
Proof. intros s Hs <-. by exists s. Qed.
Lemma yields_ret {A} (a : A) w : yields (mret a) w (Ret a) w.
Proof. apply (yields_lift (Ret a)). Qed.
Lemma yields_fail {A} (e : error) w : yields (fail (A := A) e) w (Fail e) w.
Proof. apply yields_lift. Qed.

Lemma yields_bind {A B} (m : M A) (f : A -> M B) w a w1 r w2 :
  yields m w (Ret a) w1 -> yields (f a) w1 r w2 -> yields (m ≫= f) w r w2.
Proof.
  intros Hm Hf s Hs Hw. destruct (Hm s Hs Hw) as (s1 & E1 & Hw1 & Hs1 & Hl1).
  destruct (Hf s1 Hs1 Hw1) as (s2 & E2 & Hw2 & Hs2 & Hl2). exists s2.
  unfold mbind, M_bind. rewrite E1. split_and!; [done..|congruence].
Qed.

Lemma yields_bind_fail {A B} (m : M A) (f : A -> M B) w e w1 :
  yields m w (Fail e) w1 -> yields (m ≫= f) w (Fail e) w1.
Proof.
  intros Hm s Hs Hw. destruct (Hm s Hs Hw) as (s1 & E1 & ?). exists s1.
  unfold mbind, M_bind. by rewrite E1.
Qed.

Lemma yields_map_error {A} (f : error -> error) (m : M A) w r w' :
  yields m w r w' ->
  yields (map_error f m) w (match r with Fail e => Fail (f e) | _ => r end) w'.
Proof.
  intros Hm s Hs Hw. destruct (Hm s Hs Hw) as (s1 & E1 & ?). exists s1.
  unfold map_error, on_error, attempt, mbind, M_bind. rewrite E1. by destruct r.
Qed.

Lemma yields_attempt {A} (m : M A) w r w' :
  yields m w r w' ->
  yields (attempt m) w (match r with Ret a => Ret (inl a) | Fail e => Ret (inr e) | Panic => Panic
                        | Blocked => Blocked | OutOfFuel => OutOfFuel end) w'.
Proof.
  intros Hm s Hs Hw. destruct (Hm s Hs Hw) as (s1 & E1 & ?). exists s1.
  unfold attempt. rewrite E1. by destruct r.
Qed.

Lemma performs_ask {A} (f : World -> (A + error) * World) w :
  performs (ask f) w (of_sum (fst (f w))) (snd (f w)).
Proof. intros s <-. unfold ask. destruct (f (st_world s)) as [r w]. by eexists. Qed.
Lemma performs_tell (f : World -> option error * World) w :
  performs (tell f) w (of_nil (fst (f w))) (snd (f w)).
Proof. intros s <-. unfold tell. destruct (f (st_world s)) as [r w]. by eexists. Qed.
Lemma performs_bind {A B} (m : M A) (f : A -> M B) w a w1 r w2 :
  performs m w (Ret a) w1 -> performs (f a) w1 r w2 -> performs (m ≫= f) w r w2.
Proof.
  intros Hm Hf s Hw. destruct (Hm s Hw) as (s1 & E1 & Hw1). destruct (Hf s1 Hw1) as (s2 & E2 & Hw2).
  exists s2. unfold mbind, M_bind. by rewrite E1.
Qed.
Lemma performs_ret {A} (a : A) w : performs (mret a) w (Ret a) w.
Proof. intros s <-. by exists s. Qed.

Lemma Acquire_still s :
  still -> ready s -> exists h s', Acquire s = (Ret h, s') /\ st_world s' = st_world s /\
    sem (st_pool s') = S (sem (st_pool s)) /\ size (st_pool s') = size (st_pool s) /\
    done (st_pool s') = false /\ st_locks s' = st_locks s.
Proof.
  intros [Hsel Hdial Hbind _] [Hf Hd]. unfold Acquire, tell, mbind, M_bind. rewrite Hsel. cbn.
  unfold take_permit, try_send. cbn. rewrite decide_True by done. unfold take_conn. cbn.
  unfold acquire_section. cbn. rewrite Hd.
  destruct (rev (idle (st_pool s))) as [|h r]; [|by eexists _, _].
  unfold dial_and_bind, on_error, attempt, ask, tell, mbind, M_bind. cbn.
  destruct (Hdial (st_world s)) as [h ->]. cbn. rewrite Hbind. by eexists _, _.
Qed.

(** A failure that is not retried, as [withConn] reports it. *)
Definition final (c : core) (op : gostring) (e : error) : Prop :=
  is_retryable (Classify op e) = false.

Lemma give_permit_ready (s : St) n :
  sem (st_pool s) = S n -> (n < size (st_pool s))%nat -> done (st_pool s) = false ->
  exists s', give_permit s = (Ret tt, s') /\ st_world s' = st_world s /\ ready s' /\ st_locks s' = st_locks s.
Proof.
  intros Hn Hlt Hd. rewrite (give_permit_S _ n Hn). eexists. split; [done|]. by split_and!.
Qed.

Lemma yields_withConn {A} c op (zero : A) (fn : Handle -> M A) w r w' :
  still -> 1 <= c_MaxAttempts c -> (forall h, steady (fn h)) -> (forall h, performs (fn h) w r w') ->
  match r with Ret _ => True | Fail e => final c op e | _ => False end ->
  yields (withConn c op zero fn) w (match r with Fail e => Fail (Classify op e) | _ => r end) w'.
Proof.
  intros Hst Hmax Hsteady Hfn Hr s Hs Hw.
  destruct (Acquire_still s Hst Hs) as (h & s1 & Ha & Hw1 & Hsem & Hsz & Hd & Hl).
  destruct (Hfn h s1) as (s2 & E & Hw2); [congruence|].
  destruct (Hsteady h s1) as (_ & Hp & Hl2). rewrite E in Hp, Hl2. cbn [snd] in Hp, Hl2.
  destruct Hs as [Hf _]. unfold free in Hf.
  unfold withConn. destruct (Z.to_nat (c_MaxAttempts c)) as [|fuel] eqn:Efuel; [lia|].
  cbn [withConn_from]. unfold map_error, on_error, attempt, mbind, M_bind. rewrite Ha. cbn. rewrite E.
  destruct r as [a|e| | |]; try done; cbn.
  - unfold Release, put_back, release_section, mbind, M_bind. rewrite Hp, Hd. cbn.
    destruct (give_permit_ready (set_st_pool s2 (mkPool (size (st_pool s1)) (sem (st_pool s1))
      (idle (st_pool s1) ++ [h]) false)) (sem (st_pool s))) as (s3 & E3 & Hw3 & Hs3 & Hl3);
      [cbn; congruence..|cbn; lia|done|].
    rewrite E3. exists s3. cbn in *. split_and!; congruence || done.
  - assert (exists s3, (if is_kind KindTransport (Classify op e) then Discard h else Release h) s2 = (Ret tt, s3)
      /\ st_world s3 = w' /\ ready s3 /\ st_locks s3 = st_locks s) as (s3 & E3 & Hw3 & Hs3 & Hl3).
    { destruct (is_kind _ _).
      - unfold Discard, conn_Close, mbind, M_bind.
        destruct (give_permit_ready (set_world s2 (snd (env_close h (st_world s2)))) (sem (st_pool s)))
          as (s3 & E3 & Hw3 & Hs3 & Hl3); [cbn; congruence..|cbn; rewrite Hp; lia|cbn; by rewrite Hp|].
        exists s3. split; [done|]. cbn in *. rewrite (still_close Hst) in Hw3. split_and!; congruence || done.
      - unfold Release, put_back, release_section, mbind, M_bind. rewrite Hp, Hd. cbn.
        destruct (give_permit_ready (set_st_pool s2 (mkPool (size (st_pool s1)) (sem (st_pool s1))
          (idle (st_pool s1) ++ [h]) false)) (sem (st_pool s))) as (s3 & E3 & Hw3 & Hs3 & Hl3);
          [cbn; congruence..|cbn; lia|done|].
        rewrite E3. exists s3. cbn in *. split_and!; congruence || done. }
    rewrite E3. unfold final in Hr. rewrite Hr. cbn. by exists s3.
Qed.

(** A body under its lock. *)
Lemma yields_locked {A} key (m : M A) s r w' :
  ready s -> unlocked key s -> yields m (st_world s) r w' ->
  exists s', with_lock key m s = (r, s') /\ st_world s' = w' /\ ready s' /\ st_locks s' = st_locks s.
Proof.
  intros Hs (l & Hl & Hu) Hm. destruct (Hm (set_locks s l)) as (s1 & E & Hw & Hs1 & Hl1); [done..|].
  exists (unlock key s1). unfold with_lock, lock, mbind, M_bind. rewrite Hl. unfold deferred_unlock. rewrite E.
  split_and!; [done..|]. unfold unlock. cbn. rewrite Hl1. exact Hu.
Qed.

(** *** The common requests *)

Lemma search_cb_performs req w es ctrls h w' :
  env_search h req w = (inl (mkSearchResult es ctrls), w') -> performs (search_cb req h) w (Ret es) w'.
Proof.
  intros Hr. unfold search_cb, conn_Search. apply (performs_bind _ _ w (mkSearchResult es ctrls) w').
  - pose proof (performs_ask (env_search h req) w) as Ha. rewrite Hr in Ha. exact Ha.
  - apply (performs_ret es).
Qed.

Lemma getOne_yields c op id class want ctl w f es :
  still -> 1 <= c_MaxAttempts c -> identityFilter id = Ret f ->
  (forall h, exists ctrls, env_search h (getOne_request c class f want ctl) w
     = (inl (mkSearchResult es ctrls), w)) ->
  yields (getOne c op id class want ctl) w (one_entry op id class es) w.
Proof.
  intros Hst Hmax Hf Hsrv. unfold getOne. eapply yields_bind.
  { eapply (yields_map_error _ (lift (identityFilter id)) w (Ret f)). rewrite <- Hf. apply yields_lift. }
  eapply yields_bind.
  { eapply (yields_attempt _ w (Ret es)). apply (yields_withConn c op [] _ w (Ret es) w); try done.
    - intros. apply search_cb_steady.
    - intros h. destruct (Hsrv h) as [ctrls Hr]. by eapply search_cb_performs. }
  destruct es as [|e1 [|e2 es]]; [apply yields_lift|apply yields_ret|apply yields_lift].
Qed.

Lemma write_descriptor_yields c op dn sd w w' :
  still -> 1 <= c_MaxAttempts c ->
  (forall h, env_modify h dn [mkModification ModReplace "nTSecurityDescriptor"%go [sd]] [sdDACL] w = (None, w')) ->
  yields (write_descriptor c op dn sd) w (Ret tt) w'.
Proof.
  intros Hst Hmax Hw. unfold write_descriptor. apply (yields_withConn c op tt _ w (Ret tt) w'); try done.
  - intros. apply steady_tell.
  - intros h. pose proof (performs_tell (env_modify h dn
      [mkModification ModReplace "nTSecurityDescriptor"%go [sd]] [sdDACL]) w) as Ht. rewrite Hw in Ht. exact Ht.
Qed.
End direct.

(** ** The directory, and the steps of an update on it *)

Section steps.
Context `{Unicode} `{AdCore} `{Env} (c : core).

Lemma read_descriptor_yields op gone dn e w :
  still -> 1 <= c_MaxAttempts c ->
  (forall h, exists ctrls, env_search h (descriptor_request dn) w = (inl (mkSearchResult [e] ctrls), w)) ->
  yields (withConn c op [] (descriptor_cb gone dn)) w (Ret (First e "nTSecurityDescriptor"%go)) w.
Proof using Type.
  intros Hst Hmax Hsrv. set (sd := First e _).
  apply (yields_withConn c op [] _ w (Ret sd) w); try done; [apply descriptor_cb_steady|]. intros h.
  destruct (Hsrv h) as [ctrls Hr]. unfold descriptor_cb, conn_Search.
  apply (performs_bind _ _ w (mkSearchResult [e] ctrls) w); [|apply performs_ret].
  pose proof (performs_ask (env_search h (descriptor_request dn)) w) as Ha. rewrite Hr in Ha. exact Ha.
Qed.

Lemma move_object_yields op id dn rdn same container w w' :
  still -> 1 <= c_MaxAttempts c ->
  (forall h, env_modifydn h dn rdn true (if same : bool then [] else container) w = (None, w')) ->
  yields (move_object c op id dn rdn same container) w (Ret tt) w'.
Proof using Type.
  intros Hst Hmax Hw. unfold move_object. apply (yields_map_error _ _ w (Ret tt) w').
  apply (yields_withConn c op tt _ w (Ret tt) w'); try done; [intros; apply steady_tell|].
  intros h. pose proof (performs_tell (env_modifydn h dn rdn true (if same then [] else container)) w) as Ht.
  rewrite Hw in Ht. exact Ht.
Qed.

Lemma rename_move_stays op id dn name cont container w :
  EqualFoldDN container cont = inl true ->
  yields (rename_move c op id dn name cont name container) w (Ret tt) w.
Proof using Type.
  intros Heq. unfold rename_move, sameContainer. rewrite Heq. eapply yields_bind.
  - apply (yields_map_error _ _ w (Ret true)), yields_lift.
  - cbn. rewrite bool_decide_eq_false_2 by naive_solver. apply yields_ret.
Qed.

Lemma no_replication {A} fuel guid (m : A) w :
  repl_Wait (c_repl c) = false -> yields (with_replication c fuel guid m) w (Ret (m, None)) w.
Proof using Type.
  intros Hoff. unfold with_replication, replicate. rewrite Hoff. cbn [negb]. eapply yields_bind.
  - apply (yields_attempt _ w (Ret tt)), yields_ret.
  - apply yields_ret.
Qed.

(** An operation behind its validation and its lock. *)
Lemma validated_yields {A} (v : option error) key (m : M A) s r w' :
  v = None -> ready s -> unlocked key s -> yields m (st_world s) r w' ->
  exists s', (lift (of_nil v);; with_lock key m) s = (r, s') /\ st_world s' = w' /\
    ready s' /\ st_locks s' = st_locks s.
Proof using Type. intros -> Hs Hl Hm. by apply yields_locked. Qed.
End steps.

Section object.
Context `{Unicode} `{AdCore} `{Env} (c : core) (get : World -> Entry).

(** A lookup of [id] among the objects of [class] finds the object: in the
    directory [w], and always. *)
Definition found (class : gostring) (want : list gostring) (ctl : list Control) (id : Identity)
    (w : World) : Prop :=
  exists f, identityFilter id = Ret f /\ forall h, exists ctrls,
    env_search h (getOne_request c class f want ctl) w = (inl (mkSearchResult [get w] ctrls), w).
Definition finds (class : gostring) (want : list gostring) (ctl : list Control) (id : Identity) : Prop :=
  exists f, identityFilter id = Ret f /\ forall w h, exists ctrls,
    env_search h (getOne_request c class f want ctl) w = (inl (mkSearchResult [get w] ctrls), w).

Lemma finds_found class want ctl id w : finds class want ctl id -> found class want ctl id w.
Proof using Type. intros (f & Hf & Hsrv). exists f. split; [done|]. apply Hsrv. Qed.

(** A write to the object has the effect RFC 4511 gives it. *)
Definition stores : Prop := forall w mods, exists w', get w' = apply_mods (get w) mods /\
  forall h, env_modify h (en_DN (get w)) mods [] w = (None, w').

Context (Hst : still) (Hmax : 1 <= c_MaxAttempts c).

Lemma get_yields {A} op id class want ctl (model : Entry -> outcome A) w a :
  found class want ctl id w -> model (get w) = Ret a ->
  yields (e ← getOne c op id class want ctl; modelled op model e) w (Ret a) w.
Proof using Hst Hmax.
  intros (f & Hf & Hsrv) Ha. eapply yields_bind.
  - by apply (getOne_yields c op id class want ctl w f [get w]).
  - cbn. unfold modelled. rewrite Ha. apply (yields_map_error _ _ w (Ret a)), yields_lift.
Qed.

Lemma modify_object_yields op id dn mods w :
  stores -> dn = en_DN (get w) ->
  exists w', get w' = apply_mods (get w) mods /\ (mods = [] -> w' = w) /\
    yields (modify_object c op id dn mods) w (Ret tt) w'.
Proof using Hst Hmax.
  intros Hs ->. destruct mods as [|m mods]; [exists w; split_and!; [done..|apply yields_ret]|].
  destruct (Hs w (m :: mods)) as (w' & Hget & Hw'). exists w'. split_and!; [done..|].
  unfold modify_object. apply (yields_map_error _ _ w (Ret tt) w').
  apply (yields_withConn c op tt _ w (Ret tt) w'); try done.
  - intros. apply steady_tell.
  - intros h. pose proof (performs_tell (env_modify h (en_DN (get w)) (m :: mods) []) w) as Ht.
    rewrite Hw' in Ht. exact Ht.
Qed.

End object.

Lemma unlocked_eq `{AdCore} `{Env} key (s s' : St) :
  st_locks s' = st_locks s -> unlocked key s -> unlocked key s'.
Proof. unfold unlocked. by intros ->. Qed.
