(* ===== verification/Groups.v ===== *)
(** * group.go, membership.go: groups and their members *)
From S2P Require Export Directory.

Definition groupAttrs : list gostring :=
  ["objectGUID"; "distinguishedName"; "name"; "sAMAccountName";
   "description"; "groupType"; "objectSid"; "managedBy"]%go.
Definition memberAttrs : list gostring :=
  ["objectGUID"; "distinguishedName"; "objectClass"; "objectSid"]%go.

Section groups.
Context `{Unicode} `{AdCore} `{Env}.

(** The SID of an entry, empty when it has none. *)
Definition sid_or_empty (e : Entry) : outcome gostring :=
  match First e "objectSid"%go with
  | [] => Ret []
  | raw => SIDToString raw
  end.

Definition group_model (e : Entry) : outcome Group :=
  guid ← GUIDToString (First e "objectGUID"%go);
  container ← of_sum (ContainerOf (en_DN e));
  sid ← sid_or_empty e;
  gt ← ParseGroupType (FirstString e "groupType"%go);
  let '(scope, category) := ScopeAndCategory gt in
  Ret (mkGroup guid (en_DN e) (FirstString e "name"%go) (FirstString e "sAMAccountName"%go)
         container scope category (FirstString e "description"%go)
         (FirstString e "managedBy"%go) sid).

Definition Group_Get (c : core) (id : Identity) : M Group :=
  e ← getOne c "Group.Get"%go id "group"%go groupAttrs [];
  modelled "Group.Get"%go group_model e.

Definition Group_Search (c : core) (q : Query) : M (list Group) :=
  entries ← searchEntries c "Group.Search"%go q "group"%go groupAttrs [];
  model_all "Group.Search"%go group_model entries.

Definition group_add (spec : GroupSpec) : list Attribute :=
  let add :=
    [mkAttribute "objectClass"%go ["top"%go; "group"%go];
     mkAttribute "cn"%go [gs_Name spec];
     mkAttribute "sAMAccountName"%go [gs_SamAccountName spec];
     mkAttribute "groupType"%go [GroupTypeString (GroupTypeValue (gs_Scope spec) (gs_Category spec))]] in
  let add := appendStringAttr add "description"%go (gs_Description spec) in
  appendStringAttr add "managedBy"%go (gs_ManagedBy spec).

Definition Group_Create (c : core) (fuel : nat) (spec : GroupSpec) : M (Group * option error) :=
  let op := "Group.Create"%go in
  lift (of_nil (GroupSpec_Validate spec op true));;
  let dn := cnRDN (gs_Name spec) ++ ","%go ++ gs_Container spec in
  on_error (withConn c op tt (fun h => conn_Add h dn (group_add spec)))
    (fun err =>
       err ← annotateAlreadyExists c err dn
               (deletedFilter "group"%go (gs_Name spec) (gs_Container spec));
       fail err);;
  created ← Group_Get c (ByDN dn);
  with_replication c fuel (g_GUID created) created.

(** The scope and the category an update asks for: a half the spec does not
    mention keeps its current value. *)
Definition wanted_type (spec : GroupSpec) (current : Group) : GroupScope * GroupCategory :=
  (if decide (gs_Scope spec = GroupScopeUnset) then g_Scope current else gs_Scope spec,
   if decide (gs_Category spec = GroupCategoryUnset) then g_Category current else gs_Category spec).

Definition group_mods (spec : GroupSpec) (current : Group) : list Modification :=
  let mods :=
    if decide (gs_SamAccountName spec <> [] /\ gs_SamAccountName spec <> g_SamAccountName current)
    then [mkModification ModReplace "sAMAccountName"%go [gs_SamAccountName spec]] else [] in
  let mods := appendStringMod mods "description"%go (gs_Description spec) (g_Description current) in
  let mods := appendStringMod mods "managedBy"%go (gs_ManagedBy spec) (g_ManagedBy current) in
  let '(scope, category) := wanted_type spec current in
  if decide (scope <> g_Scope current \/ category <> g_Category current)
  then mods ++ [mkModification ModReplace "groupType"%go
                  [GroupTypeString (GroupTypeValue scope category)]]
  else mods.

Definition Group_Update (c : core) (fuel : nat) (id : Identity) (spec : GroupSpec)
    : M (Group * option error) :=
  let op := "Group.Update"%go in
  lift (of_nil (GroupSpec_Validate spec op false));;
  with_lock (IdentityArg id) (
    current ← Group_Get c id;
    modify_object c op id (g_DN current) (group_mods spec current);;
    rename_move c op id (g_DN current) (g_Name current) (g_Container current)
      (gs_Name spec) (gs_Container spec);;
    updated ← Group_Get c (ByGUID (g_GUID current));
    with_replication c fuel (g_GUID updated) updated).

Definition Group_Delete (c : core) (id : Identity) : M unit :=
  delete_object (Group_Get c) g_GUID g_DN c "Group.Delete"%go id (fun _ => mret tt).

(** ** membership.go *)

(** [classes[len(classes)-1]], the most derived class. *)
Definition member_class (e : Entry) : gostring :=
  match rev (default [] (map_get (en_Attrs e) "objectClass"%go)) with
  | class :: _ => class
  | [] => []
  end.

Definition modelMember (e : Entry) : outcome Member :=
  guid ← GUIDToString (First e "objectGUID"%go);
  sid ← sid_or_empty e;
  Ret (mkMember guid (en_DN e) (member_class e) sid).

Definition modelMembers (entries : list Entry) : outcome (list Member) := mapM_out modelMember entries.

Definition members_request (c : core) (dns : list bytes) : SearchRequest :=
  mkSearchRequest (c_dnc c) ScopeSubtree
    ("(|"%go ++ concat (map (FilterEqual "distinguishedName"%go) dns) ++ ")"%go)
    memberAttrs (len dns) [].

Definition resolveMembers (c : core) (op : gostring) (dns : list bytes) : M (list Member) :=
  match dns with
  | [] => mret []
  | _ =>
      entries ← withConn c op [] (search_cb (members_request c dns));
      lift (modelMembers entries)
  end.

Definition Members (c : core) (fuel : nat) (id : Identity) : M (list Member) :=
  let op := "Group.Members"%go in
  dn ← resolveDN c op id;
  dns ← map_error (fun err => WithIdentity err op id) (rangedValues c op dn "member"%go fuel);
  resolveMembers c op dns.

Definition MembersRecursive (c : core) (id : Identity) : M (list Member) :=
  let op := "Group.MembersRecursive"%go in
  target ← Group_Get c id;
  let filter := "(&(|(objectClass=user)(objectClass=computer))(memberOf:"%go
                ++ MatchingRuleInChain ++ ":="%go ++ EscapeFilter (g_DN target) ++ "))"%go in
  entries ← map_error (fun err => WithIdentity err op id)
              (withConn c op [] (search_cb
                 (mkSearchRequest (c_dnc c) ScopeSubtree filter memberAttrs 0 [])));
  lift (modelMembers entries).

Definition alreadySatisfied (e : adError error) (modOp : ModOp) : bool :=
  let msg := e_ServerMessage e in
  if decide (modOp = ModAdd) then
    Contains msg "ENTRY_EXISTS"%go || Contains msg "ATT_OR_VALUE_EXISTS"%go || (e_Code e =? 0x207E)
  else
    Contains msg "NO_ATTRIBUTE_OR_VAL"%go || Contains msg "NO_ATT_OR_VAL"%go || (e_Code e =? 0x2076).

(** The refusals [editMembers] takes for success. *)
Definition converged (err : error) (modOp : ModOp) : bool :=
  match errors_As as_AdError err with
  | Some e =>
      bool_decide (e_Kind e = KindConstraint \/ e_Kind e = KindAlreadyExists)
      && alreadySatisfied e modOp
  | None => false
  end.

(** The loop that resolves every member to its DN. *)
Fixpoint resolveDNs (c : core) (op : gostring) (members : list Identity) : M (list bytes) :=
  match members with
  | [] => mret []
  | m :: members =>
      dn ← resolveDN c op m;
      vals ← resolveDNs c op members;
      mret (dn :: vals)
  end.

Definition members_cb (dn : gostring) (modOp : ModOp) (vals : list bytes) (h : Handle) : M unit :=
  conn_Modify h dn [mkModification modOp "member"%go vals] [].

Definition editMembers_locked (c : core) (op : gostring) (id : Identity) (members : list Identity)
    (modOp : ModOp) : M unit :=
  target ← Group_Get c id;
  vals ← resolveDNs c op members;
  on_error (withConn c op tt (members_cb (g_DN target) modOp vals))
    (fun err => if converged err modOp then mret tt else fail (WithIdentity err op id)).

Definition editMembers (c : core) (op : gostring) (id : Identity) (members : list Identity)
    (modOp : ModOp) : M unit :=
  match members with
  | [] => mret tt
  | _ => with_lock (IdentityArg id) (editMembers_locked c op id members modOp)
  end.

Definition AddMembers (c : core) (id : Identity) (members : list Identity) : M unit :=
  editMembers c "Group.AddMembers"%go id members ModAdd.
Definition RemoveMembers (c : core) (id : Identity) (members : list Identity) : M unit :=
  editMembers c "Group.RemoveMembers"%go id members ModDelete.

Definition IsMember (c : core) (id member : Identity) : M bool :=
  let op := "Group.IsMember"%go in
  target ← Group_Get c id;
  memberDN ← resolveDN c op member;
  entries ← map_error (fun err => WithIdentity err op id)
              (withConn c op [] (search_cb
                 (mkSearchRequest (g_DN target) ScopeBase (FilterEqual "member"%go memberDN)
                    ["distinguishedName"%go] 1 [])));
  mret (0 <? len entries).
End groups.

(** ** Every operation returns *)

Section groups_lemmas.
Context `{Unicode} `{AdCore} `{Env}.

Lemma sid_or_empty_returns e : returns (sid_or_empty e).
Proof. unfold sid_or_empty. case_match; [done|]. apply SIDToString_returns. Qed.

Lemma group_model_returns e : returns (group_model e).
Proof.
  unfold group_model. apply returns_bind; [apply GUIDToString_returns|intros ? _].
  apply returns_bind; [by destruct (ContainerOf _)|intros ? _].
  apply returns_bind; [apply sid_or_empty_returns|intros ? _].
  apply returns_bind; [apply ParseGroupType_returns|intros gt _]. by destruct (ScopeAndCategory gt).
Qed.

Lemma modelMembers_returns es : returns (modelMembers es).
Proof.
  apply mapM_out_returns, Forall_true. intros e. unfold modelMember.
  apply returns_bind; [apply GUIDToString_returns|intros ? _].
  by apply returns_bind; [apply sid_or_empty_returns|].
Qed.
Hint Resolve group_model_returns modelMembers_returns modelled_quiet model_all_quiet : quiet.

Lemma Group_Get_quiet c id : quiet (Group_Get c id).
Proof. unfold Group_Get. solve_quiet. Qed.
Lemma Group_Search_quiet c q : quiet (Group_Search c q).
Proof. unfold Group_Search. solve_quiet. Qed.
Hint Resolve Group_Get_quiet annotateAlreadyExists_quiet : quiet.

Lemma Group_Create_quiet c fuel spec :
  (forall guid, quiet (replicate c fuel guid)) -> quiet (Group_Create c fuel spec).
Proof.
  intros Hrep. unfold Group_Create, with_replication. solve_quiet.
Qed.

Lemma runs_ret {A} P (a : A) : runs P (mret a).
Proof. intros s Hs _. by apply quiet_ret. Qed.

(** A validation in front of a locked body. *)
Lemma runs_validate {A} P (v : option error) (m : M A) :
  runs P m -> runs P (lift (of_nil v);; m).
Proof. intros Hm. destruct v as [e|]; [intros s Hs _; by apply (quiet_fail e)|exact Hm]. Qed.

Lemma Group_Update_runs c fuel id spec :
  (forall guid, quiet (replicate c fuel guid)) ->
  runs (unlocked (IdentityArg id)) (Group_Update c fuel id spec).
Proof.
  intros Hrep. unfold Group_Update. apply runs_validate, runs_with_lock.
  unfold with_replication. solve_quiet.
Qed.

Lemma Group_Delete_runs c id : runs (unlocked (IdentityArg id)) (Group_Delete c id).
Proof. apply delete_object_runs; intros; solve_quiet. Qed.

Lemma resolveDNs_quiet c op l : quiet (resolveDNs c op l).
Proof. induction l; cbn [resolveDNs]; solve_quiet. Qed.
Hint Resolve resolveDNs_quiet : quiet.

Lemma members_cb_steady dn o vals h : steady (members_cb dn o vals h).
Proof. unfold members_cb. solve_quiet. Qed.
Hint Resolve members_cb_steady : quiet.

Lemma editMembers_runs c op id l o : runs (unlocked (IdentityArg id)) (editMembers c op id l o).
Proof.
  unfold editMembers. destruct l; [apply runs_ret|]. apply runs_with_lock.
  unfold editMembers_locked. solve_quiet.
Qed.

Lemma resolveMembers_quiet c op dns : quiet (resolveMembers c op dns).
Proof. unfold resolveMembers. solve_quiet. Qed.
Lemma MembersRecursive_quiet c id : quiet (MembersRecursive c id).
Proof. unfold MembersRecursive. solve_quiet. Qed.
Lemma IsMember_quiet c id m : quiet (IsMember c id m).
Proof. unfold IsMember. solve_quiet. Qed.
End groups_lemmas.
(** ** The delta of an update *)

Section group_delta.
Context `{Unicode} `{AdCore} `{Env}.

(** The group an update is meant to leave: what the spec names, the rest as it
    was. *)
Definition merged_group (spec : GroupSpec) (g : Group) : Group :=
  let '(scope, category) := wanted_type spec g in
  mkGroup (g_GUID g) (g_DN g) (g_Name g)
    (match gs_SamAccountName spec with [] => g_SamAccountName g | sam => sam end)
    (g_Container g) (normal_scope scope) (normal_category category)
    (default (g_Description g) (gs_Description spec))
    (default (g_ManagedBy g) (gs_ManagedBy spec)) (g_SID g).

(** The modifications of an update, attribute by attribute. *)
Definition group_changes (spec : GroupSpec) (g : Group) : delta :=
  [("sAMAccountName"%go,
      if decide (gs_SamAccountName spec <> [] /\ gs_SamAccountName spec <> g_SamAccountName g)
      then [mkModification ModReplace "sAMAccountName"%go [gs_SamAccountName spec]] else []);
   ("description"%go,
      appendStringMod [] "description"%go (gs_Description spec) (g_Description g));
   ("managedBy"%go, appendStringMod [] "managedBy"%go (gs_ManagedBy spec) (g_ManagedBy g));
   ("groupType"%go,
      if decide (fst (wanted_type spec g) <> g_Scope g \/ snd (wanted_type spec g) <> g_Category g)
      then [mkModification ModReplace "groupType"%go
              [GroupTypeString (GroupTypeValue (fst (wanted_type spec g)) (snd (wanted_type spec g)))]]
      else [])].

Lemma group_mods_changes spec g : group_mods spec g = mods_of (group_changes spec g).
Proof.
  unfold group_mods, mods_of, group_changes. cbn [map snd concat].
  rewrite (appendStringMod_app (appendStringMod _ _ _ _)),
    (appendStringMod_app (if decide _ then _ else _)).
  destruct (wanted_type spec g) as [scope category]. cbn [fst snd].
  case_decide; by rewrite ?app_nil_r, <- ?app_assoc.
Qed.

Lemma group_changes_wf spec g : wf_delta (group_changes spec g).
Proof. solve_wf_delta. Qed.

(** The groupType after the update decodes to the wanted halves. *)
Lemma written_group_type spec g text gt :
  ParseGroupType text = Ret gt -> ScopeAndCategory gt = (g_Scope g, g_Category g) ->
  exists gt', ParseGroupType (default text (written "groupType"%go (group_mods spec g))) = Ret gt' /\
    ScopeAndCategory gt' =
      (normal_scope (fst (wanted_type spec g)), normal_category (snd (wanted_type spec g))).
Proof.
  intros Hp Hgt. rewrite group_mods_changes.
  rewrite (written_in _ _ _ _ (group_changes_wf spec g) (or_intror (or_intror (or_intror (or_introl eq_refl))))).
  destruct (wanted_type spec g) as [scope category]. cbn [fst snd].
  destruct (decide (_ \/ _)) as [_|Hn].
  - rewrite written_replace. eexists. split; [apply GroupTypeString_parse, GroupTypeValue_range|].
    by destruct scope, category.
  - exists gt. split; [done|]. rewrite Hgt.
    assert (scope = g_Scope g /\ category = g_Category g) as [-> ->].
    { destruct (decide (scope = g_Scope g)), (decide (category = g_Category g)); naive_solver. }
    revert Hgt. unfold ScopeAndCategory. intros [= <- <-].
    repeat (case_match; try done).
Qed.
End group_delta.

(** A group update writes exactly the delta.  Take any entry that models
    to [g], and apply the modifications [Update] sends (as RFC 4511 says a
    directory does): the result models to [g] with precisely the fields the
    spec names replaced.  In particular the scope survives a change of
    category and the other way round, although both share one word. *)
Theorem group_update_delta `{Unicode} `{AdCore} (spec : GroupSpec) (e : Entry) (g : Group) :
  (forall a, In a groupAttrs -> spelled a e) -> group_model e = Ret g ->
  group_model (apply_mods e (group_mods spec g)) = Ret (merged_group spec g).
Proof.
  intros Hsp Hg. pose proof (group_changes_wf spec g) as Hwf.
  assert (forall attr, In attr groupAttrs ->
    First (apply_mods e (group_mods spec g)) attr
    = default (First e attr) (written attr (group_mods spec g))) as HF.
  { intros attr Hin. rewrite group_mods_changes. apply First_delta; [done| |by apply Hsp].
    cbn in Hin. repeat destruct Hin as [<-|Hin]; try done; solve_other_spelling. }
  assert (First e "sAMAccountName"%go = g_SamAccountName g /\
          First e "description"%go = g_Description g /\
          First e "managedBy"%go = g_ManagedBy g /\
          exists gt, ParseGroupType (First e "groupType"%go) = Ret gt /\
                     ScopeAndCategory gt = (g_Scope g, g_Category g)) as (E1 & E2 & E3 & gt & Hgt & Hsc).
  { revert Hg. unfold group_model, FirstString. intros Hg. inv_ret Hg.
    destruct (ScopeAndCategory _) as [sc cat] eqn:Hsc. injection Hg as <-. naive_solver. }
  destruct (written_group_type spec g _ _ Hgt Hsc) as (gt' & Hgt' & Hsc').
  revert Hg. unfold group_model, FirstString, sid_or_empty, merged_group. rewrite en_DN_apply_mods.
  rewrite !HF by (cbn; tauto). rewrite group_mods_changes in *.
  rewrite (written_absent _ _ "objectGUID"%go Hwf), (written_absent _ _ "objectSid"%go Hwf),
    (written_absent _ _ "name"%go Hwf) by (cbn; intuition discriminate).
  rewrite (written_in _ _ "sAMAccountName"%go _ Hwf (or_introl eq_refl)).
  rewrite (written_in _ _ "description"%go _ Hwf (or_intror (or_introl eq_refl))).
  rewrite (written_in _ _ "managedBy"%go _ Hwf (or_intror (or_intror (or_introl eq_refl)))).
  rewrite E1, E2, E3, written_name, !written_string, Hgt, Hgt'.
  destruct (wanted_type spec g) as [scope category]. cbn [fst snd default from_option] in *. unfold id.
  intros Hg. inv_ret Hg. rewrite Ha, Ha0, Ha1. cbn [mbind outcome_bind]. rewrite Hsc'.
  destruct (ScopeAndCategory _). injection Hg as <-. by destruct (gs_SamAccountName spec).
Qed.

Definition sample_group_entry : Entry :=
  mkEntry "CN=g,DC=example"%go
    [("objectGUID"%go, [sample_guid]); ("name"%go, ["g"%go]); ("sAMAccountName"%go, ["g"%go]);
     ("groupType"%go, ["-2147483646"%go]); ("description"%go, ["old"%go])].
(** A change of category and description only. *)
Definition sample_group_spec : GroupSpec :=
  mkGroupSpec "g"%go [] "DC=example"%go GroupScopeUnset GroupCategoryDistribution
    (Some []) None.

Lemma group_update_delta_witness :
  exists g, @group_model ascii_unicode sample_adcore sample_group_entry = Ret g /\
    g_Scope g = GroupScopeGlobal /\ g_Category g = GroupCategorySecurity /\
    @group_model ascii_unicode sample_adcore
      (apply_mods sample_group_entry (group_mods sample_group_spec g))
    = Ret (merged_group sample_group_spec g) /\
    g_Scope (merged_group sample_group_spec g) = GroupScopeGlobal /\
    g_Category (merged_group sample_group_spec g) = GroupCategoryDistribution.
Proof.
  eexists. split; [reflexivity|]. split; [reflexivity|]. split; [reflexivity|].
  split; [|split; reflexivity].
  apply (@group_update_delta ascii_unicode sample_adcore); [|reflexivity].
  intros a Ha k vs Hin Hf. cbn in Ha, Hin.
  repeat destruct Hin as [[= <- <-]|Hin]; try done; repeat destruct Ha as [<-|Ha]; try done;
    vm_compute in Hf; discriminate.
Defined.

(** ** Members *)

Section membership.
Context `{Unicode} `{AdCore} `{Env}.

Lemma resolveDNs_Ret c op members s vals :
  fst (resolveDNs c op members s) = Ret vals ->
  Forall2 (fun m dn => exists s1, fst (resolveDN c op m s1) = Ret dn) members vals.
Proof.
  revert s vals. induction members as [|m members IH]; intros s vals; cbn [resolveDNs].
  { intros [= <-]. constructor. }
  unfold mbind, M_bind. destruct (resolveDN c op m s) as [[dn|e| | |] s1] eqn:E; try done.
  specialize (IH s1). destruct (resolveDNs c op members s1) as [[l|e| | |] s2]; try done.
  intros [= <-]. constructor; [|by apply IH]. exists s. by rewrite E.
Qed.

(** The identity names one object of the directory, [dn]: by its DN, or because
    its lookup answers with one entry, of that DN. *)
Definition resolves_to (c : core) (id : Identity) (dn : gostring) : Prop :=
  (IdentityForm id = "dn"%go /\ IdentityArg id = dn) \/
  (IdentityForm id <> "dn"%go /\ exists f e, identityFilter id = Ret f /\ en_DN e = dn /\
     forall h w, exists ctrls,
       fst (env_search h (getOne_request c "*"%go f ["distinguishedName"%go] []) w)
       = inl (mkSearchResult [e] ctrls)).

Lemma resolveDN_up c op id dn s :
  up -> ready s -> 1 <= c_MaxAttempts c -> resolves_to c id dn ->
  exists s', resolveDN c op id s = (Ret dn, s') /\ ready s'.
Proof.
  intros Hup Hs Hmax [[Hf Ha]|(Hf & f & e & Hid & Hdn & Hsrv)]; unfold resolveDN.
  - rewrite decide_True, Ha by done. by exists s.
  - rewrite decide_False by done.
    destruct (getOne_up c op id "*"%go ["distinguishedName"%go] [] s f [e]) as (s' & Hg & Hs'); [done..|].
    exists s'. unfold mbind, M_bind. rewrite Hg. cbn. by rewrite Hdn.
Qed.

(** Against a reachable directory that pages the values as it likes, [Members]
    ends, and models the answer to the one search that names them all. *)
Lemma Members_answer c id dn vs es fuel s :
  up -> ready s -> 1 <= c_MaxAttempts c -> len vs < 2 ^ 63 -> (length vs < fuel)%nat ->
  resolves_to c id dn -> serves dn "member"%go vs ->
  (forall h w, exists ctrls,
     fst (env_search h (members_request c vs) w) = inl (mkSearchResult es ctrls)) ->
  fst (Members c fuel id s) = match vs with [] => Ret [] | _ => modelMembers es end.
Proof.
  intros Hup Hs Hmax Hvs Hfuel Hid Hsrv Hes. unfold Members.
  destruct (resolveDN_up c "Group.Members"%go id dn s) as (s0 & Hr0 & Hs0); [done..|].
  unfold map_error, on_error, attempt, mbind, M_bind. rewrite Hr0.
  destruct (rangedValues_from_complete c "Group.Members"%go dn "member"%go vs fuel 0 s0)
    as (s1 & Hr & Hs1); try done; [pose proof (len_nonneg vs); lia|cbn; lia|].
  unfold rangedValues. change (take (Z.to_nat 0) vs) with (@nil bytes) in Hr. rewrite Hr. cbn [mret M_ret].
  unfold resolveMembers. destruct vs as [|v vs]; [done|].
  destruct (withConn_up c "Group.Members"%go [] (search_cb (members_request c (v :: vs)))
    (fun a => a = es) s1) as (a & s2 & Hw & -> & _); try done.
  { intros. apply search_cb_steady. }
  { by apply search_cb_up. }
  unfold mbind, M_bind. rewrite Hw. by unfold lift.
Qed.

Lemma modelMembers_Ret es ms :
  modelMembers es = Ret ms -> Forall2 (fun e m => modelMember e = Ret m) es ms /\ map m_DN ms = map en_DN es.
Proof.
  intros Hm%mapM_out_Ret. split; [done|]. induction Hm as [|e m es ms He _ IH]; [done|].
  cbn. rewrite IH. f_equal. unfold modelMember in He. inv_ret He. by injection He as <-.
Qed.

(** *** The journal of an edit *)

Definition members_write (dn : gostring) (modOp : ModOp) (vals : list bytes) : write :=
  WModify dn [mkModification modOp "member"%go vals] [].

(** What a refusal must say for the state it was asked for to hold already:
    the directory's own name or code for a value that is there, or is not. *)
Definition says_already (modOp : ModOp) (err : error) : Prop := exists e,
  errors_As as_AdError err = Some e /\ (e_Kind e = KindConstraint \/ e_Kind e = KindAlreadyExists) /\
  match modOp with
  | ModAdd => Contains (e_ServerMessage e) "ENTRY_EXISTS"%go = true \/
              Contains (e_ServerMessage e) "ATT_OR_VALUE_EXISTS"%go = true \/ e_Code e = 0x207E
  | _ => Contains (e_ServerMessage e) "NO_ATTRIBUTE_OR_VAL"%go = true \/
         Contains (e_ServerMessage e) "NO_ATT_OR_VAL"%go = true \/ e_Code e = 0x2076
  end.

Lemma converged_says err modOp : converged err modOp = true -> says_already modOp err.
Proof.
  unfold converged, says_already. destruct (errors_As as_AdError err) as [e|]; [|done].
  intros [Hk%bool_decide_eq_true Ha]%andb_prop. exists e. split_and!; [done..|]. revert Ha.
  unfold alreadySatisfied. case_decide as Hm; [subst|destruct modOp; try done];
    (intros [[?|?]%orb_prop|?%Z.eqb_eq]%orb_prop; auto).
Qed.

Section edit_log.
Context (log : World -> list (event Handle)) (Hlog : journal log) (c : core) (op : gostring)
  (id : Identity) (modOp : ModOp).

Definition edited (members : list Identity) (l : list (event Handle)) : Prop := exists target vals,
  let x := members_write (g_DN target) modOp vals in
  (exists s1, fst (Group_Get c id s1) = Ret target) /\
  Forall2 (fun m dn => exists s1, fst (resolveDN c op m s1) = Ret dn) members vals /\
  (accepted l = [x] \/
   (accepted l = [] /\ exists err, says_already modOp err /\
      ((exists h raw, In (WriteAnswered h x (Some raw)) l /\ err = Classify op raw) \/
       unreached op err))).

Lemma edited_after members l1 l2 target vals :
  let x := members_write (g_DN target) modOp vals in
  accepted l1 = [] -> (exists s1, fst (Group_Get c id s1) = Ret target) ->
  Forall2 (fun m dn => exists s1, fst (resolveDN c op m s1) = Ret dn) members vals ->
  (accepted l2 = [x] \/ exists e, says_already modOp e /\ write_failed op x (Some e) l2) ->
  edited members (l1 ++ l2).
Proof using Type.
  intros x Hl1 Ht Hv H2. exists target, vals. split_and!; [done..|]. cbv zeta. fold x.
  rewrite accepted_app, Hl1. destruct H2 as [H2|(e & He & Hn & Hs)]; [by left|right].
  split; [done|]. exists e. split; [done|]. destruct Hs as [(h & raw & Hin & ->)|Hs]; [left|by right].
  exists h, raw. split; [|done]. apply in_app_iff. by right.
Qed.

Lemma resolveDNs_reads members : respects (silent log) (resolveDNs c op members).
Proof using H Hlog.
  pose proof (silent_reading log Hlog) as HR. pose proof (silent_preorder log) as HP.
  induction members as [|m members IH]; cbn [resolveDNs]; solve_respects.
Qed.

Lemma logs_editMembers members :
  1 <= c_MaxAttempts c -> members <> [] ->
  logs log (editMembers c op id members modOp) (fun _ l => edited members l) (fun _ _ => True).
Proof using Hlog.
  intros Hmax Hne. pose proof (silent_reading log Hlog) as HR. pose proof (silent_preorder log) as HP.
  unfold editMembers. destruct members as [|m members]; [done|].
  apply logs_with_lock; [|done]. unfold editMembers_locked.
  apply logs_silent_bind; [unfold Group_Get, modelled; solve_respects|done..|]. intros target l1 s1 Hl1 Ht.
  apply logs_silent_bind; [apply resolveDNs_reads|done..|]. intros vals l2 s2 Hl2 Hv.
  assert (accepted (l1 ++ l2) = []) as Hl12 by (by rewrite accepted_app, Hl1, Hl2).
  apply resolveDNs_Ret in Hv.
  eapply logs_on_error;
    [apply (logs_withConn_write log Hlog c op (members_write (g_DN target) modOp vals) Hmax)|..]; cbn beta.
  - intros _ l Hl. rewrite app_assoc. apply (edited_after _ _ _ target vals); [done|by exists s1|done|by left].
  - done.
  - intros e l Hl. destruct (converged e modOp) eqn:Ec; [|by apply logs_lift]. apply logs_ret.
    rewrite app_nil_r, app_assoc. apply (edited_after _ _ _ target vals); [done|by exists s1|done|].
    right. exists e. split; [by apply converged_says|done].
Qed.
End edit_log.
End membership.

(** C34: direct membership is read completely.  Against a reachable directory
    that pages the group's [member] values as it likes, and finds one object
    for each of them, [Members] of an identity of any form that names the
    group terminates within one page more than there are values: its result is
    the model of those objects, in the order of the answer, so a list it
    returns names every value once and nothing else, whatever their number. *)
Theorem Members_exact `{Unicode} `{AdCore} `{Env} (c : core) (id : Identity) (dn : gostring)
    (vs : list bytes) (es : list Entry) (fuel : nat) (s : St) :
  up -> ready s -> 1 <= c_MaxAttempts c -> len vs < 2 ^ 63 -> (length vs < fuel)%nat ->
  resolves_to c id dn -> serves dn "member"%go vs ->
  (forall h w, exists ctrls,
     fst (env_search h (members_request c vs) w) = inl (mkSearchResult es ctrls)) ->
  map en_DN es ≡ₚ vs ->
  let result := fst (Members c fuel id s) in
  result = modelMembers es /\
  forall ms, result = Ret ms ->
    map m_DN ms ≡ₚ vs /\ Forall2 (fun e m => modelMember e = Ret m) es ms.
Proof.
  intros Hup Hs Hmax Hvs Hfuel Hid Hsrv Hes Hall result.
  assert (result = modelMembers es) as Hr.
  { subst result. rewrite (Members_answer c id dn vs es fuel s) by done. destruct vs; [|done].
    symmetry in Hall. apply Permutation_nil_l in Hall. by destruct es. }
  split; [done|]. intros ms Hms. rewrite Hr in Hms. apply modelMembers_Ret in Hms as [Hms Hdn].
  by rewrite Hdn.
Qed.

(** C35: what a membership edit that succeeds has done.  Every member was
    resolved to its DN; and either one write was accepted, the Modify of the
    group that was read with all of them, or none was, and the error that
    stopped it says, with AD's own diagnostic (ENTRY_EXISTS,
    ATT_OR_VALUE_EXISTS or ERROR_DS_ATT_ALREADY_EXISTS for an add,
    NO_ATTRIBUTE_OR_VAL, NO_ATT_OR_VAL or ERROR_DS_ATT_IS_NOT_ON_OBJ for a
    removal) on a constraint or already-exists failure, that the wanted state
    already holds: it is the directory's classified answer to that very
    Modify, or it was met while connecting. *)
Theorem editMembers_success `{Unicode} `{AdCore} `{Env} (log : World -> list (event Handle))
    (c : core) (op : gostring) (id : Identity) (members : list Identity) (modOp : ModOp) (s s' : St) :
  journal log -> 1 <= c_MaxAttempts c -> members <> [] ->
  editMembers c op id members modOp s = (Ret tt, s') ->
  exists l target vals, let x := WModify (g_DN target) [mkModification modOp "member"%go vals] [] in
    log (st_world s') = log (st_world s) ++ l /\
    (exists s1, fst (Group_Get c id s1) = Ret target) /\
    Forall2 (fun m dn => exists s1, fst (resolveDN c op m s1) = Ret dn) members vals /\
    (accepted l = [x] \/
     (accepted l = [] /\ exists err, says_already modOp err /\
        ((exists h raw, In (WriteAnswered h x (Some raw)) l /\ err = Classify op raw) \/
         unreached op err))).
Proof.
  intros Hlog Hmax Hne Hr. destruct (logs_editMembers log Hlog c op id modOp members Hmax Hne s) as (l & Hl & Ho).
  rewrite Hr in Hl, Ho. destruct Ho as (target & vals & Ht & Hv & Hx). by exists l, target, vals.
Qed.

(** *** Witnesses and two divergences *)

Definition member_entry : Entry := mkEntry "CN=a,DC=example"%go [("objectGUID"%go, [sample_guid])].
Definition answer (es : list Entry) : SearchResult + error := inl (mkSearchResult es []).
Definition group_id : sample_identity := SampleDN "CN=g,DC=example"%go.

(** A directory with one group of two members: a base search of a page answers
    the values, a lookup the group, and the search for the members [es]. *)
Definition members_env (es : list Entry) : Env := {|
  World := unit;
  Handle := nat;
  env_dial w := (inl 0%nat, w);
  env_bind h w := (None, w);
  env_search h req w :=
    (inl (mkSearchResult
       (match sr_Scope req with
        | ScopeBase => [mkEntry [] [(hd [] (sr_Attributes req),
            if decide (sr_Attributes req = ["member;range=0-*"%go]) then two_values
            else if decide (sr_Attributes req = ["member;range=1-*"%go]) then ["CN=b"%go] else [])]]
        | _ => if decide (sr_Attributes req = memberAttrs) then es
               else [mkEntry "CN=g,DC=example"%go []]
        end) []), w);
  env_add h dn attrs w := (None, w);
  env_modify h dn mods ctrls w := (None, w);
  env_modifydn h dn rdn del sup w := (None, w);
  env_delete h dn w := (None, w);
  env_close h w := (None, w);
  env_select w := (None, w);
  env_backoff n w := (None, w);
  env_dial_other host w := (inl 0%nat, w);
  env_now w := (0, w);
  env_wait d w := (None, w);
  Mutex := unit;
  mutex_lock key l := Some l;
  mutex_unlock key l := l
|}.
Definition members_state es : @St (members_env es) := @mkSt (members_env es) tt (NewPool 1) tt None.

Lemma members_serves es : @serves ascii_unicode (members_env es) "CN=g,DC=example"%go "member"%go two_values.
Proof.
  intros h w lo Hlo. unfold len in Hlo. cbn in Hlo.
  assert (lo = 0 \/ lo = 1 \/ lo = 2) as [->|[->| ->]] by lia; eexists _, _, _; (split; [|reflexivity]).
  - by apply (@page_last ascii_unicode "member"%go two_values 0 [] "member"%go).
  - by apply (@page_last ascii_unicode "member"%go two_values 1 [] "member"%go).
  - by apply (@page_last ascii_unicode "member"%go two_values 2 [] "member"%go).
Qed.

Lemma members_up es : @up (members_env es).
Proof. constructor; [done| |done]. intros w. by exists 0%nat. Qed.

(** The group is named by its account name, and the directory answers for both
    values, in another order. *)
Definition both_members : list Entry :=
  map (fun dn => mkEntry dn [("objectGUID"%go, [sample_guid])]) (rev two_values).

Lemma Members_exact_witness :
  exists ms, fst (@Members ascii_unicode sample_adcore (members_env both_members) sample_core 3
                    (SampleSAM "g"%go) (members_state both_members)) = Ret ms /\
    map m_DN ms ≡ₚ two_values.
Proof.
  destruct (@modelMembers ascii_unicode both_members) as [ms| | | |] eqn:Em; try (vm_compute in Em; discriminate Em).
  destruct (@Members_exact ascii_unicode sample_adcore (members_env both_members) sample_core
    (SampleSAM "g"%go) "CN=g,DC=example"%go two_values both_members 3 (members_state both_members))
    as [Hr Hms].
  - exact (members_up both_members).
  - split; [exact (le_n 1)|reflexivity].
  - discriminate.
  - reflexivity.
  - exact (le_n 3).
  - right. split; [discriminate|]. eexists _, (mkEntry "CN=g,DC=example"%go []).
    split; [reflexivity|]. split; [reflexivity|]. intros h w. by exists [].
  - exact (members_serves both_members).
  - intros h w. by exists [].
  - unfold both_members, two_values. cbn. apply Permutation_swap.
  - exists ms. split; [rewrite Hr; exact Em|]. apply (Hms ms). rewrite Hr. exact Em.
Defined.

(** When the directory does not find an object for every value (a member in
    another naming context, say), the list returned is short: of these two
    members one is missing, and there is no error. *)
Lemma short_answer_is_returned :
  exists ms, fst (@Members ascii_unicode sample_adcore (members_env [member_entry]) sample_core 3 group_id
                    (members_state [member_entry])) = Ret ms /\
    length ms = 1%nat /\ length two_values = 2%nat.
Proof.
  eexists [mkMember _ _ _ _]. split; [|split; reflexivity].
  refine (@Members_answer ascii_unicode sample_adcore (members_env [member_entry]) sample_core group_id
            "CN=g,DC=example"%go two_values [member_entry] 3 (members_state [member_entry]) _ _ _ _ _ _ _ _).
  - exact (members_up [member_entry]).
  - split; [exact (le_n 1)|reflexivity].
  - done.
  - reflexivity.
  - exact (le_n 3).
  - left. split; reflexivity.
  - exact (members_serves [member_entry]).
  - intros h w. by exists [].
Qed.

(** A Modify is all or nothing (RFC 4511, 4.6), and adding a value that is
    there refuses it as a whole.  [AddMembers] with one member that is in the
    group and one that is not then reports success although nothing was
    added. *)
Definition value_exists : error :=
  RawError 20 "00000562: UpdErr: DSID-031A11E2, problem 6005 (ENTRY_EXISTS), data 0"%go None.
Definition add_state : @St script_env :=
  script_state [answer [sample_group_entry]] [Some value_exists].
Definition two_members : list sample_identity :=
  [SampleDN "CN=in,DC=example"%go; SampleDN "CN=out,DC=example"%go].

Lemma refused_add_reported_as_success :
  let '(r, s) := @AddMembers ascii_unicode sample_adcore script_env sample_core group_id two_members
                   add_state in
  r = Ret tt /\ w_replies (st_world s) = [] /\ w_writes (st_world s) = 0%nat.
Proof. vm_compute. done. Qed.

(** The directory refuses the add because the member is there: nothing is
    written, and the journal has the refusal. *)
Definition edit_env : Env := with_journal script_env.
Definition edit_state : @St edit_env :=
  @mkSt edit_env (mkScript [answer [sample_group_entry]] [Some value_exists] 0 0 [], []) (NewPool 1) [] None.

Lemma editMembers_success_witness :
  exists l, snd (st_world (snd (@editMembers ascii_unicode sample_adcore edit_env sample_core
                  "Group.AddMembers"%go group_id two_members ModAdd edit_state))) = l /\
    accepted l = [] /\ exists err, says_already ModAdd err.
Proof.
  set (run := @editMembers ascii_unicode sample_adcore edit_env sample_core "Group.AddMembers"%go
                group_id two_members ModAdd edit_state).
  assert (fst run = Ret tt) as Hr by (vm_compute; reflexivity).
  assert (accepted (snd (st_world (snd run))) = []) as Hacc by (vm_compute; reflexivity).
  destruct (@editMembers_success ascii_unicode sample_adcore edit_env snd sample_core "Group.AddMembers"%go
    group_id two_members ModAdd edit_state (snd run)) as (l & target & vals & Hl & _ & _ & Ho).
  - exact (with_journal_journal script_env).
  - discriminate.
  - discriminate.
  - fold run. rewrite <- Hr. apply surjective_pairing.
  - cbn [st_world edit_state snd app] in Hl. rewrite Hl in Hacc. exists l. split; [exact Hl|].
    split; [exact Hacc|]. destruct Ho as [Hx|(_ & err & He & _)]; [|exists err; exact He].
    discriminate (eq_trans (eq_sym Hacc) Hx).
Defined.
