(* ===== verification/OUs.v ===== *)
(** * ou.go: organizational units and their accidental-deletion protection *)
From S2P Require Export SecDesc Groups.

Definition ouAttrs : list gostring :=
  ["objectGUID"; "distinguishedName"; "name"; "description"; "nTSecurityDescriptor"]%go.

Section ous.
Context `{Unicode} `{AdCore} `{Env}.

Definition ouRDN (name : gostring) : gostring := "OU="%go ++ EscapeValue name.

Definition ou_model (e : Entry) : outcome OU :=
  guid ← GUIDToString (First e "objectGUID"%go);
  container ← of_sum (ContainerOf (en_DN e));
  protected ← match First e "nTSecurityDescriptor"%go with
              | [] => Ret false
              | sd => IsProtected sd
              end;
  Ret (mkOU guid (en_DN e) (FirstString e "name"%go) container
         (FirstString e "description"%go) protected).

Definition protection_gone : gostring := "the object disappeared while setting protection"%go.
Definition protection_empty : gostring :=
  "the directory returned no nTSecurityDescriptor; the account cannot read the object's security descriptor, so protection cannot be managed"%go.

Definition setProtection (c : core) (op dn : gostring) (want : bool) : M unit :=
  edit_descriptor c op dn protection_gone protection_empty (fun sd => SetProtected sd want).

Definition OU_Get (c : core) (id : Identity) : M OU :=
  e ← getOne c "OU.Get"%go id "organizationalUnit"%go ouAttrs [sdDACL];
  modelled "OU.Get"%go ou_model e.

Definition OU_Search (c : core) (q : Query) : M (list OU) :=
  entries ← searchEntries c "OU.Search"%go q "organizationalUnit"%go ouAttrs [sdDACL];
  model_all "OU.Search"%go ou_model entries.

Definition ou_validate (op : gostring) (spec : OUSpec) : outcome unit :=
  of_nil (ValidateName op (os_Name spec));;
  of_nil (ValidateContainer op (os_Container spec)).

Definition ou_add (spec : OUSpec) : list Attribute :=
  appendStringAttr
    [mkAttribute "objectClass"%go ["top"%go; "organizationalUnit"%go];
     mkAttribute "ou"%go [os_Name spec]]
    "description"%go (os_Description spec).

Definition OU_Create (c : core) (fuel : nat) (spec : OUSpec) : M (OU * option error) :=
  let op := "OU.Create"%go in
  lift (ou_validate op spec);;
  let dn := ouRDN (os_Name spec) ++ ","%go ++ os_Container spec in
  on_error (withConn c op tt (fun h => conn_Add h dn (ou_add spec)))
    (fun err =>
       err ← annotateAlreadyExists c err dn
               (deletedFilter "organizationalUnit"%go (os_Name spec) (os_Container spec));
       fail err);;
  (if decide (os_Protected spec = Some true) then setProtection c op dn true else mret tt);;
  created ← OU_Get c (ByDN dn);
  with_replication c fuel (o_GUID created) created.

Definition wantProtected (spec : OUSpec) (current : OU) : bool :=
  default (o_Protected current) (os_Protected spec).

(** The move of [Update]: protection is lifted first. *)
Definition ou_move (c : core) (op : gostring) (id : Identity) (spec : OUSpec) (current : OU)
    : M unit :=
  same ← sameContainer op (os_Container spec) (o_Container current);
  let moving := bool_decide (os_Name spec <> o_Name current) || negb same in
  (if moving && o_Protected current
   then map_error (fun err => WithIdentity err op id) (setProtection c op (o_DN current) false)
   else mret tt);;
  if moving : bool
  then move_object c op id (o_DN current) (ouRDN (os_Name spec)) same (os_Container spec)
  else mret tt.

Definition OU_Update_locked (c : core) (fuel : nat) (id : Identity) (spec : OUSpec)
    : M (OU * option error) :=
  let op := "OU.Update"%go in
  current ← OU_Get c id;
  modify_object c op id (o_DN current)
    (appendStringMod [] "description"%go (os_Description spec) (o_Description current));;
  ou_move c op id spec current;;
  updated ← OU_Get c (ByGUID (o_GUID current));
  updated ←
    (if decide (o_Protected updated <> wantProtected spec current) then
       map_error (fun err => WithIdentity err op id)
         (setProtection c op (o_DN updated) (wantProtected spec current));;
       OU_Get c (ByGUID (o_GUID current))
     else mret updated);
  with_replication c fuel (o_GUID updated) updated.

Definition OU_Update (c : core) (fuel : nat) (id : Identity) (spec : OUSpec)
    : M (OU * option error) :=
  lift (ou_validate "OU.Update"%go spec);;
  with_lock (IdentityArg id) (OU_Update_locked c fuel id spec).

(** The probe for children: the size limit of one is enough. *)
Definition children_request (dn : gostring) : SearchRequest :=
  mkSearchRequest dn ScopeOneLevel "(objectClass=*)"%go ["distinguishedName"%go] 1 [].

Definition children_cb (dn : gostring) (h : Handle) : M Z :=
  res ← conn_Search h (children_request dn);
  mret (len (res_Entries res)).

Definition count_children (c : core) (op : gostring) (id : Identity) (dn : gostring) : M Z :=
  on_error (withConn c op 0 (children_cb dn))
    (fun err => if is_kind KindTooManyResults err then mret 1 else fail (WithIdentity err op id)).

(** What [Delete] does between its first read and the delete itself. *)
Definition ou_before_delete (c : core) (op : gostring) (id : Identity) (opts : DeleteOptions)
    (current : OU) : M unit :=
  (if do_Unprotect opts && o_Protected current
   then map_error (fun err => WithIdentity err op id) (setProtection c op (o_DN current) false)
   else mret tt);;
  children ← count_children c op id (o_DN current);
  if 0 <? children
  then fail (adErr_full KindConstraint op (Identity_String id) (o_DN current)
         (Errorf "organizational unit has %d child object(s); delete or move them first (recursive deletion is deliberately not offered)"%go
            [FInt children] None))
  else mret tt.

Definition OU_Delete (c : core) (id : Identity) (opts : DeleteOptions) : M unit :=
  delete_object (OU_Get c) o_GUID o_DN c "OU.Delete"%go id
    (ou_before_delete c "OU.Delete"%go id opts).
End ous.

(** ** Every operation returns *)

Section ous_lemmas.
Context `{Unicode} `{AdCore} `{Env}.

Lemma ou_model_returns e : returns (ou_model e).
Proof.
  unfold ou_model. apply returns_bind; [apply GUIDToString_returns|intros ? _].
  apply returns_bind; [by destruct (ContainerOf _)|intros ? _].
  apply returns_bind; [|done]. case_match; [done|]. apply IsProtected_returns.
Qed.

Lemma ou_validate_returns op spec : returns (ou_validate op spec).
Proof. unfold ou_validate. destruct (ValidateName _ _); [done|]. cbn. by destruct (ValidateContainer _ _). Qed.
Hint Resolve ou_model_returns ou_validate_returns modelled_quiet model_all_quiet : quiet.

Lemma setProtection_quiet c op dn want : quiet (setProtection c op dn want).
Proof. apply edit_descriptor_quiet. intros sd. apply SetProtected_returns. Qed.
Hint Resolve setProtection_quiet : quiet.

Lemma OU_Get_quiet c id : quiet (OU_Get c id).
Proof. unfold OU_Get. solve_quiet. Qed.
Lemma OU_Search_quiet c q : quiet (OU_Search c q).
Proof. unfold OU_Search. solve_quiet. Qed.
Hint Resolve OU_Get_quiet annotateAlreadyExists_quiet : quiet.

Lemma ou_move_quiet c op id spec current : quiet (ou_move c op id spec current).
Proof. unfold ou_move. solve_quiet. Qed.
Lemma children_cb_steady dn h : steady (children_cb dn h).
Proof. unfold children_cb. solve_quiet. Qed.
Hint Resolve ou_move_quiet children_cb_steady : quiet.
Lemma ou_before_delete_quiet c op id opts cur : quiet (ou_before_delete c op id opts cur).
Proof. unfold ou_before_delete, count_children. solve_quiet. Qed.

Lemma OU_Create_quiet c fuel spec :
  (forall guid, quiet (replicate c fuel guid)) -> quiet (OU_Create c fuel spec).
Proof. intros Hrep. unfold OU_Create, with_replication. solve_quiet. Qed.

Lemma OU_Update_runs c fuel id spec :
  (forall guid, quiet (replicate c fuel guid)) ->
  runs (unlocked (IdentityArg id)) (OU_Update c fuel id spec).
Proof.
  intros Hrep. unfold OU_Update. pose proof (ou_validate_returns "OU.Update"%go spec) as Hv.
  destruct (ou_validate _ spec) as [[]|e| | |]; try done.
  apply (runs_with_lock (IdentityArg id) (OU_Update_locked c fuel id spec)).
  unfold OU_Update_locked, with_replication. solve_quiet.
Qed.

Lemma OU_Delete_runs c id opts : runs (unlocked (IdentityArg id)) (OU_Delete c id opts).
Proof.
  apply delete_object_runs; [intros; solve_quiet|intros; apply ou_before_delete_quiet].
Qed.
End ous_lemmas.

(** ** Protection *)

Section protection.
Context `{Unicode} `{AdCore} `{Env}.

(** With no child probe answered empty, nothing is deleted. *)
Section never_recursive.
Context (R : relation World) `{!PreOrder R} (HR : reading R)
  (Hmod : forall h dn mods ctl w, R w (snd (env_modify h dn mods ctl w))).

Lemma edit_descriptor_calm c op dn gone empty edit :
  respects R (edit_descriptor c op dn gone empty edit).
Proof using All.
  unfold edit_descriptor. solve_respects. unfold write_descriptor. solve_respects.
  apply respects_tell, Hmod.
Qed.

Lemma count_children_calm c op id dn : respects R (count_children c op id dn).
Proof using HR PreOrder0. unfold count_children, children_cb. solve_respects. Qed.

Lemma OU_Get_reads c id : respects R (OU_Get c id).
Proof using HR PreOrder0. unfold OU_Get, modelled. solve_respects. Qed.

Lemma count_children_some c op id dn s n :
  1 <= c_MaxAttempts c ->
  (forall h w, exists e es ctrls,
     fst (env_search h (children_request dn) w) = inl (mkSearchResult (e :: es) ctrls)) ->
  fst (count_children c op id dn s) = Ret n -> 0 < n.
Proof using Type.
  intros Hmax Hch. unfold count_children, on_error, attempt, mbind, M_bind.
  destruct (withConn _ _ _ _ s) as [[k|e| | |] s1] eqn:Ew; cbn; try done.
  - intros [= <-]. apply withConn_Ret in Ew as (h & s2 & s3 & Hcb); [|done].
    unfold children_cb, conn_Search, ask, mbind, M_bind in Hcb.
    destruct (Hch h (st_world s2)) as (e & es & ctrls & He).
    destruct (env_search h _ _) as [r w]; cbn in *. subst r. cbn in Hcb. injection Hcb as <- _.
    rewrite len_cons. pose proof (len_nonneg es). lia.
  - destruct (is_kind _ _); [|done]. intros [= <-]. lia.
Qed.

Lemma ou_before_delete_refuses c op id opts current s :
  1 <= c_MaxAttempts c ->
  (forall h w, exists e es ctrls,
     fst (env_search h (children_request (o_DN current)) w) = inl (mkSearchResult (e :: es) ctrls)) ->
  fst (ou_before_delete c op id opts current s) <> Ret tt.
Proof using Type.
  intros Hmax Hch. unfold ou_before_delete.
  set (lifted := if _ && _ then _ else mret tt). clearbody lifted. unfold mbind, M_bind.
  destruct (lifted s) as [[[]|e| | |] s1]; try done.
  destruct (count_children c op id _ s1) as [[n|e| | |] s2] eqn:Ec; try done.
  assert (0 < n) by (apply (count_children_some c op id _ s1 n Hmax Hch); by rewrite Ec).
  by rewrite (proj2 (Z.ltb_lt 0 n)).
Qed.
End never_recursive.
End protection.

(** Protection is edited, never rebuilt.  When [setProtection] succeeds,
    the descriptor of the object was read and was not empty; either it was
    already in the wanted state and nothing was written, or the directory
    accepted a write of exactly [SetProtected]'s edit of it, scoped to the
    DACL, which (unless the list outgrows its size field) is in the wanted
    state and keeps every entry that does not protect. *)
Theorem setProtection_success `{Unicode} `{AdCore} `{Env} (c : core) (op dn : gostring)
    (want : bool) (s : St) :
  1 <= c_MaxAttempts c -> fst (setProtection c op dn want s) = Ret tt ->
  exists sd, sd <> [] /\ descriptor_read dn sd /\
    (IsProtected sd = Ret want \/
     exists out p l, SetProtected sd want = Ret (out, true) /\ descriptor_written dn out /\
       entries sd = Ret (p, l) /\
       (acl_size (protect_edit want l) < 65536 ->
          IsProtected out = Ret want /\
          exists p', entries out = Ret (p', protect_edit want l) /\ same_but_dacl p p')).
Proof.
  intros Hmax Hs.
  destruct (edit_descriptor_success _ _ _ _ _ _ _ Hmax Hs) as (sd & out & changed & Hne & Hread & He & Hw).
  exists sd. split_and!; [done..|]. destruct (SetProtected_Ret _ _ _ _ He) as (p & l & Hl & Hsame & Hch).
  destruct changed; [right|left; by destruct (Hsame eq_refl)].
  exists out, p, l. split_and!; [done|by apply Hw|done|]. intros Hsize. split; [by apply Hch|].
  destruct (SetProtected_write sd want p l Hl) as (out' & p' & Ho & Hp' & Hd & _); [|done|].
  - intros ->. destruct (SetProtected_entries _ (existsb (holds isProtectionACE) l) _ _ Hl) as [r Hr].
    cbv zeta in Hr. rewrite decide_True in Hr by done. congruence.
  - assert (out' = out) as -> by congruence. by exists p'.
Qed.

(** C21: deleting an organizational unit is never recursive.  Whatever is
    unchanged by every call except a delete (a count of deletes, say) is
    unchanged by [OU.Delete] of a unit whose probe for children answers with
    one; and the call does not succeed, unless the unit was already gone. *)
Theorem OU_Delete_never_recursive `{Unicode} `{AdCore} `{Env} (R : relation World) `{!PreOrder R}
    (c : core) (id : Identity) (opts : DeleteOptions) (s : St) :
  1 <= c_MaxAttempts c -> reading R ->
  (forall h dn mods ctl w, R w (snd (env_modify h dn mods ctl w))) ->
  (forall dn h w, exists e es ctrls,
     fst (env_search h (children_request dn) w) = inl (mkSearchResult (e :: es) ctrls)) ->
  R (st_world s) (st_world (snd (OU_Delete c id opts s))) /\
  (fst (OU_Delete c id opts s) = Ret tt ->
   exists s' e, fst (OU_Get c id s') = Fail e /\ isNotFound e = true).
Proof.
  intros Hmax HR Hmod Hch.
  assert (forall s, R (st_world s) (st_world (snd (delete_locked (OU_Get c) o_GUID o_DN c "OU.Delete"%go id
            (ou_before_delete c "OU.Delete"%go id opts) s))) /\
          (fst (delete_locked (OU_Get c) o_GUID o_DN c "OU.Delete"%go id
            (ou_before_delete c "OU.Delete"%go id opts) s) = Ret tt ->
           exists s' e, fst (OU_Get c id s') = Fail e /\ isNotFound e = true)) as Hbody.
  { clear s. intros s. unfold delete_locked, attempt, mbind, M_bind.
    pose proof (OU_Get_reads R HR c id s) as Hg.
    destruct (OU_Get c id s) as [[current|e| | |] s1] eqn:Eg; cbn in *; try done.
    - assert (respects R (ou_before_delete c "OU.Delete"%go id opts current)) as Hb.
      { unfold ou_before_delete. apply respects_bind; [exact _| |intros _].
        - destruct (_ && _); [|apply respects_ret; exact _].
          apply respects_on_error; [exact _| |intros; apply respects_lift; exact _].
          by apply edit_descriptor_calm.
        - apply respects_bind; [exact _|by apply count_children_calm|intros n].
          destruct (_ <? _); [apply respects_lift|apply respects_ret]; exact _. }
      pose proof (ou_before_delete_refuses c "OU.Delete"%go id opts current s1 Hmax (Hch _)) as Hno.
      specialize (Hb s1). destruct (ou_before_delete _ _ _ _ current s1) as [[[]|e| | |] s2]; cbn in *;
        try (by destruct Hno); (split; [by etransitivity|done]).
    - destruct (isNotFound e) eqn:En; cbn; (split; [done|]); [|done].
      intros _. exists s, e. by rewrite Eg. }
  unfold OU_Delete, delete_object, with_lock, lock, mbind, M_bind.
  destruct (mutex_lock _ _) as [l|]; [|done]. unfold deferred_unlock.
  destruct (Hbody (set_locks s l)) as [HR' Hret]. destruct (delete_locked _ _ _ _ _ _ _ _) as [r s1].
  exact (conj HR' Hret).
Qed.

(** ** Witnesses, and a move that fails *)

(** A directory with one organizational unit, its descriptor and a count of
    deletes.  It has a child, a Modify of the descriptor is stored, and every
    ModifyDN is refused. *)
Definition ou_entry (sd : bytes) : Entry :=
  mkEntry "OU=x,DC=example"%go
    [("objectGUID"%go, [sample_guid]); ("name"%go, ["x"%go]); ("nTSecurityDescriptor"%go, [sd])].
Definition refused : error := RawError 50 "00000005: SecErr: DSID-031A11E2, problem 4003"%go None.

Definition ou_env : Env := {|
  World := bytes * nat;
  Handle := nat;
  env_dial w := (inl 0%nat, w);
  env_bind h w := (None, w);
  env_search h req w := (inl (mkSearchResult [ou_entry (fst w)] []), w);
  env_add h dn attrs w := (None, w);
  env_modify h dn mods ctrls w :=
    (None, match mods with [m] => (hd (fst w) (m_Vals m), snd w) | _ => w end);
  env_modifydn h dn rdn del sup w := (Some refused, w);
  env_delete h dn w := (None, (fst w, S (snd w)));
  env_close h w := (None, w);
  env_select w := (None, w);
  env_backoff n w := (None, w);
  env_dial_other host w := (inl 0%nat, w);
  env_now w := (0, w);
  env_wait d w := (None, w);
  Mutex := unit;
  mutex_lock key l := Some l;
  mutex_unlock key l := l
|}.
Definition protected_sd : bytes :=
  match SetProtected sample_sd true with Ret (sd, _) => sd | _ => [] end.
Definition ou_state (sd : bytes) : @St ou_env := @mkSt ou_env (sd, 0%nat) (NewPool 1) tt None.
Definition ou_id : sample_identity := SampleDN "OU=x,DC=example"%go.

Lemma setProtection_success_witness :
  fst (@setProtection ascii_unicode sample_adcore ou_env sample_core "op"%go "OU=x,DC=example"%go true
         (ou_state sample_sd)) = Ret tt /\
  exists sd, sd <> [] /\ @descriptor_read ascii_unicode ou_env "OU=x,DC=example"%go sd.
Proof.
  split; [vm_compute; reflexivity|].
  destruct (@setProtection_success ascii_unicode sample_adcore ou_env sample_core "op"%go
    "OU=x,DC=example"%go true (ou_state sample_sd)) as (sd & Hne & Hr & _).
  - discriminate.
  - vm_compute. reflexivity.
  - exists sd. split; [exact Hne|exact Hr].
Defined.

Lemma same_deletes_preorder : PreOrder (fun w w' : bytes * nat => snd w' = snd w).
Proof. split; [by intros w|]. intros w1 w2 w3 E1 E2. congruence. Qed.

Lemma OU_Delete_never_recursive_witness :
  let run := @OU_Delete ascii_unicode sample_adcore ou_env sample_core ou_id (mkDeleteOptions true)
               (ou_state protected_sd) in
  snd (st_world (snd run)) = 0%nat /\ fst run <> Ret tt.
Proof.
  intros run. split; [|vm_compute; discriminate].
  refine (proj1 (@OU_Delete_never_recursive ascii_unicode sample_adcore ou_env
    (fun w w' : bytes * nat => snd w' = snd w) same_deletes_preorder sample_core ou_id
    (mkDeleteOptions true) (ou_state protected_sd) _ _ _ _)).
  - discriminate.
  - constructor; [constructor|..]; reflexivity.
  - intros h dn [|m [|]] ctl w; reflexivity.
  - intros dn h w. by eexists _, _, _.
Defined.

(** Protection is lifted before a move and restored after it, but not when the
    move is refused: [Update] of a protected unit returns the error and leaves
    the unit without the protection it had. *)
Definition rename_spec : OUSpec := mkOUSpec "y"%go "DC=example"%go None None.
Lemma refused_move_leaves_unprotected :
  let '(r, s) := @OU_Update ascii_unicode sample_adcore ou_env sample_core 1 ou_id rename_spec
                   (ou_state protected_sd) in
  IsProtected protected_sd = Ret true /\ IsProtected (fst (st_world s)) = Ret false /\
  match r with Fail _ => True | _ => False end.
Proof. vm_compute. done. Qed.
