(* ===== verification/Users.v ===== *)
(** * user.go: user accounts

    Also the text conversions [unicodePwd] needs: a Go string as runes and
    runes as UTF-16 code units (the language and its standard library). *)
From S2P Require Export OUs.

(** ** Runes and UTF-16 *)

Definition RuneError : Z := 0xFFFD.
Definition between (lo hi : Z) (b : byte) : bool := (lo <=? bZ b) && (bZ b <=? hi).
Definition continuation (b : byte) : bool := between 0x80 0xBF b.

(** [[]rune(s)]: every byte that starts no valid encoding is [RuneError]. *)
Fixpoint runes (s : gostring) : list Z :=
  match s with
  | [] => []
  | b0 :: s0 =>
      if between 0 0x7F b0 then bZ b0 :: runes s0
      else if between 0xC2 0xDF b0 then
        match s0 with
        | b1 :: s1 =>
            if continuation b1
            then ((bZ b0 - 0xC0) * 64 + (bZ b1 - 0x80)) :: runes s1
            else RuneError :: runes s0
        | [] => [RuneError]
        end
      else if between 0xE0 0xEF b0 then
        match s0 with
        | b1 :: b2 :: s2 =>
            if between (if bZ b0 =? 0xE0 then 0xA0 else 0x80) (if bZ b0 =? 0xED then 0x9F else 0xBF) b1
               && continuation b2
            then ((bZ b0 - 0xE0) * 4096 + (bZ b1 - 0x80) * 64 + (bZ b2 - 0x80)) :: runes s2
            else RuneError :: runes s0
        | _ => RuneError :: runes s0
        end
      else if between 0xF0 0xF4 b0 then
        match s0 with
        | b1 :: b2 :: b3 :: s3 =>
            if between (if bZ b0 =? 0xF0 then 0x90 else 0x80) (if bZ b0 =? 0xF4 then 0x8F else 0xBF) b1
               && continuation b2 && continuation b3
            then ((bZ b0 - 0xF0) * 262144 + (bZ b1 - 0x80) * 4096 + (bZ b2 - 0x80) * 64
                  + (bZ b3 - 0x80)) :: runes s3
            else RuneError :: runes s0
        | _ => RuneError :: runes s0
        end
      else RuneError :: runes s0
  end.

(** [utf16.Encode] of one rune. *)
Definition utf16_units (r : Z) : list Z :=
  if (0 <=? r) && (r <? 0xD800) || (0xE000 <=? r) && (r <? 0x10000) then [r]
  else if (0x10000 <=? r) && (r <=? 0x10FFFF)
  then [0xD800 + (r - 0x10000) / 1024; 0xDC00 + (r - 0x10000) mod 1024]
  else [RuneError].
Definition utf16_Encode (rs : list Z) : list Z := concat (map utf16_units rs).

Definition quote : gostring := [x22].

Definition utf16LEQuoted (s : gostring) : bytes :=
  concat (map (fun u => [Zb u; Zb (Z.shiftr u 8)]) (utf16_Encode (runes (quote ++ s ++ quote)))).

(** ** Users *)

Definition userAttrs : list gostring :=
  ["objectGUID"; "distinguishedName"; "name"; "sAMAccountName";
   "userPrincipalName"; "displayName"; "givenName"; "sn"; "description";
   "userAccountControl"; "objectSid"; "pwdLastSet"; "accountExpires";
   "nTSecurityDescriptor"]%go.

(** [mustGUID]: a bad built-in GUID is a panic. *)
Definition mustGUID (s : gostring) : outcome bytes :=
  match GUIDToBytes s with Fail _ => Panic | r => r end.

Definition changePasswordRight : bytes :=
  match mustGUID "ab721a53-1e2f-11d0-9819-00aa0040529b"%go with Ret b => b | _ => [] end.
Definition changePasswordTrustees : list bytes := [SIDEveryone; SIDSelf].

(** [applyUAC]: sets or clears only the bits the spec names. *)
Definition apply_bit (bit : Z) (want : option bool) (clear_when : bool) (uac : Z) : Z :=
  match want with
  | None => uac
  | Some w => if Bool.eqb w clear_when then and_not uac bit else Z.lor uac bit
  end.
Definition applyUAC (current : Z) (spec : UserSpec) : Z :=
  let out := apply_bit UACAccountDisable (us_Enabled spec) true current in
  apply_bit UACDontExpirePassword (us_PasswordExpires spec) true out.

Section users.
Context `{Unicode} `{AdCore} `{Env}.

Definition mustSID (e : Entry) : gostring :=
  match First e "objectSid"%go with
  | [] => []
  | raw => match SIDToString raw with Ret sid => sid | _ => [] end
  end.

(** userAccountControl of an entry, 0 when absent. *)
Definition uac_of (e : Entry) (attr : gostring) : outcome Z :=
  match FirstString e attr with [] => Ret 0 | raw => ParseUint32 raw end.

Definition user_model (e : Entry) : outcome User :=
  guid ← GUIDToString (First e "objectGUID"%go);
  container ← of_sum (ContainerOf (en_DN e));
  uac ← uac_of e "userAccountControl"%go;
  expires ← FileTimeToTime (FirstString e "accountExpires"%go);
  canChange ← match First e "nTSecurityDescriptor"%go with
              | [] => Ret true
              | sd => denied ← HasDeniedObjectRight sd RightControlAccess changePasswordRight
                                 changePasswordTrustees;
                      Ret (negb denied)
              end;
  Ret (mkUser guid (en_DN e) (FirstString e "name"%go) (FirstString e "sAMAccountName"%go)
         (FirstString e "userPrincipalName"%go) (FirstString e "displayName"%go)
         (FirstString e "givenName"%go) (FirstString e "sn"%go) (FirstString e "description"%go)
         container (negb (has_bits uac UACAccountDisable)) (negb (has_bits uac UACDontExpirePassword))
         (bool_decide (FirstString e "pwdLastSet"%go = "0"%go)) canChange expires (mustSID e)).

Definition account_gone : gostring :=
  "the account disappeared while setting can_change_password"%go.
Definition account_empty : gostring :=
  "the directory returned no nTSecurityDescriptor; the account cannot read the object's security descriptor, so can_change_password cannot be managed"%go.

Definition setCanChangePassword (c : core) (op dn : gostring) (can : bool) : M unit :=
  edit_descriptor c op dn account_gone account_empty
    (fun sd => SetDeniedObjectRight sd (negb can) RightControlAccess changePasswordRight
                 changePasswordTrustees).

Definition User_Get (c : core) (id : Identity) : M User :=
  e ← getOne c "User.Get"%go id "user"%go userAttrs [sdDACL];
  modelled "User.Get"%go user_model e.

Definition User_Search (c : core) (q : Query) : M (list User) :=
  entries ← searchEntries c "User.Search"%go q "user"%go userAttrs [sdDACL];
  model_all "User.Search"%go user_model entries.

(** ** Passwords *)

Definition password_cb (dn : gostring) (encoded : bytes) (h : Handle) : M unit :=
  conn_Modify h dn [mkModification ModReplace "unicodePwd"%go [encoded]] [].

Definition setPasswordLocked (c : core) (op : gostring) (id : Identity) (password : Secret)
    : M unit :=
  if secret_IsZero password
  then fail (adErr KindPassword op (ErrNew "an empty password cannot be set"%go))
  else
    dn ← resolveDN c op id;
    map_error (fun err => WithIdentity err op id)
      (withConn c op tt (password_cb dn (utf16LEQuoted (secret_Reveal password)))).

Definition SetPassword (c : core) (id : Identity) (password : Secret) : M unit :=
  with_lock (IdentityArg id) (setPasswordLocked c "User.SetPassword"%go id password).

(** ** Create *)

Definition user_name (spec : UserSpec) : gostring :=
  match us_Name spec with None | Some [] => us_SamAccountName spec | Some n => n end.

(** The account is always created disabled. *)
Definition initial_uac (spec : UserSpec) : Z :=
  let uac := Z.lor UACNormalAccount UACAccountDisable in
  if decide (us_PasswordExpires spec = Some false) then Z.lor uac UACDontExpirePassword else uac.

Definition user_add (spec : UserSpec) : list Attribute :=
  let name := user_name spec in
  let add :=
    [mkAttribute "objectClass"%go ["top"; "person"; "organizationalPerson"; "user"]%go;
     mkAttribute "cn"%go [name];
     mkAttribute "sAMAccountName"%go [us_SamAccountName spec];
     mkAttribute "userAccountControl"%go [Uint32String (initial_uac spec)]] in
  let add := fold_left (fun add f => appendStringAttr add (fst f) (snd f))
    [("userPrincipalName"%go, us_UserPrincipalName spec);
     ("displayName"%go, us_DisplayName spec);
     ("givenName"%go, us_GivenName spec);
     ("sn"%go, us_Surname spec);
     ("description"%go, us_Description spec)] add in
  if exp_IsSet (us_AccountExpiration spec)
  then add ++ [mkAttribute "accountExpires"%go [TimeToFileTime (exp_Value (us_AccountExpiration spec))]]
  else add.

(** What is written once the account has its password. *)
Definition user_post (spec : UserSpec) : list Modification :=
  (if decide (us_ChangePasswordAtLogon spec = Some true)
   then [mkModification ModReplace "pwdLastSet"%go ["0"%go]] else [])
  ++ (if decide (us_Enabled spec = Some true)
      then [mkModification ModReplace "userAccountControl"%go
              [Uint32String (and_not (initial_uac spec) UACAccountDisable)]] else []).

Definition post_cb (dn : gostring) (post : list Modification) (h : Handle) : M unit :=
  conn_Modify h dn post [].

(** The password of a spec, when it has one that is not empty. *)
Definition wanted_password (spec : UserSpec) : option Secret :=
  match us_Password spec with
  | Some p => if secret_IsZero p then None else Some p
  | None => None
  end.

(** The three optional writes that follow the add. *)
Definition create_password (c : core) (spec : UserSpec) (dn : gostring) : M unit :=
  match wanted_password spec with
  | Some p => SetPassword c (ByDN dn) p
  | None => mret tt
  end.
Definition create_post (c : core) (op : gostring) (spec : UserSpec) (dn : gostring) : M unit :=
  match user_post spec with
  | [] => mret tt
  | post => withConn c op tt (post_cb dn post)
  end.
Definition create_can_change (c : core) (op : gostring) (spec : UserSpec) (dn : gostring) : M unit :=
  if decide (us_CanChangePassword spec = Some false)
  then setCanChangePassword c op dn false else mret tt.

Definition user_dn (spec : UserSpec) : gostring :=
  cnRDN (user_name spec) ++ ","%go ++ us_Container spec.

Definition User_Create (c : core) (fuel : nat) (spec : UserSpec) : M (User * option error) :=
  let op := "User.Create"%go in
  lift (of_nil (UserSpec_Validate spec op));;
  let name := user_name spec in
  let dn := user_dn spec in
  on_error (withConn c op tt (fun h => conn_Add h dn (user_add spec)))
    (fun err =>
       err ← annotateAlreadyExists c err dn (deletedFilter "user"%go name (us_Container spec));
       fail err);;
  create_password c spec dn;;
  create_post c op spec dn;;
  create_can_change c op spec dn;;
  created ← User_Get c (ByDN dn);
  with_replication c fuel (u_GUID created) created.

(** ** Update and Delete *)

(** The word [Update] computes with: rebuilt from what the model shows. *)
Definition rebuilt_uac (current : User) : Z :=
  let uac := UACNormalAccount in
  let uac := if negb (u_Enabled current) then Z.lor uac UACAccountDisable else uac in
  if negb (u_PasswordExpires current) then Z.lor uac UACDontExpirePassword else uac.

Definition expiration_mods (e : Expiration) : list Modification :=
  if exp_IsSet e then
    [mkModification ModReplace "accountExpires"%go [TimeToFileTime (exp_Value e)]]
  else if exp_IsClear e then [mkModification ModReplace "accountExpires"%go ["0"%go]]
  else [].

Definition user_mods (spec : UserSpec) (current : User) : list Modification :=
  let mods :=
    if decide (us_SamAccountName spec <> [] /\ us_SamAccountName spec <> u_SamAccountName current)
    then [mkModification ModReplace "sAMAccountName"%go [us_SamAccountName spec]] else [] in
  let mods := appendStringMod mods "userPrincipalName"%go (us_UserPrincipalName spec)
                (u_UserPrincipalName current) in
  let mods := appendStringMod mods "displayName"%go (us_DisplayName spec) (u_DisplayName current) in
  let mods := appendStringMod mods "givenName"%go (us_GivenName spec) (u_GivenName current) in
  let mods := appendStringMod mods "sn"%go (us_Surname spec) (u_Surname current) in
  let mods := appendStringMod mods "description"%go (us_Description spec) (u_Description current) in
  let currentUAC := rebuilt_uac current in
  let want := applyUAC currentUAC spec in
  let mods := if decide (want <> currentUAC)
              then mods ++ [mkModification ModReplace "userAccountControl"%go [Uint32String want]]
              else mods in
  let mods := mods ++ expiration_mods (us_AccountExpiration spec) in
  match us_ChangePasswordAtLogon spec with
  | Some w =>
      if decide (w <> u_ChangePasswordAtLogon current)
      then mods ++ [mkModification ModReplace "pwdLastSet"%go [if w : bool then "0"%go else "-1"%go]]
      else mods
  | None => mods
  end.

Definition User_Update_locked (c : core) (fuel : nat) (id : Identity) (spec : UserSpec)
    : M (User * option error) :=
  let op := "User.Update"%go in
  current ← User_Get c id;
  modify_object c op id (u_DN current) (user_mods spec current);;
  let name := match us_Name spec with None | Some [] => u_Name current | Some n => n end in
  rename_move c op id (u_DN current) (u_Name current) (u_Container current) name (us_Container spec);;
  match wanted_password spec with
  | Some p => setPasswordLocked c op (ByGUID (u_GUID current)) p
  | None => mret tt
  end;;
  updated ← User_Get c (ByGUID (u_GUID current));
  updated ←
    match us_CanChangePassword spec with
    | Some can =>
        if decide (can <> u_CanChangePassword updated) then
          map_error (fun err => WithIdentity err op id)
            (setCanChangePassword c op (u_DN updated) can);;
          User_Get c (ByGUID (u_GUID current))
        else mret updated
    | None => mret updated
    end;
  with_replication c fuel (u_GUID updated) updated.

Definition User_Update (c : core) (fuel : nat) (id : Identity) (spec : UserSpec)
    : M (User * option error) :=
  lift (of_nil (UserSpec_Validate spec "User.Update"%go));;
  with_lock (IdentityArg id) (User_Update_locked c fuel id spec).

Definition User_Delete (c : core) (id : Identity) : M unit :=
  delete_object (User_Get c) u_GUID u_DN c "User.Delete"%go id (fun _ => mret tt).
End users.

(** ** Every operation returns *)

Section users_lemmas.
Context `{Unicode} `{AdCore} `{Env}.

Lemma uac_of_returns e attr : returns (uac_of e attr).
Proof. unfold uac_of. case_match; [done|]. apply ParseUint32_returns. Qed.

Lemma user_model_returns e : returns (user_model e).
Proof.
  unfold user_model. apply returns_bind; [apply GUIDToString_returns|intros ? _].
  apply returns_bind; [by destruct (ContainerOf _)|intros ? _].
  apply returns_bind; [apply uac_of_returns|intros ? _].
  apply returns_bind; [apply FileTimeToTime_returns|intros ? _].
  apply returns_bind; [|done]. case_match; [done|].
  by apply returns_bind; [apply HasDeniedObjectRight_returns|].
Qed.
Hint Resolve user_model_returns modelled_quiet model_all_quiet : quiet.

Lemma setCanChangePassword_quiet c op dn can : quiet (setCanChangePassword c op dn can).
Proof. apply edit_descriptor_quiet. intros sd. apply SetDeniedObjectRight_returns. Qed.
Hint Resolve setCanChangePassword_quiet : quiet.

Lemma User_Get_quiet c id : quiet (User_Get c id).
Proof. unfold User_Get. solve_quiet. Qed.
Lemma User_Search_quiet c q : quiet (User_Search c q).
Proof. unfold User_Search. solve_quiet. Qed.
Lemma password_cb_steady dn b h : steady (password_cb dn b h).
Proof. unfold password_cb. solve_quiet. Qed.
Hint Resolve User_Get_quiet annotateAlreadyExists_quiet password_cb_steady : quiet.
Lemma setPasswordLocked_quiet c op id p : quiet (setPasswordLocked c op id p).
Proof. unfold setPasswordLocked. solve_quiet. Qed.
Hint Resolve setPasswordLocked_quiet : quiet.

Lemma SetPassword_runs c id p : runs (unlocked (IdentityArg id)) (SetPassword c id p).
Proof. apply runs_with_lock, setPasswordLocked_quiet. Qed.

(** A locked call after others: they gave every key back. *)
Lemma runs_after {A B} key (m : M A) (f : A -> M B) :
  quiet m -> (forall a, runs (unlocked key) (f a)) -> runs (unlocked key) (m ≫= f).
Proof.
  intros Hm Hf s Hs Hk. specialize (Hm s Hs I). unfold mbind, M_bind.
  destruct (m s) as [[a|e| | |] s1]; cbn in *; try tauto. destruct Hm as (_ & E1 & E2 & E3).
  destruct (Hf a s1 (free_same _ _ E1 E2 Hs)) as (? & -> & -> & ->); [|tauto].
  unfold unlocked in *. by rewrite E3.
Qed.

Lemma runs_quiet {A} P (m : M A) : quiet m -> runs P m.
Proof. intros Hm s Hs _. by apply Hm. Qed.

Lemma User_Create_runs c fuel spec :
  (forall guid, quiet (replicate c fuel guid)) ->
  runs (unlocked (IdentityArg (ByDN (user_dn spec)))) (User_Create c fuel spec).
Proof.
  intros Hrep. unfold User_Create. apply runs_validate, runs_after; [solve_quiet|intros _].
  apply runs_bind.
  - unfold create_password. destruct (wanted_password spec); [apply SetPassword_runs|apply runs_ret].
  - intros _. unfold create_post, create_can_change, post_cb, with_replication. solve_quiet.
Qed.

Lemma User_Update_runs c fuel id spec :
  (forall guid, quiet (replicate c fuel guid)) ->
  runs (unlocked (IdentityArg id)) (User_Update c fuel id spec).
Proof.
  intros Hrep. unfold User_Update. apply runs_validate, runs_with_lock.
  unfold User_Update_locked, with_replication. solve_quiet.
Qed.

Lemma User_Delete_runs c id : runs (unlocked (IdentityArg id)) (User_Delete c id).
Proof. apply delete_object_runs; intros; solve_quiet. Qed.
End users_lemmas.

(** ** The text of a password *)

(** Unicode scalar values, their UTF-8 encoding (RFC 3629), and the reading of
    a little-endian UTF-16 text. *)
Definition scalar (r : Z) : Prop := 0 <= r < 0xD800 \/ 0xE000 <= r <= 0x10FFFF.

Definition utf8 (r : Z) : bytes :=
  if r <? 0x80 then [Zb r]
  else if r <? 0x800 then [Zb (0xC0 + r / 64); Zb (0x80 + r mod 64)]
  else if r <? 0x10000 then
    [Zb (0xE0 + r / 4096); Zb (0x80 + r / 64 mod 64); Zb (0x80 + r mod 64)]
  else
    [Zb (0xF0 + r / 262144); Zb (0x80 + r / 4096 mod 64); Zb (0x80 + r / 64 mod 64);
     Zb (0x80 + r mod 64)].

Fixpoint utf16_decode (us : list Z) : list Z :=
  match us with
  | [] => []
  | u :: us =>
      if (0xD800 <=? u) && (u <? 0xDC00) then
        match us with
        | v :: us' =>
            if (0xDC00 <=? v) && (v <? 0xE000)
            then ((u - 0xD800) * 1024 + (v - 0xDC00) + 0x10000) :: utf16_decode us'
            else RuneError :: utf16_decode us
        | [] => [RuneError]
        end
      else u :: utf16_decode us
  end.

Fixpoint le_units (b : bytes) : list Z :=
  match b with
  | lo :: hi :: b => (bZ lo + 256 * bZ hi) :: le_units b
  | _ => []
  end.

Section text.

#[local] Ltac Zify.zify_post_hook ::= Z.to_euclidean_division_equations.

Lemma bZ_Zb_small z : 0 <= z < 256 -> bZ (Zb z) = z.
Proof. intros. rewrite bZ_Zb. by apply Z.mod_small. Qed.

Ltac bool_true := apply andb_true_intro; split; apply Z.leb_le.

Lemma between_true lo hi z : 0 <= lo <= z -> z <= hi < 256 -> between lo hi (Zb z) = true.
Proof. intros. unfold between. rewrite bZ_Zb_small by lia. bool_true; lia. Qed.
Lemma between_false lo hi z : 0 <= z < 256 -> z < lo \/ hi < z -> between lo hi (Zb z) = false.
Proof.
  intros ? Hz. unfold between. rewrite bZ_Zb_small by lia. apply andb_false_iff.
  rewrite !Z.leb_gt. lia.
Qed.

Lemma runes_utf8 r s : scalar r -> runes (utf8 r ++ s) = r :: runes s.
Proof.
  intros Hr. unfold scalar in Hr. unfold utf8.
  destruct (r <? 0x80) eqn:E1; [|destruct (r <? 0x800) eqn:E2; [|destruct (r <? 0x10000) eqn:E3]];
    rewrite ?Z.ltb_lt, ?Z.ltb_ge in *; cbn [app runes].
  - rewrite (between_true 0 0x7F), bZ_Zb_small by lia. done.
  - rewrite (between_false 0 0x7F), (between_true 0xC2 0xDF) by lia. unfold continuation.
    rewrite between_true, !bZ_Zb_small by lia. f_equal. lia.
  - assert (r / 64 / 64 = r / 4096) as Hd by (rewrite Z.div_div by lia; done).
    rewrite (between_false 0 0x7F), (between_false 0xC2 0xDF), (between_true 0xE0 0xEF) by lia.
    unfold continuation.
    rewrite (between_true 0x80 0xBF (0x80 + r mod 64)) by lia.
    rewrite (bZ_Zb_small (0xE0 + r / 4096)) by lia.
    rewrite between_true; [cbn [andb]; rewrite !bZ_Zb_small by lia; f_equal; lia| |].
    + destruct (_ =? 0xE0) eqn:E; lia.
    + destruct (_ =? 0xED) eqn:E; lia.
  - assert (r / 64 / 64 = r / 4096) as Hd by (rewrite Z.div_div by lia; done).
    assert (r / 4096 / 64 = r / 262144) as Hd' by (rewrite Z.div_div by lia; done).
    rewrite (between_false 0 0x7F), (between_false 0xC2 0xDF), (between_false 0xE0 0xEF),
      (between_true 0xF0 0xF4) by lia.
    unfold continuation.
    rewrite (between_true 0x80 0xBF (0x80 + r mod 64)) by lia.
    rewrite (between_true 0x80 0xBF (0x80 + r / 64 mod 64)) by lia.
    rewrite (bZ_Zb_small (0xF0 + r / 262144)) by lia.
    rewrite between_true; [cbn [andb]; rewrite !bZ_Zb_small by lia; f_equal; lia| |].
    + destruct (_ =? 0xF0) eqn:E; lia.
    + destruct (_ =? 0xF4) eqn:E; lia.
Qed.

Lemma runes_text rs s : Forall scalar rs -> runes (concat (map utf8 rs) ++ s) = rs ++ runes s.
Proof.
  induction 1 as [|r rs Hr _ IH]; [done|]. cbn [map concat app].
  by rewrite <- app_assoc, runes_utf8, IH.
Qed.

Lemma utf16_decode_units r us : scalar r -> utf16_decode (utf16_units r ++ us) = r :: utf16_decode us.
Proof.
  unfold scalar, utf16_units. intros Hr.
  destruct ((0 <=? r) && (r <? 0xD800) || (0xE000 <=? r) && (r <? 0x10000)) eqn:E.
  - cbn [app utf16_decode]. destruct ((0xD800 <=? r) && (r <? 0xDC00)) eqn:E2; [lia|done].
  - rewrite (proj2 (andb_true_iff (0x10000 <=? r) _)) by lia. cbn [app utf16_decode].
    rewrite (proj2 (andb_true_iff (0xD800 <=? _) _)) by lia.
    rewrite (proj2 (andb_true_iff (0xDC00 <=? _) _)) by lia. f_equal. lia.
Qed.

Lemma utf16_decode_Encode rs : Forall scalar rs -> utf16_decode (utf16_Encode rs) = rs.
Proof.
  unfold utf16_Encode. induction 1 as [|r rs Hr _ IH]; [done|]. cbn [map concat].
  by rewrite utf16_decode_units, IH.
Qed.

Lemma utf16_units_range r : Forall (fun u => 0 <= u < 65536) (utf16_units r).
Proof.
  unfold utf16_units. repeat case_match; repeat constructor; unfold RuneError; lia.
Qed.

Lemma le_units_encode us :
  Forall (fun u => 0 <= u < 65536) us ->
  le_units (concat (map (fun u => [Zb u; Zb (Z.shiftr u 8)]) us)) = us.
Proof.
  induction 1 as [|u us Hu _ IH]; [done|]. cbn [map concat app le_units]. rewrite IH.
  f_equal. rewrite !bZ_Zb, Z.shiftr_div_pow2 by lia. change (2 ^ 8) with 256.
  rewrite (Z.mod_small (u / 256)) by lia. lia.
Qed.
End text.

(** A password survives its encoding.  For a password that is the UTF-8
    encoding of any sequence of Unicode scalar values (astral characters
    included), [utf16LEQuoted] is the little-endian UTF-16 text of the same
    sequence between two quotation marks: nothing is lost or substituted. *)
Theorem utf16LEQuoted_text (rs : list Z) :
  Forall scalar rs ->
  utf16_decode (le_units (utf16LEQuoted (concat (map utf8 rs)))) = [0x22] ++ rs ++ [0x22].
Proof.
  intros Hrs. unfold utf16LEQuoted. rewrite le_units_encode.
  2: { unfold utf16_Encode. induction (runes _); [constructor|].
       apply Forall_app. split; [apply utf16_units_range|done]. }
  assert (runes (quote ++ concat (map utf8 rs) ++ quote) = [0x22] ++ rs ++ [0x22]) as ->.
  { change (0x22 :: runes (concat (map utf8 rs) ++ quote) = [0x22] ++ rs ++ [0x22]).
    by rewrite runes_text. }
  apply utf16_decode_Encode. apply Forall_app. split; [|apply Forall_app; split; [done|]];
    repeat constructor; unfold scalar; lia.
Qed.

Lemma utf16LEQuoted_text_witness :
  let rs := [0x70; 0xE9; 0x20AC; 0x1F511] in
  utf16_decode (le_units (utf16LEQuoted (concat (map utf8 rs)))) = [0x22] ++ rs ++ [0x22].
Proof.
  intros rs. apply utf16LEQuoted_text.
  unfold rs, scalar. repeat (apply Forall_cons; [lia|]). apply Forall_nil.
Defined.

(** ** userAccountControl *)

Lemma and_not_bit x k i : 0 <= k -> 0 <= i ->
  Z.testbit (and_not x (2 ^ k)) i = if i =? k then false else Z.testbit x i.
Proof.
  intros. unfold and_not. rewrite Z.ldiff_spec, Z.pow2_bits_eqb by lia.
  destruct (Z.eqb_spec k i), (Z.eqb_spec i k); subst; try done; by rewrite ?andb_false_r, ?andb_true_r.
Qed.
Lemma lor_bit x k i : 0 <= k -> 0 <= i ->
  Z.testbit (Z.lor x (2 ^ k)) i = if i =? k then true else Z.testbit x i.
Proof.
  intros. rewrite Z.lor_spec, Z.pow2_bits_eqb by lia.
  destruct (Z.eqb_spec k i), (Z.eqb_spec i k); subst; try done; by rewrite ?orb_true_r, ?orb_false_r.
Qed.
Lemma apply_bit_spec k want w x i : 0 <= k -> 0 <= i ->
  Z.testbit (apply_bit (2 ^ k) want w x) i =
  if i =? k then match want with None => Z.testbit x i | Some b => negb (Bool.eqb b w) end
  else Z.testbit x i.
Proof.
  intros. unfold apply_bit. destruct want as [b|]; [|by case_match].
  destruct (Bool.eqb b w); rewrite ?and_not_bit, ?lor_bit by lia; by case_match.
Qed.

(** [applyUAC] moves only the bits the spec names.  Bit 1 (disabled) is
    the negation of [Enabled] and bit 16 (password never expires) the negation
    of [PasswordExpires] where the spec gives them; every other bit, and a bit
    the spec does not mention, keeps its value. *)
Theorem applyUAC_exact (current : Z) (spec : UserSpec) (i : Z) :
  0 <= i ->
  Z.testbit (applyUAC current spec) i =
  match (if i =? 1 then us_Enabled spec else if i =? 16 then us_PasswordExpires spec else None) with
  | Some b => negb b
  | None => Z.testbit current i
  end.
Proof.
  intros Hi. unfold applyUAC. change UACDontExpirePassword with (2 ^ 16).
  change UACAccountDisable with (2 ^ 1). rewrite !apply_bit_spec by lia.
  destruct (Z.eqb_spec i 16) as [->|]; [by destruct (us_PasswordExpires spec) as [[]|]|].
  destruct (Z.eqb_spec i 1) as [->|]; [|done]. by destruct (us_Enabled spec) as [[]|].
Qed.

Definition disable_spec : UserSpec :=
  mkUserSpec None [] "DC=example"%go None None None None None (Some false) None None None
    (mkExpiration false false 0) None.

Lemma applyUAC_exact_witness : Z.testbit (applyUAC 0x80200 disable_spec) 19 = true.
Proof. exact (applyUAC_exact 0x80200 disable_spec 19 ltac:(lia)). Defined.

(** ** The delta of an update *)

Section user_delta.
Context `{Unicode} `{AdCore}.

Definition user_changes (spec : UserSpec) (u : User) : delta :=
  [("sAMAccountName"%go,
      if decide (us_SamAccountName spec <> [] /\ us_SamAccountName spec <> u_SamAccountName u)
      then [mkModification ModReplace "sAMAccountName"%go [us_SamAccountName spec]] else []);
   ("userPrincipalName"%go,
      appendStringMod [] "userPrincipalName"%go (us_UserPrincipalName spec) (u_UserPrincipalName u));
   ("displayName"%go, appendStringMod [] "displayName"%go (us_DisplayName spec) (u_DisplayName u));
   ("givenName"%go, appendStringMod [] "givenName"%go (us_GivenName spec) (u_GivenName u));
   ("sn"%go, appendStringMod [] "sn"%go (us_Surname spec) (u_Surname u));
   ("description"%go, appendStringMod [] "description"%go (us_Description spec) (u_Description u));
   ("userAccountControl"%go,
      if decide (applyUAC (rebuilt_uac u) spec <> rebuilt_uac u)
      then [mkModification ModReplace "userAccountControl"%go
              [Uint32String (applyUAC (rebuilt_uac u) spec)]] else []);
   ("accountExpires"%go, expiration_mods (us_AccountExpiration spec));
   ("pwdLastSet"%go,
      match us_ChangePasswordAtLogon spec with
      | Some w => if decide (w <> u_ChangePasswordAtLogon u)
                  then [mkModification ModReplace "pwdLastSet"%go [if w : bool then "0"%go else "-1"%go]]
                  else []
      | None => []
      end)].

Lemma user_mods_changes spec u : user_mods spec u = mods_of (user_changes spec u).
Proof.
  unfold user_mods, mods_of, user_changes. cbv zeta. cbn [map snd concat].
  repeat match goal with
  | |- context [appendStringMod ?m ?a ?w ?c] =>
      lazymatch m with [] => fail | _ => rewrite (appendStringMod_app m a w c) end
  end.
  destruct (decide (applyUAC _ _ <> _)); destruct (us_ChangePasswordAtLogon spec);
    try case_decide; rewrite ?app_nil_r, <- ?app_assoc; done.
Qed.

Lemma expiration_one e : at_most_one "accountExpires"%go (expiration_mods e).
Proof.
  unfold expiration_mods. destruct (exp_IsSet e), (exp_IsClear e); [right|right|right|by left];
    eexists; by split_and!; [..|left].
Qed.

Lemma user_changes_wf spec u : wf_delta (user_changes spec u).
Proof.
  solve_wf_delta; [apply expiration_one|]. destruct (us_ChangePasswordAtLogon spec); [|by left].
  apply replace_one.
Qed.

(** The user an update is meant to leave (before a rename, a password or the
    right to change it). *)
Definition merged_expiration (e : Expiration) (t : option Z) : option Z :=
  if exp_IsSet e then Some (Z.quot (exp_Value e) 100 * 100) else if exp_IsClear e then None else t.
Definition merged_user (spec : UserSpec) (u : User) : User :=
  mkUser (u_GUID u) (u_DN u) (u_Name u)
    (match us_SamAccountName spec with [] => u_SamAccountName u | sam => sam end)
    (default (u_UserPrincipalName u) (us_UserPrincipalName spec))
    (default (u_DisplayName u) (us_DisplayName spec))
    (default (u_GivenName u) (us_GivenName spec))
    (default (u_Surname u) (us_Surname spec))
    (default (u_Description u) (us_Description spec))
    (u_Container u)
    (default (u_Enabled u) (us_Enabled spec))
    (default (u_PasswordExpires u) (us_PasswordExpires spec))
    (default (u_ChangePasswordAtLogon u) (us_ChangePasswordAtLogon spec))
    (u_CanChangePassword u)
    (merged_expiration (us_AccountExpiration spec) (u_AccountExpiration u))
    (u_SID u).

Lemma rebuilt_uac_range u : 0 <= rebuilt_uac u < 2 ^ 32.
Proof. unfold rebuilt_uac. destruct (u_Enabled u), (u_PasswordExpires u); vm_compute; intuition congruence. Qed.
Lemma applied_uac_range spec u : 0 <= applyUAC (rebuilt_uac u) spec < 2 ^ 32.
Proof.
  unfold rebuilt_uac, applyUAC. destruct (u_Enabled u), (u_PasswordExpires u),
    (us_Enabled spec) as [[]|], (us_PasswordExpires spec) as [[]|]; vm_compute; intuition congruence.
Qed.

(** What the two modelled bits say after the update. *)
Lemma applied_uac_bits spec u :
  negb (has_bits (applyUAC (rebuilt_uac u) spec) UACAccountDisable)
    = default (u_Enabled u) (us_Enabled spec) /\
  negb (has_bits (applyUAC (rebuilt_uac u) spec) UACDontExpirePassword)
    = default (u_PasswordExpires u) (us_PasswordExpires spec).
Proof.
  unfold rebuilt_uac, applyUAC. destruct (u_Enabled u), (u_PasswordExpires u),
    (us_Enabled spec) as [[]|], (us_PasswordExpires spec) as [[]|]; done.
Qed.
Lemma rebuilt_uac_bits u :
  negb (has_bits (rebuilt_uac u) UACAccountDisable) = u_Enabled u /\
  negb (has_bits (rebuilt_uac u) UACDontExpirePassword) = u_PasswordExpires u.
Proof. unfold rebuilt_uac. by destruct (u_Enabled u), (u_PasswordExpires u). Qed.

(** A text of userAccountControl that decodes to the given bits. *)
Definition uac_text (text : gostring) (enabled expires : bool) : Prop :=
  exists v, match text with [] => Ret 0 | b :: l => ParseUint32 (b :: l) end = Ret v /\
    negb (has_bits v UACAccountDisable) = enabled /\
    negb (has_bits v UACDontExpirePassword) = expires.

Lemma written_uac spec u text :
  uac_text text (u_Enabled u) (u_PasswordExpires u) ->
  uac_text (default text (written "userAccountControl"%go
     (if decide (applyUAC (rebuilt_uac u) spec <> rebuilt_uac u)
      then [mkModification ModReplace "userAccountControl"%go
              [Uint32String (applyUAC (rebuilt_uac u) spec)]] else [])))
    (default (u_Enabled u) (us_Enabled spec)) (default (u_PasswordExpires u) (us_PasswordExpires spec)).
Proof.
  intros Ht. destruct (applied_uac_bits spec u) as [Ea Eb].
  destruct (decide (_ <> _)) as [_|Hn].
  - rewrite written_replace. cbn [default from_option]. unfold id.
    exists (applyUAC (rebuilt_uac u) spec). split_and!; [|done..].
    pose proof (Uint32String_parse _ (applied_uac_range spec u)) as Hp.
    destruct (Uint32String _) eqn:E; [|done]. by vm_compute in Hp.
  - destruct (rebuilt_uac_bits u) as [Ec Ed].
    assert (applyUAC (rebuilt_uac u) spec = rebuilt_uac u) as Heq
      by (destruct (decide (applyUAC (rebuilt_uac u) spec = rebuilt_uac u)); tauto).
    rewrite Heq in Ea, Eb. cbn. by rewrite <- Ea, <- Eb, Ec, Ed.
Qed.

Lemma written_expiration e text t :
  (exp_IsSet e = true -> - 2 ^ 63 <= exp_Value e < 2 ^ 63) -> FileTimeToTime text = Ret t ->
  FileTimeToTime (default text (written "accountExpires"%go (expiration_mods e)))
  = Ret (merged_expiration e t).
Proof.
  intros He Ht. unfold expiration_mods, merged_expiration. destruct (exp_IsSet e).
  - rewrite written_replace. by apply TimeToFileTime_parse, He.
  - destruct (exp_IsClear e); [|done]. by rewrite written_replace.
Qed.

Lemma written_pwdLastSet want current text :
  bool_decide (text = "0"%go) = current ->
  bool_decide (default text (written "pwdLastSet"%go
    match want with
    | Some w => if decide (w <> current)
                then [mkModification ModReplace "pwdLastSet"%go [if w : bool then "0"%go else "-1"%go]]
                else []
    | None => []
    end) = "0"%go) = default current want.
Proof.
  intros Hc. destruct want as [w|]; [|done]. destruct (decide (w <> current)) as [Hn|Hn].
  - rewrite written_replace. by destruct w.
  - cbn. rewrite Hc. destruct (decide (w = current)); [done|tauto].
Qed.
End user_delta.

Lemma user_delta `{Unicode} `{AdCore} (spec : UserSpec) (e : Entry) (u : User) :
  (forall a, In a userAttrs -> spelled a e) -> user_model e = Ret u ->
  (exp_IsSet (us_AccountExpiration spec) = true ->
     - 2 ^ 63 <= exp_Value (us_AccountExpiration spec) < 2 ^ 63) ->
  user_model (apply_mods e (user_mods spec u)) = Ret (merged_user spec u).
Proof.
  intros Hsp Hu Hexp. pose proof (user_changes_wf spec u) as Hwf.
  assert (forall attr, In attr userAttrs ->
    First (apply_mods e (user_mods spec u)) attr
    = default (First e attr) (written attr (user_mods spec u))) as HF.
  { intros attr Hin. rewrite user_mods_changes. apply First_delta; [done| |by apply Hsp].
    cbn in Hin. repeat destruct Hin as [<-|Hin]; try done; solve_other_spelling. }
  unfold user_model, uac_of, FirstString, mustSID in *. inv_ret Hu. injection Hu as Hu.
  pose proof (written_uac spec u (First e "userAccountControl"%go)) as Huac.
  pose proof (written_expiration (us_AccountExpiration spec) _ _ Hexp Ha2) as Hexpire.
  pose proof (written_pwdLastSet (us_ChangePasswordAtLogon spec) (u_ChangePasswordAtLogon u)
    (First e "pwdLastSet"%go)) as Hpwd.
  rewrite en_DN_apply_mods, !HF by (cbn; tauto). rewrite user_mods_changes.
  repeat match goal with
  | |- context [written ?a (mods_of (user_changes spec u))] =>
      first [ rewrite (written_absent _ _ a Hwf) by (cbn; intuition discriminate)
            | erewrite (written_in _ _ a _ Hwf) by (cbn; tauto) ]
  end.
  destruct Huac as (v & Hv & Hb1 & Hb2); [exists a1; split; [exact Ha1|by subst u]|].
  assert (First e "sAMAccountName"%go = u_SamAccountName u /\
    First e "userPrincipalName"%go = u_UserPrincipalName u /\
    First e "displayName"%go = u_DisplayName u /\ First e "givenName"%go = u_GivenName u /\
    First e "sn"%go = u_Surname u /\ First e "description"%go = u_Description u)
    as (-> & -> & -> & -> & -> & ->) by by subst u.
  rewrite written_name, !written_string, Hexpire, Hpwd, Hv by by subst u.
  cbn [default from_option]. unfold id. rewrite Ha, Ha0. cbn [mbind outcome_bind].
  cbn [mbind outcome_bind] in Ha3. rewrite Ha3. cbn [mbind outcome_bind].
  unfold merged_user. rewrite Hb1, Hb2. subst u. by destruct (us_SamAccountName spec).
Qed.

(** C13: a user update writes exactly the delta.  Take any entry that models
    to [u], and apply the modifications [Update] sends (as RFC 4511 says a
    directory does): the result models to [u] with precisely the fields the
    spec names replaced, an expiration rounded to 100 nanoseconds. *)
Theorem user_update_delta `{Unicode} `{AdCore} (spec : UserSpec) (e : Entry) (u : User) :
  (forall a, In a userAttrs -> spelled a e) -> user_model e = Ret u ->
  (exp_IsSet (us_AccountExpiration spec) = true ->
     - 2 ^ 63 <= exp_Value (us_AccountExpiration spec) < 2 ^ 63) ->
  user_model (apply_mods e (user_mods spec u)) = Ret (merged_user spec u).
Proof. apply user_delta. Qed.

Definition sample_user_entry : Entry :=
  mkEntry "CN=u,DC=example"%go
    [("objectGUID"%go, [sample_guid]); ("name"%go, ["u"%go]); ("sAMAccountName"%go, ["u"%go]);
     ("userAccountControl"%go, ["524800"%go]); ("description"%go, ["old"%go])].
Definition sample_user_spec : UserSpec :=
  mkUserSpec None [] "DC=example"%go None None None None (Some []) (Some false) None (Some true) None
    (mkExpiration true false 1700000000123456789) None.

Lemma user_update_delta_witness :
  exists u, @user_model ascii_unicode sample_adcore sample_user_entry = Ret u /\
    @user_model ascii_unicode sample_adcore (apply_mods sample_user_entry (user_mods sample_user_spec u))
    = Ret (merged_user sample_user_spec u) /\
    u_Enabled u = true /\ u_Enabled (merged_user sample_user_spec u) = false /\
    u_AccountExpiration (merged_user sample_user_spec u) = Some 1700000000123456700.
Proof.
  eexists. split; [reflexivity|]. split; [|split; [reflexivity|split; reflexivity]].
  apply (@user_update_delta ascii_unicode sample_adcore); [|reflexivity|intros _; cbn; lia].
  intros a Ha k vs Hin Hf. cbn in Ha, Hin.
  repeat destruct Hin as [[= <- <-]|Hin]; try done; repeat destruct Ha as [<-|Ha]; try done;
    vm_compute in Hf; discriminate.
Defined.

(** The same update clears a bit of the word that no field models: the account
    above was trusted for delegation (0x80000). *)
Lemma user_update_clears_other_bits :
  exists u, @user_model ascii_unicode sample_adcore sample_user_entry = Ret u /\
    ParseUint32 (@First ascii_unicode sample_user_entry "userAccountControl"%go) = Ret 0x80200 /\
    ParseUint32 (@First ascii_unicode
      (apply_mods sample_user_entry (user_mods disable_spec u)) "userAccountControl"%go) = Ret 0x202.
Proof. eexists. split; [reflexivity|]. split; reflexivity. Qed.

(** ** Creating a user *)

Section create.
Context `{Unicode} `{AdCore} `{Env}.

Lemma withConn_tell_Ret c op (f : Handle -> World -> option error * World) s s' :
  1 <= c_MaxAttempts c -> withConn c op tt (fun h => tell (f h)) s = (Ret tt, s') ->
  exists h w, fst (f h w) = None.
Proof.
  intros Hmax Hw. apply withConn_Ret in Hw as (h & s1 & s2 & Hf); [|done].
  exists h, (st_world s1). unfold tell in Hf. by destruct (f h (st_world s1)) as [[e|] w].
Qed.

(** *** The writes of a creation *)

(** What of go-adcore's [ByDN] the creation relies on: the identity it makes
    has the form "dn" and the name as its argument. *)
Definition names_dn (dn : gostring) : Prop :=
  IdentityForm (ByDN dn) = "dn"%go /\ IdentityArg (ByDN dn) = dn.

Definition password_write (dn : gostring) (p : Secret) : write :=
  WModify dn [mkModification ModReplace "unicodePwd"%go [utf16LEQuoted (secret_Reveal p)]] [].
Definition password_writes (spec : UserSpec) : list write :=
  match wanted_password spec with Some p => [password_write (user_dn spec) p] | None => [] end.
Definition post_writes (spec : UserSpec) : list write :=
  match user_post spec with [] => [] | post => [WModify (user_dn spec) post []] end.
Definition add_write (spec : UserSpec) : write := WAdd (user_dn spec) (user_add spec).

(** The edit of the descriptor, for an account that must not change its
    password: written only when it changes the descriptor that was read. *)
Definition deny_writes (spec : UserSpec) (l : list write) : Prop :=
  if decide (us_CanChangePassword spec = Some false) then
    exists sd out changed, descriptor_read (user_dn spec) sd /\
      SetDeniedObjectRight sd true RightControlAccess changePasswordRight changePasswordTrustees
        = Ret (out, changed) /\
      l = if changed : bool then [descriptor_write (user_dn spec) out] else []
  else l = [].

(** A value of userAccountControl under which the account is disabled, and the
    writes that leave another value there (or none). *)
Definition keeps_disabled (v : bytes) : bool :=
  match ParseUint32 v with Ret uac => has_bits uac UACAccountDisable | _ => false end.
Definition enabling_values (vals : list bytes) : bool :=
  match vals with [] => true | _ => negb (forallb keeps_disabled vals) end.
Definition is_uac (attr : gostring) : bool := bool_decide (attr = "userAccountControl"%go).
Definition uac_values (attrs : list Attribute) : list bytes :=
  concat (map (fun a => if is_uac (a_Type a) then a_Vals a else []) attrs).
Definition enables (x : write) : bool :=
  match x with
  | WAdd _ attrs => enabling_values (uac_values attrs)
  | WModify _ mods _ => existsb (fun m => is_uac (m_Type m) && enabling_values (m_Vals m)) mods
  | WModifyDN _ _ _ _ | WDelete _ => false
  end.

Lemma uac_values_app l1 l2 : uac_values (l1 ++ l2) = uac_values l1 ++ uac_values l2.
Proof. unfold uac_values. by rewrite map_app, concat_app. Qed.

Lemma uac_values_appendStringAttr add attr v :
  is_uac attr = false -> uac_values (appendStringAttr add attr v) = uac_values add.
Proof.
  intros Ha. destruct v as [[|b v]|]; try done. unfold appendStringAttr. rewrite uac_values_app.
  unfold uac_values at 2. cbn. by rewrite Ha, app_nil_r.
Qed.

Lemma initial_uac_range spec : 0 <= initial_uac spec < 2 ^ 32.
Proof. unfold initial_uac. by case_decide. Qed.

(** The account is created disabled. *)
Lemma user_add_disabled spec :
  uac_values (user_add spec) = [Uint32String (initial_uac spec)] /\ enables (add_write spec) = false.
Proof.
  assert (uac_values (user_add spec) = [Uint32String (initial_uac spec)]) as E.
  { unfold user_add. cbv zeta. cbn [fold_left fst snd].
    destruct (exp_IsSet _); rewrite ?uac_values_app, !uac_values_appendStringAttr by done; done. }
  split; [exact E|]. cbn. rewrite E. cbn. unfold keeps_disabled.
  rewrite Uint32String_parse by apply initial_uac_range. unfold initial_uac. by case_decide.
Qed.

(** Where an enabling write can be in a creation, or in a part of one. *)
Lemma enables_post spec : existsb enables (post_writes spec) = true -> us_Enabled spec = Some true.
Proof.
  unfold post_writes, user_post. destruct (decide (us_Enabled spec = Some true)); [done|].
  by case_decide.
Qed.

Lemma password_writes_harmless spec : existsb enables (password_writes spec) = false.
Proof. unfold password_writes. by destruct (wanted_password spec). Qed.
(** What a creation writes, in this order; [rest] is what follows: the
    descriptor and the wait for replication. *)
Definition creation (spec : UserSpec) (rest : list write) : list write :=
  [add_write spec] ++ password_writes spec ++ post_writes spec ++ rest.
(** The beginning of a creation. *)
Definition creation_begun (spec : UserSpec) (l : list write) : Prop :=
  exists rest, existsb enables rest = false /\ l `prefix_of` creation spec rest.

Section logs.
Context (log : World -> list (event Handle)) (Hlog : journal log) (c : core) (spec : UserSpec)
  (Hmax : 1 <= c_MaxAttempts c) (Hdn : names_dn (user_dn spec)).

Lemma logs_create_password :
  logs log (create_password c spec (user_dn spec)) (fun _ l => accepted l = password_writes spec)
    (fun _ l => accepted l = [] \/ accepted l = password_writes spec).
Proof using Hdn Hlog Hmax.
  unfold create_password, password_writes. destruct (wanted_password spec) as [p|] eqn:Ep;
    [|by apply logs_ret].
  apply logs_with_lock; [|by left]. unfold setPasswordLocked.
  destruct (secret_IsZero p) eqn:Ez.
  { apply logs_lift. by left. }
  unfold resolveDN. destruct Hdn as [Hf Ha]. rewrite decide_True by done. rewrite Ha.
  eapply logs_map_error with (X0 := fun _ => at_most (password_write (user_dn spec) p)); [|done|done].
  apply (logs_withConn_at_most log Hlog c "User.SetPassword"%go (password_write (user_dn spec) p) Hmax).
Qed.

Lemma logs_create_post op :
  logs log (create_post c op spec (user_dn spec)) (fun _ l => accepted l = post_writes spec)
    (fun _ l => accepted l = [] \/ accepted l = post_writes spec).
Proof using Hlog Hmax.
  unfold create_post, post_writes. destruct (user_post spec) as [|m post]; [by apply logs_ret|].
  apply (logs_withConn_at_most log Hlog c op (WModify (user_dn spec) (m :: post) []) Hmax).
Qed.

Lemma logs_create_can_change op :
  logs log (create_can_change c op spec (user_dn spec)) (fun _ l => deny_writes spec (accepted l))
    (fun _ l => accepted l = [] \/ exists sd, accepted l = [descriptor_write (user_dn spec) sd]).
Proof using Hlog Hmax.
  unfold create_can_change, deny_writes. case_decide; [|by apply logs_ret].
  eapply logs_mono; [by apply logs_edit_descriptor|done..].
Qed.

(** The journal of a creation: everything, in order, when it succeeds, and a
    beginning of it otherwise. *)
Definition created (r : User * option error) (l : list write) : Prop :=
  (exists s1, fst (User_Get c (ByDN (user_dn spec)) s1) = Ret (fst r)) /\
  exists sd syncs, deny_writes spec sd /\ Forall (sync_write (u_GUID (fst r))) syncs /\
    l = creation spec (sd ++ syncs).

Lemma begun_add l : l = [] \/ l = [add_write spec] -> creation_begun spec l.
Proof using Type. intros [->| ->]; exists []; (split; [done|]); by eexists. Qed.

Lemma begun_password l :
  l = [] \/ l = password_writes spec -> creation_begun spec ([add_write spec] ++ l).
Proof using Type.
  intros [->| ->]; [by apply begun_add; right|]. exists []. split; [done|]. unfold creation.
  rewrite app_assoc. by eexists.
Qed.

Lemma begun_post l :
  l = [] \/ l = post_writes spec ->
  creation_begun spec (([add_write spec] ++ password_writes spec) ++ l).
Proof using Type.
  intros Hl. exists []. split; [done|]. unfold creation. rewrite (app_assoc [_]).
  apply prefix_app. destruct Hl as [->| ->]; by eexists.
Qed.

Lemma begun_rest l :
  existsb enables l = false ->
  creation_begun spec ((([add_write spec] ++ password_writes spec) ++ post_writes spec) ++ l).
Proof using Type. intros Hl. exists l. split; [done|]. unfold creation. by rewrite <- !app_assoc. Qed.

Lemma logs_create_add :
  logs log (on_error (withConn c "User.Create"%go tt (fun h => conn_Add h (user_dn spec) (user_add spec)))
      (fun err =>
         err ← annotateAlreadyExists c err (user_dn spec)
                 (deletedFilter "user"%go (user_name spec) (us_Container spec));
         fail err))
    (fun _ l => accepted l = [add_write spec]) (fun _ l => creation_begun spec (accepted l)).
Proof using Hlog Hmax.
  pose proof (silent_reading log Hlog) as HR; pose proof (silent_preorder log) as HP.
  eapply logs_on_error; [apply (logs_withConn_write log Hlog c _ (add_write spec) Hmax)|done|intros l; apply begun_add|].
  intros e l1 [Hl1 _].
  apply logs_silent_bind; [apply (annotateAlreadyExists_reads _ HR)|..].
  - intros l Hl. apply begun_add. left. by rewrite accepted_app, Hl1.
  - intros e' l s Hl _. apply begun_add. left. by rewrite accepted_app, Hl1.
  - intros e' l2 s Hl2 _. apply logs_lift, begun_add. left. by rewrite !accepted_app, Hl1, Hl2.
Qed.

Lemma sync_harmless guid l : Forall (sync_write guid) l -> existsb enables l = false.
Proof using Type. by induction 1 as [|x l [t ->] _ IH]. Qed.

Lemma deny_harmless l : deny_writes spec l -> existsb enables l = false.
Proof using Type.
  unfold deny_writes. case_decide; [|by intros ->]. intros (sd & out & [] & _ & _ & ->); done.
Qed.

(** Reading the account back, and the wait. *)
Lemma logs_create_end fuel sd (l1 : list (event Handle)) :
  let begun := [add_write spec] ++ password_writes spec ++ post_writes spec in
  accepted l1 = begun ++ sd -> deny_writes spec sd ->
  logs log (created ← User_Get c (ByDN (user_dn spec)); with_replication c fuel (u_GUID created) created)
    (fun r l => created r (accepted (l1 ++ l))) (fun _ l => creation_begun spec (accepted (l1 ++ l))).
Proof using Hlog.
  intros begun Hl1 Hsd. pose proof (silent_reading log Hlog) as HR; pose proof (silent_preorder log) as HP.
  pose proof (deny_harmless _ Hsd) as Hh.
  assert (forall l, existsb enables l = false -> creation_begun spec (begun ++ sd ++ l)) as Hbegun.
  { intros l Hl. exists (sd ++ l). rewrite existsb_app, Hh, Hl. split; [done|]. unfold begun, creation. by rewrite <- !app_assoc. }
  apply logs_silent_bind.
  - unfold User_Get, modelled. solve_respects.
  - intros l Hl. rewrite accepted_app, Hl, Hl1, <- app_assoc. by apply Hbegun.
  - intros e l s Hl _. rewrite accepted_app, Hl, Hl1, <- app_assoc. by apply Hbegun.
  - intros u l2 s Hl2 Hu. eapply logs_mono; [by apply logs_with_replication|..]; cbn beta.
    + intros [u' err] l [Hu' Hl]. cbn in Hu'. subst u'. split; [by exists s|].
      exists sd, (accepted l). split_and!; [done|done|]. rewrite !accepted_app, Hl1, Hl2. cbn [app].
      unfold begun, creation. by rewrite <- !app_assoc.
    + intros r l Hl. rewrite !accepted_app, Hl1, Hl2, <- app_assoc. apply Hbegun. by eapply sync_harmless.
Qed.

Lemma User_Create_logs fuel :
  logs log (User_Create c fuel spec) (fun r l => created r (accepted l))
    (fun _ l => creation_begun spec (accepted l)).
Proof using Hdn Hlog Hmax.
  unfold User_Create. cbv zeta. destruct (UserSpec_Validate spec _) as [ev|].
  { apply (logs_lift log (Fail ev)), begun_add. by left. }
  eapply logs_bind; [apply (logs_lift log (Ret tt) (fun _ l => l = [])); done|]. intros _ l0 ->.
  eapply logs_bind; [exact logs_create_add|]. intros [] l1 Hl1. cbn beta in Hl1.
  eapply logs_bind.
  { eapply logs_mono; [apply logs_create_password|done|]. intros r l Hl. cbn beta. rewrite app_nil_l.
    rewrite accepted_app, Hl1. by apply begun_password. }
  intros [] l2 Hl2. cbn beta in Hl2. eapply logs_bind.
  { eapply logs_mono; [apply logs_create_post|done|]. intros r l Hl. cbn beta. rewrite app_nil_l.
    rewrite !accepted_app, Hl1, Hl2, app_assoc. by apply begun_post. }
  intros [] l3 Hl3. cbn beta in Hl3. eapply logs_bind.
  { eapply logs_mono; [apply logs_create_can_change|done|]. intros r l Hl. cbn beta. rewrite app_nil_l.
    rewrite !accepted_app, Hl1, Hl2, Hl3, !app_assoc. apply begun_rest.
    by destruct Hl as [->|[sd ->]]. }
  intros [] l4 Hl4. cbn beta in Hl4.
  eapply logs_mono; [apply (logs_create_end fuel (accepted l4) (l1 ++ l2 ++ l3 ++ l4))|..].
  - by rewrite !accepted_app, Hl1, Hl2, Hl3, <- !app_assoc.
  - exact Hl4.
  - intros r l Hr. cbn beta in *. rewrite app_nil_l. by rewrite <- !app_assoc in Hr.
  - intros r l Hr. cbn beta in *. rewrite app_nil_l. by rewrite <- !app_assoc in Hr.
Qed.
End logs.

Lemma split_after (f : write -> bool) a b l1 x l2 :
  existsb f a = false -> f x = true -> l1 ++ x :: l2 `prefix_of` a ++ b -> a `prefix_of` l1.
Proof.
  revert l1. induction a as [|y a IH]; intros l1; [by exists l1|].
  cbn [existsb app]. intros [Hy Ha]%orb_false_iff Hx Hp. destruct l1 as [|z l1].
  - apply prefix_cons_inv_1 in Hp. congruence.
  - pose proof (prefix_cons_inv_1 _ _ _ _ Hp) as ->. apply prefix_cons_inv_2 in Hp.
    by apply prefix_cons, IH.
Qed.

(** In a beginning of a creation, an enabling write comes after the password. *)
Lemma begun_enables spec l l1 x l2 :
  creation_begun spec l -> l = l1 ++ x :: l2 -> enables x = true ->
  us_Enabled spec = Some true /\
  forall p, wanted_password spec = Some p -> In (password_write (user_dn spec) p) l1.
Proof.
  intros (rest & Hrest & Hp) -> Hx. split.
  - apply enables_post.
    assert (existsb enables (creation spec rest) = true) as He.
    { destruct Hp as [k ->]. rewrite !existsb_app. cbn [existsb]. rewrite Hx. by rewrite orb_true_r. }
    revert He. unfold creation. rewrite !existsb_app, Hrest, password_writes_harmless.
    cbn [existsb]. rewrite (proj2 (user_add_disabled spec)). by rewrite !orb_false_r.
  - intros p Hpw. unfold creation in Hp. rewrite app_assoc in Hp.
    apply (split_after enables) in Hp as [k ->]; [|by rewrite existsb_app, password_writes_harmless;
      cbn [existsb]; rewrite (proj2 (user_add_disabled spec))|done].
    unfold password_writes. rewrite Hpw. cbn. tauto.
Qed.
End create.

(** C12: what a creation that succeeds has done.  The writes the directory
    accepted are exactly these, in this order: the Add of the account, whose
    one userAccountControl value keeps it disabled; the password in its UTF-16
    form, on that account, when the spec has one; the one Modify that expires
    the password or enables the account, when the spec asks for either; the
    edited descriptor, when the spec denies changing the password and the
    descriptor did not; requests to replicate the account.  The model returned
    was read back from the directory. *)
Theorem User_Create_success `{Unicode} `{AdCore} `{Env} (log : World -> list (event Handle))
    (c : core) (fuel : nat) (spec : UserSpec) (s s' : St) (u : User) (err : option error) :
  journal log -> 1 <= c_MaxAttempts c -> names_dn (user_dn spec) ->
  User_Create c fuel spec s = (Ret (u, err), s') ->
  (exists l sd syncs, log (st_world s') = log (st_world s) ++ l /\
     accepted l =
       [WAdd (user_dn spec) (user_add spec)] ++
       (match wanted_password spec with
        | Some p => [WModify (user_dn spec)
                       [mkModification ModReplace "unicodePwd"%go [utf16LEQuoted (secret_Reveal p)]] []]
        | None => []
        end) ++
       (match user_post spec with [] => [] | post => [WModify (user_dn spec) post []] end) ++
       sd ++ syncs /\
     deny_writes spec sd /\ Forall (sync_write (u_GUID u)) syncs) /\
  (uac_values (user_add spec) = [Uint32String (initial_uac spec)] /\
   has_bits (initial_uac spec) UACAccountDisable = true) /\
  (exists s1, fst (User_Get c (ByDN (user_dn spec)) s1) = Ret u).
Proof.
  intros Hlog Hmax Hdn Hr.
  destruct (User_Create_logs log Hlog c spec Hmax Hdn fuel s) as (l & Hl & Ho). rewrite Hr in Hl, Ho.
  destruct Ho as (Hget & sd & syncs & Hsd & Hsync & Hacc). split_and!.
  - exists l, sd, syncs. by split_and!.
  - apply user_add_disabled.
  - unfold initial_uac. by case_decide.
  - exact Hget.
Qed.

(** C9: no account is enabled without its password.  However [User.Create]
    ends, every write it had accepted that leaves the account enabled (a
    userAccountControl without the disable bit, in the Add or in a Modify)
    was asked for by the spec and comes after the accepted write of the spec's
    password.  So when the directory refuses the password, the account stays
    as it was added, disabled; and a creation that succeeds has set the
    password. *)
Theorem User_Create_never_enabled_early `{Unicode} `{AdCore} `{Env}
    (log : World -> list (event Handle)) (c : core) (fuel : nat) (spec : UserSpec) (s s' : St)
    (r : outcome (User * option error)) :
  journal log -> 1 <= c_MaxAttempts c -> names_dn (user_dn spec) ->
  User_Create c fuel spec s = (r, s') ->
  exists l, log (st_world s') = log (st_world s) ++ l /\
    (forall before x after, accepted l = before ++ x :: after -> enables x = true ->
       us_Enabled spec = Some true /\
       forall p, wanted_password spec = Some p -> In (password_write (user_dn spec) p) before) /\
    (forall v p, r = Ret v -> wanted_password spec = Some p ->
       In (password_write (user_dn spec) p) (accepted l)).
Proof.
  intros Hlog Hmax Hdn Hr.
  destruct (User_Create_logs log Hlog c spec Hmax Hdn fuel s) as (l & Hl & Ho). rewrite Hr in Hl, Ho.
  exists l. split; [exact Hl|].
  assert (creation_begun spec (accepted l)) as Hb.
  { cbn [fst] in Ho. destruct r as [v|e| | |]; [|exact Ho..].
    destruct Ho as (_ & sd & syncs & Hsd & Hsync & ->). exists (sd ++ syncs). split; [|done].
    by rewrite existsb_app, (deny_harmless spec sd), (sync_harmless (u_GUID (fst v)) syncs). }
  split; [intros; by eapply begun_enables|].
  intros v p -> Hp. destruct Ho as (_ & sd & syncs & _ & _ & ->).
  unfold creation, password_writes. rewrite Hp. cbn. tauto.
Qed.

(** *** Witnesses *)

Definition enabled_spec : UserSpec :=
  mkUserSpec None "u"%go "DC=example"%go None None None None None (Some true) None None None
    (mkExpiration false false 0) (Some (mkSecret false "pw"%go)).


(** A scripted directory with its journal. *)
Definition journal_env : Env := with_journal script_env.
Definition journal_state (searches : list (SearchResult + error)) (replies : list (option error))
    : @St journal_env :=
  @mkSt journal_env (mkScript searches replies 0 0 [], []) (NewPool 1) [] None.
Definition sample_names_dn dn : @names_dn sample_adcore dn := conj eq_refl eq_refl.

Lemma User_Create_success_witness :
  exists u sd syncs,
    accepted (snd (st_world (snd (@User_Create ascii_unicode sample_adcore journal_env sample_core 1
      enabled_spec (journal_state [answer [sample_user_entry]] [])))))
    = [WAdd "CN=u,DC=example"%go (user_add enabled_spec);
       WModify "CN=u,DC=example"%go
         [mkModification ModReplace "unicodePwd"%go [[x22; x00; x70; x00; x77; x00; x22; x00]]] [];
       WModify "CN=u,DC=example"%go [mkModification ModReplace "userAccountControl"%go ["512"%go]] []]
      ++ sd ++ syncs /\ u_SamAccountName u = "u"%go.
Proof.
  set (s := journal_state [answer [sample_user_entry]] []).
  set (run := @User_Create ascii_unicode sample_adcore journal_env sample_core 1 enabled_spec s).
  assert (exists u err, fst run = Ret (u, err) /\ u_SamAccountName u = "u"%go) as (u & err & Hr & Hu).
  { eexists _, _. split; vm_compute; reflexivity. }
  destruct (@User_Create_success ascii_unicode sample_adcore journal_env snd sample_core 1 enabled_spec s
    (snd run) u err (with_journal_journal script_env) ltac:(discriminate) (sample_names_dn _)
    ltac:(rewrite <- Hr; apply surjective_pairing)) as ((l & sd & syncs & Hl & Hacc & _) & _).
  exists u, sd, syncs. split; [|exact Hu]. rewrite Hl. exact Hacc.
Defined.

(** The directory refuses the password: of the three writes the one before it
    is accepted. *)
Lemma User_Create_never_enabled_early_witness :
  let run := @User_Create ascii_unicode sample_adcore journal_env sample_core 1 enabled_spec
               (journal_state [] [None; Some refused]) in
  accepted (snd (st_world (snd run))) = [WAdd "CN=u,DC=example"%go (user_add enabled_spec)] /\
  forall before x after, accepted (snd (st_world (snd run))) = before ++ x :: after ->
    enables x = true ->
    In (@password_write "CN=u,DC=example"%go (mkSecret false "pw"%go)) before.
Proof.
  intros run. split; [vm_compute; reflexivity|].
  destruct (@User_Create_never_enabled_early ascii_unicode sample_adcore journal_env snd sample_core 1
    enabled_spec (journal_state [] [None; Some refused]) (snd run) (fst run)
    (with_journal_journal script_env) ltac:(discriminate) (sample_names_dn _)
    ltac:(apply surjective_pairing)) as (l & Hl & Hen & _).
  intros before x after Hb Hx. rewrite Hl in Hb.
  exact (proj2 (Hen before x after Hb Hx) (mkSecret false "pw"%go) eq_refl).
Defined.
