(* ===== verification/Repeat.v ===== *)
(** * A group update, end to end and repeated

    An update against a directory that shows one object and stores what is
    written to it: the whole operation, with its lock, its reads and its write,
    leaves the object the spec asks for, and a second update with the same spec
    finds nothing to change.  The lemmas of the same kind on a user's delta are
    what Accounts.v builds on. *)
From S2P Require Export Direct Groups Users.

(** ** Groups *)

Section groups.
Context `{Unicode} `{AdCore} `{Env} (c : core) (get : World -> Entry).

Lemma group_model_DN e g : group_model e = Ret g -> g_DN g = en_DN e.
Proof. unfold group_model. intros Hg. inv_ret Hg. destruct (ScopeAndCategory _). by injection Hg as <-. Qed.

(** A group that came from the directory has a scope and a category, so
    the words an update compares are those of the merged group. *)
Lemma group_model_type e g :
  group_model e = Ret g -> normal_scope (g_Scope g) = g_Scope g /\ normal_category (g_Category g) = g_Category g.
Proof.
  unfold group_model. intros Hg. inv_ret Hg. unfold ScopeAndCategory in Hg. injection Hg as <-. cbn.
  split; repeat (case_match; try done).
Qed.

(** The scope and category of the spec are ones that exist. *)
Definition known_type (spec : GroupSpec) : Prop :=
  (gs_Scope spec = GroupScopeUnset \/ normal_scope (gs_Scope spec) = gs_Scope spec) /\
  (gs_Category spec = GroupCategoryUnset \/ normal_category (gs_Category spec) = gs_Category spec).

Lemma settled_type spec g :
  known_type spec -> normal_scope (g_Scope g) = g_Scope g -> normal_category (g_Category g) = g_Category g ->
  wanted_type spec (merged_group spec g) = (g_Scope (merged_group spec g), g_Category (merged_group spec g)).
Proof.
  unfold wanted_type, merged_group. intros [Hsc Hcat] Hs Hc. cbn.
  f_equal; (case_decide as Hd; [done|]); [destruct Hsc|destruct Hcat]; congruence.
Qed.

Lemma settled_string attr want current : appendStringMod [] attr want (default current want) = [].
Proof. apply appendStringMod_nil. destruct want; [by right|by left]. Qed.

Lemma merged_group_settled spec e g :
  known_type spec -> group_model e = Ret g -> group_mods spec (merged_group spec g) = [].
Proof.
  intros Hspec [Hs Hc]%group_model_type. rewrite group_mods_changes. unfold mods_of, group_changes.
  rewrite settled_type by done. cbn [map snd fst concat]. rewrite (decide_False (P := _ \/ _)) by naive_solver.
  unfold merged_group, wanted_type. cbn. by rewrite !settled_string, decide_False by (destruct (gs_SamAccountName spec); naive_solver).
Qed.

Lemma merged_group_again spec e g :
  known_type spec -> group_model e = Ret g -> merged_group spec (merged_group spec g) = merged_group spec g.
Proof.
  intros Hspec [Hs Hc]%group_model_type. unfold merged_group at 1. rewrite settled_type by done.
  unfold merged_group, wanted_type. cbn.
  assert (forall sc, normal_scope (normal_scope sc) = normal_scope sc) as -> by by intros [].
  assert (forall cat, normal_category (normal_category cat) = normal_category cat) as -> by by intros [].
  f_equal; by destruct (gs_SamAccountName spec), (gs_Description spec), (gs_ManagedBy spec).
Qed.

(** One update that neither renames nor moves. *)
Lemma Group_Update_once fuel id spec g s :
  still -> 1 <= c_MaxAttempts c -> repl_Wait (c_repl c) = false -> stores get ->
  finds c get "group"%go groupAttrs [] id -> finds c get "group"%go groupAttrs [] (ByGUID (g_GUID g)) ->
  GroupSpec_Validate spec "Group.Update"%go false = None ->
  gs_Name spec = g_Name g -> EqualFoldDN (gs_Container spec) (g_Container g) = inl true ->
  group_model (get (st_world s)) = Ret g ->
  group_model (apply_mods (get (st_world s)) (group_mods spec g)) = Ret (merged_group spec g) ->
  ready s -> unlocked (IdentityArg id) s ->
  exists s', Group_Update c fuel id spec s = (Ret (merged_group spec g, None), s') /\
    get (st_world s') = apply_mods (get (st_world s)) (group_mods spec g) /\
    (group_mods spec g = [] -> st_world s' = st_world s) /\ ready s' /\ st_locks s' = st_locks s.
Proof.
  intros Hst Hmax Hrep Hkeep Hid Hguid Hval Hname Hcont Hg Hg' Hs Hlock.
  destruct (modify_object_yields c get Hst Hmax "Group.Update"%go id (g_DN g) (group_mods spec g) (st_world s))
    as (w' & Hget & Hsame & Hmod); [done|by apply group_model_DN|].
  destruct (validated_yields (GroupSpec_Validate spec "Group.Update"%go false) (IdentityArg id)
    (current ← Group_Get c id;
    modify_object c "Group.Update"%go id (g_DN current) (group_mods spec current);;
    rename_move c "Group.Update"%go id (g_DN current) (g_Name current) (g_Container current)
      (gs_Name spec) (gs_Container spec);;
    updated ← Group_Get c (ByGUID (g_GUID current));
    with_replication c fuel (g_GUID updated) updated)
    s (Ret (merged_group spec g, None)) w') as (s' & E & Hw & Hs' & Hl); [done..| |].
  - eapply yields_bind; [eapply get_yields; [done..|by apply finds_found|done]|]. eapply yields_bind; [exact Hmod|].
    eapply yields_bind; [rewrite Hname; by apply rename_move_stays|].
    eapply yields_bind; [eapply get_yields; [done..|by apply finds_found|by rewrite Hget]|]. by apply no_replication.
  - exists s'. rewrite Hw. by split_and!.
Qed.
End groups.

(** ** Users *)

Section users.
Context `{Unicode} `{AdCore} `{Env} (c : core) (get : World -> Entry).

Lemma user_model_DN e u : user_model e = Ret u -> u_DN u = en_DN e.
Proof. unfold user_model. intros Hu. inv_ret Hu. by injection Hu as <-. Qed.

Lemma user_other_spelling spec u attr m :
  In attr userAttrs -> In m (map fst (user_changes spec u)) -> m = attr \/ EqualFold m attr = false.
Proof.
  intros Hin. cbn in Hin. revert m. repeat destruct Hin as [<-|Hin]; try done; solve_other_spelling.
Qed.

Lemma settled_uac spec u :
  applyUAC (rebuilt_uac (merged_user spec u)) spec = rebuilt_uac (merged_user spec u).
Proof.
  unfold applyUAC, rebuilt_uac, merged_user. cbn.
  by destruct (us_Enabled spec) as [[]|], (us_PasswordExpires spec) as [[]|], (u_Enabled u), (u_PasswordExpires u).
Qed.

(** A second update sends the expiration again, if the spec has one, and
    nothing else. *)
Lemma merged_user_settled spec u :
  user_mods spec (merged_user spec u) = expiration_mods (us_AccountExpiration spec).
Proof.
  rewrite user_mods_changes. unfold mods_of, user_changes. rewrite settled_uac.
  cbn [map snd concat]. rewrite (decide_False (P := _ <> _)) by tauto.
  unfold merged_user. cbn [u_SamAccountName u_UserPrincipalName u_DisplayName u_GivenName u_Surname
    u_Description u_ChangePasswordAtLogon].
  rewrite !settled_string, decide_False by (destruct (us_SamAccountName spec); naive_solver).
  assert (match us_ChangePasswordAtLogon spec with
          | Some w => if decide (w <> default (u_ChangePasswordAtLogon u) (us_ChangePasswordAtLogon spec))
                      then [mkModification ModReplace "pwdLastSet"%go [if w : bool then "0"%go else "-1"%go]]
                      else []
          | None => []
          end = []) as ->.
  { destruct (us_ChangePasswordAtLogon spec) as [w|]; [|done]. cbn. by rewrite decide_False by tauto. }
  by rewrite !app_nil_r.
Qed.

Lemma merged_user_again spec u : merged_user spec (merged_user spec u) = merged_user spec u.
Proof.
  assert (forall A (o : option A) a, default (default a o) o = default a o) as Hdef by by intros A [].
  unfold merged_user. cbn. rewrite !Hdef. f_equal; [by destruct (us_SamAccountName spec)|].
  unfold merged_expiration. by destruct (exp_IsSet (us_AccountExpiration spec)), (exp_IsClear (us_AccountExpiration spec)).
Qed.

End users.

Lemma spelled_mods `{Unicode} attr e mods :
  Forall (fun m => m_Type m = attr \/ EqualFold (m_Type m) attr = false) mods -> spelled attr e ->
  spelled attr (apply_mods e mods).
Proof.
  unfold apply_mods. intros Hm. revert e. induction Hm as [|m mods Hm _ IH]; intros e He; [done|].
  cbn. by apply IH, spelled_apply.
Qed.

(** ** Properties *)

(** Repeating a group update changes nothing.  Against a directory that
    finds the object under the identity and its GUID and stores what is
    written to it, an update that neither renames nor moves succeeds with the
    merged group, leaves the entry that has exactly the delta applied, and the
    same update again returns the same group and sends no write. *)
Theorem Group_Update_twice `{Unicode} `{AdCore} `{Env} (c : core) (get : World -> Entry) (fuel : nat)
    (id : Identity) (spec : GroupSpec) (g : Group) (s : St) :
  still -> 1 <= c_MaxAttempts c -> repl_Wait (c_repl c) = false -> stores get ->
  finds c get "group"%go groupAttrs [] id -> finds c get "group"%go groupAttrs [] (ByGUID (g_GUID g)) ->
  GroupSpec_Validate spec "Group.Update"%go false = None -> known_type spec ->
  gs_Name spec = g_Name g -> EqualFoldDN (gs_Container spec) (g_Container g) = inl true ->
  (forall a, In a groupAttrs -> spelled a (get (st_world s))) ->
  group_model (get (st_world s)) = Ret g -> ready s -> unlocked (IdentityArg id) s ->
  exists s1 s2,
    Group_Update c fuel id spec s = (Ret (merged_group spec g, None), s1) /\
    get (st_world s1) = apply_mods (get (st_world s)) (group_mods spec g) /\
    Group_Update c fuel id spec s1 = (Ret (merged_group spec g, None), s2) /\
    st_world s2 = st_world s1.
Proof.
  intros Hst Hmax Hrep Hkeep Hid Hguid Hval Htype Hname Hcont Hsp Hg Hs Hlock.
  pose proof (group_update_delta spec _ g Hsp Hg) as Hg1.
  destruct (Group_Update_once c get fuel id spec g s) as (s1 & E1 & Hget1 & _ & Hs1 & Hl1); [done..|].
  pose proof (merged_group_settled spec _ g Htype Hg) as Hnil. rewrite <- Hget1 in Hg1.
  pose proof (merged_group_again spec _ g Htype Hg) as Hagain.
  destruct (Group_Update_once c get fuel id spec (merged_group spec g) s1)
    as (s2 & E2 & _ & Hw2 & _);
    [done..|exact Hname|exact Hcont|exact Hg1|by rewrite Hnil, Hagain|done|by apply (unlocked_eq _ s)|].
  rewrite Hagain in E2. exists s1, s2. split_and!; [done..|by apply Hw2].
Qed.

(** ** Witnesses *)

(** Every attribute of a concrete entry is spelled as it is asked for. *)
Ltac solve_spelled :=
  let a := fresh in let Ha := fresh "Ha" in let Hin := fresh "Hin" in let Hf := fresh "Hf" in
  intros a Ha ? ? Hin Hf; cbn in Ha, Hin;
  repeat destruct Hin as [[= <- <-]|Hin]; try done; repeat destruct Ha as [<-|Ha]; try done;
    vm_compute in Hf; discriminate.

Section samples.
#[local] Existing Instances ascii_unicode sample_adcore.

(** A directory of one object, whose state is its entry. *)
Definition entry_env : Env := {|
  World := Entry;
  Handle := unit;
  env_dial w := (inl tt, w);
  env_bind h w := (None, w);
  env_search h req w := (inl (mkSearchResult [w] []), w);
  env_add h dn attrs w := (Some (ErrNew "refused"%go), w);
  env_modify h dn mods ctrls w := (None, apply_mods w mods);
  env_modifydn h dn rdn del sup w := (Some (ErrNew "refused"%go), w);
  env_delete h dn w := (Some (ErrNew "refused"%go), w);
  env_close h w := (None, w);
  env_select w := (None, w);
  env_backoff n w := (None, w);
  env_dial_other host w := (inl tt, w);
  env_now w := (0, w);
  env_wait d w := (None, w);
  Mutex := list gostring;
  mutex_lock key l := if decide (key ∈ l) then None else Some (key :: l);
  mutex_unlock key l := tl l
|}.

Definition entry_state (e : Entry) : @St entry_env := @mkSt entry_env e (NewPool 2) [] None.

Lemma entry_still : @still entry_env.
Proof. split; try done. intros w. by exists tt. Qed.

Lemma entry_stores : @stores entry_env (fun w => w).
Proof. intros w mods. by exists (apply_mods w mods). Qed.

Lemma entry_finds class want ctl (id : sample_identity) f :
  identityFilter id = Ret f -> @finds _ entry_env sample_core (fun w => w) class want ctl id.
Proof. intros Hf. exists f. split; [exact Hf|]. intros w h. by exists []. Qed.

Lemma sample_group_spelled a : In a groupAttrs -> spelled a sample_group_entry.
Proof. revert a. solve_spelled. Qed.
Lemma Group_Update_twice_witness :
  let id : Identity := SampleDN "CN=g,DC=example"%go in
  exists g s1 s2, g_Category g = GroupCategoryDistribution /\
    @Group_Update _ _ entry_env sample_core 0 id sample_group_spec (entry_state sample_group_entry)
    = (Ret (g, None), s1) /\
    @Group_Update _ _ entry_env sample_core 0 id sample_group_spec s1 = (Ret (g, None), s2) /\
    @st_world entry_env s2 = @st_world entry_env s1.
Proof.
  intros id.
  destruct (group_model sample_group_entry) as [g| | | |] eqn:Eg; try (vm_compute in Eg; discriminate Eg).
  destruct (@Group_Update_twice _ _ entry_env sample_core (fun w => w) 0 id sample_group_spec g
    (entry_state sample_group_entry)) as (s1 & s2 & E1 & _ & E2 & Ew).
  - exact entry_still.
  - discriminate.
  - reflexivity.
  - exact entry_stores.
  - eapply entry_finds. reflexivity.
  - eapply entry_finds. vm_compute in Eg. injection Eg as <-. reflexivity.
  - reflexivity.
  - split; [by left|by right].
  - vm_compute in Eg. injection Eg as <-. reflexivity.
  - vm_compute in Eg. injection Eg as <-. reflexivity.
  - exact sample_group_spelled.
  - exact Eg.
  - split; [exact (le_S _ _ (le_n 1))|reflexivity].
  - exists ["CN=g,DC=example"%go]. split; reflexivity.
  - exists (merged_group sample_group_spec g), s1, s2. split; [reflexivity|].
    split; [exact E1|]. split; [exact E2|exact Ew].
Defined.
End samples.
