(* ===== verification/Moves.v ===== *)
(** * Renaming and moving a protected unit

    [OU.Update] against a directory that refuses to move what is protected: the
    unit is described, unprotected, moved, read back and protected again, one
    request after the other.  The directory is any that stores descriptions and
    descriptors and carries out a move of an unprotected unit; what it does
    with a protected one is left open, so the theorem also shows that no such
    move is asked for. *)
From S2P Require Export Direct OUs.

Section moves.
Context `{Unicode} `{AdCore} `{Env} (c : core) (get : World -> Entry).

Definition sd_of (e : Entry) : bytes := First e "nTSecurityDescriptor"%go.
Definition shielded (e : Entry) : outcome bool :=
  match sd_of e with [] => Ret false | sd => IsProtected sd end.

(** What a write of the descriptor, and a rename or move, make of the entry. *)
Definition resealed (e e' : Entry) (out : bytes) : Prop :=
  en_DN e' = en_DN e /\ sd_of e' = out /\
  forall a, In a ["objectGUID"; "name"; "description"]%go -> First e' a = First e a.
Definition relocated (e e' : Entry) (name container : gostring) : Prop :=
  First e' "name"%go = name /\ ContainerOf (en_DN e') = inl container /\
  forall a, In a ["objectGUID"; "description"; "nTSecurityDescriptor"]%go -> First e' a = First e a.

(** The directory, for an update to the name and the container of [spec]. *)
Record guarded (spec : OUSpec) : Prop := {
  gd_describe : stores get;
  gd_read w : forall h, exists ctrls,
    env_search h (descriptor_request (en_DN (get w))) w = (inl (mkSearchResult [get w] ctrls), w);
  gd_write w out : exists w', resealed (get w) (get w') out /\
    forall h, env_modify h (en_DN (get w))
      [mkModification ModReplace "nTSecurityDescriptor"%go [out]] [sdDACL] w = (None, w');
  gd_move w container (same : bool) : shielded (get w) = Ret false ->
    ContainerOf (en_DN (get w)) = inl container ->
    exists w', relocated (get w) (get w') (os_Name spec) (if same then container else os_Container spec) /\
      forall h, env_modifydn h (en_DN (get w)) (ouRDN (os_Name spec)) true
        (if same then [] else os_Container spec) w = (None, w')
}.

(** ** What an entry models to *)

(** Two descriptors differ at most in the DACL and the bit that says there is
    one. *)
Definition same_rest (p p' : parsed) : Prop := with_dacl p [] = with_dacl p' [].

Lemma same_but_dacl_rest p p' : same_but_dacl p p' -> same_rest p p'.
Proof using Type.
  unfold same_but_dacl, same_rest. intros ->. unfold with_dacl. cbn.
  by rewrite <- Z.lor_assoc, Z.lor_diag.
Qed.

Definition looks (e : Entry) (guid name container description : gostring) (protected : bool) : Prop :=
  ou_model e = Ret (mkOU guid (en_DN e) name container description protected).

Lemma looks_view e guid name container description protected :
  looks e guid name container description protected <->
  GUIDToString (First e "objectGUID"%go) = Ret guid /\ ContainerOf (en_DN e) = inl container /\
  shielded e = Ret protected /\ First e "name"%go = name /\ First e "description"%go = description.
Proof using Type.
  unfold looks, ou_model, FirstString. fold (sd_of e). fold (shielded e).
  destruct (GUIDToString _) as [g| | | |]; cbn; [|naive_solver..].
  destruct (ContainerOf _) as [k|]; cbn; [|naive_solver].
  destruct (shielded e) as [p| | | |]; cbn; naive_solver.
Qed.

Lemma ou_model_looks e u :
  ou_model e = Ret u ->
  o_DN u = en_DN e /\ looks e (o_GUID u) (o_Name u) (o_Container u) (o_Description u) (o_Protected u).
Proof using Type.
  unfold looks. intros Hu. assert (o_DN u = en_DN e) as Hdn.
  { unfold ou_model in Hu. inv_ret Hu. by injection Hu as <-. }
  split; [done|]. rewrite Hu, <- Hdn. by destruct u.
Qed.

Lemma resealed_looks e e' out guid name container description protected protected' :
  looks e guid name container description protected -> resealed e e' out -> out <> [] ->
  IsProtected out = Ret protected' -> looks e' guid name container description protected'.
Proof using Type.
  rewrite !looks_view. intros (Hg & Hc & _ & Hn & Hd) (Hdn & Hsd & Hk) Hne Hp.
  rewrite Hdn, !Hk by (cbn; tauto). unfold shielded. rewrite Hsd. by destruct out.
Qed.

Lemma relocated_looks e e' name' container' guid name container description protected :
  looks e guid name container description protected -> relocated e e' name' container' ->
  looks e' guid name' container' description protected /\ sd_of e' = sd_of e.
Proof using Type.
  rewrite !looks_view. intros (Hg & Hc & Hp & Hn & Hd) (Hn' & Hc' & Hk).
  assert (sd_of e' = sd_of e) as Hsd by (apply Hk; cbn; tauto).
  unfold shielded in *. by rewrite Hn', Hc', Hsd, !Hk by (cbn; tauto).
Qed.

Lemma described_looks e want guid name container description protected :
  (forall a, In a ouAttrs -> spelled a e) -> looks e guid name container description protected ->
  let e' := apply_mods e (appendStringMod [] "description"%go want description) in
  looks e' guid name container (default description want) protected /\ sd_of e' = sd_of e.
Proof using Type.
  intros Hsp. rewrite !looks_view. intros (Hg & Hc & Hp & Hn & Hd) e'.
  set (d := [("description"%go, appendStringMod [] "description"%go want description)] : delta).
  assert (wf_delta d) as Hwf by (subst d; solve_wf_delta).
  assert (e' = apply_mods e (mods_of d)) as He' by (unfold mods_of; cbn; by rewrite app_nil_r).
  clearbody e'.
  assert (forall a, In a ouAttrs -> First e' a = default (First e a) (written a (mods_of d))) as HF.
  { intros a Hin. rewrite He'. apply First_delta; [done| |by apply Hsp].
    cbn in Hin. repeat destruct Hin as [<-|Hin]; try done; solve_other_spelling. }
  assert (forall a, In a ["objectGUID"; "name"; "nTSecurityDescriptor"]%go -> First e' a = First e a) as Hk.
  { intros a Hin. rewrite HF, (written_absent _ _ a Hwf);
      [done|cbn in *; intuition (subst; discriminate)|cbn in *; tauto]. }
  assert (sd_of e' = sd_of e) as Hsd by (apply Hk; cbn; tauto).
  split; [apply looks_view|done]. unfold shielded in *. rewrite Hsd, !Hk by (cbn; tauto).
  rewrite He', en_DN_apply_mods, <- He'. split_and!; [done..|]. rewrite HF by (cbn; tauto).
  rewrite (written_in _ _ _ _ Hwf (or_introl eq_refl)), Hd. apply written_string.
Qed.

(** ** The steps *)

Context (Hst : still) (Hmax : 1 <= c_MaxAttempts c).

(** A change of the protection keeps every other entry and field. *)
Lemma setProtection_yields spec op want w guid name container description protected p l :
  guarded spec -> looks (get w) guid name container description protected ->
  entries (sd_of (get w)) = Ret (p, l) -> protected <> want -> acl_size (protect_edit want l) < 65536 ->
  exists w' p', yields (setProtection c op (en_DN (get w)) want) w (Ret tt) w' /\
    en_DN (get w') = en_DN (get w) /\ looks (get w') guid name container description want /\
    entries (sd_of (get w')) = Ret (p', protect_edit want l) /\ same_rest p p'.
Proof using Hst Hmax.
  intros Hdir Hlooks Hl Hne Hsize.
  assert (protected = existsb (holds isProtectionACE) l) as Hp.
  { apply looks_view in Hlooks as (_ & _ & Hp & _). unfold shielded in Hp.
    pose proof (IsProtected_entries _ _ _ Hl) as Hi. destruct (sd_of (get w)); [done|congruence]. }
  destruct (SetProtected_write _ want p l Hl) as (out & p' & Hset & Hout & Hsame & Hprot); [congruence|done|].
  destruct (gd_write _ Hdir w out) as (w' & Hseal & Hw). exists w', p'.
  assert (out <> []) as Hout0 by (intros ->; by vm_compute in Hout).
  assert (sd_of (get w') = out) as Hsd by apply Hseal.
  split_and!; [|apply Hseal|by eapply resealed_looks|by rewrite Hsd|by apply same_but_dacl_rest].
  unfold setProtection, edit_descriptor. eapply yields_bind.
  { apply (read_descriptor_yields c op _ _ (get w)); [done..|apply (gd_read _ Hdir)]. }
  cbv beta. rewrite decide_False by (intros E; change (sd_of (get w) = []) in E; rewrite E in Hl; by vm_compute in Hl).
  eapply yields_bind.
  { apply (yields_map_error _ _ w (Ret (out, true))). fold (sd_of (get w)). rewrite Hset. apply yields_lift. }
  by apply write_descriptor_yields.
Qed.

(** The move of an update: what is protected is unprotected first. *)
Lemma ou_move_yields spec op id w u description same p l :
  guarded spec -> o_DN u = en_DN (get w) ->
  looks (get w) (o_GUID u) (o_Name u) (o_Container u) description (o_Protected u) -> entries (sd_of (get w)) = Ret (p, l) ->
  EqualFoldDN (os_Container spec) (o_Container u) = inl same ->
  let moving := bool_decide (os_Name spec <> o_Name u) || negb same in
  exists w' p', yields (ou_move c op id spec u) w (Ret tt) w' /\
    looks (get w') (o_GUID u) (os_Name spec) (if same then o_Container u else os_Container spec)
      description (if moving then false else o_Protected u) /\
    entries (sd_of (get w')) = Ret (p', if moving && o_Protected u then protect_edit false l else l) /\
    same_rest p p'.
Proof using Hst Hmax.
  intros Hdir Hdn Hlooks Hl Hsame moving.
  unfold ou_move. cbv zeta.
  assert (yields (sameContainer op (os_Container spec) (o_Container u)) w (Ret same) w) as Hsc.
  { unfold sameContainer. rewrite Hsame. apply (yields_map_error _ _ w (Ret same)), yields_lift. }
  destruct moving eqn:Hm; subst moving.
  2: { apply orb_false_iff in Hm as [Hn Hsm]. apply bool_decide_eq_false, dec_stable in Hn.
       destruct same; [|done]. exists w, p. rewrite Hn. split_and!; [|done..].
       eapply yields_bind; [exact Hsc|]. rewrite bool_decide_eq_false_2 by tauto. cbn [orb negb andb].
       eapply yields_bind; apply yields_ret. }
  assert (exists w1 p1, yields (if o_Protected u
        then map_error (fun err => WithIdentity err op id) (setProtection c op (o_DN u) false) else mret tt)
        w (Ret tt) w1 /\ en_DN (get w1) = en_DN (get w) /\
      looks (get w1) (o_GUID u) (o_Name u) (o_Container u) description false /\
      entries (sd_of (get w1)) = Ret (p1, if o_Protected u then protect_edit false l else l) /\
      same_rest p p1) as (w1 & p1 & Hlift & Hdn1 & Hl1 & He1 & Hp1).
  { destruct (o_Protected u) eqn:Hp.
    - pose proof (entries_wf _ _ _ Hl) as (_ & _ & Hsize). pose proof (acl_size_filter (fun a => negb (holds isProtectionACE a)) l).
      destruct (setProtection_yields spec op false w _ _ _ _ _ p l Hdir Hlooks Hl) as (w1 & p1 & Hy & Hd1 & ? & ? & ?);
        [done|unfold protect_edit; cbn [app]; lia|].
      exists w1, p1. split_and!; [|done..]. rewrite Hdn. by apply (yields_map_error _ _ w (Ret tt)).
    - exists w, p. split_and!; [apply yields_ret|done..]. }
  pose proof (proj1 (looks_view _ _ _ _ _ _) Hl1) as (_ & Hc1 & Hs1 & _).
  destruct (gd_move _ Hdir w1 (o_Container u) same Hs1 Hc1) as (w' & Hrel & Hmv).
  destruct (relocated_looks _ _ _ _ _ _ _ _ _ Hl1 Hrel) as [Hl' Hsd]. exists w', p1. rewrite Hsd.
  split_and!; [|done..]. eapply yields_bind; [exact Hsc|]. rewrite Hm. cbn [andb].
  eapply yields_bind; [exact Hlift|]. apply move_object_yields; [done..|]. intros h. rewrite Hdn, <- Hdn1. apply Hmv.
Qed.

Lemma OU_Get_yields id w guid name container description protected :
  found c get "organizationalUnit"%go ouAttrs [sdDACL] id w ->
  looks (get w) guid name container description protected ->
  yields (OU_Get c id) w (Ret (mkOU guid (en_DN (get w)) name container description protected)) w.
Proof using Hst Hmax. intros Hid Hl. by apply (get_yields c get Hst Hmax). Qed.

(** The protection after the move: the protection asked for. *)
Lemma ou_reprotect_yields spec op id w u guid name container description protected want p l :
  guarded spec -> (forall w, found c get "organizationalUnit"%go ouAttrs [sdDACL] (ByGUID guid) w) ->
  looks (get w) guid name container description protected -> u = mkOU guid (en_DN (get w)) name container description protected ->
  entries (sd_of (get w)) = Ret (p, l) -> acl_size (protect_edit want l) < 65536 ->
  exists w' p', yields (if decide (o_Protected u <> want) then
       map_error (fun err => WithIdentity err op id) (setProtection c op (o_DN u) want);;
       OU_Get c (ByGUID guid)
     else mret u) w (Ret (mkOU guid (en_DN (get w')) name container description want)) w' /\
    looks (get w') guid name container description want /\
    entries (sd_of (get w')) = Ret (p', if bool_decide (protected = want) then l else protect_edit want l) /\
    same_rest p p'.
Proof using Hst Hmax.
  intros Hdir Hguid Hlooks -> Hl Hsize. cbn [o_Protected o_DN]. destruct (decide (protected <> want)) as [Hne|He].
  - destruct (setProtection_yields spec op want w _ _ _ _ _ p l Hdir Hlooks Hl Hne Hsize)
      as (w' & p' & Hy & Hdn & Hl' & He' & Hp). exists w', p'. rewrite bool_decide_eq_false_2 by done.
    split_and!; [|done..]. eapply yields_bind; [by apply (yields_map_error _ _ w (Ret tt))|]. by apply OU_Get_yields.
  - apply dec_stable in He. subst want. exists w, p. rewrite bool_decide_eq_true_2 by done.
    split_and!; [apply yields_ret|done..].
Qed.

(** The entries an update leaves. *)
Definition moved_entries (moving : bool) (was want : bool) (l : list bytes) : list bytes :=
  if bool_decide (was = want) && negb (moving && was) then l else protect_edit want l.

Lemma protect_edit_twice on l : protect_edit on (protect_edit false l) = protect_edit on l.
Proof using Type.
  unfold protect_edit. cbn [app]. f_equal. induction l as [|a l IH]; [done|]. cbn [List.filter].
  destruct (negb (holds isProtectionACE a)) eqn:E; [|done]. cbn [List.filter]. by rewrite E, IH.
Qed.

Lemma OU_Update_locked_yields spec fuel id w u same p l :
  repl_Wait (c_repl c) = false -> guarded spec ->
  found c get "organizationalUnit"%go ouAttrs [sdDACL] id w ->
  (forall w, found c get "organizationalUnit"%go ouAttrs [sdDACL] (ByGUID (o_GUID u)) w) ->
  (forall a, In a ouAttrs -> spelled a (get w)) -> ou_model (get w) = Ret u ->
  EqualFoldDN (os_Container spec) (o_Container u) = inl same ->
  entries (sd_of (get w)) = Ret (p, l) -> acl_size (protect_edit (wantProtected spec u) l) < 65536 ->
  let moving := bool_decide (os_Name spec <> o_Name u) || negb same in
  exists updated w' p', yields (OU_Update_locked c fuel id spec) w (Ret (updated, None)) w' /\
    ou_model (get w') = Ret updated /\
    updated = mkOU (o_GUID u) (en_DN (get w')) (os_Name spec) (if same then o_Container u else os_Container spec)
      (default (o_Description u) (os_Description spec)) (wantProtected spec u) /\
    entries (sd_of (get w')) = Ret (p', moved_entries moving (o_Protected u) (wantProtected spec u) l) /\
    same_rest p p'.
Proof using Hst Hmax.
  intros Hrep Hdir Hid Hguid Hsp Hu Hsame Hl Hsize moving. destruct (ou_model_looks _ _ Hu) as [Hdn Hlooks].
  destruct (modify_object_yields c get Hst Hmax "OU.Update"%go id (o_DN u)
    (appendStringMod [] "description"%go (os_Description spec) (o_Description u)) w (gd_describe _ Hdir) Hdn)
    as (w1 & Hg1 & _ & Hy1).
  destruct (described_looks _ (os_Description spec) _ _ _ _ _ Hsp Hlooks) as [Hl1 Hsd1].
  rewrite <- Hg1 in Hl1, Hsd1.
  destruct (ou_move_yields spec "OU.Update"%go id w1 u
    (default (o_Description u) (os_Description spec)) same p l) as (w2 & p2 & Hy2 & Hl2 & He2 & Hp2);
    [done|by rewrite Hg1, en_DN_apply_mods|done|by rewrite Hsd1|done|]. fold moving in Hl2, He2.
  destruct (ou_reprotect_yields spec "OU.Update"%go id w2
    _ _ _ _ _ _ (wantProtected spec u) p2 _ Hdir Hguid Hl2 eq_refl He2) as (w3 & p3 & Hy3 & Hl3 & He3 & Hp3).
  { destruct (moving && o_Protected u); [by rewrite protect_edit_twice|done]. }
  eexists _, w3, p3. split_and!; [|exact Hl3|done| |by etransitivity].
  - unfold OU_Update_locked. cbv zeta. eapply yields_bind; [exact (get_yields c get Hst Hmax _ _ _ _ _ _ _ u Hid Hu)|].
    eapply yields_bind; [exact Hy1|]. eapply yields_bind; [exact Hy2|].
    eapply yields_bind; [by apply OU_Get_yields|]. eapply yields_bind; [exact Hy3|]. by apply no_replication.
  - rewrite He3. unfold moved_entries. destruct moving, (o_Protected u), (wantProtected spec u);
      cbn [andb negb]; rewrite ?protect_edit_twice; done.
Qed.
End moves.

(** ** The update as a whole *)

(** C15: a protected unit can be renamed and moved, and stays as protected as
    it should be.  Against a directory that need not move a protected unit,
    [OU.Update] succeeds; the unit it leaves, and returns, is the one it was
    (its GUID, what the spec does not mention) with the name, the container,
    the description and the protection of the spec; an unset protection is the
    one it had, although it is lifted in between.  Every entry of the
    descriptor that does not protect is kept, in order, and so is every part
    of it but the DACL. *)
Theorem OU_Update_moves `{Unicode} `{AdCore} `{Env} (c : core) (get : World -> Entry) (fuel : nat)
    (id : Identity) (spec : OUSpec) (u : OU) (same : bool) (p : parsed) (l : list bytes) (s : St) :
  still -> 1 <= c_MaxAttempts c -> repl_Wait (c_repl c) = false -> guarded get spec ->
  found c get "organizationalUnit"%go ouAttrs [sdDACL] id (st_world s) ->
  (forall w, found c get "organizationalUnit"%go ouAttrs [sdDACL] (ByGUID (o_GUID u)) w) ->
  (forall a, In a ouAttrs -> spelled a (get (st_world s))) ->
  ou_validate "OU.Update"%go spec = Ret tt -> ou_model (get (st_world s)) = Ret u ->
  EqualFoldDN (os_Container spec) (o_Container u) = inl same ->
  entries (sd_of (get (st_world s))) = Ret (p, l) ->
  acl_size (protect_edit (wantProtected spec u) l) < 65536 ->
  ready s -> unlocked (IdentityArg id) s ->
  let moving := bool_decide (os_Name spec <> o_Name u) || negb same in
  exists updated s' p', OU_Update c fuel id spec s = (Ret (updated, None), s') /\
    ou_model (get (st_world s')) = Ret updated /\
    updated = mkOU (o_GUID u) (en_DN (get (st_world s'))) (os_Name spec)
      (if same then o_Container u else os_Container spec)
      (default (o_Description u) (os_Description spec)) (default (o_Protected u) (os_Protected spec)) /\
    entries (sd_of (get (st_world s')))
    = Ret (p', moved_entries moving (o_Protected u) (default (o_Protected u) (os_Protected spec)) l) /\
    same_rest p p' /\ ready s' /\ st_locks s' = st_locks s.
Proof.
  intros Hst Hmax Hrep Hdir Hid Hguid Hsp Hval Hu Hsame Hl Hsize Hs Hlock moving.
  destruct (OU_Update_locked_yields c get Hst Hmax spec fuel id (st_world s) u same p l)
    as (updated & w' & p' & Hy & Hm & Hup & He & Hp); [done..|].
  destruct (yields_locked _ _ _ _ _ Hs Hlock Hy) as (s' & E & <- & Hs' & Hl').
  exists updated, s', p'. split_and!; [|done..]. unfold OU_Update. by rewrite Hval.
Qed.

(** *** A directory that refuses to move what is protected *)

Section samples.
#[local] Existing Instances ascii_unicode sample_adcore.

Definition parent_of (dn : gostring) : gostring := match ContainerOf dn with inl p => p | inr _ => [] end.

(** The entry after a ModifyDN. *)
Definition moved_entry (e : Entry) (rdn superior : gostring) : Entry :=
  let parent := match superior with [] => parent_of (en_DN e) | _ => superior end in
  mkEntry (rdn ++ ","%go ++ parent)
    (en_Attrs (apply_mod e (mkModification ModReplace "name"%go [drop 3 rdn]))).

Definition guarded_env : Env := {|
  World := Entry;
  Handle := unit;
  env_dial w := (inl tt, w);
  env_bind h w := (None, w);
  env_search h req w := (inl (mkSearchResult [w] []), w);
  env_add h dn attrs w := (Some refused, w);
  env_modify h dn mods ctrls w := (None, apply_mods w mods);
  env_modifydn h dn rdn del sup w :=
    match shielded w with
    | Ret false => (None, moved_entry w rdn sup)
    | _ => (Some refused, w)
    end;
  env_delete h dn w := (Some refused, w);
  env_close h w := (None, w);
  env_select w := (None, w);
  env_backoff n w := (None, w);
  env_dial_other host w := (inl tt, w);
  env_now w := (0, w);
  env_wait d w := (None, w);
  Mutex := unit;
  mutex_lock key l := Some l;
  mutex_unlock key l := l
|}.

Lemma First_apply_replace e a v :
  First (apply_mod e (mkModification ModReplace a [v])) a = v.
Proof. unfold First, apply_mod, map_get. cbn. by rewrite decide_True. Qed.

Lemma First_relocated dn e a : First (mkEntry dn (en_Attrs e)) a = First e a.
Proof. done. Qed.

Definition move_spec : OUSpec := mkOUSpec "y"%go "DC=other"%go (Some "moved"%go) None.

Lemma guarded_directory : @guarded _ _ guarded_env (fun w => w) move_spec.
Proof.
  split.
  - intros w mods. by exists (apply_mods w mods).
  - intros w h. by exists [].
  - intros w out. eexists. split; [|intros h; reflexivity]. split; [done|]. split; [apply First_apply_replace|].
    intros a Ha. apply First_apply_other; cbn in Ha; intuition (subst; (discriminate || reflexivity)).
  - intros w container same Hsh Hc. exists (moved_entry w "OU=y"%go (if same then [] else "DC=other"%go)).
    split; [|intros h; cbn; by rewrite Hsh]. split; [apply First_apply_replace|]. split.
    + assert (parent_of (en_DN w) = container) as Hp by (unfold parent_of; by rewrite Hc).
      unfold moved_entry. cbn [en_DN]. destruct same; rewrite ?Hp; reflexivity.
    + intros a Ha. apply First_apply_other; cbn in Ha; intuition (subst; (discriminate || reflexivity)).
Qed.

(** A protected unit, moved and renamed at once. *)
Definition unit_state : @St guarded_env := @mkSt guarded_env (ou_entry protected_sd) (NewPool 1) tt None.

Lemma guarded_still : @still guarded_env.
Proof. split; try done. intros w. by exists tt. Qed.

Lemma unit_spelled a : In a ouAttrs -> spelled a (ou_entry protected_sd).
Proof.
  intros Ha k vs Hin Hf. unfold ou_entry in Hin. cbn [en_Attrs In] in Hin. cbn in Ha.
  repeat destruct Hin as [[= <- _]|Hin]; try (destruct Hin; fail);
    repeat destruct Ha as [<-|Ha]; try (destruct Ha; fail); try reflexivity; vm_compute in Hf; discriminate.
Qed.

Lemma OU_Update_moves_witness : exists updated s',
  @OU_Update ascii_unicode sample_adcore guarded_env sample_core 0 ou_id move_spec unit_state = (Ret (updated, None), s') /\
  o_Name updated = "y"%go /\ o_Container updated = "DC=other"%go /\ o_Description updated = "moved"%go /\
  o_Protected updated = true /\
  shielded (@st_world guarded_env s') = Ret true.
Proof.
  destruct (ou_model (ou_entry protected_sd)) as [u| | | |] eqn:Eu; try (vm_compute in Eu; discriminate Eu).
  destruct (entries (sd_of (ou_entry protected_sd))) as [[p l]| | | |] eqn:El; try (vm_compute in El; discriminate El).
  assert (o_Container u = "DC=example"%go /\ o_Protected u = true) as [Hc Hp]
    by (vm_compute in Eu; injection Eu as <-; split; reflexivity).
  destruct (@OU_Update_moves ascii_unicode sample_adcore guarded_env sample_core (fun w => w) 0 ou_id move_spec u false p l unit_state)
    as (updated & s' & p' & E & Hm & Hup & _).
  - exact guarded_still.
  - discriminate.
  - reflexivity.
  - exact guarded_directory.
  - eexists. split; [reflexivity|]. intros h. exists []. reflexivity.
  - intros w. eexists. split; [vm_compute in Eu; injection Eu as <-; reflexivity|]. intros h. exists []. reflexivity.
  - exact unit_spelled.
  - reflexivity.
  - exact Eu.
  - rewrite Hc. reflexivity.
  - exact El.
  - vm_compute in Eu. injection Eu as <-. vm_compute in El. injection El as _ <-. vm_compute. reflexivity.
  - split; [exact (le_n 1)|reflexivity].
  - exists tt. split; reflexivity.
  - exists updated, s'. split; [exact E|]. rewrite Hp in Hup. rewrite Hup. split; [reflexivity|].
    split; [reflexivity|]. split; [reflexivity|]. split; [reflexivity|].
    destruct (ou_model_looks _ _ Hm) as [_ Hl]. apply looks_view in Hl as (_ & _ & Hl & _).
    rewrite Hl, Hup. reflexivity.
Defined.
End samples.
