(* ===== verification/Accounts.v ===== *)
(** * A user update, end to end and repeated

    [User.Update] against a directory of one account that stores what is
    written to it and carries out a rename or a move: the attributes, the name
    and the container, the password and the right to change it, one request
    after the other, then the same update again. *)
From S2P Require Export Repeat Moves.

(** ** The account an update is meant to leave *)

Definition wanted_name (spec : UserSpec) (u : User) : gostring :=
  match us_Name spec with None | Some [] => u_Name u | Some n => n end.

(** [u] under another name, in another container, with another answer to
    whether its password can be changed. *)
Definition placed (u : User) (dn name container : gostring) (can : bool) : User :=
  mkUser (u_GUID u) dn name (u_SamAccountName u) (u_UserPrincipalName u) (u_DisplayName u)
    (u_GivenName u) (u_Surname u) (u_Description u) container (u_Enabled u) (u_PasswordExpires u)
    (u_ChangePasswordAtLogon u) can (u_AccountExpiration u) (u_SID u).

(** Everything the spec names, the rest as it was; [same] says that the
    container of the spec is the one the account is in. *)
Definition updated_user (spec : UserSpec) (u : User) (same : bool) (dn : gostring) : User :=
  placed (merged_user spec u) dn (wanted_name spec u)
    (if same then u_Container u else us_Container spec)
    (default (u_CanChangePassword u) (us_CanChangePassword spec)).

Section accounts.
Context `{Unicode} `{AdCore} `{Env} (c : core) (get : World -> Entry).

(** What [user_model] reads of the descriptor. *)
Definition can_change (e : Entry) : outcome bool :=
  match sd_of e with
  | [] => Ret true
  | sd => denied ← HasDeniedObjectRight sd RightControlAccess changePasswordRight changePasswordTrustees;
          Ret (negb denied)
  end.

Lemma user_model_can e u : user_model e = Ret u -> can_change e = Ret (u_CanChangePassword u).
Proof. unfold user_model. fold (can_change e). intros Hu. inv_ret Hu. by injection Hu as <-. Qed.

(** The rename, the password and the descriptor as modifications. *)
Definition name_mods (moving : bool) (name : gostring) : list Modification :=
  if moving then [mkModification ModReplace "name"%go [name]] else [].
Definition password_mods (spec : UserSpec) : list Modification :=
  match wanted_password spec with
  | Some p => [mkModification ModReplace "unicodePwd"%go [utf16LEQuoted (secret_Reveal p)]]
  | None => []
  end.
Definition descriptor_mods (out : option bytes) : list Modification :=
  match out with
  | Some sd => [mkModification ModReplace "nTSecurityDescriptor"%go [sd]]
  | None => []
  end.

Definition rest_changes (spec : UserSpec) (moving : bool) (name : gostring) (out : option bytes) : delta :=
  [("name"%go, name_mods moving name); ("unicodePwd"%go, password_mods spec);
   ("nTSecurityDescriptor"%go, descriptor_mods out)].

Lemma single_one attr v : at_most_one attr [mkModification ModReplace attr [v]].
Proof. right. eexists. split_and!; [done..|by left]. Qed.

Lemma rest_changes_wf spec moving name out : wf_delta (rest_changes spec moving name out).
Proof.
  solve_wf_delta.
  - unfold password_mods. destruct (wanted_password spec); [apply single_one|by left].
  - destruct out; [apply single_one|by left].
Qed.

(** What the account models to after the rename, the password and the
    descriptor. *)
Lemma user_model_placed spec e u moving name out dn container can :
  let e' := apply_mods e (mods_of (rest_changes spec moving name out)) in
  (forall a, In a userAttrs -> spelled a e) -> user_model e = Ret u ->
  (moving = false -> name = u_Name u) -> ContainerOf dn = inl container ->
  match out with
  | Some sd => sd <> [] /\ HasDeniedObjectRight sd RightControlAccess changePasswordRight
                            changePasswordTrustees = Ret (negb can)
  | None => can = u_CanChangePassword u
  end ->
  user_model (mkEntry dn (en_Attrs e')) = Ret (placed u dn name container can).
Proof.
  intros e' Hsp Hu Hname Hdn Hcan. pose proof (rest_changes_wf spec moving name out) as Hwf.
  assert (forall a, In a userAttrs ->
    First e' a = default (First e a) (written a (mods_of (rest_changes spec moving name out)))) as HF.
  { intros a Ha. apply First_delta; [done| |by apply Hsp].
    cbn in Ha. repeat destruct Ha as [<-|Ha]; try done; solve_other_spelling. }
  assert (First e' "name"%go = name) as Hn.
  { rewrite HF, (written_in _ _ _ _ Hwf (or_introl eq_refl)) by (cbn; tauto). destruct moving; [done|].
    rewrite Hname by done. revert Hu. unfold user_model. intros Hu. inv_ret Hu. by injection Hu as <-. }
  assert (can_change (mkEntry dn (en_Attrs e')) = Ret can) as Hc.
  { change (can_change e' = Ret can). unfold can_change, sd_of.
    rewrite HF, (written_in _ _ _ _ Hwf (or_intror (or_intror (or_introl eq_refl)))) by (cbn; tauto).
    destruct out as [sd|]; [|subst can; by apply user_model_can].
    destruct Hcan as [Hne Hd]. unfold descriptor_mods. rewrite written_replace. cbn [default from_option].
    unfold id. destruct sd; [done|]. rewrite Hd. cbn [mbind outcome_bind]. by rewrite negb_involutive. }
  assert (forall a, In a userAttrs -> a <> "name"%go -> a <> "nTSecurityDescriptor"%go ->
    First (mkEntry dn (en_Attrs e')) a = First e a) as Hk.
  { intros a Ha H1a H2a. change (First e' a = First e a).
    rewrite HF, (written_absent _ _ a Hwf); [done| |done]. cbn in Ha. cbn.
    clear -Ha H1a H2a. intuition congruence. }
  clearbody e'. unfold can_change, sd_of in Hc. revert Hu. unfold user_model.
  unfold uac_of, mustSID, FirstString. rewrite Hc.
  change (First (mkEntry dn (en_Attrs e')) "name"%go) with (First e' "name"%go). rewrite Hn.
  rewrite !Hk by first [discriminate | cbn; tauto].
  intros Hu. inv_ret Hu. injection Hu as <-. cbn [en_DN]. rewrite Hdn. cbn [of_sum mbind outcome_bind] in *.
  repeat match goal with E : _ = Ret _ |- _ => progress (rewrite ?E; cbn [mbind outcome_bind]) end. done.
Qed.

(** ** The directory and the steps *)

(** A directory of one account, for an update with [spec] that wants the name
    [name]: a write has the effect RFC 4511 gives it, the descriptor can be
    read, and a ModifyDN gives the account that name and moves it to the
    container of [spec]. *)
Record account_store (spec : UserSpec) (name : gostring) : Prop := {
  as_modify w mods ctl : exists w', get w' = apply_mods (get w) mods /\
    forall h, env_modify h (en_DN (get w)) mods ctl w = (None, w');
  as_read w h : exists ctrls,
    env_search h (descriptor_request (en_DN (get w))) w = (inl (mkSearchResult [get w] ctrls), w);
  as_move w container (same : bool) : ContainerOf (en_DN (get w)) = inl container ->
    exists w' dn, get w' = mkEntry dn (en_Attrs (apply_mods (get w) (name_mods true name))) /\
      ContainerOf dn = inl (if same then container else us_Container spec) /\
      forall h, env_modifydn h (en_DN (get w)) (cnRDN name) true
        (if same then [] else us_Container spec) w = (None, w')
}.

Context (spec : UserSpec) (name : gostring) (Hst : still) (Hmax : 1 <= c_MaxAttempts c)
  (Hdir : account_store spec name).

Lemma as_stores : stores get.
Proof using Hdir. intros w mods. apply (as_modify _ _ Hdir). Qed.

(** What moves: the name or the container. *)
Definition moves (u : User) (same : bool) : bool :=
  bool_decide (wanted_name spec u <> u_Name u) || negb same.

Lemma rename_move_yields op id w u same :
  wanted_name spec u = name -> u_DN u = en_DN (get w) -> ContainerOf (en_DN (get w)) = inl (u_Container u) ->
  EqualFoldDN (us_Container spec) (u_Container u) = inl same ->
  exists w' dn, yields (rename_move c op id (u_DN u) (u_Name u) (u_Container u) (wanted_name spec u)
      (us_Container spec)) w (Ret tt) w' /\
    get w' = mkEntry dn (en_Attrs (apply_mods (get w) (name_mods (moves u same) (wanted_name spec u)))) /\
    ContainerOf dn = inl (if same then u_Container u else us_Container spec) /\
    (moves u same = false -> w' = w).
Proof using Hdir Hmax Hst.
  intros Hname Hu Hc Hsame. rewrite <- Hname in Hdir. unfold rename_move, sameContainer. rewrite Hsame.
  assert (yields (map_error (adErr KindConstraint op) (lift (of_sum (inl same)))) w (Ret same) w) as Hsc
    by (apply (yields_map_error _ _ w (Ret same)), yields_lift).
  unfold moves. destruct (_ || _) eqn:Em.
  - destruct (as_move _ _ Hdir w (u_Container u) same Hc) as (w' & dn & Hg & Hdn & Hw).
    exists w', dn. split_and!; [|done..]. eapply yields_bind; [exact Hsc|]. rewrite Em.
    apply move_object_yields; [done..|]. intros h. rewrite Hu. apply Hw.
  - exists w, (en_DN (get w)). apply orb_false_iff in Em as [En Es]. destruct same; [|done].
    split_and!; [|by destruct (get w)|done|done].
    eapply yields_bind; [exact Hsc|]. rewrite En. apply yields_ret.
Qed.

(** The password, for the account found again by its GUID. *)
Definition password_reachable (guid : gostring) : Prop :=
  wanted_password spec <> None ->
  IdentityForm (ByGUID guid) <> "dn"%go /\ finds c get "*"%go ["distinguishedName"%go] [] (ByGUID guid).

Lemma password_yields op guid w :
  password_reachable guid ->
  exists w', yields (match wanted_password spec with
                     | Some p => setPasswordLocked c op (ByGUID guid) p
                     | None => mret tt
                     end) w (Ret tt) w' /\
    get w' = apply_mods (get w) (password_mods spec) /\
    (wanted_password spec = None -> w' = w).
Proof using Hdir Hmax Hst.
  unfold password_reachable, password_mods, wanted_password. intros Hpw.
  destruct (us_Password spec) as [p|]; [|exists w; split_and!; [apply yields_ret|done..]].
  destruct (secret_IsZero p) eqn:Ez; [exists w; split_and!; [apply yields_ret|done..]|].
  destruct (Hpw ltac:(done)) as [Hform (f & Hf & Hsrv)].
  set (mods := [mkModification ModReplace "unicodePwd"%go [utf16LEQuoted (secret_Reveal p)]]).
  destruct (as_modify _ _ Hdir w mods []) as (w' & Hg & Hw). exists w'. split_and!; [|done..].
  unfold setPasswordLocked. rewrite Ez. eapply yields_bind.
  - unfold resolveDN. rewrite decide_False by done. eapply yields_bind; [|apply yields_ret].
    by apply (getOne_yields c op (ByGUID guid) "*"%go _ _ w f [get w]).
  - apply (yields_map_error _ _ w (Ret tt) w').
    apply (yields_withConn c op tt _ w (Ret tt) w'); try done; [intros; apply steady_tell|].
    intros h. pose proof (performs_tell (env_modify h (en_DN (get w)) mods []) w) as Ht.
    rewrite Hw in Ht. exact Ht.
Qed.

(** The descriptor of [e] can take the edit to [can]. *)
Definition editable (e : Entry) (can : bool) : Prop := exists p l, entries (sd_of e) = Ret (p, l) /\
  acl_size (deny_edit (negb can) RightControlAccess changePasswordRight changePasswordTrustees l) < 65536.

Lemma setCanChangePassword_yields op w was can :
  can_change (get w) = Ret was -> can <> was -> editable (get w) can ->
  exists w' out, yields (setCanChangePassword c op (en_DN (get w)) can) w (Ret tt) w' /\
    get w' = apply_mods (get w) (descriptor_mods (Some out)) /\ out <> [] /\
    HasDeniedObjectRight out RightControlAccess changePasswordRight changePasswordTrustees = Ret (negb can).
Proof using Hdir Hmax Hst.
  intros Hwas Hne (p & l & Hl & Hsize).
  assert (sd_of (get w) <> []) as Hsd by (intros E; rewrite E in Hl; by vm_compute in Hl).
  assert (negb can <> existsb (holds (deniedToAny RightControlAccess changePasswordRight changePasswordTrustees)) l)
    as Hon.
  { revert Hwas. unfold can_change. destruct (sd_of (get w)) eqn:E; [done|]. rewrite <- E in *.
    rewrite (HasDenied_entries _ _ _ _ _ _ Hl). intros [= <-]. destruct can; intros Hb; rewrite <- Hb in Hne; done. }
  destruct (SetDenied_write (sd_of (get w)) (negb can) RightControlAccess changePasswordRight changePasswordTrustees p l)
    as (out & p' & Hset & Hout & _ & Hden); [done..|].
  assert (out <> []) as Hout0 by (intros ->; by vm_compute in Hout).
  destruct (as_modify _ _ Hdir w (descriptor_mods (Some out)) [sdDACL]) as (w' & Hg & Hw).
  exists w', out. split_and!; [|done..]. unfold setCanChangePassword, edit_descriptor. eapply yields_bind.
  { apply (read_descriptor_yields c op _ _ (get w)); [done..|apply (as_read _ _ Hdir)]. }
  cbv beta. rewrite decide_False by done. eapply yields_bind.
  { apply (yields_map_error _ _ w (Ret (out, true))). fold (sd_of (get w)). rewrite Hset. apply yields_lift. }
  by apply write_descriptor_yields.
Qed.

(** ** The update *)

Lemma apply_mods_at dn e mods :
  apply_mods (mkEntry dn (en_Attrs e)) mods = mkEntry dn (en_Attrs (apply_mods e mods)).
Proof using Type.
  unfold apply_mods. revert e. induction mods as [|m mods IH]; intros e; [done|]. cbn [fold_left].
  rewrite <- IH. done.
Qed.

Lemma apply_mods_app e l1 l2 : apply_mods e (l1 ++ l2) = apply_mods (apply_mods e l1) l2.
Proof using Type. apply fold_left_app. Qed.

Lemma user_model_container e u : user_model e = Ret u -> ContainerOf (en_DN e) = inl (u_Container u).
Proof using Type.
  unfold user_model. intros Hu. inv_ret Hu. injection Hu as <-. by destruct (ContainerOf _); [injection Ha0 as ->|].
Qed.

Lemma user_mods_spelled u e a : In a userAttrs -> spelled a e -> spelled a (apply_mods e (user_mods spec u)).
Proof using Type.
  intros Ha Hsp. pose proof (user_changes_wf spec u) as Hwf. apply spelled_mods; [|done].
  rewrite user_mods_changes. apply List.Forall_forall. intros m [_ Hm]%mods_of_In; [|done].
  by eapply user_other_spelling.
Qed.

Lemma user_mods_descriptor u e :
  spelled "nTSecurityDescriptor"%go e -> sd_of (apply_mods e (user_mods spec u)) = sd_of e.
Proof using Type.
  intros Hsp. pose proof (user_changes_wf spec u) as Hwf. unfold sd_of. rewrite user_mods_changes.
  rewrite First_delta; [|done| |done].
  - by rewrite (written_absent _ _ _ Hwf) by (cbn; intuition discriminate).
  - intros a Ha. apply (user_other_spelling spec u); [cbn; tauto|done].
Qed.

Definition new_can (u : User) : bool := default (u_CanChangePassword u) (us_CanChangePassword spec).

(** The last step of an update: the right to change the password. *)
Lemma can_change_yields op id guid w u3 e dn container moving :
  (forall w, found c get "user"%go userAttrs [sdDACL] (ByGUID guid) w) ->
  (forall a, In a userAttrs -> spelled a e) -> user_model e = Ret u3 ->
  (moving = false -> wanted_name spec u3 = u_Name u3) -> ContainerOf dn = inl container ->
  get w = mkEntry dn (en_Attrs (apply_mods e (mods_of (rest_changes spec moving (wanted_name spec u3) None)))) ->
  (new_can u3 <> u_CanChangePassword u3 -> editable e (new_can u3)) ->
  let was := placed u3 dn (wanted_name spec u3) container (u_CanChangePassword u3) in
  let final := placed u3 dn (wanted_name spec u3) container (new_can u3) in
  exists w' out,
    yields (match us_CanChangePassword spec with
            | Some can =>
                if decide (can <> u_CanChangePassword was) then
                  map_error (fun err => WithIdentity err op id) (setCanChangePassword c op (u_DN was) can);;
                  User_Get c (ByGUID guid)
                else mret was
            | None => mret was
            end) w (Ret final) w' /\
    user_model (get w') = Ret final /\
    get w' = mkEntry dn (en_Attrs (apply_mods e (mods_of (rest_changes spec moving (wanted_name spec u3) out)))) /\
    (new_can u3 = u_CanChangePassword u3 -> out = None /\ w' = w).
Proof using Hdir Hmax Hst.
  intros Hguid Hsp Hu Hname Hdn Hg Hedit was final.
  assert (user_model (get w) = Ret was) as Hw.
  { rewrite Hg. by apply user_model_placed. }
  assert (new_can u3 = u_CanChangePassword u3 -> was = final) as Hsame.
  { intros E. subst was final. by rewrite E. }
  destruct (decide (new_can u3 = u_CanChangePassword u3)) as [E|E].
  - exists w, None. rewrite <- (Hsame E). split_and!; [|done..]. unfold new_can in E.
    destruct (us_CanChangePassword spec) as [can|]; [|apply yields_ret]. cbn in E. subst can.
    rewrite decide_False by (cbn; tauto). apply yields_ret.
  - specialize (Hedit E). assert (us_CanChangePassword spec = Some (new_can u3)) as Es.
    { unfold new_can in *. by destruct (us_CanChangePassword spec). }
    rewrite Es, decide_True by exact E. pose proof (user_model_can _ _ Hw) as Hcan.
    assert (sd_of (get w) = sd_of e) as Hsd.
    { rewrite Hg. change (sd_of (apply_mods e (mods_of (rest_changes spec moving (wanted_name spec u3) None))) = sd_of e).
      pose proof (rest_changes_wf spec moving (wanted_name spec u3) None) as Hwf. unfold sd_of.
      rewrite First_delta; [|done| |by apply Hsp; cbn; tauto].
      - by rewrite (written_in _ _ _ _ Hwf (or_intror (or_intror (or_introl eq_refl)))).
      - intros a Ha. cbn in Ha. repeat destruct Ha as [<-|Ha]; try done; (by left) || by right. }
    destruct (setCanChangePassword_yields op w (u_CanChangePassword was) (new_can u3) Hcan)
      as (w' & out & Hy & Hg' & Hne & Hden); [done|by unfold editable; rewrite Hsd|].
    assert (get w' = mkEntry dn (en_Attrs (apply_mods e
      (mods_of (rest_changes spec moving (wanted_name spec u3) (Some out)))))) as Hg2.
    { rewrite Hg', Hg, apply_mods_at, <- apply_mods_app. unfold mods_of. cbn [map snd concat rest_changes].
      by rewrite <- !app_assoc. }
    assert (user_model (get w') = Ret final) as Hf by (rewrite Hg2; by apply user_model_placed).
    exists w', (Some out). split_and!; [|done..]. eapply yields_bind.
    + apply (yields_map_error _ _ w (Ret tt)). assert (u_DN was = en_DN (get w)) as -> by (by rewrite Hg). exact Hy.
    + unfold User_Get. by apply (get_yields c get Hst Hmax).
Qed.

(** The conditions on the account [u] that [w] shows. *)
Record updatable (u : User) (same : bool) (w : World) : Prop := {
  ua_guid w' : found c get "user"%go userAttrs [sdDACL] (ByGUID (u_GUID u)) w';
  ua_password : password_reachable (u_GUID u);
  ua_spelled a : In a userAttrs -> spelled a (get w);
  ua_model : user_model (get w) = Ret u;
  ua_container : EqualFoldDN (us_Container spec) (u_Container u) = inl same;
  ua_expiration : exp_IsSet (us_AccountExpiration spec) = true ->
    - 2 ^ 63 <= exp_Value (us_AccountExpiration spec) < 2 ^ 63;
  ua_editable : new_can u <> u_CanChangePassword u -> editable (get w) (new_can u)
}.

(** All the modifications of an update. *)
Definition all_changes (u : User) (same : bool) (out : option bytes) : delta :=
  user_changes spec u ++ rest_changes spec (moves u same) (wanted_name spec u) out.

Lemma User_Update_locked_yields fuel id u same w :
  repl_Wait (c_repl c) = false -> wanted_name spec u = name ->
  found c get "user"%go userAttrs [sdDACL] id w -> updatable u same w ->
  exists w' out, let u' := updated_user spec u same (en_DN (get w')) in
    yields (User_Update_locked c fuel id spec) w (Ret (u', None)) w' /\
    user_model (get w') = Ret u' /\
    en_Attrs (get w') = en_Attrs (apply_mods (get w) (mods_of (all_changes u same out))) /\
    (moves u same = false -> en_DN (get w') = en_DN (get w)) /\
    (new_can u = u_CanChangePassword u -> out = None) /\
    (user_mods spec u = [] -> moves u same = false -> wanted_password spec = None ->
     new_can u = u_CanChangePassword u -> w' = w).
Proof using Hdir Hmax Hst.
  intros Hrep Hwant Hid [Hguid Hpw Hsp Hu Hsame Hexp Hedit].
  pose proof (user_model_DN _ _ Hu) as Hudn. pose proof (user_model_container _ _ Hu) as Hcont.
  destruct (modify_object_yields c get Hst Hmax "User.Update"%go id (u_DN u) (user_mods spec u) w as_stores Hudn)
    as (w1 & Hg1 & Hk1 & Hy1).
  pose proof (user_delta spec _ u Hsp Hu Hexp) as Hu1.
  assert (en_DN (get w1) = en_DN (get w)) as Hdn1 by (by rewrite Hg1, en_DN_apply_mods).
  destruct (rename_move_yields "User.Update"%go id w1 u same) as (w2 & dn & Hy2 & Hg2 & Hdn & Hk2);
    [done|by rewrite Hdn1|by rewrite Hdn1|done|].
  destruct (password_yields "User.Update"%go (u_GUID u) w2 Hpw) as (w3 & Hy3 & Hg3 & Hk3).
  assert (get w3 = mkEntry dn (en_Attrs (apply_mods (apply_mods (get w) (user_mods spec u))
    (mods_of (rest_changes spec (moves u same) (wanted_name spec u) None))))) as Hg3'.
  { rewrite Hg3, Hg2, Hg1, apply_mods_at, <- apply_mods_app. unfold mods_of. cbn [map snd concat rest_changes descriptor_mods].
    by rewrite !app_nil_r. }
  assert (moves u same = false -> wanted_name spec (merged_user spec u) = u_Name (merged_user spec u)) as Hname.
  { unfold moves. intros [Hn _]%orb_false_iff. apply bool_decide_eq_false, dec_stable in Hn. exact Hn. }
  destruct (can_change_yields "User.Update"%go id (u_GUID u) w3 (merged_user spec u)
    (apply_mods (get w) (user_mods spec u)) dn (if same then u_Container u else us_Container spec) (moves u same))
    as (w4 & out & Hy4 & Hm4 & Hg4 & Hout); [done| |done..| |].
  { intros a Ha. by apply user_mods_spelled, Hsp. }
  { intros Hne. unfold editable. rewrite user_mods_descriptor by (apply Hsp; cbn; tauto). by apply Hedit. }
  exists w4, out. rewrite Hg4 in *. cbn [en_DN en_Attrs]. split_and!; [|exact Hm4| | | |].
  - unfold User_Update_locked. cbv zeta.
    eapply yields_bind; [exact (get_yields c get Hst Hmax _ _ _ _ _ _ _ u Hid Hu)|].
    eapply yields_bind; [exact Hy1|]. eapply yields_bind; [exact Hy2|]. eapply yields_bind; [exact Hy3|].
    eapply yields_bind.
    { apply (get_yields c get Hst Hmax _ _ _ _ _ _ w3 (placed (merged_user spec u) dn (wanted_name spec u)
        (if same then u_Container u else us_Container spec) (u_CanChangePassword u)) (Hguid w3)).
      rewrite Hg3'. apply user_model_placed; try done. intros a Ha. by apply user_mods_spelled, Hsp. }
    eapply yields_bind; [exact Hy4|]. by apply no_replication.
  - unfold all_changes, mods_of. rewrite map_app, concat_app. fold (mods_of (user_changes spec u)).
    rewrite <- user_mods_changes, apply_mods_app. done.
  - intros Hm. rewrite <- Hdn1, <- (Hk2 Hm), Hg2. done.
  - intros Hn. by apply Hout.
  - intros H1n H2n H3n H4n. rewrite (proj2 (Hout H4n)), (Hk3 H3n), (Hk2 H2n). by apply Hk1.
Qed.

Lemma all_changes_wf u same out : wf_delta (all_changes u same out).
Proof using Type.
  split; [cbn; repeat constructor; cbn; intuition discriminate|].
  apply Forall_app. split; [apply user_changes_wf|apply rest_changes_wf].
Qed.

(** What is written a second time: the expiration and the password, as they
    are. *)
Lemma written_twice u same out u' attr :
  user_mods spec u' = expiration_mods (us_AccountExpiration spec) -> moves u' true = false ->
  written_vals attr (mods_of (all_changes u' true None)) = None \/
  written_vals attr (mods_of (all_changes u' true None)) = written_vals attr (mods_of (all_changes u same out)).
Proof using Type.
  intros Hm Hmv. unfold all_changes at 1 2, mods_of at 1 2. rewrite map_app, concat_app.
  fold (mods_of (user_changes spec u')). rewrite <- user_mods_changes, Hm, Hmv. cbn [rest_changes map snd concat name_mods descriptor_mods].
  rewrite app_nil_l, !app_nil_r, written_app.
  pose proof (all_changes_wf u same out) as Hwf.
  destruct (decide (attr = "accountExpires"%go)) as [->|Hne].
  - rewrite (written_in _ _ _ (expiration_mods (us_AccountExpiration spec)) Hwf) by (cbn; tauto).
    destruct (written_vals _ (expiration_mods _)) eqn:E; [by right|]. left.
    unfold password_mods. by destruct (wanted_password spec).
  - rewrite (written_other m_Vals "accountExpires"%go attr) by first [apply expiration_one|congruence].
    destruct (decide (attr = "unicodePwd"%go)) as [->|Hne2].
    + rewrite (written_in _ _ "unicodePwd"%go (password_mods spec) Hwf) by (cbn; tauto). by right.
    + left. unfold password_mods. destruct (wanted_password spec); [|done].
      unfold written_as. cbn. by rewrite decide_False by congruence.
Qed.

Lemma updated_settled u same dn :
  EqualFoldDN (us_Container spec) (us_Container spec) = inl true ->
  EqualFoldDN (us_Container spec) (u_Container u) = inl same ->
  let u' := updated_user spec u same dn in
  user_mods spec u' = expiration_mods (us_AccountExpiration spec) /\ moves u' true = false /\
  new_can u' = u_CanChangePassword u' /\ EqualFoldDN (us_Container spec) (u_Container u') = inl true /\
  wanted_name spec u' = wanted_name spec u /\ updated_user spec u' true dn = u'.
Proof using Type.
  intros Hrefl Hsame u'. assert (wanted_name spec u' = u_Name u') as Hn.
  { subst u'. unfold wanted_name, updated_user. cbn. unfold wanted_name. by destruct (us_Name spec) as [[|b n]|]. }
  assert (new_can u' = u_CanChangePassword u') as Hc.
  { subst u'. unfold new_can, updated_user. cbn. by destruct (us_CanChangePassword spec). }
  assert (merged_user spec u' = u') as Hm.
  { pose proof (merged_user_again spec u) as Hm. subst u'. unfold updated_user at 1.
    change (merged_user spec (placed (merged_user spec u) ?d ?n ?k ?c0))
      with (placed (merged_user spec (merged_user spec u)) d n k c0). by rewrite Hm. }
  split_and!.
  - apply (merged_user_settled spec u).
  - unfold moves. rewrite Hn, bool_decide_eq_false_2 by tauto. done.
  - exact Hc.
  - subst u'. cbn. by destruct same.
  - rewrite Hn. by subst u'.
  - unfold updated_user at 1. rewrite Hm, Hn. fold (new_can u'). rewrite Hc. subst u'. done.
Qed.

Lemma all_changes_spelled u same out e a :
  In a userAttrs -> spelled a e -> spelled a (apply_mods e (mods_of (all_changes u same out))).
Proof using Type.
  intros Ha Hsp. apply spelled_mods; [|done]. apply List.Forall_forall.
  intros m [_ Hm]%mods_of_In; [|apply all_changes_wf]. unfold all_changes in Hm. rewrite map_app, in_app_iff in Hm.
  destruct Hm as [Hm|Hm]; [by eapply user_other_spelling|]. revert Hm. generalize (m_Type m). clear -Ha.
  cbn in Ha. repeat destruct Ha as [<-|Ha]; try done; solve_other_spelling.
Qed.

(** The account an update leaves can be updated again. *)
Lemma updatable_again u same out w w' :
  EqualFoldDN (us_Container spec) (us_Container spec) = inl true ->
  updatable u same w -> let u' := updated_user spec u same (en_DN (get w')) in
  user_model (get w') = Ret u' ->
  en_Attrs (get w') = en_Attrs (apply_mods (get w) (mods_of (all_changes u same out))) ->
  updatable u' true w'.
Proof using Type.
  intros Hrefl [Hguid Hpw Hsp Hu Hsame Hexp Hedit] u' Hu' Hattrs.
  destruct (updated_settled u same (en_DN (get w')) Hrefl Hsame) as (_ & _ & Hc & Hk & _ & _).
  split; try done. intros a Ha k vs. rewrite Hattrs. by apply all_changes_spelled, Hsp.
Qed.
End accounts.

(** ** The property *)

(** C14: a user update does what its spec says, and repeating it changes
    nothing.  Against a directory of one account that stores what is written
    to it and renames and moves it when asked, with the wait for replication
    off, an update (of attributes, name, container, password and the right to
    change it alike) succeeds with the account the spec asks for: what the
    spec names, and the rest as it was.  The identity keeps finding the
    account (a GUID does), and a descriptor to be edited has room for it.  The
    same update again returns the same account and leaves its name and every
    attribute as they are: it writes nothing but an expiration and a password
    the spec has, again. *)
Theorem User_Update_twice `{Unicode} `{AdCore} `{Env} (c : core) (get : World -> Entry) (fuel : nat)
    (id : Identity) (spec : UserSpec) (u : User) (same : bool) (s : St) :
  still -> 1 <= c_MaxAttempts c -> repl_Wait (c_repl c) = false -> account_store get spec (wanted_name spec u) ->
  finds c get "user"%go userAttrs [sdDACL] id -> UserSpec_Validate spec "User.Update"%go = None ->
  EqualFoldDN (us_Container spec) (us_Container spec) = inl true ->
  updatable c get spec u same (st_world s) -> ready s -> unlocked (IdentityArg id) s ->
  exists s1 s2 out, let u1 := updated_user spec u same (en_DN (get (st_world s1))) in
    User_Update c fuel id spec s = (Ret (u1, None), s1) /\
    user_model (get (st_world s1)) = Ret u1 /\
    en_Attrs (get (st_world s1))
    = en_Attrs (apply_mods (get (st_world s)) (mods_of (all_changes spec u same out))) /\
    User_Update c fuel id spec s1 = (Ret (u1, None), s2) /\
    en_DN (get (st_world s2)) = en_DN (get (st_world s1)) /\
    (forall attr, vals_of (get (st_world s2)) attr = vals_of (get (st_world s1)) attr) /\
    (expiration_mods (us_AccountExpiration spec) = [] -> wanted_password spec = None ->
     st_world s2 = st_world s1).
Proof.
  intros Hst Hmax Hrep Hdir Hid Hval Hrefl Hup Hs Hlock. pose proof (ua_container _ _ _ _ _ _ Hup) as Hsame.
  destruct (User_Update_locked_yields c get spec _ Hst Hmax Hdir fuel id u same (st_world s) Hrep eq_refl
    (finds_found _ _ _ _ _ _ _ Hid) Hup) as (w1 & out & Hy1 & Hm1 & Ha1 & _ & _).
  destruct (validated_yields _ (IdentityArg id) _ s _ w1 Hval Hs Hlock Hy1) as (s1 & E1 & <- & Hs1 & Hl1).
  pose proof (updatable_again c get spec u same out _ _ Hrefl Hup Hm1 Ha1) as Hup2.
  destruct (updated_settled spec u same (en_DN (get (st_world s1))) Hrefl Hsame)
    as (Hmods & Hmv & Hc & _ & Hn2 & Hagain).
  destruct (User_Update_locked_yields c get spec _ Hst Hmax Hdir fuel id _ true (st_world s1) Hrep Hn2
    (finds_found _ _ _ _ _ _ _ Hid) Hup2) as (w2 & out2 & Hy2 & Hm2 & Ha2 & Hdn2 & Hout2 & Hsame2).
  destruct (validated_yields _ (IdentityArg id) _ s1 _ w2 Hval Hs1 (unlocked_eq _ s s1 Hl1 Hlock) Hy2)
    as (s2 & E2 & <- & _ & _).
  specialize (Hdn2 Hmv). specialize (Hout2 Hc). subst out2. rewrite Hdn2, Hagain in E2.
  exists s1, s2, out. split_and!; [exact E1|done|done|exact E2|done| |].
  - intros attr. change (vals_of (get (st_world s2)) attr) with (default [] (map_get (en_Attrs (get (st_world s2))) attr)).
    rewrite Ha2. fold (vals_of (apply_mods (get (st_world s1)) (mods_of (all_changes spec
      (updated_user spec u same (en_DN (get (st_world s1)))) true None))) attr).
    rewrite vals_delta by apply all_changes_wf.
    destruct (written_twice spec u same out _ attr Hmods Hmv) as [->| ->]; [done|].
    destruct (written_vals attr _) as [vs|] eqn:Ew; [|done]. cbn. unfold vals_of. rewrite Ha1.
    fold (vals_of (apply_mods (get (st_world s)) (mods_of (all_changes spec u same out))) attr).
    rewrite vals_delta by apply all_changes_wf. by rewrite Ew.
  - intros He Hp. apply Hsame2; [by rewrite Hmods|done..].
Qed.

(** *** A directory of one account *)

Section samples.
#[local] Existing Instances ascii_unicode sample_adcore.

Definition account_env : Env := {|
  World := Entry;
  Handle := unit;
  env_dial w := (inl tt, w);
  env_bind h w := (None, w);
  env_search h req w := (inl (mkSearchResult [w] []), w);
  env_add h dn attrs w := (Some refused, w);
  env_modify h dn mods ctls w := (None, apply_mods w mods);
  env_modifydn h dn rdn del sup w := (None, moved_entry w rdn sup);
  env_delete h dn w := (Some refused, w);
  env_close h w := (None, w);
  env_select w := (None, w);
  env_backoff n w := (None, w);
  env_dial_other host w := (inl tt, w);
  env_now w := (0, w);
  env_wait d w := (None, w);
  Mutex := unit;
  mutex_lock key l := Some l;
  mutex_unlock key l := l
|}.

(** An enabled account, and an update that renames and moves it, sets its
    password and an expiration, disables it and denies changing the
    password. *)
Definition account_entry : Entry :=
  mkEntry "CN=u,DC=example"%go
    [("objectGUID"%go, [sample_guid]); ("name"%go, ["u"%go]); ("sAMAccountName"%go, ["u"%go]);
     ("userAccountControl"%go, ["512"%go]); ("description"%go, ["old"%go]);
     ("nTSecurityDescriptor"%go, [protected_sd])].
Definition account_spec : UserSpec :=
  mkUserSpec (Some "v"%go) [] "DC=other"%go None None None None (Some "new"%go) (Some false) None None
    (Some false) (mkExpiration true false 1700000000123456789) (Some (mkSecret false "pw"%go)).
Definition account_state : @St account_env := @mkSt account_env account_entry (NewPool 1) tt None.

Lemma account_directory : @account_store sample_adcore account_env (fun w => w) account_spec "v"%go.
Proof.
  split.
  - intros w mods ctl. by exists (apply_mods w mods).
  - intros w h. by exists [].
  - intros w container same Hc. eexists (moved_entry w "CN=v"%go (if same then [] else "DC=other"%go)), _.
    split; [reflexivity|]. split; [|reflexivity].
    assert (parent_of (en_DN w) = container) as Hp by (unfold parent_of; by rewrite Hc).
    destruct same; rewrite ?Hp; reflexivity.
Qed.

Lemma account_still : @still account_env.
Proof. split; try done. intros w. by exists tt. Qed.

Lemma account_finds class want ctl (id : sample_identity) f :
  identityFilter id = Ret f -> @finds _ account_env sample_core (fun w => w) class want ctl id.
Proof. intros Hf. exists f. split; [exact Hf|]. intros w h. by exists []. Qed.

Lemma account_spelled a : In a userAttrs -> spelled a account_entry.
Proof. revert a. solve_spelled. Qed.

Lemma account_editable : editable account_entry false.
Proof.
  destruct (entries protected_sd) as [[p l]| | | |] eqn:El; try (vm_compute in El; discriminate El).
  exists p, l. split; [exact El|]. vm_compute in El. injection El as _ <-. vm_compute. reflexivity.
Qed.

Lemma account_updatable u :
  user_model account_entry = Ret u ->
  updatable (H1 := account_env) sample_core (fun w => w) account_spec u false account_entry.
Proof.
  intros Hu. vm_compute in Hu. pose proof Hu as Hu2. injection Hu2 as <-.
  split.
  - intros w. apply finds_found. eapply account_finds. reflexivity.
  - intros _. split; [discriminate|]. eapply account_finds. reflexivity.
  - exact account_spelled.
  - exact Hu.
  - reflexivity.
  - intros _. cbn. lia.
  - intros _. exact account_editable.
Qed.

Lemma User_Update_twice_witness :
  let id : Identity := SampleGUID "00112233-4455-6677-8899-aabbccddeeff"%go in
  exists u s1 s2,
    @User_Update _ _ account_env sample_core 0 id account_spec account_state = (Ret (u, None), s1) /\
    @User_Update _ _ account_env sample_core 0 id account_spec s1 = (Ret (u, None), s2) /\
    u_Name u = "v"%go /\ u_Container u = "DC=other"%go /\ u_Description u = "new"%go /\
    u_Enabled u = false /\ u_CanChangePassword u = false /\
    u_AccountExpiration u = Some 1700000000123456700 /\
    forall attr, vals_of (@st_world account_env s2) attr = vals_of (@st_world account_env s1) attr.
Proof.
  intros id.
  destruct (user_model account_entry) as [u| | | |] eqn:Eu; try (vm_compute in Eu; discriminate Eu).
  destruct (@User_Update_twice _ _ account_env sample_core (fun w => w) 0 id account_spec u false account_state)
    as (s1 & s2 & out & E1 & _ & _ & E2 & _ & Hv & _).
  - exact account_still.
  - discriminate.
  - reflexivity.
  - exact account_directory.
  - eapply account_finds. reflexivity.
  - reflexivity.
  - reflexivity.
  - exact (account_updatable u Eu).
  - split; [exact (le_n 1)|reflexivity].
  - exists tt. split; reflexivity.
  - eexists _, s1, s2. split; [exact E1|]. split; [exact E2|].
    do 6 (split; [reflexivity|]). exact Hv.
Defined.
End samples.
