(* ===== verification/Acls.v ===== *)
(** * acl.go: access control entries of any object

    [ACLDirectory]'s three operations over the codecs of [Ace]: the entries of
    an object read, added and removed through its [nTSecurityDescriptor]. *)
From S2P Require Export Directory.

Definition aclAttrs : list gostring :=
  ["objectGUID"; "distinguishedName"; "nTSecurityDescriptor"]%go.

Definition zeroGUID : gostring := "00000000-0000-0000-0000-000000000000"%go.

Definition guidOrEmpty (raw : bytes) : gostring :=
  if decide (len raw <> 16) then []
  else match GUIDToString raw with
       | Ret s => if decide (s = zeroGUID) then [] else s
       | _ => []
       end.

(** The contract's ACE for a decoded one. *)
Definition ace_of (sid : gostring) (d : DecodedACE) (inherited : bool) : ACE :=
  mkACE sid (if d_Deny d then ACEDeny else ACEAllow) (RightsNames (d_Mask d))
    (guidOrEmpty (d_ObjectType d)) (guidOrEmpty (d_InheritedObjectType d))
    (InheritanceOf (d_Flags d)) inherited.

(** The loop of [Get]: a trustee that does not format is skipped
    ([SIDToString_returns]: it is a value or an error). *)
Fixpoint acl_model (ds : list DecodedACE) : list ACE :=
  match ds with
  | [] => []
  | d :: ds =>
      match SIDToString (d_TrusteeSID d) with
      | Ret sid => ace_of sid d (d_Inherited d) :: acl_model ds
      | _ => acl_model ds
      end
  end.

Section acls.
Context `{Unicode} `{AdCore} `{Env}.

Definition unreadable : gostring :=
  "nTSecurityDescriptor read back empty; the account this client binds as cannot read the object's security descriptor"%go.

Definition readDescriptor (c : core) (op : gostring) (id : Identity) : M (Entry * bytes) :=
  e ← getOne c op id "*"%go aclAttrs [sdDACL];
  match First e "nTSecurityDescriptor"%go with
  | [] => fail (adErr_full KindDenied op (Identity_String id) (en_DN e) (ErrNew unreadable))
  | sd => mret (e, sd)
  end.

Definition ACL_Get (c : core) (id : Identity) : M (list ACE) :=
  let op := "ACL.Get"%go in
  '(_, sd) ← readDescriptor c op id;
  decoded ← map_error (adErr_id KindConstraint op (Identity_String id)) (lift (DecodeACEs sd));
  mret (acl_model decoded).

(** The optional GUIDs of [decode]. *)
Definition decode_type (op format text : gostring) : outcome bytes :=
  match text with
  | [] => Ret []
  | _ => wrap_err (fun err => adErr KindConstraint op (Errorf format [FStr text] (Some err)))
           (GUIDToBytes text)
  end.

(** [aclDirectory.decode] *)
Definition acl_decode (op : gostring) (ace : ACE) : outcome DecodedACE :=
  sid ← wrap_err (fun err => adErr KindConstraint op
                    (Errorf "trustee %q is not a SID: %w"%go [FStr (ace_Trustee ace)] (Some err)))
          (SIDFromString (ace_Trustee ace));
  mask ← wrap_err (adErr KindConstraint op) (RightsMask (ace_Rights ace));
  ot ← decode_type op "object type %q is not a GUID: %w"%go (ace_ObjectType ace);
  iot ← decode_type op "inherited object type %q is not a GUID: %w"%go (ace_InheritedObjectType ace);
  Ret (mkDecodedACE sid (bool_decide (ace_Type ace = ACEDeny)) mask ot iot
         (FlagsFor (ace_Inheritance ace)) false).

(** [keyOf]: [None] is [false]. *)
Definition keyOf (d : DecodedACE) : option gostring :=
  match SIDToString (d_TrusteeSID d) with
  | Ret sid => Some (CanonicalACEKey (ace_of sid d false))
  | _ => None
  end.

(** The set [have] of [Grant], and the ACEs its loop does not skip. *)
Definition explicit_keys (existing : list ACE) : list gostring :=
  map CanonicalACEKey (filter (fun x => ace_Inherited x = false) existing).
Definition missing (have : list gostring) (aces : list ACE) : list ACE :=
  filter (fun a => CanonicalACEKey a ∉ have) aces.

(** The decoding loop of [Grant] and of [Revoke]: the first failure returns. *)
Definition decode_all (op : gostring) (id : Identity) (aces : list ACE) : M (list DecodedACE) :=
  map_error (fun err => WithIdentity err op id) (lift (mapM_out (acl_decode op) aces)).

(** The tail of both: write what an edit changed. *)
Definition write_edit (c : core) (op : gostring) (id : Identity) (dn : gostring)
    (edit : outcome (bytes * bool)) : M unit :=
  '(updated, changed) ← map_error (adErr_id KindConstraint op (Identity_String id)) (lift edit);
  if negb (changed : bool) then mret tt
  else map_error (fun err => WithIdentity err op id) (write_descriptor c op dn updated).

Definition Grant_locked (c : core) (id : Identity) (aces : list ACE) : M unit :=
  let op := "ACL.Grant"%go in
  '(e, sd) ← readDescriptor c op id;
  existing ← ACL_Get c (ByDN (en_DN e));
  add ← decode_all op id (missing (explicit_keys existing) aces);
  write_edit c op id (en_DN e) (AddACEs sd add).

Definition Grant (c : core) (id : Identity) (aces : list ACE) : M unit :=
  match aces with
  | [] => mret tt
  | _ => with_lock (IdentityArg id) (Grant_locked c id aces)
  end.

(** The predicate [Revoke] hands to [RemoveACEs]. *)
Definition drops (drop : list gostring) (d : DecodedACE) : bool :=
  match keyOf d with
  | None => false
  | Some key => bool_decide (key ∈ drop)
  end.

Definition Revoke_locked (c : core) (id : Identity) (aces : list ACE) : M unit :=
  let op := "ACL.Revoke"%go in
  '(e, sd) ← readDescriptor c op id;
  decode_all op id aces;;
  write_edit c op id (en_DN e) (RemoveACEs sd (drops (map CanonicalACEKey aces))).

Definition Revoke (c : core) (id : Identity) (aces : list ACE) : M unit :=
  match aces with
  | [] => mret tt
  | _ => with_lock (IdentityArg id) (Revoke_locked c id aces)
  end.
End acls.

(** ** Every operation returns *)

Section acls_lemmas.
Context `{Unicode} `{AdCore} `{Env}.

Lemma decode_type_returns op format text : returns (decode_type op format text).
Proof. unfold decode_type. case_match; [done|]. apply returns_wrap_err, GUIDToBytes_returns. Qed.

Lemma acl_decode_returns op a : returns (acl_decode op a).
Proof.
  unfold acl_decode. apply returns_bind; [apply returns_wrap_err, SIDFromString_returns|intros ? _].
  apply returns_bind; [apply returns_wrap_err, RightsMask_returns|intros ? _].
  apply returns_bind; [apply decode_type_returns|intros ? _].
  by apply returns_bind; [apply decode_type_returns|].
Qed.

Lemma readDescriptor_quiet c op id : quiet (readDescriptor c op id).
Proof. unfold readDescriptor. solve_quiet. Qed.
Hint Resolve readDescriptor_quiet DecodeACEs_returns : quiet.
Lemma ACL_Get_quiet c id : quiet (ACL_Get c id).
Proof. unfold ACL_Get. solve_quiet. Qed.
Lemma decode_all_quiet op id aces : quiet (decode_all op id aces).
Proof.
  apply quiet_map_error, quiet_lift, mapM_out_returns, Forall_true. intros. apply acl_decode_returns.
Qed.
Lemma write_edit_quiet c op id dn edit : returns edit -> quiet (write_edit c op id dn edit).
Proof. intros. unfold write_edit. solve_quiet. Qed.
Hint Resolve ACL_Get_quiet decode_all_quiet write_edit_quiet AddACEs_returns RemoveACEs_returns : quiet.

Lemma Grant_runs c id aces : runs (unlocked (IdentityArg id)) (Grant c id aces).
Proof.
  destruct aces; [by intros s|]. apply runs_with_lock. unfold Grant_locked. solve_quiet.
Qed.

Lemma Revoke_runs c id aces : runs (unlocked (IdentityArg id)) (Revoke c id aces).
Proof.
  destruct aces; [by intros s|]. apply runs_with_lock. unfold Revoke_locked. solve_quiet.
Qed.
End acls_lemmas.

(** ** Reading *)

Lemma le_uint_ok b i j : 0 <= i -> i <= j -> j <= len b -> exists v, le_uint b i j = Ret v.
Proof. intros. unfold le_uint. rewrite slice_ok by lia. by eexists. Qed.

(** Every trustee [DecodeACEs] yields formats, so [Get] skips nothing. *)
Lemma SIDToString_exact s : exact sidLen s -> exists sid, SIDToString s = Ret sid.
Proof.
  intros Hs. pose proof (exact_sid_bound _ Hs). unfold exact, sidLen in Hs.
  rewrite decide_False in Hs by lia. apply bind_Ret in Hs as (c & Hc & Hlen). cbv zeta in Hlen.
  destruct (decide (len s < 8 + 4 * c)); [done|]. apply Ret_inj in Hlen.
  unfold SIDToString. rewrite decide_False by lia.
  destruct (index_Ret_ex s 0) as [r ->]; [lia|]. rewrite Hc. cbn [mbind outcome_bind].
  rewrite decide_False by lia. rewrite slice_ok by lia. cbn [mbind outcome_bind]. cbv zeta.
  assert (exists vs, mapM_out (fun i => le_uint s (8 + 4 * i) (12 + 4 * i)) (seqZ 0 c) = Ret vs)
    as [vs ->]; [|by eexists].
  pose proof (seqZ_bounds 0 c) as Hb. induction Hb as [|i l Hi _ [vs IH]]; [by eexists|].
  cbn [mapM_out]. destruct (le_uint_ok s (8 + 4 * i) (12 + 4 * i)) as [v ->]; [lia..|].
  cbn [mbind outcome_bind]. rewrite IH. by eexists.
Qed.

Lemma acl_model_all ds :
  Forall (fun d => exact sidLen (d_TrusteeSID d)) ds ->
  Forall2 (fun d a => exists sid, SIDToString (d_TrusteeSID d) = Ret sid /\
             a = ace_of sid d (d_Inherited d)) ds (acl_model ds).
Proof.
  induction 1 as [|d ds Hd _ IH]; [constructor|]. cbn [acl_model].
  destruct (SIDToString_exact _ Hd) as [sid Hsid]. rewrite Hsid. constructor; [by exists sid|done].
Qed.

Lemma acl_model_app ds1 ds2 : acl_model (ds1 ++ ds2) = acl_model ds1 ++ acl_model ds2.
Proof.
  induction ds1 as [|d ds1 IH]; [done|]. cbn [app acl_model].
  destruct (SIDToString _); [by rewrite IH|exact IH..].
Qed.

Lemma decode_list_exact l ds :
  decode_list l = Ret ds -> Forall (fun d => exact sidLen (d_TrusteeSID d)) ds.
Proof.
  revert ds. induction l as [|a l IH]; cbn [decode_list]; intros ds.
  - intros <-%Ret_inj. constructor.
  - intros (d & Hd & (ds' & Hds & <-%Ret_inj)%bind_Ret)%bind_Ret. specialize (IH _ Hds).
    destruct d as [d|]; [constructor; [|done]|done]. by apply wf_trustee, (decodeACE_wf a).
Qed.

Lemma DecodeACEs_exact sd ds :
  DecodeACEs sd = Ret ds -> Forall (fun d => exact sidLen (d_TrusteeSID d)) ds.
Proof.
  unfold DecodeACEs. destruct sd as [|b sd]; [by intros <-%Ret_inj|].
  intros (p & _ & Hr)%bind_Ret. destruct (p_dacl p); [by apply Ret_inj in Hr as <-|].
  apply bind_Ret in Hr as (entries & _ & Hl). by apply decode_list_exact in Hl.
Qed.

(** ** What the operations write *)

Lemma wf_sid_exact s : wf_sid s -> exact sidLen s.
Proof.
  intros (r & c & auth & subs & -> & Ha & Hl & Hc). pose proof (bZ_range c). unfold exact, sidLen.
  assert (len (r :: c :: auth ++ subs) = 8 + 4 * bZ c) as Hlen by len_lia.
  rewrite decide_False by lia. rewrite (index_Ret _ 1 (bZ c) [r] c (auth ++ subs)) by done.
  cbn [mbind outcome_bind]. cbv zeta. rewrite decide_False by lia. by rewrite Hlen.
Qed.

Section writes.
Context `{Unicode} `{AdCore} `{Env}.

Lemma decode_type_wf op format text g : decode_type op format text = Ret g -> g = [] \/ len g = 16.
Proof.
  unfold decode_type. destruct text; [intros <-%Ret_inj; by left|].
  intros Hg%wrap_err_Ret. right. by eapply GUIDToBytes_len.
Qed.

Lemma acl_decode_wf op a d : acl_decode op a = Ret d -> wf_decoded d.
Proof.
  unfold acl_decode. intros (sid & Hsid%wrap_err_Ret & (mask & Hm%wrap_err_Ret &
    (ot & Hot%decode_type_wf & (iot & Hiot%decode_type_wf & <-%Ret_inj)%bind_Ret)%bind_Ret)%bind_Ret)%bind_Ret.
  constructor; cbn; try done.
  - by eapply RightsMask_range.
  - by destruct (ace_Inheritance a).
  - by destruct (ace_Inheritance a).
  - by eapply wf_sid_exact, SIDFromString_shape.
Qed.

(** The directory answered a lookup of [id] with [e] and the descriptor [sd]. *)
Definition descriptor_of (c : core) (id : Identity) (e : Entry) (sd : bytes) : Prop :=
  looked_up c id "*"%go aclAttrs [sdDACL] e /\ First e "nTSecurityDescriptor"%go = sd /\ sd <> [].

Lemma readDescriptor_Ret c op id s e sd :
  1 <= c_MaxAttempts c -> fst (readDescriptor c op id s) = Ret (e, sd) -> descriptor_of c id e sd.
Proof.
  intros Hmax. unfold readDescriptor, mbind, M_bind.
  destruct (getOne _ _ _ _ _ _ s) as [[e'|err| | |] s1] eqn:E; try done.
  intros Hr. assert (looked_up c id "*"%go aclAttrs [sdDACL] e') as Hl.
  { apply (getOne_Ret c op id "*"%go aclAttrs [sdDACL] s); [done|]. by rewrite E. }
  destruct (First e' _) as [|b l] eqn:Ef; [done|]. injection Hr as <- <-.
  by split_and!.
Qed.

Lemma ACL_Get_Ret c id s aces :
  1 <= c_MaxAttempts c -> fst (ACL_Get c id s) = Ret aces ->
  exists e sd ds, descriptor_of c id e sd /\ DecodeACEs sd = Ret ds /\ aces = acl_model ds.
Proof.
  intros Hmax. unfold ACL_Get, mbind, M_bind. cbv zeta.
  pose proof (readDescriptor_Ret c "ACL.Get"%go id s) as Hread.
  destruct (readDescriptor _ _ _ s) as [[[e sd]|err| | |] s1]; try done.
  unfold map_error, on_error, attempt, lift, mbind, M_bind.
  destruct (DecodeACEs sd) as [ds|err| | |] eqn:Ed; try done. cbn. intros [= <-].
  exists e, sd, ds. split_and!; [by apply Hread|done..].
Qed.

Lemma decode_all_Ret op id aces s ds s' :
  decode_all op id aces s = (Ret ds, s') ->
  s' = s /\ Forall2 (fun a d => acl_decode op a = Ret d) aces ds.
Proof.
  unfold decode_all, map_error, on_error, attempt, lift, mbind, M_bind.
  destruct (mapM_out _ _) as [ds'|err| | |] eqn:Em; cbn; try done. intros [= -> ->].
  split; [done|]. by apply mapM_out_Ret.
Qed.

Lemma write_edit_Ret c op id dn edit s :
  1 <= c_MaxAttempts c -> fst (write_edit c op id dn edit s) = Ret tt ->
  exists out changed, edit = Ret (out, changed) /\
    (if changed : bool then descriptor_written dn out else snd (write_edit c op id dn edit s) = s).
Proof.
  intros Hmax. unfold write_edit, map_error, on_error, attempt, lift, mbind, M_bind.
  destruct edit as [[out changed]|err| | |]; cbn -[write_descriptor]; try done.
  intros Hr. exists out, changed. split; [done|].
  destruct changed; [|done]. cbn [negb] in *.
  destruct (write_descriptor c op dn out s) as [[[]|err| | |] s1] eqn:Ew; try done.
  apply (write_descriptor_Ret c op dn out s); [done|]. by rewrite Ew.
Qed.
End writes.

(** ** Canonical keys *)

Lemma filter_rejects {A} (P : A -> Prop) `{!forall x, Decision (P x)} (l : list A) :
  (forall x, In x l -> ~ P x) -> filter P l = [].
Proof.
  induction l as [|x l IH]; intros Hl; [done|].
  rewrite filter_cons_False by (apply Hl; by left). apply IH. intros y Hy. apply Hl. by right.
Qed.

Section keys.
Context `{Unicode} `{AdCore}.

(** [a] is written the way a directory would read it back. *)
Definition canonical (op : gostring) (a : ACE) : Prop := forall d,
  acl_decode op a = Ret d -> keyOf d = Some (CanonicalACEKey a).

Lemma explicit_keys_app xs ys : explicit_keys (xs ++ ys) = explicit_keys xs ++ explicit_keys ys.
Proof. unfold explicit_keys. by rewrite list.filter_app, map_app. Qed.

Lemma acl_decode_key op a d :
  canonical op a -> acl_decode op a = Ret d -> explicit_keys (acl_model [d]) = [CanonicalACEKey a].
Proof.
  intros Hc Hd. specialize (Hc d Hd). unfold keyOf in Hc. cbn [acl_model].
  destruct (SIDToString _) as [sid|e| | |]; try done. injection Hc as Hc.
  assert (d_Inherited d = false) as ->.
  { unfold acl_decode in Hd. inv_ret Hd. by apply Ret_inj in Hd as <-. }
  unfold explicit_keys. rewrite filter_cons_True by done. cbn. by rewrite Hc.
Qed.

Lemma granted op todo add :
  Forall (canonical op) todo -> Forall2 (fun a d => acl_decode op a = Ret d) todo add ->
  explicit_keys (acl_model add) = map CanonicalACEKey todo.
Proof.
  intros Hc Hadd. induction Hadd as [|a d todo add Hd _ IH]; [done|].
  inversion Hc as [|? ? Hca Hcs]; subst. change (d :: add) with ([d] ++ add).
  rewrite acl_model_app, explicit_keys_app, (acl_decode_key op a d), IH by done. done.
Qed.

(** Once granted, nothing is missing. *)
Lemma missing_granted op aces ds add :
  Forall (canonical op) aces ->
  Forall2 (fun a d => acl_decode op a = Ret d) (missing (explicit_keys (acl_model ds)) aces) add ->
  missing (explicit_keys (acl_model (ds ++ add))) aces = [].
Proof.
  intros Hc Hadd. rewrite acl_model_app, explicit_keys_app.
  rewrite (granted op (missing (explicit_keys (acl_model ds)) aces) add); [|apply List.Forall_forall; intros a [_ Hin]%In_filter; by apply (proj1 (List.Forall_forall _ _) Hc)|done].
  assert (forall a, In a aces -> CanonicalACEKey a ∈ explicit_keys (acl_model ds) ++
            map CanonicalACEKey (missing (explicit_keys (acl_model ds)) aces)) as Hall.
  { intros a Hin. apply elem_of_app.
    destruct (decide (CanonicalACEKey a ∈ explicit_keys (acl_model ds))) as [Hk|Hk]; [by left|right].
    apply list_elem_of_In, in_map, In_filter. done. }
  apply filter_rejects. intros a Hin Hn. by apply Hn, Hall.
Qed.
End keys.

Section locked.
Context `{Unicode} `{AdCore} `{Env} (R : relation World) `{!PreOrder R} (HR : reading R).

Lemma readDescriptor_reads c op id : respects R (readDescriptor c op id).
Proof using HR PreOrder0. unfold readDescriptor. solve_respects. Qed.
Hint Resolve readDescriptor_reads : calm.
Lemma ACL_Get_reads c id : respects R (ACL_Get c id).
Proof using HR PreOrder0. unfold ACL_Get. solve_respects. Qed.

(** What a successful run of [Grant] read, decoded and wrote. *)
Lemma Grant_locked_success c id aces s :
  1 <= c_MaxAttempts c -> fst (Grant_locked c id aces s) = Ret tt ->
  exists e sd e2 sd2 ds2 add out changed, descriptor_of c id e sd /\
    descriptor_of c (ByDN (en_DN e)) e2 sd2 /\ DecodeACEs sd2 = Ret ds2 /\
    Forall2 (fun a d => acl_decode "ACL.Grant"%go a = Ret d)
      (missing (explicit_keys (acl_model ds2)) aces) add /\
    AddACEs sd add = Ret (out, changed) /\
    if changed : bool then descriptor_written (en_DN e) out
    else R (st_world s) (st_world (snd (Grant_locked c id aces s))).
Proof using HR PreOrder0.
  intros Hmax. unfold Grant_locked. cbv zeta. unfold mbind at 1 4, M_bind at 1 4.
  pose proof (readDescriptor_Ret c "ACL.Grant"%go id s) as Hread.
  pose proof (readDescriptor_reads c "ACL.Grant"%go id s) as HR1.
  destruct (readDescriptor _ _ _ s) as [[[e sd]|err| | |] s1]; try done.
  unfold mbind at 1 3, M_bind at 1 3.
  pose proof (ACL_Get_Ret c (ByDN (en_DN e)) s1) as Hget.
  pose proof (ACL_Get_reads c (ByDN (en_DN e)) s1) as HR2.
  destruct (ACL_Get _ _ s1) as [[existing|err| | |] s2]; try done.
  unfold mbind, M_bind. destruct (decode_all _ _ _ s2) as [[add|err| | |] s3] eqn:Ed; try done.
  apply decode_all_Ret in Ed as [-> Hadd]. intros Hw.
  apply write_edit_Ret in Hw as (out & changed & Hedit & Hch); [|done].
  destruct (Hget existing) as (e2 & sd2 & ds2 & Hof & Hds & ->); [done..|].
  exists e, sd, e2, sd2, ds2, add, out, changed. split_and!; [by apply Hread|done..|].
  destruct changed; [done|]. rewrite Hch. by etransitivity.
Qed.

(** The same of [Revoke]. *)
Lemma Revoke_locked_success c id aces s :
  1 <= c_MaxAttempts c -> fst (Revoke_locked c id aces s) = Ret tt ->
  exists e sd out changed, descriptor_of c id e sd /\
    (exists ds, Forall2 (fun a d => acl_decode "ACL.Revoke"%go a = Ret d) aces ds) /\
    RemoveACEs sd (drops (map CanonicalACEKey aces)) = Ret (out, changed) /\
    if changed : bool then descriptor_written (en_DN e) out
    else R (st_world s) (st_world (snd (Revoke_locked c id aces s))).
Proof using HR PreOrder0.
  intros Hmax. unfold Revoke_locked. cbv zeta. unfold mbind at 1 3, M_bind at 1 3.
  pose proof (readDescriptor_Ret c "ACL.Revoke"%go id s) as Hread.
  pose proof (readDescriptor_reads c "ACL.Revoke"%go id s) as HR1.
  destruct (readDescriptor _ _ _ s) as [[[e sd]|err| | |] s1]; try done.
  unfold mbind, M_bind. destruct (decode_all _ _ _ s1) as [[ds|err| | |] s2] eqn:Ed; try done.
  apply decode_all_Ret in Ed as [-> Hds]. intros Hw.
  apply write_edit_Ret in Hw as (out & changed & Hedit & Hch); [|done].
  exists e, sd, out, changed. split_and!; [by apply Hread|by exists ds|done|].
  destruct changed; [done|]. by rewrite Hch.
Qed.

Lemma sift_decode m l r : sift (removable m) l = Ret r -> exists ds, decode_list l = Ret ds.
Proof using Type.
  revert r. induction l as [|a l IH]; cbn [sift decode_list]; intros r; [by eexists|].
  intros (b & (d & Hd & _)%bind_Ret & (r' & Hr & _)%bind_Ret)%bind_Ret. rewrite Hd.
  destruct (IH r') as [ds Hds]; [by destruct r'|]. cbn [mbind outcome_bind]. rewrite Hds. by eexists.
Qed.

Lemma RemoveACEs_decodes sd m r :
  RemoveACEs sd m = Ret r -> exists p l ds, entries sd = Ret (p, l) /\ DecodeACEs sd = Ret ds.
Proof using Type.
  intros Hr. destruct (entries_cases sd) as [(p & l & Hs)|[e He]].
  - unfold RemoveACEs in Hr. rewrite (with_entries _ _ _ _ Hs) in Hr.
    apply bind_Ret in Hr as (k & Hk & _). apply sift_decode in Hk as [ds Hds].
    exists p, l, ds. by rewrite (DecodeACEs_entries _ _ _ Hs).
  - unfold RemoveACEs in Hr. by rewrite He in Hr.
Qed.

(** No explicit entry with a dropped key is left. *)
Lemma revoked_gone drop ds :
  Forall (fun k => k ∉ drop)
    (explicit_keys (acl_model (List.filter (fun d => negb (candidate (drops drop) d)) ds))).
Proof using Type.
  induction ds as [|d ds IH]; [constructor|]. cbn [List.filter].
  unfold candidate at 1, drops at 1, keyOf.
  destruct (SIDToString (d_TrusteeSID d)) as [sid|e| | |] eqn:Es;
    try (destruct (d_Inherited d); cbn [negb andb acl_model]; rewrite Es; exact IH).
  destruct (d_Inherited d) eqn:Ei; cbn [negb andb].
  - cbn [acl_model]. rewrite Es, Ei. unfold explicit_keys. by rewrite filter_cons_False.
  - case_bool_decide as Hk; cbn [negb]; [exact IH|]. cbn [acl_model]. rewrite Es, Ei.
    unfold explicit_keys. rewrite filter_cons_True by done. by constructor.
Qed.
End locked.

(** ** Properties *)

(** Reading is complete and never silent: [ACL.Get] returns one ACE per
    entry [DecodeACEs] finds in the descriptor the directory answered, in its
    order and none skipped, and an empty descriptor is never read as an empty
    list. *)
Theorem ACL_Get_complete `{Unicode} `{AdCore} `{Env} (c : core) (id : Identity) (s : St)
    (aces : list ACE) :
  1 <= c_MaxAttempts c -> fst (ACL_Get c id s) = Ret aces ->
  exists e sd ds, descriptor_of c id e sd /\ DecodeACEs sd = Ret ds /\
    Forall2 (fun d a => exists sid, SIDToString (d_TrusteeSID d) = Ret sid /\
               a = ace_of sid d (d_Inherited d)) ds aces.
Proof.
  intros Hmax (e & sd & ds & Hof & Hds & ->)%ACL_Get_Ret; [|done].
  exists e, sd, ds. split_and!; [done..|]. by eapply acl_model_all, DecodeACEs_exact.
Qed.

(** C19: a grant adds what is missing and nothing else.  When [ACL.Grant] of a
    non-empty list succeeds, the ACEs whose canonical key no explicit entry
    has were all decoded; if there are none only reads were made, otherwise
    the directory accepted a write of the descriptor with exactly these
    entries appended (provided the list fits its size field) and every entry
    it had in place.  If all ACEs are canonical and nobody wrote between the
    two reads, nothing would be missing from what was written. *)
Theorem Grant_success `{Unicode} `{AdCore} `{Env} (R : relation World) `{!PreOrder R} (c : core)
    (id : Identity) (aces : list ACE) (s : St) :
  1 <= c_MaxAttempts c -> reading R -> aces <> [] -> fst (Grant c id aces s) = Ret tt ->
  exists e sd e2 sd2 ds2 add, descriptor_of c id e sd /\ descriptor_of c (ByDN (en_DN e)) e2 sd2 /\
    DecodeACEs sd2 = Ret ds2 /\
    let todo := missing (explicit_keys (acl_model ds2)) aces in
    Forall2 (fun a d => acl_decode "ACL.Grant"%go a = Ret d) todo add /\
    (todo = [] -> R (st_world s) (st_world (snd (Grant c id aces s)))) /\
    (todo <> [] -> exists out, AddACEs sd add = Ret (out, true) /\ descriptor_written (en_DN e) out /\
       forall p l ds, entries sd = Ret (p, l) -> DecodeACEs sd = Ret ds ->
         acl_size (l ++ map EncodeACE add) < 65536 ->
         DecodeACEs out = Ret (ds ++ add) /\
         exists p', entries out = Ret (p', l ++ map EncodeACE add) /\ same_but_dacl p p') /\
    (Forall (canonical "ACL.Grant"%go) aces ->
       missing (explicit_keys (acl_model (ds2 ++ add))) aces = []).
Proof.
  intros Hmax HR Hne. destruct aces as [|a0 aces']; [done|]. set (aces := a0 :: aces') in *.
  change (Grant c id aces) with (with_lock (IdentityArg id) (Grant_locked c id aces)).
  intros (s' & Hw & Hg & ->)%with_lock_Ret. rewrite <- Hw.
  destruct (Grant_locked_success R HR _ _ _ _ Hmax Hg)
    as (e & sd & e2 & sd2 & ds2 & add & out & changed & Hof & Hof2 & Hds2 & Hadd & Hout & Hch).
  exists e, sd, e2, sd2, ds2, add. cbv zeta. split_and!; [done..| | |].
  - intros Htodo. rewrite Htodo in Hadd. inversion Hadd; subst add. cbn in Hout.
    injection Hout as <- <-. exact Hch.
  - intros Htodo. assert (add <> []) as Hne' by (intros ->; by inversion Hadd).
    assert (Forall wf_decoded add) as Hwf.
    { clear -Hadd. induction Hadd as [|a d l l' Hd _ IH]; [constructor|].
      constructor; [by eapply acl_decode_wf|done]. }
    destruct changed.
    2: { exfalso. destruct add; [done|]. unfold AddACEs in Hout. by inv_ret Hout. }
    exists out. split_and!; [done..|]. intros p l ds Hs Hds Hsize.
    destruct (AddACEs_entries _ _ _ _ _ Hs Hds Hne' Hwf Hsize) as (out' & p' & Ho & Hp' & Hsame & Hdec).
    assert (out' = out) as -> by congruence. split; [done|by exists p'].
  - intros Hcan. by eapply missing_granted.
Qed.

(** C20: a revoke removes exactly what it names.  When [ACL.Revoke] of a
    non-empty list succeeds, every ACE of the list decoded; if no explicit
    entry has one of their canonical keys only reads were made, otherwise the
    directory accepted a write of the descriptor without exactly these
    entries: the others are kept byte for byte in their order, those of an
    unmodelled type included, and no explicit entry has a revoked key. *)
Theorem Revoke_success `{Unicode} `{AdCore} `{Env} (R : relation World) `{!PreOrder R} (c : core)
    (id : Identity) (aces : list ACE) (s : St) :
  1 <= c_MaxAttempts c -> reading R -> aces <> [] -> fst (Revoke c id aces s) = Ret tt ->
  exists e sd p l ds, descriptor_of c id e sd /\ entries sd = Ret (p, l) /\ DecodeACEs sd = Ret ds /\
    (exists revoked, Forall2 (fun a d => acl_decode "ACL.Revoke"%go a = Ret d) aces revoked) /\
    let keys := map CanonicalACEKey aces in
    let ds' := List.filter (fun d => negb (candidate (drops keys) d)) ds in
    (existsb (candidate (drops keys)) ds = false ->
       R (st_world s) (st_world (snd (Revoke c id aces s)))) /\
    (existsb (candidate (drops keys)) ds = true ->
       exists out p' kept, descriptor_written (en_DN e) out /\ entries out = Ret (p', kept) /\
         same_but_dacl p p' /\ sublist kept l /\
         Forall (fun a => decodeACE a = Ret None -> a ∈ kept) l /\
         DecodeACEs out = Ret ds' /\ Forall (fun k => k ∉ keys) (explicit_keys (acl_model ds'))).
Proof.
  intros Hmax HR Hne. destruct aces as [|a0 aces']; [done|]. set (aces := a0 :: aces') in *.
  change (Revoke c id aces) with (with_lock (IdentityArg id) (Revoke_locked c id aces)).
  intros (s' & Hw & Hg & ->)%with_lock_Ret. rewrite <- Hw.
  destruct (Revoke_locked_success R HR _ _ _ _ Hmax Hg)
    as (e & sd & out & changed & Hof & Hdec & Hout & Hch).
  destruct (RemoveACEs_decodes _ _ _ Hout) as (p & l & ds & Hs & Hds).
  destruct (RemoveACEs_entries sd (drops (map CanonicalACEKey aces)) ds p l Hs Hds) as [Hno Hyes].
  exists e, sd, p, l, ds. cbv zeta. split_and!; [done..| |].
  - intros Hex. rewrite (Hno Hex) in Hout. injection Hout as <- <-. exact Hch.
  - intros Hex. destruct (Hyes Hex) as (out' & p' & kept & Ho & He & Hsame & Hsub & Hun & Hd & _).
    rewrite Ho in Hout. injection Hout as <- <-.
    exists out', p', kept. split_and!; [done..|]. apply revoked_gone.
Qed.

(** *** Witnesses *)

Definition acl_entry : Entry :=
  mkEntry "CN=x,DC=example"%go [("nTSecurityDescriptor"%go, [sample_sd])].
Definition acl_id : sample_identity := SampleDN "CN=x,DC=example"%go.
Definition acl_state (reads : nat) : @St script_env :=
  script_state (repeat (inl (mkSearchResult [acl_entry] [])) reads) [].
Definition grant_ace : ACE :=
  mkACE "S-1-5-32-544"%go ACEAllow ["ReadProperty"%go] [] [] InheritanceThis false.
(** What the descriptor already grants: GenericAll to SELF. *)
Definition held_ace : ACE :=
  mkACE "S-1-5-10"%go ACEAllow ["GenericAll"%go] [] [] InheritanceThis false.

Lemma same_script_preorder : PreOrder (fun w w' : script => w_writes w' = w_writes w).
Proof. split; [by intros w|]. intros w1 w2 w3 E1 E2. congruence. Qed.
Lemma script_reading : @reading script_env (fun w w' => w_writes w' = w_writes w).
Proof.
  constructor; [constructor|..]; try reflexivity.
  intros h req [[|r rs] rep wr di cl]; reflexivity.
Qed.

Lemma ACL_Get_complete_witness :
  let run := @ACL_Get ascii_unicode sample_adcore script_env sample_core acl_id (acl_state 1) in
  fst run = Ret [held_ace] /\
  exists e sd, @descriptor_of ascii_unicode sample_adcore script_env sample_core acl_id e sd.
Proof.
  intros run. split; [vm_compute; reflexivity|].
  destruct (@ACL_Get_complete ascii_unicode sample_adcore script_env sample_core acl_id (acl_state 1)
    [held_ace]) as (e & sd & ds & Hof & _).
  - discriminate.
  - vm_compute. reflexivity.
  - exists e, sd. exact Hof.
Defined.

Lemma Grant_success_witness :
  let run aces := @Grant ascii_unicode sample_adcore script_env sample_core acl_id aces (acl_state 2) in
  fst (run [held_ace; grant_ace]) = Ret tt /\
  w_writes (st_world (snd (run [held_ace; grant_ace]))) = 1%nat /\
  w_writes (st_world (snd (run [held_ace]))) = 0%nat /\
  exists e sd, @descriptor_of ascii_unicode sample_adcore script_env sample_core acl_id e sd.
Proof.
  intros run. split; [vm_compute; reflexivity|]. split; [vm_compute; reflexivity|].
  split; [vm_compute; reflexivity|].
  destruct (@Grant_success ascii_unicode sample_adcore script_env _ same_script_preorder sample_core
    acl_id [held_ace; grant_ace] (acl_state 2)) as (e & sd & e2 & sd2 & ds2 & add & Hof & _).
  - discriminate.
  - exact script_reading.
  - discriminate.
  - vm_compute. reflexivity.
  - exists e, sd. exact Hof.
Defined.

Lemma Revoke_success_witness :
  let run aces := @Revoke ascii_unicode sample_adcore script_env sample_core acl_id aces (acl_state 1) in
  fst (run [held_ace]) = Ret tt /\
  w_writes (st_world (snd (run [held_ace]))) = 1%nat /\
  w_writes (st_world (snd (run [grant_ace]))) = 0%nat /\
  exists e sd, @descriptor_of ascii_unicode sample_adcore script_env sample_core acl_id e sd.
Proof.
  intros run. split; [vm_compute; reflexivity|]. split; [vm_compute; reflexivity|].
  split; [vm_compute; reflexivity|].
  destruct (@Revoke_success ascii_unicode sample_adcore script_env _ same_script_preorder sample_core
    acl_id [held_ace] (acl_state 1)) as (e & sd & p & l & ds & Hof & _).
  - discriminate.
  - exact script_reading.
  - discriminate.
  - vm_compute. reflexivity.
  - exists e, sd. exact Hof.
Defined.

(** An ACE named twice in one call is added twice: [have] is not extended
    while the list is walked. *)
Lemma twice_named_twice_added :
  let have := @explicit_keys sample_adcore [] in
  @missing sample_adcore have [grant_ace; grant_ace] = [grant_ace; grant_ace].
Proof. reflexivity. Qed.
