(* ===== verification/Callers.v ===== *)
(** * Concurrent edits of one security descriptor

    [Grant] and [Revoke] of acl.go, and the descriptor edits of user.go and
    ou.go, read a security descriptor, edit it and write it back, under the
    lock their identity names.  [advance] is one call, request by request: what
    it does when the lock is its own, and what the directory may answer; [interleave]
    interleaves any number of calls on one object.  [solo] is a call that
    nobody interrupts, and [acl_ops_are_solo] shows that it is what the operations
    do. *)
From S2P Require Export Direct OUs Users Acls.

(** [CallEdit] is [setCanChangePassword] or [setProtection], within the lock of
    its [Update]. *)
Inductive acl_call :=
  | CallGrant (aces : list ACE)
  | CallRevoke (aces : list ACE)
  | CallEdit (edit : bytes -> outcome (bytes * bool)).

(** Does the call get as far as its lock? *)
Definition acts (call : acl_call) : Prop :=
  match call with CallGrant aces | CallRevoke aces => aces <> [] | CallEdit _ => True end.

Section calls.
Context `{Unicode} `{AdCore}.

(** What [Grant] and [Revoke] make of what they read. *)
Definition grant_edit (aces : list ACE) (sd : bytes) (existing : list ACE) : outcome (bytes * bool) :=
  add ← mapM_out (acl_decode "ACL.Grant"%go) (missing (explicit_keys existing) aces);
  AddACEs sd add.

Definition revoke_edit (aces : list ACE) (sd : bytes) : outcome (bytes * bool) :=
  mapM_out (acl_decode "ACL.Revoke"%go) aces ≫= fun _ =>
  RemoveACEs sd (drops (map CanonicalACEKey aces)).

(** ** A call that nobody interrupts *)

(** The descriptor afterwards, and whether the call succeeds. *)
Definition settle (sd : bytes) (edit : outcome (bytes * bool)) : bytes * bool :=
  match edit with
  | Ret (out, true) => (out, true)
  | Ret (_, false) => (sd, true)
  | _ => (sd, false)
  end.

Definition solo_edit (call : acl_call) (sd : bytes) : outcome (bytes * bool) :=
  match call with
  | CallGrant aces => ds ← DecodeACEs sd; grant_edit aces sd (acl_model ds)
  | CallRevoke aces => revoke_edit aces sd
  | CallEdit edit => edit sd
  end.

Definition solo (call : acl_call) (sd : bytes) : bytes * bool :=
  match sd with
  | [] => (sd, false)
  | _ => settle sd (solo_edit call sd)
  end.

(** ** Calls that interleave *)

(** Where one call is: before the lock, about to send each of its requests,
    about to unlock, through. *)
Inductive stage :=
  | Waiting
  | Reading
  | Comparing (sd : bytes)      (* Grant: the second read, of [Get] *)
  | Writing (out : bytes)
  | Returning (ok : bool)
  | Finished (ok : bool).

(** How a request ends: answered, refused, or applied with the answer lost. *)
Inductive fate := Answered | Refused | Lost.

Record object := mkShared {
  descriptor : bytes;
  held : list gostring
}.

Record caller := mkCaller { key : gostring; request : acl_call }.

(** After the edit: write what changed, return otherwise. *)
Definition edited (edit : outcome (bytes * bool)) : stage :=
  match edit with
  | Ret (out, true) => Writing out
  | Ret (_, false) => Returning true
  | _ => Returning false
  end.

Definition advance (a : fate) (who : caller) (g : object) (p : stage) : option (object * stage) :=
  match p, a with
  | Waiting, Answered =>
      if decide (key who ∈ held g) then None
      else Some (mkShared (descriptor g) (key who :: held g), Reading)
  | Reading, Answered =>
      match descriptor g with
      | [] => Some (g, Returning false)
      | sd =>
          match request who with
          | CallGrant _ => Some (g, Comparing sd)
          | CallRevoke aces => Some (g, edited (revoke_edit aces sd))
          | CallEdit edit => Some (g, edited (edit sd))
          end
      end
  | Comparing sd, Answered =>
      match descriptor g, request who with
      | [], _ => Some (g, Returning false)
      | sd2, CallGrant aces =>
          Some (g, edited (ds ← DecodeACEs sd2; grant_edit aces sd (acl_model ds)))
      | _, _ => None
      end
  | Writing out, Answered => Some (mkShared out (held g), Returning true)
  | Writing out, Lost => Some (mkShared out (held g), Returning false)
  | Reading, Refused | Comparing _, Refused | Writing _, Refused => Some (g, Returning false)
  | Returning ok, Answered =>
      Some (mkShared (descriptor g) (filter (fun k => k <> key who) (held g)), Finished ok)
  | _, _ => None
  end.

Definition calls_state : Type := object * list (caller * stage).

(** [allowed] restricts who calls.  A call without entries returns before it
    takes the lock, so it is none of these. *)
Inductive interleave (allowed : caller -> Prop) : calls_state -> calls_state -> Prop :=
  | step_call g l who :
      allowed who -> acts (request who) -> interleave allowed (g, l) (g, l ++ [(who, Waiting)])
  | step_act a g g' l i who p p' :
      l !! i = Some (who, p) -> advance a who g p = Some (g', p') ->
      interleave allowed (g, l) (g', <[i := (who, p')]> l).

Inductive interleaves (allowed : caller -> Prop) : calls_state -> calls_state -> Prop :=
  | steps_refl s : interleaves allowed s s
  | steps_more s1 s2 s3 : interleaves allowed s1 s2 -> interleave allowed s2 s3 -> interleaves allowed s1 s3.

(** A schedule: which call moves, and how its request ends. *)
Fixpoint play (schedule : list (nat * fate)) (s : calls_state) : option calls_state :=
  match schedule with
  | [] => Some s
  | (i, a) :: schedule =>
      match snd s !! i with
      | None => None
      | Some (who, p) =>
          match advance a who (fst s) p with
          | None => None
          | Some (g, p) => play schedule (g, <[i := (who, p)]> (snd s))
          end
      end
  end.

Definition idle_object (sd : bytes) : calls_state := (mkShared sd [], []).

(** ** One at a time *)

(** The calls of a log, in its order, on a descriptor. *)
Definition one_by_one (l : list (caller * stage)) (log : list nat) (sd : bytes) : bytes :=
  fold_left (fun sd i => match l !! i with
                         | Some (who, _) => fst (solo (request who) sd)
                         | None => sd
                         end) log sd.

(** Is the lock its own? *)
Definition inside (p : stage) : bool :=
  match p with Waiting | Finished _ => false | _ => true end.

(** What a call that holds the lock knows of the descriptor. *)
Definition knows (sd : bytes) (who : caller) (p : stage) : Prop :=
  match p with
  | Comparing sd' => sd' = sd /\ sd <> [] /\ exists aces, request who = CallGrant aces
  | Writing out => solo (request who) sd = (out, true)
  | _ => True
  end.

(** Has it certainly, or certainly not, taken effect? *)
Definition must (p : stage) : bool := match p with Returning true | Finished true => true | _ => false end.
Definition may (p : stage) : bool := match p with Returning _ | Finished _ => true | _ => false end.

Record serial (k : gostring) (sd0 : bytes) (log : list nat) (s : calls_state) : Prop := {
  sr_log : NoDup log;
  sr_value : descriptor (fst s) = one_by_one (snd s) log sd0;
  sr_keys who p : In (who, p) (snd s) -> key who = k;
  sr_done i who p : snd s !! i = Some (who, p) -> must p = true -> i ∈ log;
  sr_may i : i ∈ log -> exists who p, snd s !! i = Some (who, p) /\ may p = true;
  sr_held i who p : snd s !! i = Some (who, p) -> inside p = true ->
    held (fst s) = [k] /\ knows (descriptor (fst s)) who p;
  sr_once i j who p who' p' : snd s !! i = Some (who, p) -> snd s !! j = Some (who', p') ->
    inside p = true -> inside p' = true -> i = j;
  sr_free : held (fst s) = [k] \/ held (fst s) = []
}.

Lemma play_steps allowed schedule s0 s s' :
  interleaves allowed s0 s -> play schedule s = Some s' -> interleaves allowed s0 s'.
Proof.
  revert s. induction schedule as [|[i a] schedule IH]; intros s Hs; [by intros [= <-]|]. cbn [play].
  destruct (snd s !! i) as [[who p]|] eqn:Ei; [|done].
  destruct (advance a who (fst s) p) as [[g q]|] eqn:Ea; [|done]. apply IH.
  eapply steps_more; [exact Hs|]. destruct s as [g0 l]. by eapply step_act.
Qed.

Lemma calls_steps allowed s0 g l whos :
  Forall (fun who => allowed who /\ acts (request who)) whos -> interleaves allowed s0 (g, l) ->
  interleaves allowed s0 (g, l ++ map (fun who => (who, Waiting)) whos).
Proof.
  intros Hall. revert l. induction Hall as [|who whos [Hwho Hne] _ IH]; intros l Hs; [by rewrite app_nil_r|].
  cbn [map]. replace (l ++ (who, Waiting) :: map (fun who => (who, Waiting)) whos)
    with ((l ++ [(who, Waiting)]) ++ map (fun who => (who, Waiting)) whos) by by rewrite <- app_assoc.
  apply IH. eapply steps_more; [exact Hs|]. by constructor.
Qed.

Lemma one_by_one_insert l log i who p p' sd :
  l !! i = Some (who, p) -> one_by_one (<[i := (who, p')]> l) log sd = one_by_one l log sd.
Proof.
  intros Hi. unfold one_by_one. revert sd. induction log as [|j log IH]; intros sd; [done|].
  cbn [fold_left]. rewrite IH. f_equal. destruct (decide (j = i)) as [->|Hne].
  - by rewrite Hi, list_lookup_insert_eq by by eapply lookup_lt_Some.
  - by rewrite list_lookup_insert_ne.
Qed.

Lemma one_by_one_snoc l log i who p sd :
  l !! i = Some (who, p) -> one_by_one l (log ++ [i]) sd = fst (solo (request who) (one_by_one l log sd)).
Proof. intros Hi. unfold one_by_one. rewrite fold_left_app. cbn. by rewrite Hi. Qed.

Lemma one_by_one_new l log x sd :
  (forall i, i ∈ log -> (i < length l)%nat) -> one_by_one (l ++ [x]) log sd = one_by_one l log sd.
Proof.
  unfold one_by_one. revert sd. induction log as [|j log IH]; intros sd Hlog; [done|]. cbn [fold_left].
  rewrite IH by by intros i Hi; apply Hlog; right. f_equal. by rewrite lookup_app_l by by apply Hlog; left.
Qed.

(** One step of the call [i], the only one inside. [effect] is whether the
    step is the one at which the call takes effect. *)
Lemma serial_act k sd0 log g g' l i who p p' (effect : bool) :
  serial k sd0 log (g, l) -> l !! i = Some (who, p) ->
  inside p = true \/ held g = [] ->
  descriptor g' = (if effect then fst (solo (request who) (descriptor g)) else descriptor g) ->
  (effect = true -> may p = false /\ may p' = true) ->
  (must p' = true -> effect = true \/ must p = true) ->
  (may p = true -> may p' = true) ->
  (if inside p' then held g' = [k] /\ knows (descriptor g') who p' else held g' = []) ->
  serial k sd0 (if effect then log ++ [i] else log) (g', <[i := (who, p')]> l).
Proof.
  intros [Hnd Hv Hk Hdone Hmay Hheld Honce Hfree] Hi Hin Hd Heff Hmust Hkeep Hout. cbn [fst snd] in *.
  pose proof (lookup_lt_Some _ _ _ Hi) as Hlt.
  assert (forall j who' q, l !! j = Some (who', q) -> inside q = true -> j = i) as Hothers.
  { intros j who' q Hj Hq. destruct Hin as [Hp|Hg]; [by eapply Honce|].
    destruct (Hheld _ _ _ Hj Hq) as [Hg' _]. congruence. }
  assert (forall j who' q, <[i := (who, p')]> l !! j = Some (who', q) ->
            (j = i /\ who' = who /\ q = p') \/ (j <> i /\ l !! j = Some (who', q))) as Hlook.
  { intros j who' q Hj. destruct (decide (j = i)) as [->|Hne].
    - rewrite list_lookup_insert_eq in Hj by done. left. split; [done|]. split; congruence.
    - rewrite list_lookup_insert_ne in Hj by done. by right. }
  assert (effect = true -> i ∉ log) as Hnew.
  { intros He Hil. destruct (Hmay i Hil) as (who' & q & Hq & Hm). destruct (Heff He). congruence. }
  split; cbn [fst snd].
  - destruct effect; [|done]. apply list.NoDup_app. split_and!; [done| |apply list.NoDup_singleton].
    intros j Hj ->%list_elem_of_singleton. by apply Hnew.
  - rewrite Hd, Hv. destruct effect.
    + by rewrite (one_by_one_insert _ _ _ _ p), (one_by_one_snoc _ _ _ who p).
    + by rewrite (one_by_one_insert _ _ _ _ p).
  - intros who' q Hq%list_elem_of_In. apply list_elem_of_lookup in Hq as [j Hj].
    apply Hlook in Hj as [(-> & -> & ->)|[_ Hj]]; eapply Hk, list_elem_of_In, list_elem_of_lookup_2; done.
  - intros j who' q Hj Hq. apply Hlook in Hj as [(-> & -> & ->)|[Hne Hj]].
    + destruct (Hmust Hq) as [->|Hmp]; [apply elem_of_app; right; by left|].
      assert (i ∈ log) by by eapply Hdone. destruct effect; [apply elem_of_app; by left|done].
    + assert (j ∈ log) by by eapply Hdone. destruct effect; [apply elem_of_app; by left|done].
  - intros j Hj. destruct (decide (j = i)) as [->|Hne].
    + exists who, p'. rewrite list_lookup_insert_eq by done. split; [done|].
      destruct effect; [by apply Heff|]. destruct (Hmay i Hj) as (who' & q & Hq & Hm).
      apply Hkeep. congruence.
    + rewrite list_lookup_insert_ne by done. apply Hmay. destruct effect; [|done].
      apply elem_of_app in Hj as [|Hj]; [done|]. by apply list_elem_of_singleton in Hj.
  - intros j who' q Hj Hq. apply Hlook in Hj as [(-> & -> & ->)|[Hne Hj]]; [by rewrite Hq in Hout|].
    exfalso. by eapply Hne, Hothers.
  - intros j1 j2 w1 q1 w2 q2 H1j H2j H1q H2q.
    apply Hlook in H1j as [(-> & -> & ->)|[Hne H1j]]; [|exfalso; by eapply Hne, Hothers].
    apply Hlook in H2j as [(-> & -> & ->)|[Hne H2j]]; [done|exfalso; by eapply Hne, Hothers].
  - destruct (inside p'); [left; by apply Hout|by right].
Qed.

Lemma solo_edited who g (edit : outcome (bytes * bool)) :
  solo (request who) (descriptor g) = settle (descriptor g) edit ->
  match edited edit with
  | Writing out => solo (request who) (descriptor g) = (out, true)
  | Returning true => fst (solo (request who) (descriptor g)) = descriptor g
  | _ => True
  end.
Proof.
  intros ->. destruct edit as [[out [|]]|e| | |]; done.
Qed.

Lemma serial_new k sd0 log g l who :
  key who = k -> serial k sd0 log (g, l) -> serial k sd0 log (g, l ++ [(who, Waiting)]).
Proof.
  intros Hwho [Hnd Hv Hk Hdone Hmay Hheld Honce Hfree]. cbn [fst snd] in *.
  assert (forall j who' q, (l ++ [(who, Waiting)]) !! j = Some (who', q) ->
            l !! j = Some (who', q) \/ q = Waiting) as Hlook.
  { intros j who' q [Hj|[_ Hj]]%lookup_app_Some; [by left|right].
    apply list_lookup_singleton_Some in Hj as [_ Hj]. congruence. }
  split; cbn [fst snd]; try done.
  - rewrite one_by_one_new; [done|]. intros i (who' & q & Hq & _)%Hmay. by eapply lookup_lt_Some.
  - intros who' q [?|[[= <- <-]|[]]]%in_app_iff; [by eapply Hk|done].
  - intros i who' q [?| ->]%Hlook; [by eapply Hdone|done].
  - intros i (who' & q & Hq & Hm)%Hmay. exists who', q. split; [|done]. by apply lookup_app_l_Some.
  - intros i who' q [?| ->]%Hlook; [by eapply Hheld|done].
  - intros i j who1 q1 who2 q2 [?| ->]%Hlook [?| ->]%Hlook; try done. by eapply Honce.
Qed.

Lemma filter_own k : filter (fun x : gostring => x <> k) [k] = [].
Proof. rewrite filter_cons_False; [done|]. naive_solver. Qed.

(** The same, whatever it adds to the log. *)
Lemma serial_act_more k sd0 log g g' l i who p p' (effect : bool) :
  serial k sd0 log (g, l) -> l !! i = Some (who, p) ->
  inside p = true \/ held g = [] ->
  descriptor g' = (if effect then fst (solo (request who) (descriptor g)) else descriptor g) ->
  (effect = true -> may p = false /\ may p' = true) ->
  (must p' = true -> effect = true \/ must p = true) ->
  (may p = true -> may p' = true) ->
  (if inside p' then held g' = [k] /\ knows (descriptor g') who p' else held g' = []) ->
  exists more, serial k sd0 (log ++ more) (g', <[i := (who, p')]> l).
Proof.
  intros. exists (if effect then [i] else []).
  pose proof (serial_act k sd0 log g g' l i who p p' effect) as Hact.
  destruct effect; [|rewrite app_nil_r]; by apply Hact.
Qed.

(** An edit that was computed from the current descriptor. *)
Lemma serial_edit k sd0 log g l i who p edit :
  serial k sd0 log (g, l) -> l !! i = Some (who, p) ->
  may p = false -> inside p = true ->
  solo (request who) (descriptor g) = settle (descriptor g) edit ->
  exists more, serial k sd0 (log ++ more) (g, <[i := (who, edited edit)]> l).
Proof.
  intros Hs Hi Hmay Hin Hsolo. destruct (sr_held _ _ _ _ Hs i who p Hi Hin) as [Hheld _]. cbn [fst] in Hheld.
  pose proof (solo_edited who g edit Hsolo) as He.
  apply (serial_act_more k sd0 log g g l i who p _ (match edited edit with Returning true => true | _ => false end)
    Hs Hi); [by left| | | |congruence|]; destruct edit as [[out [|]]|e| | |]; cbn; try done. by left.
Qed.

Lemma serial_step k sd0 log s s' :
  serial k sd0 log s -> interleave (fun who => key who = k) s s' -> exists more, serial k sd0 (log ++ more) s'.
Proof.
  intros Hs Hstep. destruct Hstep as [g l who Hwho _|a g g' l i who p p' Hi Ha].
  { exists []. rewrite app_nil_r. by apply serial_new. }
  assert (key who = k) as Hkey by (eapply (sr_keys _ _ _ _ Hs), list_elem_of_In, list_elem_of_lookup_2; exact Hi).
  assert (inside p = true -> held g = [k] /\ knows (descriptor g) who p) as Hknow by apply (sr_held _ _ _ _ Hs i who p Hi).
  pose proof (fun e => serial_act_more k sd0 log g g' l i who p p' e Hs Hi) as Hact.
  pose proof (serial_edit k sd0 log g l i who p) as Hedit.
  destruct p as [| |sd|out|ok|ok], a; cbn [advance] in Ha; try discriminate Ha.
  - case_decide as Hnin; [done|]. injection Ha as <- <-.
    assert (held g = []) as Hfree.
    { destruct (sr_free _ _ _ _ Hs) as [Hh|Hh]; [|done]. exfalso. apply Hnin. cbn in Hh. rewrite Hh, Hkey. by left. }
    apply (Hact false); try done; [by right|]. cbn. split; [|done]. by rewrite Hfree, Hkey.
  - destruct (Hknow eq_refl) as [Hheld _].
    destruct (descriptor g) as [|b sd] eqn:Ed; [injection Ha as <- <-; apply (Hact false); by try left|].
    destruct (request who) as [aces|aces|edit] eqn:Er; injection Ha as <- <-.
    + apply (Hact false); try done; [by left|]. cbn. split; [done|]. split; [done|]. split; [by rewrite Ed|by exists aces].
    + apply (Hedit (revoke_edit aces (b :: sd))); try done.
    + apply (Hedit (edit (b :: sd))); try done.
  - injection Ha as <- <-. destruct (Hknow eq_refl) as [Hheld _]. apply (Hact false); by try left.
  - destruct (Hknow eq_refl) as [Hheld (-> & Hne & aces & Er)]. rewrite Er in Ha.
    destruct (descriptor g) as [|b sd] eqn:Ed; [done|]. injection Ha as <- <-.
    apply (Hedit (ds ← DecodeACEs (b :: sd); grant_edit aces (b :: sd) (acl_model ds))); try done. by rewrite Er.
  - injection Ha as <- <-. destruct (Hknow eq_refl) as [Hheld _]. apply (Hact false); by try left.
  - injection Ha as <- <-. destruct (Hknow eq_refl) as [Hheld Hout]. cbn in Hout.
    apply (Hact true); try done; [by left|by rewrite Hout|by left].
  - injection Ha as <- <-. destruct (Hknow eq_refl) as [Hheld _]. apply (Hact false); by try left.
  - injection Ha as <- <-. destruct (Hknow eq_refl) as [Hheld Hout]. cbn in Hout.
    apply (Hact true); try done; [by left|by rewrite Hout].
  - injection Ha as <- <-. destruct (Hknow eq_refl) as [Hheld _].
    apply (Hact false); try done; [by left|by right|]. cbn. by rewrite Hheld, Hkey, filter_own.
Qed.

Lemma serial_idle k sd0 : serial k sd0 [] (idle_object sd0).
Proof. split; cbn; try done; [constructor|by intros i ?%not_elem_of_nil|by right]. Qed.

Lemma serial_steps k sd0 log s s' :
  serial k sd0 log s -> interleaves (fun who => key who = k) s s' -> exists more, serial k sd0 (log ++ more) s'.
Proof.
  intros Hs Hsteps. induction Hsteps as [s|s1 s2 s3 _ IH Hstep]; [exists []; by rewrite app_nil_r|].
  destruct (IH Hs) as [more Hs2]. destruct (serial_step _ _ _ _ _ Hs2 Hstep) as [more' Hs3].
  exists (more ++ more'). by rewrite app_assoc.
Qed.
End calls.

(** ** The operations of Acls.v are such calls *)

Section solo.
Context `{Unicode} `{AdCore} `{Env} (c : core) (dn : gostring) (get : World -> bytes).

(** The directory shows the object [dn] under the identity [id], with the
    descriptor [get w]. *)
Definition shows (id : Identity) : Prop :=
  exists f, identityFilter id = Ret f /\ forall w, exists e, en_DN e = dn /\
    First e "nTSecurityDescriptor"%go = get w /\
    forall h, exists ctrls, env_search h (getOne_request c "*"%go f aclAttrs [sdDACL]) w
      = (inl (mkSearchResult [e] ctrls), w).

(** It shows it by its name too, answers a read of the descriptor alone, and
    stores what is written to it. *)
Record object_dir (id : Identity) : Prop := {
  od_id : shows id;
  od_name : shows (ByDN dn);
  od_base w : exists e, First e "nTSecurityDescriptor"%go = get w /\
    forall h, exists ctrls, env_search h (descriptor_request dn) w = (inl (mkSearchResult [e] ctrls), w);
  od_write w sd : exists w', get w' = sd /\
    forall h, env_modify h dn [mkModification ModReplace "nTSecurityDescriptor"%go [sd]] [sdDACL] w = (None, w')
}.

Context (Hst : still) (Hmax : 1 <= c_MaxAttempts c).

Lemma readDescriptor_yields op id w :
  shows id ->
  match get w with
  | [] => exists err, yields (readDescriptor c op id) w (Fail err) w
  | sd => exists e, en_DN e = dn /\ yields (readDescriptor c op id) w (Ret (e, sd)) w
  end.
Proof using Hst Hmax.
  intros (f & Hf & Hsrv). destruct (Hsrv w) as (e & Hdn & Hsd & Hr).
  pose proof (getOne_yields c op id "*"%go aclAttrs [sdDACL] w f [e] Hst Hmax Hf Hr) as Hget.
  unfold readDescriptor. destruct (get w) as [|b sd] eqn:Eg; [eexists|exists e; split; [done|]];
    (eapply yields_bind; [exact Hget|]); rewrite Hsd; [apply yields_lift|apply yields_ret].
Qed.

Lemma ACL_Get_yields id w :
  shows id -> get w <> [] ->
  exists r, yields (ACL_Get c id) w r w /\
    match DecodeACEs (get w) with Ret ds => r = Ret (acl_model ds) | _ => exists err, r = Fail err end.
Proof using Hst Hmax.
  intros Hid Hne. pose proof (readDescriptor_yields "ACL.Get"%go id w Hid) as Hread.
  destruct (get w) as [|b sd] eqn:Eg; [done|]. destruct Hread as (e & _ & Hread).
  unfold ACL_Get. cbv zeta. pose proof (DecodeACEs_returns (b :: sd)) as Hret.
  pose proof (yields_map_error (adErr_id KindConstraint "ACL.Get"%go (Identity_String id)) _ _ _ _
    (yields_lift (DecodeACEs (b :: sd)) w)) as Hdec.
  destruct (DecodeACEs (b :: sd)) as [ds|err| | |] eqn:Ed; try done;
    (eexists; split; [eapply yields_bind; [exact Hread|]; cbv beta iota; rewrite Ed|]).
  - eapply yields_bind; [exact Hdec|]. apply yields_ret.
  - done.
  - apply (yields_bind_fail _ _ _ _ _ Hdec).
  - by eexists.
Qed.

(** The tail of a call: the decoded list and the edit. *)
Definition settled (w : World) (edit : outcome (bytes * bool)) (r : outcome unit) (w' : World) : Prop :=
  get w' = fst (settle (get w) edit) /\
  if snd (settle (get w) edit) then r = Ret tt else exists err, r = Fail err.

Lemma write_edit_yields op id w edit :
  object_dir id -> returns edit ->
  exists r w', yields (write_edit c op id dn edit) w r w' /\ settled w edit r w'.
Proof using Hst Hmax.
  intros [_ _ _ Hwrite] Hret. unfold write_edit, settled.
  pose proof (yields_map_error (adErr_id KindConstraint op (Identity_String id)) _ _ _ _
    (yields_lift edit w)) as Hedit.
  destruct edit as [[out changed]|err| | |]; try done; cbn in Hedit.
  - destruct changed; cbn.
    + destruct (Hwrite w out) as (w' & Hget & Hw'). exists (Ret tt), w'. split; [|done].
      eapply yields_bind; [exact Hedit|]. cbn.
      apply (yields_map_error _ _ w (Ret tt) w'). by apply write_descriptor_yields.
    + exists (Ret tt), w. split; [|done]. eapply yields_bind; [exact Hedit|]. apply yields_ret.
  - eexists _, w. split; [by apply (yields_bind_fail _ _ _ _ _ Hedit)|]. split; [done|]. by eexists.
Qed.

Lemma decode_all_yields op id aces w :
  exists r, yields (decode_all op id aces) w r w /\
    match mapM_out (acl_decode op) aces with Ret ds => r = Ret ds | _ => exists err, r = Fail err end.
Proof using Type.
  unfold decode_all. pose proof (yields_map_error (fun err => WithIdentity err op id) _ _ _ _
    (yields_lift (mapM_out (acl_decode op) aces) w)) as Hdec.
  assert (returns (mapM_out (acl_decode op) aces)) as Hret.
  { apply mapM_out_returns, Forall_true. intros. apply acl_decode_returns. }
  eexists. split; [exact Hdec|]. destruct (mapM_out _ _); try done. by eexists.
Qed.

(** The outcome of an operation, against a call nobody interrupts. *)
Definition as_solo (call : acl_call) (w : World) (r : outcome unit) (w' : World) : Prop :=
  get w' = fst (solo call (get w)) /\
  if snd (solo call (get w)) then r = Ret tt else exists err, r = Fail err.

Lemma Grant_locked_yields id aces w :
  object_dir id -> exists r w', yields (Grant_locked c id aces) w r w' /\ as_solo (CallGrant aces) w r w'.
Proof using Hst Hmax.
  intros Hdir. pose proof (readDescriptor_yields "ACL.Grant"%go id w (od_id _ Hdir)) as Hread.
  pose proof (ACL_Get_yields (ByDN dn) w (od_name _ Hdir)) as Hget. unfold as_solo, solo, solo_edit.
  destruct (get w) as [|b sd] eqn:Eg.
  { destruct Hread as [err Hread]. eexists _, w. split; [by apply (yields_bind_fail _ _ _ _ _ Hread)|].
    split; [done|]. by eexists. }
  destruct Hread as (e & He & Hread). destruct Hget as (r & Hget & Hr); [done|].
  unfold Grant_locked. cbv zeta.
  assert (forall r w', yields (existing ← ACL_Get c (ByDN dn);
      add ← decode_all "ACL.Grant"%go id (missing (explicit_keys existing) aces);
      write_edit c "ACL.Grant"%go id dn (AddACEs (b :: sd) add)) w r w' ->
    yields (Grant_locked c id aces) w r w') as Hrun.
  { intros r1 w1 Hy. unfold Grant_locked. cbv zeta. eapply yields_bind; [exact Hread|]. cbv beta iota. by rewrite He. }
  pose proof (DecodeACEs_returns (b :: sd)) as Hret.
  destruct (DecodeACEs (b :: sd)) as [ds|err| | |] eqn:Ed; try done.
  2: { destruct Hr as [err' ->]. eexists _, w. split; [apply Hrun; by apply (yields_bind_fail _ _ _ _ _ Hget)|].
       split; [done|]. by eexists. }
  subst r. cbn [mbind outcome_bind]. unfold grant_edit.
  set (todo := missing (explicit_keys (acl_model ds)) aces) in *.
  destruct (decode_all_yields "ACL.Grant"%go id todo w) as (r & Hdec & Hr).
  assert (returns (mapM_out (acl_decode "ACL.Grant"%go) todo)) as Hret'.
  { apply mapM_out_returns, Forall_true. intros. apply acl_decode_returns. }
  destruct (mapM_out _ todo) as [add|err| | |]; try done; cbn [mbind outcome_bind].
  - subst r. destruct (write_edit_yields "ACL.Grant"%go id w (AddACEs (b :: sd) add) Hdir)
      as (r & w' & Hy & Hs); [apply AddACEs_returns|].
    exists r, w'. unfold settled in Hs. rewrite Eg in Hs. split; [|exact Hs]. apply Hrun.
    eapply yields_bind; [exact Hget|]. eapply yields_bind; [exact Hdec|exact Hy].
  - destruct Hr as [err' ->]. eexists _, w. split.
    + apply Hrun. eapply yields_bind; [exact Hget|]. by apply (yields_bind_fail _ _ _ _ _ Hdec).
    + split; [done|]. by eexists.
Qed.

Lemma Revoke_locked_yields id aces w :
  object_dir id -> exists r w', yields (Revoke_locked c id aces) w r w' /\ as_solo (CallRevoke aces) w r w'.
Proof using Hst Hmax.
  intros Hdir. pose proof (readDescriptor_yields "ACL.Revoke"%go id w (od_id _ Hdir)) as Hread.
  unfold as_solo, solo, solo_edit. destruct (get w) as [|b sd] eqn:Eg.
  { destruct Hread as [err Hread]. eexists _, w. split; [by apply (yields_bind_fail _ _ _ _ _ Hread)|].
    split; [done|]. by eexists. }
  destruct Hread as (e & He & Hread). unfold Revoke_locked, revoke_edit. cbv zeta.
  destruct (decode_all_yields "ACL.Revoke"%go id aces w) as (r & Hdec & Hr).
  assert (returns (mapM_out (acl_decode "ACL.Revoke"%go) aces)) as Hret.
  { apply mapM_out_returns, Forall_true. intros. apply acl_decode_returns. }
  destruct (mapM_out _ aces) as [ds|err| | |]; try done; cbn [mbind outcome_bind].
  - subst r. destruct (write_edit_yields "ACL.Revoke"%go id w
      (RemoveACEs (b :: sd) (drops (map CanonicalACEKey aces))) Hdir) as (r & w' & Hy & Hs); [apply RemoveACEs_returns|].
    exists r, w'. unfold settled in Hs. rewrite Eg in Hs. split; [|exact Hs].
    eapply yields_bind; [exact Hread|]. cbv beta iota. eapply yields_bind; [exact Hdec|]. cbv beta iota. by rewrite He.
  - destruct Hr as [err' ->]. eexists _, w. split.
    + eapply yields_bind; [exact Hread|]. cbv beta iota. by apply (yields_bind_fail _ _ _ _ _ Hdec).
    + split; [done|]. by eexists.
Qed.

Lemma edit_descriptor_yields id op gone empty edit w :
  object_dir id -> (forall sd, returns (edit sd)) ->
  exists r w', yields (edit_descriptor c op dn gone empty edit) w r w' /\ as_solo (CallEdit edit) w r w'.
Proof using Hst Hmax.
  intros [_ _ Hbase Hwrite] Hret. destruct (Hbase w) as (e & He & Hsrv).
  pose proof (read_descriptor_yields c op gone dn e w Hst Hmax Hsrv) as Hread. rewrite He in Hread.
  unfold edit_descriptor, as_solo, solo, solo_edit. destruct (get w) as [|b sd] eqn:Eg.
  - eexists _, w. split; [|split; [done|by eexists]]. eapply yields_bind; [exact Hread|]. apply yields_fail.
  - pose proof (yields_map_error (adErr_target KindTransport op dn) _ _ _ _ (yields_lift (edit (b :: sd)) w)) as Hedit.
    specialize (Hret (b :: sd)). destruct (edit (b :: sd)) as [[out changed]|err| | |] eqn:Ee; try done.
    + destruct (Hwrite w out) as (w' & Hget & Hw'). exists (Ret tt), (if changed then w' else w). split.
      * eapply yields_bind; [exact Hread|]. cbv beta. rewrite decide_False by done.
        rewrite Ee. eapply yields_bind; [exact Hedit|]. cbv beta iota. destruct changed; cbn [negb]; [|apply yields_ret].
        by apply write_descriptor_yields.
      * by destruct changed.
    + eexists _, w. split; [|split; [done|by eexists]]. eapply yields_bind; [exact Hread|].
      cbv beta. rewrite decide_False, Ee by done. by apply (yields_bind_fail _ _ _ _ _ Hedit).
Qed.
End solo.

(** ** Properties *)

(** The calls of [log], in its order, account for the descriptor and for every
    call that has succeeded; a call that failed, or whose answer was lost,
    took effect as a whole or not at all. *)
Record explains `{Unicode} `{AdCore} (sd0 : bytes) (log : list nat) (s : calls_state) : Prop := {
  ex_once : NoDup log;
  ex_value : descriptor (fst s) = one_by_one (snd s) log sd0;
  ex_success i who : snd s !! i = Some (who, Finished true) -> i ∈ log;
  ex_only i : i ∈ log -> exists who p, snd s !! i = Some (who, p) /\ may p = true
}.

Lemma serial_explains `{Unicode} `{AdCore} k sd0 log s : serial k sd0 log s -> explains sd0 log s.
Proof. intros [Hnd Hv _ Hdone Hmay _ _ _]. split; try done. intros i who Hi. by eapply Hdone. Qed.

(** C2: grants and revokes under one key are atomic.  However any number of
    calls on one object with the same lock key interleave, request by request,
    with requests refused or their answers lost, the descriptor is what the
    calls give that have taken effect, each once and one after the other in
    one order; every successful call is among them, a failed one took effect
    as a whole or not at all, and the order is never revised: at any later
    moment it has only been extended. *)
Theorem calls_are_atomic `{Unicode} `{AdCore} (k : gostring) (sd0 : bytes) (s : calls_state) :
  interleaves (fun who => key who = k) (idle_object sd0) s ->
  exists log, explains sd0 log s /\
    forall s', interleaves (fun who => key who = k) s s' -> exists more, explains sd0 (log ++ more) s'.
Proof.
  intros Hs. destruct (serial_steps k sd0 [] _ _ (serial_idle k sd0) Hs) as [log Hlog].
  exists log. split; [by eapply serial_explains|]. intros s' Hs'.
  destruct (serial_steps _ _ _ _ _ Hlog Hs') as [more Hmore]. exists more. by eapply serial_explains.
Qed.

(** C3: the operations are these calls.  Over a directory that shows the
    object and stores what is written to it, [Grant], [Revoke] and a descriptor
    edit of [setProtection] or [setCanChangePassword] under the lock of its
    [Update], each with its connection and its retries, leave exactly the
    descriptor of the uninterrupted call [solo], succeed exactly when it does,
    and give back their permit and their key. *)
Theorem acl_ops_are_solo `{Unicode} `{AdCore} `{Env} (c : core) (id : Identity) (dn : gostring)
    (get : World -> bytes) (op gone empty : gostring) (call : acl_call) (s : St) :
  still -> 1 <= c_MaxAttempts c -> object_dir c dn get id ->
  ready s -> unlocked (IdentityArg id) s -> acts call ->
  match call with CallEdit edit => forall sd, returns (edit sd) | _ => True end ->
  exists r s',
    match call with
    | CallGrant aces => Grant c id aces
    | CallRevoke aces => Revoke c id aces
    | CallEdit edit => with_lock (IdentityArg id) (edit_descriptor c op dn gone empty edit)
    end s = (r, s') /\
    as_solo get call (st_world s) r (st_world s') /\ ready s' /\ st_locks s' = st_locks s.
Proof.
  intros Hst Hmax Hdir Hs Hlock Hacts Hret.
  assert (forall m, (exists r w', yields m (st_world s) r w' /\ as_solo get call (st_world s) r w') ->
    exists r s', with_lock (IdentityArg id) m s = (r, s') /\ as_solo get call (st_world s) r (st_world s') /\
      ready s' /\ st_locks s' = st_locks s) as Hrun.
  { intros m (r & w' & Hy & Hsolo). destruct (yields_locked _ _ _ _ _ Hs Hlock Hy) as (s' & E & <- & ? & ?).
    by exists r, s'. }
  destruct call as [aces|aces|edit]; [destruct aces as [|a aces]; [done|]..|]; apply Hrun.
  - by apply (Grant_locked_yields c dn get).
  - by apply (Revoke_locked_yields c dn get).
  - by apply (edit_descriptor_yields c dn get Hst Hmax id).
Qed.

(** *** The same call again *)

(** What a grant would append fits the size field of the list. *)
Definition fits `{Unicode} `{AdCore} (aces : list ACE) (sd : bytes) : Prop := forall ds add p l,
  DecodeACEs sd = Ret ds ->
  mapM_out (acl_decode "ACL.Grant"%go) (missing (explicit_keys (acl_model ds)) aces) = Ret add ->
  entries sd = Ret (p, l) -> acl_size (l ++ map EncodeACE add) < 65536.

(** C18: grants and revokes are idempotent.  A call that has changed the
    descriptor finds nothing to change in what it has written, so that the
    same call again sends no write; for a grant, of ACEs written canonically
    (the way a directory reads them back) that fit the size field.  (For
    the other edits this is part of their refinement theorems in SecDesc.v.) *)
Theorem solo_twice `{Unicode} `{AdCore} (call : acl_call) (sd out : bytes) :
  match call with
  | CallGrant aces => Forall (canonical "ACL.Grant"%go) aces /\ fits aces sd
  | CallRevoke _ => True
  | CallEdit _ => False
  end ->
  solo_edit call sd = Ret (out, true) -> solo_edit call out = Ret (out, false).
Proof.
  destruct call as [aces|aces|edit]; cbn [solo_edit]; [| |done].
  - intros [Hcan Hfits] Hout. unfold grant_edit in *. inv_ret Hout.
    pose proof (proj1 (mapM_out_Ret _ _ _) Ha0) as Hadd. destruct a0 as [|d add]; [discriminate Hout|].
    assert (exists p l, entries sd = Ret (p, l)) as (p & l & Hs).
    { destruct (entries_cases sd) as [Hs|[e He]]; [exact Hs|]. unfold AddACEs in Hout. by rewrite He in Hout. }
    assert (Forall wf_decoded (d :: add)) as Hwf.
    { clear -Hadd. induction Hadd as [|x y l l' Hd _ IH]; constructor; [by eapply acl_decode_wf|done]. }
    destruct (AddACEs_entries sd (d :: add) a p l Hs Ha) as (out' & p' & Ho & _ & _ & Hdec);
      [done|done|by eapply Hfits|].
    assert (out' = out) as -> by congruence. rewrite Hdec. cbn [mbind outcome_bind].
    by rewrite (missing_granted "ACL.Grant"%go aces a (d :: add) Hcan Hadd).
  - intros _ Hout. unfold revoke_edit in *. inv_ret Hout. rewrite Ha. cbn [mbind outcome_bind].
    destruct (RemoveACEs_decodes _ _ _ Hout) as (p & l & ds & Hs & Hds).
    destruct (RemoveACEs_entries sd (drops (map CanonicalACEKey aces)) ds p l Hs Hds) as [Hno Hyes].
    destruct (existsb _ ds); [|by rewrite Hno in Hout by done].
    destruct (Hyes eq_refl) as (out' & p' & kept & Ho & _ & _ & _ & _ & _ & Hagain).
    assert (out' = out) as -> by congruence. exact Hagain.
Qed.

(** ** Witnesses *)

Section samples.
#[local] Existing Instances ascii_unicode sample_adcore.

Definition read_ace : ACE := mkACE "S-1-5-32-544"%go ACEAllow ["ReadProperty"%go] [] [] InheritanceThis false.
Definition write_ace : ACE := mkACE "S-1-5-32-544"%go ACEAllow ["WriteProperty"%go] [] [] InheritanceThis false.

(** The first call is done; the second has had its answer lost. *)
Definition one_key : list caller :=
  [mkCaller "CN=x"%go (CallGrant [read_ace]); mkCaller "CN=x"%go (CallGrant [write_ace])].
Definition taking_turns : list (nat * fate) :=
  [(0, Answered); (0, Answered); (0, Answered); (0, Answered); (0, Answered);
   (1, Answered); (1, Answered); (1, Answered); (1, Lost)]%nat.

Definition start (whos : list caller) : calls_state :=
  (mkShared sample_sd [], map (fun who => (who, Waiting)) whos).

Lemma start_steps allowed whos :
  Forall (fun who => allowed who /\ acts (request who)) whos -> interleaves allowed (idle_object sample_sd) (start whos).
Proof. intros Hall. apply (calls_steps allowed _ _ [] whos Hall). constructor. Qed.

(** What a schedule leaves: where the calls are, and whether the explicit
    entries cover a list. *)
Definition covers (aces : list ACE) (s : calls_state) : bool :=
  match DecodeACEs (descriptor (fst s)) with
  | Ret ds => bool_decide (missing (explicit_keys (acl_model ds)) aces = [])
  | _ => false
  end.
Definition outcome_of (whos : list caller) (schedule : list (nat * fate)) : option (list stage) :=
  option_map (fun s => map snd (snd s)) (play schedule (start whos)).
Definition covered (whos : list caller) (schedule : list (nat * fate)) (aces : list ACE) : option bool :=
  option_map (covers aces) (play schedule (start whos)).

Lemma calls_are_atomic_witness :
  outcome_of one_key taking_turns = Some [Finished true; Returning false] /\
  covered one_key taking_turns [read_ace; write_ace] = Some true /\
  exists s log, play taking_turns (start one_key) = Some s /\ explains sample_sd log s.
Proof.
  split; [vm_compute; reflexivity|]. split; [vm_compute; reflexivity|].
  destruct (play taking_turns (start one_key)) as [s|] eqn:E; [|vm_compute in E; discriminate E].
  destruct (@calls_are_atomic ascii_unicode sample_adcore "CN=x"%go sample_sd s) as (log & Hlog & _).
  - apply (play_steps _ taking_turns _ (start one_key)); [|exact E].
    apply start_steps. repeat (constructor; [split; [reflexivity|discriminate]|]). constructor.
  - exists s, log. split; [reflexivity|exact Hlog].
Defined.

Lemma solo_twice_witness :
  exists out, solo_edit (CallGrant [read_ace]) sample_sd = Ret (out, true) /\
    solo_edit (CallGrant [read_ace]) out = Ret (out, false).
Proof.
  destruct (solo_edit (CallGrant [read_ace]) sample_sd) as [[out [|]]| | | |] eqn:E;
    try (vm_compute in E; discriminate E).
  exists out. split; [reflexivity|]. apply (solo_twice (CallGrant [read_ace]) sample_sd out); [split|exact E].
  - constructor; [|constructor]. intros d Hd. vm_compute in Hd. injection Hd as <-. vm_compute. reflexivity.
  - intros ds add p l Hds Hadd Hl. vm_compute in Hds. injection Hds as <-.
    vm_compute in Hadd. injection Hadd as <-. vm_compute in Hl. injection Hl as _ <-. vm_compute. reflexivity.
Defined.

(** *** Two names of one object *)

(** The lock key is the text of the identity, so two calls that name one
    object differently do not exclude each other: both succeed, and the grant
    of the first is gone. *)
Definition two_keys : list caller :=
  [mkCaller "CN=x"%go (CallGrant [read_ace]);
   mkCaller "00112233-4455-6677-8899-aabbccddeeff"%go (CallGrant [write_ace])].
Definition crossing : list (nat * fate) :=
  [(0, Answered); (0, Answered); (0, Answered); (1, Answered); (1, Answered); (1, Answered);
   (0, Answered); (0, Answered); (1, Answered); (1, Answered)]%nat.

Example lost_update :
  outcome_of two_keys crossing = Some [Finished true; Finished true] /\
  covered two_keys crossing [read_ace] = Some false /\
  covered two_keys crossing [write_ace] = Some true.
Proof. split_and!; vm_compute; reflexivity. Qed.

(** A directory of one object, whose state is its descriptor. *)
Definition object_env : Env := {|
  World := bytes;
  Handle := unit;
  env_dial w := (inl tt, w);
  env_bind h w := (None, w);
  env_search h req w :=
    (inl (mkSearchResult [mkEntry "CN=x"%go [("nTSecurityDescriptor"%go, [w])]] []), w);
  env_add h dn attrs w := (Some (ErrNew "refused"%go), w);
  env_modify h dn mods ctrls w :=
    match mods with
    | [mkModification ModReplace _ [sd]] => (None, sd)
    | _ => (Some (ErrNew "refused"%go), w)
    end;
  env_modifydn h dn rdn del sup w := (Some (ErrNew "refused"%go), w);
  env_delete h dn w := (Some (ErrNew "refused"%go), w);
  env_close h w := (None, w);
  env_select w := (None, w);
  env_backoff n w := (None, w);
  env_dial_other host w := (inl tt, w);
  env_now w := (0, w);
  env_wait d w := (None, w);
  Mutex := list gostring;
  mutex_lock key l := if decide (key ∈ l) then None else Some (key :: l);
  mutex_unlock key l := tl l
|}.

Definition object_state : @St object_env := @mkSt object_env sample_sd (NewPool 2) [] None.

Lemma object_still : @still object_env.
Proof. split; try done. intros w. by exists tt. Qed.

Lemma object_shows (id : sample_identity) f :
  identityFilter id = Ret f -> @shows _ _ object_env sample_core "CN=x"%go (fun w => w) id.
Proof.
  intros Hf. exists f. split; [exact Hf|]. intros w.
  exists (mkEntry "CN=x"%go [("nTSecurityDescriptor"%go, [w])]). split; [reflexivity|]. split; [reflexivity|].
  intros h. exists []. reflexivity.
Qed.

Lemma acl_ops_are_solo_witness :
  let id : Identity := SampleDN "CN=x"%go in
  exists s', @Grant _ _ object_env sample_core id [read_ace] object_state = (Ret tt, s') /\
    @st_world object_env s' = fst (solo (CallGrant [read_ace]) sample_sd).
Proof.
  intros id.
  destruct (@acl_ops_are_solo _ _ object_env sample_core id "CN=x"%go (fun w => w) [] [] []
    (CallGrant [read_ace]) object_state) as (r & s' & Hrun & Hsolo & _).
  - exact object_still.
  - discriminate.
  - split; [by eapply object_shows|by eapply object_shows| |].
    { intros w. exists (mkEntry "CN=x"%go [("nTSecurityDescriptor"%go, [w])]).
      split; [reflexivity|]. intros h. exists []. reflexivity. }
    intros w sd. exists sd. split; [reflexivity|].
    intros h. reflexivity.
  - split; [exact (le_S _ _ (le_n 1))|reflexivity].
  - exists ["CN=x"%go]. split; reflexivity.
  - discriminate.
  - exact I.
  - destruct Hsolo as [Hget Hr]. change (r = Ret tt) in Hr. exists s'. split; [|exact Hget].
    rewrite Hrun. f_equal. exact Hr.
Defined.
End samples.
