(* ===== verification/Schema.v ===== *)
(** * schema.go: friendly names to GUIDs *)
From S2P Require Export Search.

(** The bytes of a GUID text by position.  A byte that is not ASCII starts a
    rune that is neither a dash nor a digit, so the loop over runes ends there
    as the loop over bytes does. *)
Definition is_hex_digit (c : byte) : bool :=
  (48 <=? bZ c) && (bZ c <=? 57) || (97 <=? bZ c) && (bZ c <=? 102)
  || (65 <=? bZ c) && (bZ c <=? 70).

Fixpoint guid_chars (i : nat) (s : gostring) : bool :=
  match s with
  | [] => true
  | c :: s =>
      (if bool_decide (i ∈ [8; 13; 18; 23]%nat) then bool_decide (c = "-"%byte) else is_hex_digit c)
      && guid_chars (S i) s
  end.

Definition isGUIDString (s : gostring) : bool :=
  if decide (len s <> 36) then false else guid_chars 0 s.

(** Where a reference is looked up: base, filter, attribute, and whether the
    attribute is a binary GUID. *)
Record Lookup := mkLookup {
  lk_base : gostring; lk_filter : gostring; lk_attr : gostring; lk_binary : bool
}.

(** A Go map from references: the last binding of a key is the first here. *)
Definition ref_get (out : list (SchemaRef * gostring)) (r : SchemaRef) : option gostring :=
  find_map (fun kv => if decide (fst kv = r) then Some (snd kv) else None) out.

Section schema.
Context `{Unicode} `{AdCore} `{Env}.

Definition ref_lookup (c : core) (op : gostring) (ref : SchemaRef) : outcome Lookup :=
  match ref_Kind ref with
  | RefAttribute =>
      Ret (mkLookup (c_schemaNC c)
             ("(&(objectClass=attributeSchema)"%go ++ FilterEqual "lDAPDisplayName"%go (ref_Name ref)
              ++ ")"%go) "schemaIDGUID"%go true)
  | RefClass =>
      Ret (mkLookup (c_schemaNC c)
             ("(&(objectClass=classSchema)"%go ++ FilterEqual "lDAPDisplayName"%go (ref_Name ref)
              ++ ")"%go) "schemaIDGUID"%go true)
  | RefExtendedRight =>
      Ret (mkLookup ("CN=Extended-Rights,"%go ++ c_configNC c)
             ("(&(objectClass=controlAccessRight)"%go ++ FilterEqual "displayName"%go (ref_Name ref)
              ++ ")"%go) "rightsGuid"%go false)
  | k => Fail (adErr KindConstraint op
                 (Errorf "unknown schema reference kind %q"%go [FStr (RefKind_string k)] None))
  end.

Definition lookup_request (l : Lookup) : SearchRequest :=
  mkSearchRequest (lk_base l) ScopeSubtree (lk_filter l) [lk_attr l] 2 [].

(** The GUID the one entry found carries. *)
Definition entry_guid (op : gostring) (ref : SchemaRef) (l : Lookup) (e : Entry) : outcome gostring :=
  match First e (lk_attr l) with
  | [] => Fail (adErr KindConstraint op
                  (Errorf "%q has no %s"%go [FStr (ref_Name ref); FStr (lk_attr l)] None))
  | raw =>
      if negb (lk_binary l) then Ret raw
      else wrap_err (fun err => adErr KindConstraint op
                       (Errorf "%s of %q is not a GUID: %w"%go
                          [FStr (lk_attr l); FStr (ref_Name ref)] (Some err)))
             (GUIDToString raw)
  end.

Definition only_entry (op : gostring) (ref : SchemaRef) (entries : list Entry) : outcome Entry :=
  match entries with
  | [] => Fail (adErr KindNotFound op
                  (Errorf "no %s named %q exists in the schema"%go
                     [FStr (RefKind_string (ref_Kind ref)); FStr (ref_Name ref)] None))
  | [e] => Ret e
  | _ => Fail (adErr KindConstraint op
                 (Errorf "%q matches %d schema objects"%go
                    [FStr (ref_Name ref); FInt (len entries)] None))
  end.

Definition resolveOne (c : core) (op : gostring) (ref : SchemaRef) : M gostring :=
  l ← lift (ref_lookup c op ref);
  entries ← withConn c op [] (search_cb (lookup_request l));
  e ← lift (only_entry op ref entries);
  lift (entry_guid op ref l e).

(** The loop of [Resolve] with the map built so far. *)
Fixpoint resolve_from (c : core) (op : gostring) (refs : list SchemaRef)
    (out : list (SchemaRef * gostring)) : M (list (SchemaRef * gostring)) :=
  match refs with
  | [] => mret out
  | ref :: refs =>
      match ref_get out ref with
      | Some _ => resolve_from c op refs out
      | None =>
          if isGUIDString (ref_Name ref)
          then resolve_from c op refs ((ref, ref_Name ref) :: out)
          else guid ← resolveOne c op ref; resolve_from c op refs ((ref, guid) :: out)
      end
  end.

Definition Resolve (c : core) (refs : list SchemaRef) : M (list (SchemaRef * gostring)) :=
  resolve_from c "Schema.Resolve"%go refs [].
End schema.

(** ** Every operation returns *)

Section schema_lemmas.
Context `{Unicode} `{AdCore} `{Env}.

Lemma ref_lookup_returns c op ref : returns (ref_lookup c op ref).
Proof. unfold ref_lookup. by destruct (ref_Kind ref). Qed.
Lemma entry_guid_returns op ref l e : returns (entry_guid op ref l e).
Proof.
  unfold entry_guid. case_match; [done|]. destruct (lk_binary l); [|done].
  apply returns_wrap_err, GUIDToString_returns.
Qed.
Lemma only_entry_returns op ref es : returns (only_entry op ref es).
Proof. by destruct es as [|e [|e' es]]. Qed.
Hint Resolve ref_lookup_returns entry_guid_returns only_entry_returns : quiet.

Lemma resolveOne_quiet c op ref : quiet (resolveOne c op ref).
Proof. unfold resolveOne. solve_quiet. Qed.
Hint Resolve resolveOne_quiet : quiet.

Lemma Resolve_quiet c refs : quiet (Resolve c refs).
Proof.
  unfold Resolve. generalize ([] : list (SchemaRef * gostring)).
  induction refs as [|r refs IH]; intros out; cbn [resolve_from]; [solve_quiet|].
  destruct (ref_get out r); [apply IH|]. destruct (isGUIDString _); [apply IH|].
  apply quiet_bind; [apply resolveOne_quiet|]. intros g. apply IH.
Qed.
End schema_lemmas.

(** ** GUID texts *)

Lemma hex_digit_val c : is_hex_digit c = true -> exists d, digit_val c = Some d /\ 0 <= d < 16.
Proof. destruct c; cbn; intros; try done; eexists; (split; [reflexivity|lia]). Qed.

Lemma hex_pair_parses c1 c2 :
  is_hex_digit c1 = true -> is_hex_digit c2 = true -> exists v, ParseUint [c1; c2] 16 8 = Ret v.
Proof.
  intros (d1 & E1 & H1)%hex_digit_val (d2 & E2 & H2)%hex_digit_val.
  unfold ParseUint. cbn [parse_digits]. rewrite E1, E2.
  rewrite (proj2 (Z.ltb_lt d1 16)), (proj2 (Z.ltb_lt d2 16)) by lia.
  rewrite !(proj2 (Z.ltb_ge _ _)) by lia. by eexists.
Qed.

Lemma is_hex_graphic c : is_hex_digit c = true -> graphic c = true.
Proof. unfold is_hex_digit, graphic. lia. Qed.
Lemma hex_not_dash c : is_hex_digit c = true -> c <> "-"%byte.
Proof. by intros Hc ->. Qed.

(** Without its dashes an accepted text is hexadecimal digits, one for every
    position that is not a dash's. *)
Lemma guid_chars_hex i s :
  guid_chars i s = true ->
  Forall (fun c => graphic c = true) s /\ Forall (fun c => is_hex_digit c = true) (remove_byte "-"%byte s) /\
  length (remove_byte "-"%byte s) = length (filter (fun j => j ∉ [8; 13; 18; 23]%nat) (seq i (length s))).
Proof.
  unfold remove_byte. revert i. induction s as [|c s IH]; intros i; [intros _; by split_and!|].
  cbn [guid_chars length seq]. intros [Hc Hs]%andb_true_iff.
  destruct (IH _ Hs) as (Hg & Hh & Hl). case_bool_decide as Hi.
  - apply bool_decide_eq_true in Hc as ->. rewrite !filter_cons_False by (intros Hn; by apply Hn).
    split_and!; [by constructor|done..].
  - pose proof (hex_not_dash _ Hc). pose proof (is_hex_graphic _ Hc).
    rewrite !filter_cons_True by done. cbn [length]. rewrite Hl.
    split_and!; [by constructor..|done].
Qed.

Lemma guid_byte_hex s hexs i :
  Forall (fun c => is_hex_digit c = true) hexs -> 0 <= i -> i * 2 + 2 <= len hexs ->
  exists b, guid_byte s hexs i = Ret b.
Proof.
  intros Hh Hi Hl. unfold guid_byte. rewrite slice_ok by lia. cbn [mbind outcome_bind].
  assert (length (take (Z.to_nat (i * 2 + 2 - i * 2)) (drop (Z.to_nat (i * 2)) hexs)) = 2%nat) as H2.
  { rewrite length_take, length_drop. unfold len in Hl. lia. }
  pose proof (Forall_take _ (Z.to_nat (i * 2 + 2 - i * 2)) _
    (Forall_drop _ (Z.to_nat (i * 2)) _ Hh)) as Hp.
  destruct (take _ _) as [|c1 [|c2 [|c3 r]]]; try done.
  inversion Hp as [|? ? H1 Hp']; subst. inversion Hp'; subst.
  destruct (hex_pair_parses c1 c2) as [v ->]; [done..|]. by eexists.
Qed.

Lemma GUIDToBytes_hex s :
  Forall (fun c => graphic c = true) s -> Forall (fun c => is_hex_digit c = true) (remove_byte "-"%byte s) ->
  length (remove_byte "-"%byte s) = 32%nat -> exists b, GUIDToBytes s = Ret b.
Proof.
  intros Hg Hh Hl. pose proof (GUIDToBytes_returns s) as Hret. unfold GUIDToBytes in *.
  rewrite TrimSpace_graphic in * by done. cbv zeta in *. set (hexs := remove_byte _ s) in *.
  assert (len hexs = 32) by (unfold len; lia). rewrite decide_False in * by lia.
  assert (exists flat, mapM_out (guid_byte s hexs) (seqZ 0 16) = Ret flat) as [flat Hf].
  { clear Hret. pose proof (seqZ_bounds 0 16) as Hb. revert Hb. generalize (seqZ 0 16).
    intros idx Hb. induction Hb as [|i l Hi _ [ys IH]]; [by eexists|].
    destruct (guid_byte_hex s hexs i) as [b Hb]; [done|lia..|].
    exists (b :: ys). cbn [mapM_out]. rewrite Hb. cbn [mbind outcome_bind]. by rewrite IH. }
  rewrite Hf in *. cbn [mbind outcome_bind]. apply mapM_out_len in Hf. rewrite length_seqZ in Hf.
  assert (len flat = 16) by (unfold len; lia). unfold be_uint.
  rewrite !slice_ok by lia. cbn [mbind outcome_bind]. by eexists.
Qed.

(** ** Results *)

Lemma GUIDToString_ne b t : GUIDToString b = Ret t -> t <> [].
Proof.
  destruct (decide (len b = 16)) as [Hl|Hl].
  - rewrite (GUIDToString_text _ Hl). intros <-%Ret_inj Hn. apply (f_equal length) in Hn.
    unfold guid_text in Hn. rewrite !length_app in Hn. cbn in Hn. lia.
  - unfold GUIDToString. by rewrite decide_True.
Qed.

Lemma ref_get_cons out r g r' :
  ref_get ((r, g) :: out) r' = if decide (r = r') then Some g else ref_get out r'.
Proof. unfold ref_get. cbn. by case_decide. Qed.

Section results.
Context `{Unicode} `{AdCore} `{Env}.

(** [guid] is what the directory has for [ref]: the value of the attribute of
    the one entry that a search by name found. *)
Definition found (c : core) (op : gostring) (ref : SchemaRef) (guid : gostring) : Prop :=
  exists l e h w ctrls, ref_lookup c op ref = Ret l /\
    fst (env_search h (lookup_request l) w) = inl (mkSearchResult [e] ctrls) /\
    entry_guid op ref l e = Ret guid.

Definition resolved (c : core) (op : gostring) (ref : SchemaRef) (guid : gostring) : Prop :=
  if isGUIDString (ref_Name ref) then guid = ref_Name ref else found c op ref guid.

Lemma resolveOne_Ret c op ref s guid s' :
  1 <= c_MaxAttempts c -> resolveOne c op ref s = (Ret guid, s') -> found c op ref guid.
Proof.
  intros Hmax. unfold resolveOne, lift, mbind, M_bind.
  destruct (ref_lookup c op ref) as [l|err| | |] eqn:El; try done.
  destruct (withConn _ _ _ _ s) as [[es|err| | |] s1] eqn:Ew; try done.
  apply withConn_Ret in Ew as (h & s2 & s3 & Hcb); [|done].
  apply search_cb_Ret in Hcb as [ctrls Hr].
  destruct es as [|e [|e' es]]; cbn [only_entry]; try done. intros [= Hg _].
  by exists l, e, h, (st_world s2), ctrls.
Qed.

Lemma resolved_ne c op ref guid : resolved c op ref guid -> guid <> [].
Proof.
  unfold resolved. destruct (isGUIDString _) eqn:Eg.
  - intros -> Hn. rewrite Hn in Eg. done.
  - intros (l & e & h & w & ctrls & _ & _ & He). unfold entry_guid in He.
    destruct (First e _) as [|b raw]; [done|]. destruct (lk_binary l); cbn in He.
    + apply wrap_err_Ret in He. by eapply GUIDToString_ne.
    + by apply Ret_inj in He as <-.
Qed.

(** The map built so far is right for the references it has. *)
Definition right_for (c : core) (op : gostring) (refs : list SchemaRef)
    (out : list (SchemaRef * gostring)) : Prop :=
  List.NoDup (map fst out) /\
  forall ref guid, ref_get out ref = Some guid -> In ref refs /\ resolved c op ref guid.

Lemma ref_get_In out ref : In ref (map fst out) -> exists g, ref_get out ref = Some g.
Proof.
  induction out as [|[r g] out IH]; [done|]. rewrite ref_get_cons. cbn [map fst]. intros Hin.
  case_decide; [by eexists|]. apply IH. by destruct Hin.
Qed.

Lemma right_for_cons c op refs out ref guid :
  right_for c op refs out -> In ref refs -> ref_get out ref = None -> resolved c op ref guid ->
  right_for c op refs ((ref, guid) :: out).
Proof.
  intros [Hn Hr] Hin Hnone Hg. split.
  - cbn. constructor; [|done]. intros (g & Hg')%ref_get_In. congruence.
  - intros r g. rewrite ref_get_cons. case_decide as Hd; [|apply Hr]. subst. by intros [= <-].
Qed.

Lemma resolve_from_Ret c op all refs out s res s' :
  1 <= c_MaxAttempts c -> right_for c op all out -> (forall r, In r refs -> In r all) ->
  resolve_from c op refs out s = (Ret res, s') ->
  right_for c op all res /\
  (forall r g, ref_get out r = Some g -> ref_get res r = Some g) /\
  (forall r, In r refs -> exists g, ref_get res r = Some g) /\
  (Forall (fun r => isGUIDString (ref_Name r) = true) refs -> s' = s).
Proof.
  intros Hmax. revert out s. induction refs as [|ref refs IH]; intros out s Hout Hall; cbn [resolve_from].
  { intros [= <- <-]. by split_and!. }
  assert (forall guid s1, resolved c op ref guid -> ref_get out ref = None ->
    (isGUIDString (ref_Name ref) = true -> s1 = s) ->
    resolve_from c op refs ((ref, guid) :: out) s1 = (Ret res, s') ->
    right_for c op all res /\ (forall r g, ref_get out r = Some g -> ref_get res r = Some g) /\
    (forall r, In r (ref :: refs) -> exists g, ref_get res r = Some g) /\
    (Forall (fun r => isGUIDString (ref_Name r) = true) (ref :: refs) -> s' = s)) as Hadd.
  { intros guid s1 Hg Hnone Hs1 Hres.
    destruct (IH ((ref, guid) :: out) s1) as (Hw & Hk & Hin' & Hs'); [|by intros; apply Hall; right|done|].
    { apply right_for_cons; [done| |done|done]. apply Hall. by left. }
    split_and!; [done| | |].
    - intros r g Hr. apply Hk. rewrite ref_get_cons. case_decide; [by subst; congruence|done].
    - intros r [<-|Hin]; [|by apply Hin']. exists guid. apply Hk. by rewrite ref_get_cons, decide_True.
    - intros Hf. inversion Hf; subst. rewrite Hs' by done. by apply Hs1. }
  destruct (ref_get out ref) as [g|] eqn:Eg.
  - intros Hres. destruct (IH out s) as (Hw & Hk & Hin' & Hs'); [done|by intros; apply Hall; right|done|].
    split_and!; [done..| |].
    + intros r [<-|Hin]; [exists g; by apply Hk|by apply Hin'].
    + intros Hf. inversion Hf; subst. by apply Hs'.
  - destruct (isGUIDString (ref_Name ref)) eqn:Ei.
    + apply Hadd; [|done..]. unfold resolved. by rewrite Ei.
    + unfold mbind, M_bind. destruct (resolveOne c op ref s) as [[g|err| | |] s1] eqn:Er; try done.
      apply Hadd; [|done|by congruence]. unfold resolved. rewrite Ei. by eapply resolveOne_Ret.
Qed.
End results.

(** ** Properties *)

(** A name that needs no resolution is a GUID: whatever [isGUIDString]
    accepts has the 36 characters of the canonical form, and [GUIDToBytes],
    which reads it when an ACE is built from it, accepts it too. *)
Theorem isGUIDString_sound (s : gostring) :
  isGUIDString s = true -> len s = 36 /\ exists b, GUIDToBytes s = Ret b /\ len b = 16.
Proof.
  unfold isGUIDString. case_decide as Hl; [done|]. intros (Hg & Hh & Hn)%guid_chars_hex.
  replace (length s) with 36%nat in Hn by (unfold len in Hl; lia).
  destruct (GUIDToBytes_hex s Hg Hh Hn) as [b Hb].
  split; [lia|]. exists b. split; [done|]. by eapply GUIDToBytes_len.
Qed.

(** Every reference is resolved or the call fails.  When [Schema.Resolve]
    succeeds, its map has each reference asked for and nothing else, each once
    and none with an empty GUID; a name that is a GUID stands for itself, and
    any other GUID is the one the directory gave for the single object that a
    search by that name found.  References that are all GUIDs cost no request. *)
Theorem Resolve_exact `{AdCore} `{Env} `{Unicode} (c : core) (refs : list SchemaRef) (s : St)
    (out : list (SchemaRef * gostring)) :
  1 <= c_MaxAttempts c -> fst (Resolve c refs s) = Ret out ->
  (forall ref, In ref refs -> exists guid, ref_get out ref = Some guid) /\
  List.NoDup (map fst out) /\
  (forall ref guid, ref_get out ref = Some guid ->
     In ref refs /\ guid <> [] /\ resolved c "Schema.Resolve"%go ref guid) /\
  (Forall (fun r => isGUIDString (ref_Name r) = true) refs -> snd (Resolve c refs s) = s).
Proof.
  intros Hmax Hr. unfold Resolve in *.
  destruct (resolve_from c "Schema.Resolve"%go refs [] s) as [r s'] eqn:E. cbn in Hr. subst r.
  destruct (resolve_from_Ret c "Schema.Resolve"%go refs refs [] s out s') as ([Hn Hw] & _ & Hin & Hs');
    [done|split; [constructor|done]|done|done|].
  split_and!; [done|done| |done].
  intros ref guid Hg. destruct (Hw _ _ Hg) as [Hi Hres]. split_and!; [done| |done].
  by eapply resolved_ne.
Qed.

Lemma isGUIDString_sound_witness :
  isGUIDString "BF967ABA-0DE6-11D0-A285-00AA003049E2"%go = true /\
  exists b, GUIDToBytes "BF967ABA-0DE6-11D0-A285-00AA003049E2"%go = Ret b /\ len b = 16.
Proof.
  split; [reflexivity|].
  exact (proj2 (isGUIDString_sound "BF967ABA-0DE6-11D0-A285-00AA003049E2"%go eq_refl)).
Defined.

Definition schema_entry : Entry := mkEntry "CN=x"%go [("schemaIDGUID"%go, [sample_guid])].
Definition user_class : SchemaRef := mkSchemaRef RefClass "user"%go.
Definition guid_class : SchemaRef := mkSchemaRef RefClass "bf967aba-0de6-11d0-a285-00aa003049e2"%go.

Lemma Resolve_exact_witness :
  let s := script_state [inl (mkSearchResult [schema_entry] [])] [] in
  let run := @Resolve ascii_unicode sample_adcore script_env sample_core
               [guid_class; user_class; user_class] s in
  exists out, fst run = Ret out /\
    ref_get out user_class = Some "00112233-4455-6677-8899-aabbccddeeff"%go /\
    ref_get out guid_class = Some (ref_Name guid_class) /\ length out = 2%nat /\
    exists guid, ref_get out user_class = Some guid.
Proof.
  intros s run. eexists. split; [vm_compute; reflexivity|].
  split; [reflexivity|]. split; [reflexivity|]. split; [reflexivity|].
  refine (proj1 (@Resolve_exact sample_adcore script_env ascii_unicode sample_core
    [guid_class; user_class; user_class] s _ _ _) user_class _).
  - discriminate.
  - vm_compute. reflexivity.
  - right. left. reflexivity.
Defined.
