(* ===== verification/Principals.v ===== *)
(** * principals.go: who an object delegates to

    Resource-based constrained delegation and the readers of a managed
    password are kept as a security descriptor in an attribute.  This file
    turns identities into such a descriptor and a descriptor into GUIDs, over
    the codecs of [Ace], with the domain SID cached in the client's state. *)
From S2P Require Export Directory.

Section principals.
Context `{Unicode} `{AdCore} `{Env}.

(** *** The domain SID, read once *)

Definition domain_request (c : core) : SearchRequest :=
  mkSearchRequest (c_dnc c) ScopeBase "(objectClass=*)"%go ["objectSid"%go] 1 [].

Definition domain_cb (c : core) (h : Handle) : M Entry :=
  res ← conn_Search h (domain_request c);
  match res_Entries res with
  | [] => fail (Errorf "the naming context %q returned no entry"%go [FStr (c_dnc c)] None)
  | e :: _ => mret e
  end.

(** What the function given to [once.Do] leaves in the cache. *)
Definition read_domain_sid (c : core) (op : gostring) : M bytes :=
  e ← withConn c op (mkEntry [] []) (domain_cb c);
  match First e "objectSid"%go with
  | [] => fail (adErr KindConstraint op
                  (Errorf "the naming context %q has no objectSid"%go [FStr (c_dnc c)] None))
  | sid => mret sid
  end.

(** [once.Do] runs its function in the first call only; a value and an error
    are both kept, and a call that panics counts: the zero values stay. *)
Definition domainSID (c : core) (op : gostring) : M bytes := fun s =>
  match st_dsid s with
  | Some r => (of_sum r, s)
  | None =>
      match read_domain_sid c op s with
      | (Ret sid, s) => (Ret sid, set_dsid s (Some (inl sid)))
      | (Fail e, s) => (Fail e, set_dsid s (Some (inr e)))
      | (Panic, s) => (Panic, set_dsid s (Some (inl [])))
      | (r, s) => (r, s)
      end
  end.

(** *** Identities to SIDs *)

Definition no_principal (op : gostring) (id : Identity) : error :=
  adErr_id KindNotFound op (Identity_String id)
    (Errorf "principal %q does not exist"%go [FStr (IdentityArg id)] None).

Definition principalSID (c : core) (op : gostring) (id : Identity) : M bytes :=
  e ← on_error (getOne c op id "*"%go ["objectSid"%go] [])
        (fun err => if isNotFound err then fail (no_principal op id) else fail err);
  match First e "objectSid"%go with
  | [] => fail (adErr_id KindConstraint op (Identity_String id)
                  (Errorf "principal %q has no objectSid"%go [FStr (IdentityArg id)] None))
  | sid => mret sid
  end.

Fixpoint principalSIDs (c : core) (op : gostring) (ids : list Identity) : M (list bytes) :=
  match ids with
  | [] => mret []
  | id :: ids =>
      sid ← principalSID c op id;
      sids ← principalSIDs c op ids;
      mret (sid :: sids)
  end.

(** *** A descriptor to GUIDs *)

(** One iteration of the loop of [principalGUIDs]: [None] is [continue]. *)
Definition principalGUID (c : core) (op : gostring) (raw : bytes) : M (option gostring) :=
  match SIDToString raw with
  | Ret sid =>
      r ← attempt (getOne c op (BySID sid) "*"%go ["objectGUID"%go] []);
      match r with
      | inr err => if isNotFound err then mret None else fail err
      | inl e =>
          match GUIDToString (First e "objectGUID"%go) with
          | Ret guid => mret (Some guid)
          | _ => mret None
          end
      end
  | _ => mret None
  end.

Fixpoint principal_guids (c : core) (op : gostring) (sids : list bytes) : M (list gostring) :=
  match sids with
  | [] => mret []
  | raw :: sids =>
      g ← principalGUID c op raw;
      guids ← principal_guids c op sids;
      mret (match g with Some guid => guid :: guids | None => guids end)
  end.

Definition principalGUIDs (c : core) (op : gostring) (sd : bytes) : M (list gostring) :=
  sids ← map_error (adErr KindConstraint op) (lift (PrincipalSIDs sd));
  principal_guids c op sids.

Definition principalSDValue (c : core) (op : gostring) (ids : list Identity) : M bytes :=
  dsid ← domainSID c op;
  sids ← principalSIDs c op ids;
  map_error (adErr KindConstraint op) (lift (BuildPrincipalSD dsid sids)).
End principals.

(** ** Every operation returns *)

Section principals_lemmas.
Context `{Unicode} `{AdCore} `{Env}.

Lemma domain_cb_steady c h : steady (domain_cb c h).
Proof. unfold domain_cb. solve_quiet. Qed.
Hint Resolve domain_cb_steady : quiet.
Lemma read_domain_sid_quiet c op : quiet (read_domain_sid c op).
Proof. unfold read_domain_sid. solve_quiet. Qed.

Lemma domainSID_quiet c op : quiet (domainSID c op).
Proof.
  intros s Hs _. unfold domainSID. destruct (st_dsid s) as [[sid|e]|]; [done..|].
  pose proof (read_domain_sid_quiet c op s Hs I) as Hr.
  by destruct (read_domain_sid c op s) as [[sid|e| | |] s1].
Qed.

Lemma principalSID_quiet c op id : quiet (principalSID c op id).
Proof. unfold principalSID. solve_quiet. Qed.
Hint Resolve domainSID_quiet principalSID_quiet : quiet.
Lemma principalSIDs_quiet c op ids : quiet (principalSIDs c op ids).
Proof. induction ids; cbn [principalSIDs]; solve_quiet. Qed.
Lemma principalGUID_quiet c op raw : quiet (principalGUID c op raw).
Proof. unfold principalGUID. solve_quiet. Qed.
Hint Resolve principalSIDs_quiet principalGUID_quiet PrincipalSIDs_returns BuildPrincipalSD_returns : quiet.
Lemma principal_guids_quiet c op sids : quiet (principal_guids c op sids).
Proof. induction sids; cbn [principal_guids]; solve_quiet. Qed.
Hint Resolve principal_guids_quiet : quiet.
Lemma principalGUIDs_quiet c op sd : quiet (principalGUIDs c op sd).
Proof. unfold principalGUIDs. solve_quiet. Qed.
Lemma principalSDValue_quiet c op ids : quiet (principalSDValue c op ids).
Proof. unfold principalSDValue. solve_quiet. Qed.
End principals_lemmas.

#[export] Hint Resolve principalGUIDs_quiet principalSDValue_quiet : quiet.

(** ** What the operations return *)

Section principals_results.
Context `{Unicode} `{AdCore} `{Env}.

(** The directory has [sid] as the objectSid of the one object [id] names. *)
Definition has_sid (c : core) (id : Identity) (sid : bytes) : Prop :=
  exists e, looked_up c id "*"%go ["objectSid"%go] [] e /\ First e "objectSid"%go = sid /\ sid <> [].

Lemma principalSID_Ret c op id s sid s' :
  1 <= c_MaxAttempts c -> principalSID c op id s = (Ret sid, s') -> has_sid c id sid.
Proof.
  intros Hmax. unfold principalSID, on_error, attempt, mbind, M_bind.
  pose proof (getOne_Ret c op id "*"%go ["objectSid"%go] [] s) as Hg.
  destruct (getOne _ _ _ _ _ _ s) as [[e|err| | |] s1]; try done.
  2: { cbn. destruct (isNotFound err); done. }
  cbn [mret M_ret]. destruct (First e _) as [|b l] eqn:Ef; [done|]. intros [= <- _].
  exists e. split_and!; [by apply Hg|done|done].
Qed.

Lemma principalSIDs_Ret c op ids s sids s' :
  1 <= c_MaxAttempts c -> principalSIDs c op ids s = (Ret sids, s') -> Forall2 (has_sid c) ids sids.
Proof.
  intros Hmax. revert s sids. induction ids as [|id ids IH]; cbn [principalSIDs]; intros s sids.
  - intros [= <- _]. constructor.
  - unfold mbind, M_bind. destruct (principalSID c op id s) as [[sid|e| | |] s1] eqn:E1; try done.
    destruct (principalSIDs c op ids s1) as [[l|e| | |] s2] eqn:E2; try done. intros [= <- <-].
    constructor; [by eapply principalSID_Ret|by eapply IH].
Qed.

(** [dsid] is what the cache holds, or was read from the naming context. *)
Definition domain_sid (c : core) (s : St) (dsid : bytes) : Prop :=
  st_dsid s = Some (inl dsid) \/
  exists e h w es ctrls, fst (env_search h (domain_request c) w) = inl (mkSearchResult (e :: es) ctrls) /\
    First e "objectSid"%go = dsid /\ dsid <> [].

Lemma domainSID_Ret c op s dsid s' :
  1 <= c_MaxAttempts c -> domainSID c op s = (Ret dsid, s') ->
  domain_sid c s dsid /\ st_dsid s' = Some (inl dsid).
Proof.
  intros Hmax. unfold domainSID, domain_sid. destruct (st_dsid s) as [[sid|e]|] eqn:Ed.
  - intros [= -> <-]. rewrite Ed. auto.
  - done.
  - unfold read_domain_sid, mbind, M_bind.
    destruct (withConn _ _ _ _ s) as [[e|err| | |] s1] eqn:Ew; try done.
    destruct (First e _) as [|b l] eqn:Ef; [done|]. intros [= <- <-]. split; [right|done].
    apply withConn_Ret in Ew as (h & s2 & s3 & Hcb); [|done].
    unfold domain_cb, conn_Search, ask, mbind, M_bind in Hcb.
    destruct (env_search h _ _) as [[[es ctrls]|err] w] eqn:Es; cbn in Hcb; [|done].
    destruct es as [|e' es]; [done|]. injection Hcb as -> _.
    exists e, h, (st_world s2), es, ctrls. by rewrite Es.
Qed.

(** *** Reading a descriptor *)

(** What one trustee contributes when the directory answers its lookup with
    [es]: nothing for a SID that names no object any more, nothing for an
    object without a GUID, an error for an ambiguous SID. *)
Definition principal_answer (op : gostring) (raw : bytes) (es : list Entry) : outcome (list gostring) :=
  match SIDToString raw with
  | Ret sid =>
      match one_entry op (BySID sid) "*"%go es with
      | Ret e => match GUIDToString (First e "objectGUID"%go) with Ret g => Ret [g] | _ => Ret [] end
      | Fail err => if isNotFound err then Ret [] else Fail err
      | _ => Ret []
      end
  | _ => Ret []
  end.

(** The directory answers the lookup of every SID with [answers sid]. *)
Definition resolves (c : core) (answers : gostring -> list Entry) : Prop := forall sid,
  exists f, identityFilter (BySID sid) = Ret f /\ forall h w, exists ctrls,
    fst (env_search h (getOne_request c "*"%go f ["objectGUID"%go] []) w)
    = inl (mkSearchResult (answers sid) ctrls).

Fixpoint principal_answers (op : gostring) (answers : gostring -> list Entry) (sids : list bytes)
    : outcome (list gostring) :=
  match sids with
  | [] => Ret []
  | raw :: sids =>
      gs ← principal_answer op raw
             (match SIDToString raw with Ret sid => answers sid | _ => [] end);
      rest ← principal_answers op answers sids;
      Ret (gs ++ rest)
  end.

Lemma principal_guids_up c op answers sids s :
  1 <= c_MaxAttempts c -> up -> ready s -> resolves c answers ->
  fst (principal_guids c op sids s) = principal_answers op answers sids.
Proof.
  intros Hmax Hup Hs Hres. revert s Hs.
  induction sids as [|raw sids IH]; intros s Hs; [done|]. cbn [principal_guids principal_answers].
  unfold principalGUID, principal_answer. destruct (SIDToString raw) as [sid|e| | |].
  2-5: unfold mbind, M_bind; cbn [mret M_ret];
    specialize (IH s Hs); destruct (principal_guids c op sids s) as [[l|e'| | |] s1]; cbn in *;
    by rewrite <- IH.
  destruct (Hres sid) as (f & Hf & Hsrv).
  destruct (getOne_up c op (BySID sid) "*"%go ["objectGUID"%go] [] s f (answers sid)) as (s1 & Hg & Hs1);
    [done..|].
  unfold attempt, mbind, M_bind. rewrite Hg. specialize (IH s1 Hs1).
  assert (forall gs : list gostring, fst (match principal_guids c op sids s1 with
     | (Ret a, s0) => (mret (gs ++ a) : M _) s0
     | (Fail e, s0) => (Fail e, s0) | (Panic, s0) => (Panic, s0)
     | (Blocked, s0) => (Blocked, s0) | (OutOfFuel, s0) => (OutOfFuel, s0) end)
     = rest ← principal_answers op answers sids; Ret (gs ++ rest)) as Hrest.
  { intros gs. rewrite <- IH. by destruct (principal_guids c op sids s1) as [[]?]. }
  destruct (one_entry op (BySID sid) "*"%go (answers sid)) as [e|err| | |] eqn:Eo;
    [|destruct (isNotFound err)|by destruct (answers sid) as [|? [|]]..]; [|apply (Hrest [])|done].
  destruct (GUIDToString _) as [g|?| | |]; [apply (Hrest [g])|apply (Hrest [])..].
Qed.
End principals_results.

(** ** Properties *)

Lemma principalSDValue_Ret `{Unicode} `{AdCore} `{Env} (c : core) (op : gostring)
    (ids : list Identity) (s : St) (sd : bytes) :
  1 <= c_MaxAttempts c -> fst (principalSDValue c op ids s) = Ret sd ->
  exists dsid admins sids, domain_sid c s dsid /\ domainAdminsSID dsid = Ret admins /\
    Forall2 (has_sid c) ids sids /\
    (acl_size (map allowFullACE sids) < 65536 ->
       PrincipalSIDs sd = Ret sids /\
       exists p, entries sd = Ret (p, map allowFullACE sids) /\ p_owner p = admins /\
         has_bits (p_control p) controlDACLPresent = true /\ p_dacl p <> []).
Proof.
  intros Hmax. unfold principalSDValue, map_error, on_error, attempt, lift, mbind, M_bind.
  destruct (domainSID c op s) as [[dsid|e| | |] s1] eqn:Ed; try done.
  destruct (principalSIDs c op ids s1) as [[sids|e| | |] s2] eqn:Es; try done.
  destruct (BuildPrincipalSD dsid sids) as [sd'|e| | |] eqn:Eb; try done. cbn. intros [= ->].
  apply domainSID_Ret in Ed as [Ed _]; [|done]. apply principalSIDs_Ret in Es; [|done].
  destruct (BuildPrincipalSD_Ret _ _ _ Eb) as [[admins Ha] Hs].
  exists dsid, admins, sids. split_and!; [done..|]. intros Hsize.
  destruct (proj1 (BuildPrincipalSD_reads _ _ _ Ha Hsize) Hs) as (sd' & p & Hb & Hr & He & Ho & Hc & Hd).
  assert (sd' = sd) as -> by congruence. split; [done|]. by exists p.
Qed.

(** C31: a delegation descriptor names exactly the principals asked for.  When
    [principalSDValue] succeeds, every identity named exactly one object and
    had a SID, the domain SID is the cached one or the naming context's, and
    the descriptor (unless the list outgrows its size field) reads back as
    exactly these SIDs in order, owned by the domain's administrators; for no
    principal it has an empty DACL, not an absent one. *)
Theorem principalSDValue_exact `{Unicode} `{AdCore} `{Env} (c : core) (op : gostring)
    (ids : list Identity) (s : St) (sd : bytes) :
  1 <= c_MaxAttempts c -> fst (principalSDValue c op ids s) = Ret sd ->
  exists dsid admins sids, domain_sid c s dsid /\ domainAdminsSID dsid = Ret admins /\
    Forall2 (has_sid c) ids sids /\
    (acl_size (map allowFullACE sids) < 65536 ->
       PrincipalSIDs sd = Ret sids /\
       exists p, entries sd = Ret (p, map allowFullACE sids) /\ p_owner p = admins /\
         has_bits (p_control p) controlDACLPresent = true /\ p_dacl p <> []).
Proof. apply principalSDValue_Ret. Qed.

(** The domain SID is read at most once.  Whatever a first call returned,
    a value or an error, every later call returns the same without a request
    and without a change of the state. *)
Theorem domainSID_once `{Unicode} `{AdCore} `{Env} (c : core) (op : gostring) (s s1 : St)
    (r : outcome bytes) :
  domainSID c op s = (r, s1) -> returns r ->
  forall c2 op2 s2, st_dsid s2 = st_dsid s1 -> domainSID c2 op2 s2 = (r, s2).
Proof.
  unfold domainSID. destruct (st_dsid s) as [d|] eqn:Ed.
  - intros [= <- <-] _ c2 op2 s2 E. by rewrite E, Ed.
  - destruct (read_domain_sid c op s) as [[sid|e| | |] s0]; intros [= <- <-] Hr c2 op2 s2 E; try done;
      by rewrite E.
Qed.

(** C32: reading a delegation descriptor skips what no longer exists and hides
    nothing else.  Against a reachable directory [principalGUIDs] returns, in
    order, the GUIDs of the objects the descriptor's SIDs name; a SID without
    an object is skipped, and an ambiguous one is an error. *)
Theorem principalGUIDs_exact `{Unicode} `{AdCore} `{Env} (c : core) (op : gostring) (sd : bytes)
    (s : St) (sids : list bytes) (answers : gostring -> list Entry) :
  1 <= c_MaxAttempts c -> up -> ready s -> resolves c answers -> PrincipalSIDs sd = Ret sids ->
  fst (principalGUIDs c op sd s) = principal_answers op answers sids.
Proof.
  intros Hmax Hup Hs Hres Hsids. unfold principalGUIDs. rewrite Hsids.
  unfold map_error, on_error, attempt, lift, mbind, M_bind. cbn [mret M_ret].
  by apply principal_guids_up.
Qed.

(** *** Witnesses *)

Definition domain_entry : Entry := mkEntry "DC=example,DC=com"%go [("objectSid"%go, [sample_domain_sid])].
Definition account_entry : Entry :=
  mkEntry "CN=a,DC=example,DC=com"%go [("objectSid"%go, [SIDSelf]); ("objectGUID"%go, [sample_guid])].
Definition account_id : sample_identity := SampleDN "CN=a,DC=example,DC=com"%go.
Definition one_of (e : Entry) : SearchResult + error := inl (mkSearchResult [e] []).

Lemma principalSDValue_exact_witness :
  let run := @principalSDValue ascii_unicode sample_adcore script_env sample_core "op"%go [account_id]
               (script_state [one_of domain_entry; one_of account_entry] []) in
  exists sd, fst run = Ret sd /\ PrincipalSIDs sd = Ret [SIDSelf] /\
    exists dsid, @domain_sid ascii_unicode script_env sample_core
      (script_state [one_of domain_entry; one_of account_entry] []) dsid.
Proof.
  intros run. eexists. split; [vm_compute; reflexivity|]. split; [vm_compute; reflexivity|].
  destruct (@principalSDValue_exact ascii_unicode sample_adcore script_env sample_core "op"%go
    [account_id] (script_state [one_of domain_entry; one_of account_entry] [])
    (match fst run with Ret sd => sd | _ => [] end)) as (dsid & admins & sids & Hd & _).
  - discriminate.
  - vm_compute. reflexivity.
  - exists dsid. exact Hd.
Defined.

(** A first read that fails for a passing reason fails every later call: the
    error is cached with the [once]. *)
Definition reset : error := ExtError "connection reset by peer"%go None.
Lemma transient_failure_is_kept :
  let first := @domainSID ascii_unicode sample_adcore script_env sample_core "op"%go
                 (script_state [inr reset; one_of domain_entry] []) in
  let later := @domainSID ascii_unicode sample_adcore script_env sample_core "op"%go (snd first) in
  exists e, fst first = Fail e /\ fst later = Fail e /\
    w_searches (st_world (snd later)) = [one_of domain_entry].
Proof. eexists. split_and!; vm_compute; reflexivity. Qed.

Lemma domainSID_once_witness :
  let s := script_state [one_of domain_entry] [] in
  let s1 := snd (@domainSID ascii_unicode sample_adcore script_env sample_core "op"%go s) in
  @domainSID ascii_unicode sample_adcore script_env sample_core "later"%go s1
  = (Ret sample_domain_sid, s1).
Proof.
  intros s s1.
  apply (@domainSID_once ascii_unicode sample_adcore script_env sample_core "op"%go s s1
           (Ret sample_domain_sid)); [vm_compute; reflexivity|exact I|reflexivity].
Defined.

(** A directory that knows one account, by any SID but the everyone SID. *)
Definition known (sid : gostring) : list Entry :=
  if decide (sid = "S-1-1-0"%go) then [] else [account_entry].
Definition principals_env : Env := {|
  World := unit;
  Handle := nat;
  env_dial w := (inl 0%nat, w);
  env_bind h w := (None, w);
  env_search h req w :=
    (inl (mkSearchResult
      (if decide (sr_Filter req = "(&(objectClass=*)(objectSid=S-1-1-0))"%go) then []
       else [account_entry]) []), w);
  env_add h dn attrs w := (None, w);
  env_modify h dn mods ctrls w := (None, w);
  env_modifydn h dn rdn del sup w := (None, w);
  env_delete h dn w := (None, w);
  env_close h w := (None, w);
  env_select w := (None, w);
  env_backoff n w := (None, w);
  env_dial_other host w := (inl 0%nat, w);
  env_now w := (0, w);
  env_wait d w := (None, w);
  Mutex := unit;
  mutex_lock key l := Some l;
  mutex_unlock key l := l
|}.
Definition principals_state : @St principals_env := @mkSt principals_env tt (NewPool 1) tt None.

Lemma principals_resolve : @resolves sample_adcore principals_env sample_core known.
Proof.
  intros sid. eexists. split; [reflexivity|]. intros h w. exists []. unfold known.
  destruct (decide (sid = "S-1-1-0"%go)) as [->|Hne]; [reflexivity|].
  cbn [env_search principals_env fst]. rewrite decide_False; [reflexivity|]. intros Heq. apply Hne.
  change ("(&(objectClass=*)(objectSid="%go ++ (sid ++ ")"%go) ++ ")"%go
          = "(&(objectClass=*)(objectSid="%go ++ ("S-1-1-0"%go ++ ")"%go) ++ ")"%go) in Heq.
  by apply app_inv_head, app_inv_tail, app_inv_tail in Heq.
Qed.

Lemma principalGUIDs_exact_witness :
  exists sd, BuildPrincipalSD sample_domain_sid [everyone; SIDSelf] = Ret sd /\
    fst (@principalGUIDs ascii_unicode sample_adcore principals_env sample_core "op"%go sd principals_state)
    = Ret ["00112233-4455-6677-8899-aabbccddeeff"%go].
Proof.
  eexists. split; [vm_compute; reflexivity|].
  erewrite (@principalGUIDs_exact ascii_unicode sample_adcore principals_env sample_core "op"%go _
    principals_state [everyone; SIDSelf] known); [vm_compute; reflexivity|discriminate|..].
  - constructor; [reflexivity|intros w; exists 0%nat; reflexivity|reflexivity].
  - split; [exact (le_n 1)|reflexivity].
  - exact principals_resolve.
  - vm_compute. reflexivity.
Defined.
