(* ===== verification/Computers.v ===== *)
(** * computer.go: computer accounts

    The helpers here (a name with and without its dollar, multi-valued
    attributes, the trust bits of userAccountControl, the delegation
    descriptor) are also gmsa.go's. *)
From S2P Require Export Principals Users.

Definition computerAttrs : list gostring :=
  ["objectGUID"; "distinguishedName"; "name"; "sAMAccountName"; "objectSid";
   "dNSHostName"; "description"; "displayName"; "location"; "managedBy";
   "userAccountControl"; "servicePrincipalName"; "msDS-AllowedToDelegateTo";
   "msDS-AllowedToActOnBehalfOfOtherIdentity"; "msDS-SupportedEncryptionTypes";
   "accountExpires"; "operatingSystem"; "operatingSystemVersion"]%go.

Definition samWithDollar (s : gostring) : gostring :=
  if HasSuffix s "$"%go then s else s ++ "$"%go.
Definition samWithoutDollar (s : gostring) : gostring := TrimSuffix s "$"%go.

(** [strValues]: an absent attribute is [nil].  The name is looked up as the
    map has it. *)
Definition strValues (e : Entry) (attr : gostring) : list gostring := vals_of e attr.

(** Strings and byte slices are the same lists here. *)
Definition byteValues (vals : list gostring) : list bytes := vals.

Definition replaceMulti (mods : list Modification) (attr : gostring) (vals : list gostring)
    : list Modification := mods ++ [mkModification ModReplace attr (byteValues vals)].

(** [if spec.F != nil { mods = replaceMulti(mods, ...) }] *)
Definition appendMultiMod (mods : list Modification) (attr : gostring)
    (want : option (list gostring)) : list Modification :=
  match want with Some vals => replaceMulti mods attr vals | None => mods end.

(** [if spec.F != nil && len( *spec.F) > 0 { add = append(add, ...) }] *)
Definition appendMultiAttr (add : list Attribute) (attr : gostring) (want : option (list gostring))
    : list Attribute :=
  match want with
  | Some (v :: vals) => add ++ [mkAttribute attr (byteValues (v :: vals))]
  | _ => add
  end.

Definition encAttr : gostring := "msDS-SupportedEncryptionTypes"%go.
Definition enc_value `{Unicode} (names : list gostring) : bytes := Uint32String (EncTypeBits names).

(** ** The trust bits *)

(** The word an account is created with. *)
Definition created_uac (enabled trusted : option bool) : Z :=
  let uac := UACWorkstationTrustAccount in
  let uac := if decide (enabled = Some false) then Z.lor uac UACAccountDisable else uac in
  if decide (trusted = Some true) then Z.lor uac UACTrustedForDelegation else uac.

(** [currentUAC] and [wantUAC] of an update. *)
Definition rebuilt_trust (enabled trusted : bool) : Z :=
  let uac := UACWorkstationTrustAccount in
  let uac := if negb enabled then Z.lor uac UACAccountDisable else uac in
  if trusted then Z.lor uac UACTrustedForDelegation else uac.
Definition wanted_trust (current : Z) (enabled trusted : option bool) : Z :=
  apply_bit UACTrustedForDelegation trusted false (apply_bit UACAccountDisable enabled true current).

Definition trust_mods (enabled trusted : bool) (want_enabled want_trusted : option bool)
    : list Modification :=
  let currentUAC := rebuilt_trust enabled trusted in
  let wantUAC := wanted_trust currentUAC want_enabled want_trusted in
  if decide (wantUAC <> currentUAC)
  then [mkModification ModReplace "userAccountControl"%go [Uint32String wantUAC]] else [].

(** ** Models with a delegation descriptor *)

Section delegation.
Context `{Unicode} `{AdCore} `{Env} {A : Type} (model : Entry -> outcome A) (attr : gostring)
  (set_principals : A -> list gostring -> A).

(** The model of an entry, with the GUIDs of the principals its descriptor
    names. *)
Definition modelled_with (c : core) (op : gostring) (e : Entry) : M A :=
  m ← modelled op model e;
  match First e attr with
  | [] => mret m
  | raw => guids ← principalGUIDs c op raw; mret (set_principals m guids)
  end.

Fixpoint modelled_all (c : core) (op : gostring) (es : list Entry) : M (list A) :=
  match es with
  | [] => mret []
  | e :: es =>
      m ← modelled_with c op e;
      ms ← modelled_all c op es;
      mret (m :: ms)
  end.

Lemma modelled_with_quiet c op e : (forall e, returns (model e)) -> quiet (modelled_with c op e).
Proof. intros. unfold modelled_with, modelled. solve_quiet. Qed.
Lemma modelled_all_quiet c op es : (forall e, returns (model e)) -> quiet (modelled_all c op es).
Proof.
  intros. induction es as [|e es IH]; cbn [modelled_all]; [solve_quiet|].
  apply quiet_bind; [by apply modelled_with_quiet|]. intros m. apply quiet_bind; [done|]. solve_quiet.
Qed.
End delegation.

(** The descriptor of the principals of a spec, when it names any slice. *)
Definition principals_value `{Unicode} `{AdCore} `{Env} (c : core) (op : gostring)
    (ids : option (list Identity)) : M (option bytes) :=
  match ids with
  | None => mret None
  | Some ids => sd ← principalSDValue c op ids; mret (Some sd)
  end.

(** ** Computers *)

Definition rbcd : gostring := "msDS-AllowedToActOnBehalfOfOtherIdentity"%go.

Section computers.
Context `{Unicode} `{AdCore} `{Env}.

Definition computer_model (e : Entry) : outcome Computer :=
  guid ← GUIDToString (First e "objectGUID"%go);
  container ← of_sum (ContainerOf (en_DN e));
  uac ← uac_of e "userAccountControl"%go;
  expires ← FileTimeToTime (FirstString e "accountExpires"%go);
  enc ← uac_of e encAttr;
  Ret (mkComputer guid (en_DN e) (FirstString e "name"%go)
         (samWithoutDollar (FirstString e "sAMAccountName"%go)) container (mustSID e)
         (negb (has_bits uac UACAccountDisable)) (FirstString e "dNSHostName"%go)
         (FirstString e "description"%go) (FirstString e "displayName"%go)
         (FirstString e "location"%go) (FirstString e "managedBy"%go)
         (has_bits uac UACTrustedForDelegation)
         (strValues e "servicePrincipalName"%go) (strValues e "msDS-AllowedToDelegateTo"%go)
         (EncTypeNames enc) expires (FirstString e "operatingSystem"%go)
         (FirstString e "operatingSystemVersion"%go) []).

Definition with_computer_principals (m : Computer) (guids : list gostring) : Computer :=
  mkComputer (cm_GUID m) (cm_DN m) (cm_Name m) (cm_SamAccountName m) (cm_Container m) (cm_SID m)
    (cm_Enabled m) (cm_DNSHostName m) (cm_Description m) (cm_DisplayName m) (cm_Location m)
    (cm_ManagedBy m) (cm_TrustedForDelegation m) (cm_ServicePrincipalNames m)
    (cm_AllowedToDelegateTo m) (cm_KerberosEncryptionType m) (cm_AccountExpiration m)
    (cm_OperatingSystem m) (cm_OperatingSystemVersion m) guids.

Definition Computer_Get (c : core) (id : Identity) : M Computer :=
  let op := "Computer.Get"%go in
  e ← getOne c op id "computer"%go computerAttrs [sdDACL];
  modelled_with computer_model rbcd with_computer_principals c op e.

Definition Computer_Search (c : core) (q : Query) : M (list Computer) :=
  let op := "Computer.Search"%go in
  entries ← searchEntries c op q "computer"%go computerAttrs [sdDACL];
  modelled_all computer_model rbcd with_computer_principals c op entries.

Definition computer_add (spec : ComputerSpec Identity) (sd : option bytes) : list Attribute :=
  let add :=
    [mkAttribute "objectClass"%go ["top"; "person"; "organizationalPerson"; "user"; "computer"]%go;
     mkAttribute "cn"%go [cs_Name spec];
     mkAttribute "sAMAccountName"%go [samWithDollar (cs_SamAccountName spec)];
     mkAttribute "userAccountControl"%go
       [Uint32String (created_uac (cs_Enabled spec) (cs_TrustedForDelegation spec))]] in
  let add := fold_left (fun add f => appendStringAttr add (fst f) (snd f))
    [("dNSHostName"%go, cs_DNSHostName spec); ("description"%go, cs_Description spec);
     ("displayName"%go, cs_DisplayName spec); ("location"%go, cs_Location spec);
     ("managedBy"%go, cs_ManagedBy spec)] add in
  let add := appendMultiAttr add "servicePrincipalName"%go (cs_ServicePrincipalNames spec) in
  let add := appendMultiAttr add "msDS-AllowedToDelegateTo"%go (cs_AllowedToDelegateTo spec) in
  let add := match cs_KerberosEncryptionType spec with
             | Some names => add ++ [mkAttribute encAttr [enc_value names]]
             | None => add
             end in
  let add := if exp_IsSet (cs_AccountExpiration spec)
             then add ++ [mkAttribute "accountExpires"%go
                            [TimeToFileTime (exp_Value (cs_AccountExpiration spec))]]
             else add in
  match sd with Some sd => add ++ [mkAttribute rbcd [sd]] | None => add end.

Definition computer_dn (spec : ComputerSpec Identity) : gostring :=
  cnRDN (cs_Name spec) ++ ","%go ++ cs_Container spec.

Definition Computer_Create (c : core) (fuel : nat) (spec : ComputerSpec Identity)
    : M (Computer * option error) :=
  let op := "Computer.Create"%go in
  lift (of_nil (ComputerSpec_Validate spec op true));;
  let dn := computer_dn spec in
  sd ← principals_value c op (cs_PrincipalsAllowed spec);
  on_error (withConn c op tt (fun h => conn_Add h dn (computer_add spec sd)))
    (fun err =>
       err ← annotateAlreadyExists c err dn
               (deletedFilter "computer"%go (cs_Name spec) (cs_Container spec));
       fail err);;
  created ← Computer_Get c (ByDN dn);
  with_replication c fuel (cm_GUID created) created.

(** The modifications up to the delegation descriptor, and all of them. *)
Definition computer_mods (spec : ComputerSpec Identity) (current : Computer) (sd : option bytes)
    : list Modification :=
  let mods :=
    if decide (cs_SamAccountName spec <> [] /\ cs_SamAccountName spec <> cm_SamAccountName current)
    then [mkModification ModReplace "sAMAccountName"%go [samWithDollar (cs_SamAccountName spec)]]
    else [] in
  let mods := appendStringMod mods "dNSHostName"%go (cs_DNSHostName spec) (cm_DNSHostName current) in
  let mods := appendStringMod mods "description"%go (cs_Description spec) (cm_Description current) in
  let mods := appendStringMod mods "displayName"%go (cs_DisplayName spec) (cm_DisplayName current) in
  let mods := appendStringMod mods "location"%go (cs_Location spec) (cm_Location current) in
  let mods := appendStringMod mods "managedBy"%go (cs_ManagedBy spec) (cm_ManagedBy current) in
  let mods := appendMultiMod mods "servicePrincipalName"%go (cs_ServicePrincipalNames spec) in
  let mods := appendMultiMod mods "msDS-AllowedToDelegateTo"%go (cs_AllowedToDelegateTo spec) in
  let mods := match cs_KerberosEncryptionType spec with
              | Some names => mods ++ [mkModification ModReplace encAttr [enc_value names]]
              | None => mods
              end in
  let mods := match sd with
              | Some sd => mods ++ [mkModification ModReplace rbcd [sd]]
              | None => mods
              end in
  mods
  ++ trust_mods (cm_Enabled current) (cm_TrustedForDelegation current)
       (cs_Enabled spec) (cs_TrustedForDelegation spec)
  ++ expiration_mods (cs_AccountExpiration spec).

Definition Computer_Update_locked (c : core) (fuel : nat) (id : Identity)
    (spec : ComputerSpec Identity) : M (Computer * option error) :=
  let op := "Computer.Update"%go in
  current ← Computer_Get c id;
  sd ← map_error (fun err => WithIdentity err op id)
         (principals_value c op (cs_PrincipalsAllowed spec));
  modify_object c op id (cm_DN current) (computer_mods spec current sd);;
  rename_move c op id (cm_DN current) (cm_Name current) (cm_Container current)
    (cs_Name spec) (cs_Container spec);;
  updated ← Computer_Get c (ByGUID (cm_GUID current));
  with_replication c fuel (cm_GUID updated) updated.

Definition Computer_Update (c : core) (fuel : nat) (id : Identity) (spec : ComputerSpec Identity)
    : M (Computer * option error) :=
  lift (of_nil (ComputerSpec_Validate spec "Computer.Update"%go false));;
  with_lock (IdentityArg id) (Computer_Update_locked c fuel id spec).

Definition Computer_Delete (c : core) (id : Identity) : M unit :=
  delete_object (Computer_Get c) cm_GUID cm_DN c "Computer.Delete"%go id (fun _ => mret tt).
End computers.

(** ** Every operation returns *)

Section computers_lemmas.
Context `{Unicode} `{AdCore} `{Env}.

Lemma computer_model_returns e : returns (computer_model e).
Proof.
  unfold computer_model. apply returns_bind; [apply GUIDToString_returns|intros ? _].
  apply returns_bind; [by destruct (ContainerOf _)|intros ? _].
  apply returns_bind; [apply uac_of_returns|intros ? _].
  apply returns_bind; [apply FileTimeToTime_returns|intros ? _].
  by apply returns_bind; [apply uac_of_returns|].
Qed.
Hint Resolve computer_model_returns modelled_with_quiet modelled_all_quiet : quiet.

Lemma principals_value_quiet c op ids : quiet (principals_value c op ids).
Proof. unfold principals_value. solve_quiet. Qed.
Lemma Computer_Get_quiet c id : quiet (Computer_Get c id).
Proof. unfold Computer_Get. solve_quiet. Qed.
Lemma Computer_Search_quiet c q : quiet (Computer_Search c q).
Proof. unfold Computer_Search. solve_quiet. Qed.
Hint Resolve principals_value_quiet Computer_Get_quiet annotateAlreadyExists_quiet : quiet.

Lemma Computer_Create_quiet c fuel spec :
  (forall guid, quiet (replicate c fuel guid)) -> quiet (Computer_Create c fuel spec).
Proof.
  intros Hrep. unfold Computer_Create, with_replication.
  assert (returns (of_nil (ComputerSpec_Validate spec "Computer.Create"%go true)))
    by (by destruct (ComputerSpec_Validate _ _ _)).
  solve_quiet.
Qed.

Lemma Computer_Update_runs c fuel id spec :
  (forall guid, quiet (replicate c fuel guid)) ->
  runs (unlocked (IdentityArg id)) (Computer_Update c fuel id spec).
Proof.
  intros Hrep. unfold Computer_Update. destruct (ComputerSpec_Validate _ _ _); [done|].
  apply (runs_with_lock (IdentityArg id) (Computer_Update_locked c fuel id spec)).
  unfold Computer_Update_locked, with_replication. solve_quiet.
Qed.

Lemma Computer_Delete_runs c id : runs (unlocked (IdentityArg id)) (Computer_Delete c id).
Proof. apply delete_object_runs; intros; solve_quiet. Qed.
End computers_lemmas.

#[export] Hint Resolve computer_model_returns modelled_with_quiet modelled_all_quiet
  principals_value_quiet Computer_Get_quiet : quiet.

(** ** The delta of an update *)

(** What an attribute that holds one word reads as. *)
Definition word_text (text : gostring) (v : Z) : Prop :=
  match text with [] => Ret 0 | b :: l => ParseUint32 (b :: l) end = Ret v.

Lemma Uint32String_word v : 0 <= v < 2 ^ 32 -> word_text (Uint32String v) v.
Proof.
  intros Hv. pose proof (Uint32String_parse _ Hv) as Hp. unfold word_text.
  destruct (Uint32String v) eqn:E; [|done]. by vm_compute in Hp.
Qed.

Section pieces.
Context `{Unicode}.

Lemma multi_piece_one attr want : at_most_one attr (appendMultiMod [] attr want).
Proof. destruct want; [right|by left]. eexists. by split_and!; [..|left]. Qed.
Lemma appendMultiMod_app mods attr want :
  appendMultiMod mods attr want = mods ++ appendMultiMod [] attr want.
Proof. destruct want; [done|]. by rewrite app_nil_r. Qed.

Definition value_piece {B} (attr : gostring) (f : B -> bytes) (want : option B) : list Modification :=
  match want with Some b => [mkModification ModReplace attr [f b]] | None => [] end.
Lemma value_piece_one {B} attr (f : B -> bytes) want : at_most_one attr (value_piece attr f want).
Proof. destruct want; [right|by left]. eexists. by split_and!; [..|left]. Qed.
Lemma value_piece_app {B} mods attr (f : B -> bytes) want :
  match want with Some b => mods ++ [mkModification ModReplace attr [f b]] | None => mods end
  = mods ++ value_piece attr f want.
Proof. destruct want; [done|]. by rewrite app_nil_r. Qed.
Lemma trust_one e t we wt : at_most_one "userAccountControl"%go (trust_mods e t we wt).
Proof. apply replace_one. Qed.

Lemma written_multi attr want current :
  default current (written_vals attr (appendMultiMod [] attr want)) = default current want.
Proof. destruct want; [|done]. unfold written_as. cbn. by rewrite decide_True. Qed.

(** *** The account name *)

Lemma TrimSuffix_dollar s : samWithoutDollar (s ++ "$"%go) = s.
Proof.
  unfold samWithoutDollar, TrimSuffix. rewrite rev_app_distr. cbn.
  rewrite decide_True by done. apply rev_involutive.
Qed.

(** What was written with a dollar reads back without one. *)
Lemma sam_roundtrip s : samWithoutDollar (samWithDollar s) = samWithoutDollar s.
Proof.
  unfold samWithDollar. destruct (HasSuffix s _) eqn:E; [done|]. rewrite TrimSuffix_dollar.
  unfold HasSuffix, HasPrefix in E. unfold samWithoutDollar, TrimSuffix.
  by destruct (strip_prefix _ _).
Qed.

Definition sam_mods (want current : gostring) : list Modification :=
  if decide (want <> [] /\ want <> current)
  then [mkModification ModReplace "sAMAccountName"%go [samWithDollar want]] else [].
Definition merged_sam (want current : gostring) : gostring :=
  if decide (want <> [] /\ want <> current) then samWithoutDollar want else current.

Lemma written_sam want current text :
  samWithoutDollar text = current ->
  samWithoutDollar (default text (written "sAMAccountName"%go (sam_mods want current)))
  = merged_sam want current.
Proof.
  intros Ht. unfold sam_mods, merged_sam. case_decide; [|done].
  rewrite written_replace. apply sam_roundtrip.
Qed.

(** *** The trust bits *)

Lemma wanted_trust_range e t we wt : 0 <= wanted_trust (rebuilt_trust e t) we wt < 2 ^ 32.
Proof. destruct e, t, we as [[]|], wt as [[]|]; vm_compute; intuition congruence. Qed.

Lemma wanted_trust_bits e t we wt :
  negb (has_bits (wanted_trust (rebuilt_trust e t) we wt) UACAccountDisable) = default e we /\
  has_bits (wanted_trust (rebuilt_trust e t) we wt) UACTrustedForDelegation = default t wt.
Proof. by destruct e, t, we as [[]|], wt as [[]|]. Qed.

Definition trust_text (text : gostring) (enabled trusted : bool) : Prop :=
  exists v, word_text text v /\ negb (has_bits v UACAccountDisable) = enabled /\
    has_bits v UACTrustedForDelegation = trusted.

Lemma written_trust text e t we wt :
  trust_text text e t ->
  trust_text (default text (written "userAccountControl"%go (trust_mods e t we wt)))
    (default e we) (default t wt).
Proof.
  intros Ht. destruct (wanted_trust_bits e t we wt) as [Ea Eb]. unfold trust_mods.
  destruct (decide (_ <> _)) as [_|Hn].
  - rewrite written_replace. exists (wanted_trust (rebuilt_trust e t) we wt).
    split; [|done]. apply Uint32String_word, wanted_trust_range.
  - assert (wanted_trust (rebuilt_trust e t) we wt = rebuilt_trust e t) as Heq
      by (destruct (decide (wanted_trust (rebuilt_trust e t) we wt = rebuilt_trust e t)); tauto).
    rewrite Heq in Ea, Eb. cbn. rewrite <- Ea, <- Eb.
    assert (negb (has_bits (rebuilt_trust e t) UACAccountDisable) = e /\
      has_bits (rebuilt_trust e t) UACTrustedForDelegation = t) as [-> ->] by by destruct e, t.
    done.
Qed.

(** *** Encryption types *)

Lemma EncTypeBits_range names : 0 <= EncTypeBits names < 2 ^ 32.
Proof.
  unfold EncTypeBits. assert (forall v, 0 <= v < 2 ^ 32 ->
    0 <= fold_left (fun v n => Z.lor v (enc_bit n)) names v < 2 ^ 32) as Hall; [|by apply Hall].
  induction names as [|n names IH]; intros v Hv; [done|]. cbn [fold_left]. apply IH.
  apply lor_range; [done|]. unfold enc_bit. repeat case_decide; repeat case_match; by vm_compute.
Qed.

Lemma written_enc text v want :
  word_text text v ->
  exists v', word_text (default text (written encAttr (value_piece encAttr enc_value want))) v' /\
    EncTypeNames v' = match want with
                      | Some names => EncTypeNames (EncTypeBits names)
                      | None => EncTypeNames v
                      end.
Proof.
  intros Hv. destruct want as [names|]; [|by exists v]. unfold value_piece. rewrite written_replace.
  exists (EncTypeBits names). split; [|done]. apply Uint32String_word, EncTypeBits_range.
Qed.
End pieces.

Section computer_delta.
Context `{Unicode} `{AdCore}.

Definition computer_changes (spec : ComputerSpec Identity) (m : Computer) (sd : option bytes) : delta :=
  [("sAMAccountName"%go, sam_mods (cs_SamAccountName spec) (cm_SamAccountName m));
   ("dNSHostName"%go, appendStringMod [] "dNSHostName"%go (cs_DNSHostName spec) (cm_DNSHostName m));
   ("description"%go, appendStringMod [] "description"%go (cs_Description spec) (cm_Description m));
   ("displayName"%go, appendStringMod [] "displayName"%go (cs_DisplayName spec) (cm_DisplayName m));
   ("location"%go, appendStringMod [] "location"%go (cs_Location spec) (cm_Location m));
   ("managedBy"%go, appendStringMod [] "managedBy"%go (cs_ManagedBy spec) (cm_ManagedBy m));
   ("servicePrincipalName"%go,
      appendMultiMod [] "servicePrincipalName"%go (cs_ServicePrincipalNames spec));
   ("msDS-AllowedToDelegateTo"%go,
      appendMultiMod [] "msDS-AllowedToDelegateTo"%go (cs_AllowedToDelegateTo spec));
   (encAttr, value_piece encAttr enc_value (cs_KerberosEncryptionType spec));
   (rbcd, value_piece rbcd id sd);
   ("userAccountControl"%go,
      trust_mods (cm_Enabled m) (cm_TrustedForDelegation m) (cs_Enabled spec) (cs_TrustedForDelegation spec));
   ("accountExpires"%go, expiration_mods (cs_AccountExpiration spec))].

Lemma computer_mods_changes spec m sd : computer_mods spec m sd = mods_of (computer_changes spec m sd).
Proof.
  unfold computer_mods, mods_of, computer_changes. cbv zeta. cbn [map snd concat].
  fold (sam_mods (cs_SamAccountName spec) (cm_SamAccountName m)).
  rewrite (value_piece_app _ encAttr enc_value), (value_piece_app _ rbcd id).
  repeat match goal with
  | |- context [appendMultiMod ?m ?a ?w] =>
      lazymatch m with [] => fail | _ => rewrite (appendMultiMod_app m a w) end
  | |- context [appendStringMod ?m ?a ?w ?c] =>
      lazymatch m with [] => fail | _ => rewrite (appendStringMod_app m a w c) end
  end.
  by rewrite <- !app_assoc, app_nil_r.
Qed.

Lemma computer_changes_wf spec m sd : wf_delta (computer_changes spec m sd).
Proof.
  solve_wf_delta; [apply multi_piece_one|apply multi_piece_one|apply value_piece_one|
    apply value_piece_one|apply expiration_one].
Qed.

(** The computer an update is meant to leave (before a rename; the principals
    are read back from the descriptor). *)
Definition merged_computer (spec : ComputerSpec Identity) (m : Computer) : Computer :=
  mkComputer (cm_GUID m) (cm_DN m) (cm_Name m)
    (merged_sam (cs_SamAccountName spec) (cm_SamAccountName m)) (cm_Container m) (cm_SID m)
    (default (cm_Enabled m) (cs_Enabled spec))
    (default (cm_DNSHostName m) (cs_DNSHostName spec))
    (default (cm_Description m) (cs_Description spec))
    (default (cm_DisplayName m) (cs_DisplayName spec))
    (default (cm_Location m) (cs_Location spec))
    (default (cm_ManagedBy m) (cs_ManagedBy spec))
    (default (cm_TrustedForDelegation m) (cs_TrustedForDelegation spec))
    (default (cm_ServicePrincipalNames m) (cs_ServicePrincipalNames spec))
    (default (cm_AllowedToDelegateTo m) (cs_AllowedToDelegateTo spec))
    (match cs_KerberosEncryptionType spec with
     | Some names => EncTypeNames (EncTypeBits names)
     | None => cm_KerberosEncryptionType m
     end)
    (merged_expiration (cs_AccountExpiration spec) (cm_AccountExpiration m))
    (cm_OperatingSystem m) (cm_OperatingSystemVersion m) [].
End computer_delta.

(** Rewrite what each attribute of a concrete delta was given. *)
Ltac read_written Hwf :=
  repeat match goal with
  | |- context [written_as ?f ?a (mods_of _)] =>
      first [ rewrite (written_absent f _ a Hwf) by (cbn; intuition discriminate)
            | erewrite (written_in f _ a _ Hwf) by (cbn; tauto) ]
  end.

(** A computer update writes exactly the delta.  Take any entry that
    models to [m] and apply the modifications [Update] sends: the result models
    to [m] with precisely the fields the spec names replaced (multi-valued ones
    whole, an empty slice emptying the attribute), the account name read back
    without the dollar it is stored with, and the delegation descriptor as
    given. *)
Theorem computer_update_delta `{Unicode} `{AdCore} (spec : ComputerSpec Identity) (e : Entry)
    (m : Computer) (sd : option bytes) :
  (forall a, In a computerAttrs -> spelled a e) -> computer_model e = Ret m ->
  (exp_IsSet (cs_AccountExpiration spec) = true ->
     - 2 ^ 63 <= exp_Value (cs_AccountExpiration spec) < 2 ^ 63) ->
  let e' := apply_mods e (computer_mods spec m sd) in
  computer_model e' = Ret (merged_computer spec m) /\
  First e' rbcd = default (First e rbcd) sd.
Proof.
  intros Hsp Hm Hexp e'. subst e'. pose proof (computer_changes_wf spec m sd) as Hwf.
  assert (forall attr, In attr computerAttrs ->
    First (apply_mods e (computer_mods spec m sd)) attr
    = default (First e attr) (written attr (computer_mods spec m sd))) as HF.
  { intros attr Hin. rewrite computer_mods_changes. apply First_delta; [done| |by apply Hsp].
    cbn in Hin. repeat destruct Hin as [<-|Hin]; try done; solve_other_spelling. }
  split.
  2: { rewrite HF by (cbn; tauto). rewrite computer_mods_changes. read_written Hwf.
       destruct sd as [sd|]; [|done]. unfold value_piece. by rewrite written_replace. }
  assert (forall attr, vals_of (apply_mods e (computer_mods spec m sd)) attr
    = default (vals_of e attr) (written_vals attr (computer_mods spec m sd))) as HV.
  { intros attr. rewrite computer_mods_changes. by apply vals_delta. }
  unfold computer_model, uac_of, FirstString, mustSID, strValues in *. inv_ret Hm. injection Hm as Hm.
  pose proof (written_trust (First e "userAccountControl"%go) (cm_Enabled m) (cm_TrustedForDelegation m)
    (cs_Enabled spec) (cs_TrustedForDelegation spec)) as Huac.
  pose proof (written_expiration (cs_AccountExpiration spec) _ _ Hexp Ha2) as Hexpire.
  pose proof (written_sam (cs_SamAccountName spec) (cm_SamAccountName m) (First e "sAMAccountName"%go))
    as Hsam.
  destruct (written_enc (First e encAttr) a3 (cs_KerberosEncryptionType spec)) as (enc & Henc & Hnames);
    [exact Ha3|].
  rewrite en_DN_apply_mods, !HF by (cbn; tauto). rewrite !HV, computer_mods_changes. read_written Hwf.
  destruct Huac as (v & Hv & Hb1 & Hb2); [exists a1; split; [exact Ha1|by subst m]|].
  assert (First e "dNSHostName"%go = cm_DNSHostName m /\ First e "description"%go = cm_Description m /\
    First e "displayName"%go = cm_DisplayName m /\ First e "location"%go = cm_Location m /\
    First e "managedBy"%go = cm_ManagedBy m /\
    vals_of e "servicePrincipalName"%go = cm_ServicePrincipalNames m /\
    vals_of e "msDS-AllowedToDelegateTo"%go = cm_AllowedToDelegateTo m)
    as (-> & -> & -> & -> & -> & -> & ->) by by subst m.
  rewrite Hsam, !written_string, !written_multi, Hexpire by by subst m.
  unfold word_text in Hv, Henc. rewrite Hv, Henc. cbn [default from_option]. unfold id.
  rewrite Ha, Ha0. cbn [mbind outcome_bind]. unfold merged_computer. rewrite Hb1, Hb2, Hnames.
  subst m. by destruct (cs_KerberosEncryptionType spec).
Qed.

Definition sample_computer_entry : Entry :=
  mkEntry "CN=SRV01,DC=example"%go
    [("objectGUID"%go, [sample_guid]); ("name"%go, ["SRV01"%go]); ("sAMAccountName"%go, ["SRV01$"%go]);
     ("userAccountControl"%go, ["532480"%go]);
     ("servicePrincipalName"%go, ["HOST/SRV01"%go; "HOST/srv01.example"%go])].
Definition sample_computer_spec : ComputerSpec sample_identity :=
  mkComputerSpec sample_identity "SRV01"%go "SRV02"%go "DC=example"%go None (Some "web"%go) None None None
    (Some false) None (Some []) None (Some ["aes256"%go; "rc4"%go]) (mkExpiration false false 0) None.

Lemma computer_update_delta_witness :
  exists m, @computer_model ascii_unicode sample_adcore sample_computer_entry = Ret m /\
    cm_SamAccountName m = "SRV01"%go /\
    @computer_model ascii_unicode sample_adcore
      (apply_mods sample_computer_entry
         (@computer_mods ascii_unicode sample_adcore sample_computer_spec m None))
    = Ret (@merged_computer ascii_unicode sample_adcore sample_computer_spec m) /\
    cm_SamAccountName (@merged_computer ascii_unicode sample_adcore sample_computer_spec m) = "SRV02"%go /\
    cm_ServicePrincipalNames (@merged_computer ascii_unicode sample_adcore sample_computer_spec m) = [] /\
    cm_KerberosEncryptionType (@merged_computer ascii_unicode sample_adcore sample_computer_spec m)
    = ["RC4"; "AES256"]%go.
Proof.
  eexists. split; [reflexivity|]. split; [reflexivity|].
  split; [|split; [reflexivity|split; reflexivity]].
  refine (proj1 (@computer_update_delta ascii_unicode sample_adcore sample_computer_spec
    sample_computer_entry _ None _ eq_refl _)); [|discriminate].
  intros a Ha k vs Hin Hf. cbn in Ha, Hin.
  repeat destruct Hin as [[= <- <-]|Hin]; try done; repeat destruct Ha as [<-|Ha]; try done;
    vm_compute in Hf; discriminate.
Defined.

(** The word is rebuilt from two bits, so an update of either one turns any
    computer into a workstation account: the entry above is a domain
    controller (SERVER_TRUST_ACCOUNT, 0x2000, trusted for delegation). *)
Lemma computer_update_clears_other_bits :
  exists m, @computer_model ascii_unicode sample_adcore sample_computer_entry = Ret m /\
    ParseUint32 (@First ascii_unicode sample_computer_entry "userAccountControl"%go) = Ret 0x82000 /\
    ParseUint32 (@First ascii_unicode
      (apply_mods sample_computer_entry
         (@computer_mods ascii_unicode sample_adcore sample_computer_spec m None))
      "userAccountControl"%go) = Ret 0x81002.
Proof. eexists. split; [reflexivity|]. split; reflexivity. Qed.

(** Multi-valued attributes are looked up by their exact name, single-valued
    ones by name in any case: a server that spells the attribute in its own
    way loses its values. *)
Lemma values_need_exact_name :
  let e := mkEntry [] [("serviceprincipalname"%go, ["HOST/a"%go])] in
  @First ascii_unicode e "servicePrincipalName"%go = "HOST/a"%go /\
  strValues e "servicePrincipalName"%go = [].
Proof. split; reflexivity. Qed.
