(* ===== verification/Gmsas.v ===== *)
(** * gmsa.go: group managed service accounts *)
From S2P Require Export Computers.

Definition gmsaClass : gostring := "msDS-GroupManagedServiceAccount"%go.
Definition defaultManagedPasswordInterval : Z := 30.
Definition membership : gostring := "msDS-GroupMSAMembership"%go.

Definition gmsaAttrs : list gostring :=
  ["objectGUID"; "distinguishedName"; "name"; "sAMAccountName"; "objectSid";
   "dNSHostName"; "description"; "displayName"; "userAccountControl";
   "servicePrincipalName"; "msDS-GroupMSAMembership";
   "msDS-SupportedEncryptionTypes"; "msDS-ManagedPasswordInterval"; "accountExpires"]%go.

Section gmsas.
Context `{Unicode} `{AdCore} `{Env}.

(** [int(v)] of a 32-bit word is itself on the 64-bit platforms supported. *)
Definition gmsa_model (e : Entry) : outcome GMSA :=
  guid ← GUIDToString (First e "objectGUID"%go);
  container ← of_sum (ContainerOf (en_DN e));
  uac ← uac_of e "userAccountControl"%go;
  expires ← FileTimeToTime (FirstString e "accountExpires"%go);
  enc ← uac_of e encAttr;
  interval ← uac_of e "msDS-ManagedPasswordInterval"%go;
  Ret (mkGMSA guid (en_DN e) (FirstString e "name"%go)
         (samWithoutDollar (FirstString e "sAMAccountName"%go)) container (mustSID e)
         (FirstString e "dNSHostName"%go) (FirstString e "description"%go)
         (FirstString e "displayName"%go) (negb (has_bits uac UACAccountDisable))
         (has_bits uac UACTrustedForDelegation) (strValues e "servicePrincipalName"%go)
         (EncTypeNames enc) interval expires []).

Definition with_gmsa_principals (m : GMSA) (guids : list gostring) : GMSA :=
  mkGMSA (ma_GUID m) (ma_DN m) (ma_Name m) (ma_SamAccountName m) (ma_Container m) (ma_SID m)
    (ma_DNSHostName m) (ma_Description m) (ma_DisplayName m) (ma_Enabled m)
    (ma_TrustedForDelegation m) (ma_ServicePrincipalNames m) (ma_KerberosEncryptionType m)
    (ma_ManagedPasswordIntervalInDays m) (ma_AccountExpiration m) guids.

Definition GMSA_Get (c : core) (id : Identity) : M GMSA :=
  let op := "ServiceAccount.Get"%go in
  e ← getOne c op id gmsaClass gmsaAttrs [];
  modelled_with gmsa_model membership with_gmsa_principals c op e.

Definition GMSA_Search (c : core) (q : Query) : M (list GMSA) :=
  let op := "ServiceAccount.Search"%go in
  entries ← searchEntries c op q gmsaClass gmsaAttrs [];
  modelled_all gmsa_model membership with_gmsa_principals c op entries.

(** [*spec.DNSHostName]: a nil pointer panics. *)
Definition deref {A} (p : option A) : outcome A :=
  match p with Some a => Ret a | None => Panic end.

Definition gmsa_add (spec : GMSASpec Identity) (host : gostring) (sd : bytes) : list Attribute :=
  let add :=
    [mkAttribute "objectClass"%go
       ["top"%go; "person"%go; "organizationalPerson"%go; "user"%go; "computer"%go; gmsaClass];
     mkAttribute "cn"%go [ms_Name spec];
     mkAttribute "sAMAccountName"%go [samWithDollar (ms_SamAccountName spec)];
     mkAttribute "userAccountControl"%go
       [Uint32String (created_uac (ms_Enabled spec) (ms_TrustedForDelegation spec))];
     mkAttribute "dNSHostName"%go [host];
     mkAttribute membership [sd]] in
  let add := fold_left (fun add f => appendStringAttr add (fst f) (snd f))
    [("description"%go, ms_Description spec); ("displayName"%go, ms_DisplayName spec)] add in
  let add := appendMultiAttr add "servicePrincipalName"%go (ms_ServicePrincipalNames spec) in
  let add := match ms_KerberosEncryptionType spec with
             | Some names => add ++ [mkAttribute encAttr [enc_value names]]
             | None => add
             end in
  let interval := default defaultManagedPasswordInterval (ms_ManagedPasswordIntervalInDays spec) in
  let add := add ++ [mkAttribute "msDS-ManagedPasswordInterval"%go [fmt_d interval]] in
  if exp_IsSet (ms_AccountExpiration spec)
  then add ++ [mkAttribute "accountExpires"%go
                 [TimeToFileTime (exp_Value (ms_AccountExpiration spec))]]
  else add.

Definition gmsa_dn (spec : GMSASpec Identity) : gostring :=
  cnRDN (ms_Name spec) ++ ","%go ++ ms_Container spec.

Definition GMSA_Create (c : core) (fuel : nat) (spec : GMSASpec Identity) : M (GMSA * option error) :=
  let op := "ServiceAccount.Create"%go in
  lift (of_nil (GMSASpec_Validate spec op true));;
  let dn := gmsa_dn spec in
  sd ← principalSDValue c op (default [] (ms_PrincipalsAllowed spec));
  host ← lift (deref (ms_DNSHostName spec));
  on_error (withConn c op tt (fun h => conn_Add h dn (gmsa_add spec host sd)))
    (fun err =>
       err ← annotateAlreadyExists c err dn
               (deletedFilter gmsaClass (ms_Name spec) (ms_Container spec));
       fail err);;
  created ← GMSA_Get c (ByDN dn);
  with_replication c fuel (ma_GUID created) created.

Definition gmsa_mods (spec : GMSASpec Identity) (current : GMSA) (sd : option bytes)
    : list Modification :=
  let mods :=
    if decide (ms_SamAccountName spec <> [] /\ ms_SamAccountName spec <> ma_SamAccountName current)
    then [mkModification ModReplace "sAMAccountName"%go [samWithDollar (ms_SamAccountName spec)]]
    else [] in
  let mods := appendStringMod mods "dNSHostName"%go (ms_DNSHostName spec) (ma_DNSHostName current) in
  let mods := appendStringMod mods "description"%go (ms_Description spec) (ma_Description current) in
  let mods := appendStringMod mods "displayName"%go (ms_DisplayName spec) (ma_DisplayName current) in
  let mods := appendMultiMod mods "servicePrincipalName"%go (ms_ServicePrincipalNames spec) in
  let mods := match ms_KerberosEncryptionType spec with
              | Some names => mods ++ [mkModification ModReplace encAttr [enc_value names]]
              | None => mods
              end in
  let mods := match sd with
              | Some sd => mods ++ [mkModification ModReplace membership [sd]]
              | None => mods
              end in
  mods
  ++ trust_mods (ma_Enabled current) (ma_TrustedForDelegation current)
       (ms_Enabled spec) (ms_TrustedForDelegation spec)
  ++ expiration_mods (ms_AccountExpiration spec).

Definition GMSA_Update_locked (c : core) (fuel : nat) (id : Identity) (spec : GMSASpec Identity)
    : M (GMSA * option error) :=
  let op := "ServiceAccount.Update"%go in
  current ← GMSA_Get c id;
  sd ← map_error (fun err => WithIdentity err op id)
         (principals_value c op (ms_PrincipalsAllowed spec));
  modify_object c op id (ma_DN current) (gmsa_mods spec current sd);;
  rename_move c op id (ma_DN current) (ma_Name current) (ma_Container current)
    (ms_Name spec) (ms_Container spec);;
  updated ← GMSA_Get c (ByGUID (ma_GUID current));
  with_replication c fuel (ma_GUID updated) updated.

Definition GMSA_Update (c : core) (fuel : nat) (id : Identity) (spec : GMSASpec Identity)
    : M (GMSA * option error) :=
  lift (of_nil (GMSASpec_Validate spec "ServiceAccount.Update"%go false));;
  with_lock (IdentityArg id) (GMSA_Update_locked c fuel id spec).

Definition GMSA_Delete (c : core) (id : Identity) : M unit :=
  delete_object (GMSA_Get c) ma_GUID ma_DN c "ServiceAccount.Delete"%go id (fun _ => mret tt).
End gmsas.

(** ** Every operation returns *)

Section gmsas_lemmas.
Context `{Unicode} `{AdCore} `{Env}.

Lemma gmsa_model_returns e : returns (gmsa_model e).
Proof.
  unfold gmsa_model. apply returns_bind; [apply GUIDToString_returns|intros ? _].
  apply returns_bind; [by destruct (ContainerOf _)|intros ? _].
  apply returns_bind; [apply uac_of_returns|intros ? _].
  apply returns_bind; [apply FileTimeToTime_returns|intros ? _].
  apply returns_bind; [apply uac_of_returns|intros ? _].
  by apply returns_bind; [apply uac_of_returns|].
Qed.
Hint Resolve gmsa_model_returns : quiet.

Lemma GMSA_Get_quiet c id : quiet (GMSA_Get c id).
Proof. unfold GMSA_Get. solve_quiet. Qed.
Lemma GMSA_Search_quiet c q : quiet (GMSA_Search c q).
Proof. unfold GMSA_Search. solve_quiet. Qed.
Hint Resolve GMSA_Get_quiet annotateAlreadyExists_quiet : quiet.

(** The only panic of [Create] is the host name, which validation requires. *)
Lemma GMSA_Create_quiet c fuel spec :
  (GMSASpec_Validate spec "ServiceAccount.Create"%go true = None -> ms_DNSHostName spec <> None) ->
  (forall guid, quiet (replicate c fuel guid)) -> quiet (GMSA_Create c fuel spec).
Proof.
  intros Hhost Hrep. unfold GMSA_Create, with_replication.
  destruct (GMSASpec_Validate _ _ _) as [err|]; [by intros s|].
  destruct (ms_DNSHostName spec) as [host|]; [|by destruct Hhost].
  apply quiet_bind; [solve_quiet|]. intros []. solve_quiet.
Qed.

Lemma GMSA_Update_runs c fuel id spec :
  (forall guid, quiet (replicate c fuel guid)) ->
  runs (unlocked (IdentityArg id)) (GMSA_Update c fuel id spec).
Proof.
  intros Hrep. unfold GMSA_Update. destruct (GMSASpec_Validate _ _ _); [done|].
  apply (runs_with_lock (IdentityArg id) (GMSA_Update_locked c fuel id spec)).
  unfold GMSA_Update_locked, with_replication. solve_quiet.
Qed.

Lemma GMSA_Delete_runs c id : runs (unlocked (IdentityArg id)) (GMSA_Delete c id).
Proof. apply delete_object_runs; intros; solve_quiet. Qed.
End gmsas_lemmas.

(** ** The delta of an update *)

Section gmsa_delta.
Context `{Unicode} `{AdCore}.

Definition gmsa_changes (spec : GMSASpec Identity) (m : GMSA) (sd : option bytes) : delta :=
  [("sAMAccountName"%go, sam_mods (ms_SamAccountName spec) (ma_SamAccountName m));
   ("dNSHostName"%go, appendStringMod [] "dNSHostName"%go (ms_DNSHostName spec) (ma_DNSHostName m));
   ("description"%go, appendStringMod [] "description"%go (ms_Description spec) (ma_Description m));
   ("displayName"%go, appendStringMod [] "displayName"%go (ms_DisplayName spec) (ma_DisplayName m));
   ("servicePrincipalName"%go,
      appendMultiMod [] "servicePrincipalName"%go (ms_ServicePrincipalNames spec));
   (encAttr, value_piece encAttr enc_value (ms_KerberosEncryptionType spec));
   (membership, value_piece membership id sd);
   ("userAccountControl"%go,
      trust_mods (ma_Enabled m) (ma_TrustedForDelegation m) (ms_Enabled spec) (ms_TrustedForDelegation spec));
   ("accountExpires"%go, expiration_mods (ms_AccountExpiration spec))].

Lemma gmsa_mods_changes spec m sd : gmsa_mods spec m sd = mods_of (gmsa_changes spec m sd).
Proof.
  unfold gmsa_mods, mods_of, gmsa_changes. cbv zeta. cbn [map snd concat].
  fold (sam_mods (ms_SamAccountName spec) (ma_SamAccountName m)).
  rewrite (value_piece_app _ encAttr enc_value), (value_piece_app _ membership id), appendMultiMod_app.
  repeat match goal with
  | |- context [appendStringMod ?m ?a ?w ?c] =>
      lazymatch m with [] => fail | _ => rewrite (appendStringMod_app m a w c) end
  end.
  by rewrite <- !app_assoc, app_nil_r.
Qed.

Lemma gmsa_changes_wf spec m sd : wf_delta (gmsa_changes spec m sd).
Proof.
  solve_wf_delta; [apply multi_piece_one|apply value_piece_one|apply value_piece_one|apply expiration_one].
Qed.

(** The account an update is meant to leave; the password interval is
    create-only and stays. *)
Definition merged_gmsa (spec : GMSASpec Identity) (m : GMSA) : GMSA :=
  mkGMSA (ma_GUID m) (ma_DN m) (ma_Name m)
    (merged_sam (ms_SamAccountName spec) (ma_SamAccountName m)) (ma_Container m) (ma_SID m)
    (default (ma_DNSHostName m) (ms_DNSHostName spec))
    (default (ma_Description m) (ms_Description spec))
    (default (ma_DisplayName m) (ms_DisplayName spec))
    (default (ma_Enabled m) (ms_Enabled spec))
    (default (ma_TrustedForDelegation m) (ms_TrustedForDelegation spec))
    (default (ma_ServicePrincipalNames m) (ms_ServicePrincipalNames spec))
    (match ms_KerberosEncryptionType spec with
     | Some names => EncTypeNames (EncTypeBits names)
     | None => ma_KerberosEncryptionType m
     end)
    (ma_ManagedPasswordIntervalInDays m)
    (merged_expiration (ms_AccountExpiration spec) (ma_AccountExpiration m)) [].

Lemma gmsa_delta (spec : GMSASpec Identity) (e : Entry) (m : GMSA) (sd : option bytes) :
  (forall a, In a gmsaAttrs -> spelled a e) -> gmsa_model e = Ret m ->
  (exp_IsSet (ms_AccountExpiration spec) = true ->
     - 2 ^ 63 <= exp_Value (ms_AccountExpiration spec) < 2 ^ 63) ->
  let e' := apply_mods e (gmsa_mods spec m sd) in
  gmsa_model e' = Ret (merged_gmsa spec m) /\ First e' membership = default (First e membership) sd.
Proof.
  intros Hsp Hm Hexp e'. subst e'. pose proof (gmsa_changes_wf spec m sd) as Hwf.
  assert (forall attr, In attr gmsaAttrs ->
    First (apply_mods e (gmsa_mods spec m sd)) attr
    = default (First e attr) (written attr (gmsa_mods spec m sd))) as HF.
  { intros attr Hin. rewrite gmsa_mods_changes. apply First_delta; [done| |by apply Hsp].
    cbn in Hin. repeat destruct Hin as [<-|Hin]; try done; solve_other_spelling. }
  split.
  2: { rewrite HF by (cbn; tauto). rewrite gmsa_mods_changes. read_written Hwf.
       destruct sd as [sd|]; [|done]. unfold value_piece. by rewrite written_replace. }
  assert (forall attr, vals_of (apply_mods e (gmsa_mods spec m sd)) attr
    = default (vals_of e attr) (written_vals attr (gmsa_mods spec m sd))) as HV.
  { intros attr. rewrite gmsa_mods_changes. by apply vals_delta. }
  unfold gmsa_model, uac_of, FirstString, mustSID, strValues in *. inv_ret Hm. injection Hm as Hm.
  pose proof (written_trust (First e "userAccountControl"%go) (ma_Enabled m) (ma_TrustedForDelegation m)
    (ms_Enabled spec) (ms_TrustedForDelegation spec)) as Huac.
  pose proof (written_expiration (ms_AccountExpiration spec) _ _ Hexp Ha2) as Hexpire.
  pose proof (written_sam (ms_SamAccountName spec) (ma_SamAccountName m) (First e "sAMAccountName"%go))
    as Hsam.
  destruct (written_enc (First e encAttr) a3 (ms_KerberosEncryptionType spec)) as (enc & Henc & Hnames);
    [exact Ha3|].
  rewrite en_DN_apply_mods, !HF by (cbn; tauto). rewrite !HV, gmsa_mods_changes. read_written Hwf.
  destruct Huac as (v & Hv & Hb1 & Hb2); [exists a1; split; [exact Ha1|by subst m]|].
  assert (First e "dNSHostName"%go = ma_DNSHostName m /\ First e "description"%go = ma_Description m /\
    First e "displayName"%go = ma_DisplayName m /\
    vals_of e "servicePrincipalName"%go = ma_ServicePrincipalNames m)
    as (-> & -> & -> & ->) by by subst m.
  rewrite Hsam, !written_string, !written_multi, Hexpire by by subst m.
  unfold word_text in Hv, Henc. rewrite Hv, Henc. cbn [default from_option]. unfold id.
  rewrite Ha, Ha0, Ha4. cbn [mbind outcome_bind]. unfold merged_gmsa. rewrite Hb1, Hb2, Hnames.
  subst m. by destruct (ms_KerberosEncryptionType spec).
Qed.
End gmsa_delta.

(** ** Creating an account *)

Lemma gmsa_add_mandatory `{Unicode} `{AdCore} spec host sd :
  In (mkAttribute membership [sd]) (gmsa_add spec host sd) /\
  In (mkAttribute "dNSHostName"%go [host]) (gmsa_add spec host sd) /\
  In (mkAttribute "msDS-ManagedPasswordInterval"%go
        [fmt_d (default defaultManagedPasswordInterval (ms_ManagedPasswordIntervalInDays spec))])
     (gmsa_add spec host sd) /\
  In (mkAttribute "userAccountControl"%go
        [Uint32String (created_uac (ms_Enabled spec) (ms_TrustedForDelegation spec))])
     (gmsa_add spec host sd).
Proof.
  unfold gmsa_add. cbv zeta.
  match goal with |- context [?mid ++ [mkAttribute "msDS-ManagedPasswordInterval"%go ?v]] =>
    set (add := mid) end.
  assert (forall a, In a [mkAttribute "userAccountControl"%go
        [Uint32String (created_uac (ms_Enabled spec) (ms_TrustedForDelegation spec))];
      mkAttribute "dNSHostName"%go [host]; mkAttribute membership [sd]] -> In a add) as Hbase.
  { intros a Hin. subst add.
    assert (forall l attr v, In a l -> In a (appendStringAttr l attr v)) as Hs.
    { intros l attr [[|b w]|] Hl; [done|apply in_app_iff; by left|done]. }
    assert (forall l attr v, In a l -> In a (appendMultiAttr l attr v)) as Hm.
    { intros l attr [[|b w]|] Hl; [done|apply in_app_iff; by left|done]. }
    assert (forall l, In a l -> In a (match ms_KerberosEncryptionType spec with
      | Some names => l ++ [mkAttribute encAttr [enc_value names]] | None => l end)) as He.
    { intros l Hl. destruct (ms_KerberosEncryptionType spec); [apply in_app_iff; by left|done]. }
    apply He, Hm. cbn [fold_left fst snd]. apply Hs, Hs. cbn in Hin |- *. tauto. }
  clearbody add.
  destruct (exp_IsSet _); repeat rewrite in_app_iff; cbn [In];
    split_and!; try (by do 2 left; apply Hbase; cbn; tauto); try (by left; apply Hbase; cbn; tauto);
    cbn; tauto.
Qed.

(** ** Properties *)

(** A service account update writes exactly the delta: the entry it
    leaves models to the current account with precisely the fields the spec
    names replaced, the create-only password interval untouched and the
    membership descriptor as given. *)
Theorem gmsa_update_delta `{Unicode} `{AdCore} (spec : GMSASpec Identity) (e : Entry) (m : GMSA)
    (sd : option bytes) :
  (forall a, In a gmsaAttrs -> spelled a e) -> gmsa_model e = Ret m ->
  (exp_IsSet (ms_AccountExpiration spec) = true ->
     - 2 ^ 63 <= exp_Value (ms_AccountExpiration spec) < 2 ^ 63) ->
  let e' := apply_mods e (gmsa_mods spec m sd) in
  gmsa_model e' = Ret (merged_gmsa spec m) /\ First e' membership = default (First e membership) sd.
Proof. apply gmsa_delta. Qed.

(** What a service account creation that succeeds has added: one object
    with the host name, the trust bits of the spec and the mandatory password
    interval, and a membership descriptor that is always present and reads
    back as exactly the principals' SIDs (nobody when the spec has none); the
    model returned was read back from the directory. *)
Theorem GMSA_Create_success `{Unicode} `{AdCore} `{Env} (c : core) (fuel : nat)
    (spec : GMSASpec Identity) (s : St) (m : GMSA) (err : option error) :
  1 <= c_MaxAttempts c -> fst (GMSA_Create c fuel spec s) = Ret (m, err) ->
  exists host sd sids, ms_DNSHostName spec = Some host /\
    (exists h w, fst (env_add h (gmsa_dn spec) (gmsa_add spec host sd) w) = None) /\
    In (mkAttribute membership [sd]) (gmsa_add spec host sd) /\
    In (mkAttribute "dNSHostName"%go [host]) (gmsa_add spec host sd) /\
    In (mkAttribute "msDS-ManagedPasswordInterval"%go
          [fmt_d (default 30 (ms_ManagedPasswordIntervalInDays spec))]) (gmsa_add spec host sd) /\
    Forall2 (has_sid c) (default [] (ms_PrincipalsAllowed spec)) sids /\
    (acl_size (map allowFullACE sids) < 65536 ->
       PrincipalSIDs sd = Ret sids /\ exists p, entries sd = Ret (p, map allowFullACE sids) /\ p_dacl p <> []) /\
    (exists s1, fst (GMSA_Get c (ByDN (gmsa_dn spec)) s1) = Ret m).
Proof.
  intros Hmax. unfold GMSA_Create. destruct (GMSASpec_Validate _ _ _); [done|].
  unfold mbind at 1, M_bind at 1. cbn [of_nil lift]. cbv zeta.
  pose proof (principalSDValue_Ret c "ServiceAccount.Create"%go (default [] (ms_PrincipalsAllowed spec)) s)
    as Hsd.
  unfold mbind at 1, M_bind at 1.
  destruct (principalSDValue _ _ _ s) as [[sd|e| | |] s1]; try done.
  destruct (Hsd sd) as (dsid & admins & sids & _ & _ & Hsids & Hread); [done..|].
  destruct (ms_DNSHostName spec) as [host|]; [|done].
  unfold on_error, attempt, mbind, M_bind. cbn [deref lift].
  destruct (withConn _ _ _ (fun h => conn_Add h _ _) s1) as [[[]|e| | |] s2] eqn:Eadd; try done.
  2: { by destruct (annotateAlreadyExists _ _ _ _ s2) as [[]?]. }
  apply withConn_tell_Ret in Eadd; [|done]. cbn [mret M_ret].
  destruct (GMSA_Get c _ s2) as [[m'|e| | |] s3] eqn:Eget; try done.
  unfold with_replication, attempt, mbind, M_bind. intros Hr. assert (m' = m) as ->.
  { destruct (replicate c fuel (ma_GUID m') s3) as [[]?]; cbn in Hr; congruence. }
  destruct (gmsa_add_mandatory spec host sd) as (H1' & H2' & H3' & _).
  exists host, sd, sids. split_and!; try done.
  - intros Hsize. destruct (Hread Hsize) as (Hp & p & He & _ & _ & Hd). split; [done|]. by exists p.
  - exists s2. by rewrite Eget.
Qed.

(** *** Witnesses *)

Definition sample_gmsa_entry : Entry :=
  mkEntry "CN=svc,DC=example"%go
    [("objectGUID"%go, [sample_guid]); ("name"%go, ["svc"%go]); ("sAMAccountName"%go, ["svc$"%go]);
     ("userAccountControl"%go, ["4096"%go]); ("dNSHostName"%go, ["svc.example"%go]);
     ("msDS-ManagedPasswordInterval"%go, ["30"%go])].
Definition sample_gmsa_spec : GMSASpec sample_identity :=
  mkGMSASpec sample_identity "svc"%go "svc"%go "DC=example"%go (Some "svc.example"%go) (Some "web"%go) None
    None None None (Some ["AES256"%go]) None (mkExpiration false true 0) None.

Lemma gmsa_update_delta_witness :
  exists m, @gmsa_model ascii_unicode sample_adcore sample_gmsa_entry = Ret m /\
    ma_ManagedPasswordIntervalInDays m = 30 /\
    @gmsa_model ascii_unicode sample_adcore
      (apply_mods sample_gmsa_entry (@gmsa_mods ascii_unicode sample_adcore sample_gmsa_spec m None))
    = Ret (@merged_gmsa ascii_unicode sample_adcore sample_gmsa_spec m) /\
    ma_Description (@merged_gmsa ascii_unicode sample_adcore sample_gmsa_spec m) = "web"%go.
Proof.
  eexists. split; [reflexivity|]. split; [reflexivity|]. split; [|reflexivity].
  refine (proj1 (@gmsa_update_delta ascii_unicode sample_adcore sample_gmsa_spec sample_gmsa_entry
    _ None _ eq_refl _)); [|discriminate].
  intros a Ha k vs Hin Hf. cbn in Ha, Hin.
  repeat destruct Hin as [[= <- <-]|Hin]; try done; repeat destruct Ha as [<-|Ha]; try done;
    vm_compute in Hf; discriminate.
Defined.

Lemma GMSA_Create_success_witness :
  let s := script_state [one_of domain_entry; one_of sample_gmsa_entry] [] in
  let run := @GMSA_Create ascii_unicode sample_adcore script_env sample_core 1 sample_gmsa_spec s in
  w_writes (st_world (snd run)) = 1%nat /\
  exists m err, fst run = Ret (m, err) /\
    exists s1, fst (@GMSA_Get ascii_unicode sample_adcore script_env sample_core
      (SampleDN (@gmsa_dn sample_adcore sample_gmsa_spec)) s1) = Ret m.
Proof.
  intros s run. split; [vm_compute; reflexivity|].
  eexists _, _. split; [vm_compute; reflexivity|].
  destruct (@GMSA_Create_success ascii_unicode sample_adcore script_env sample_core 1 sample_gmsa_spec s
    (match fst run with Ret r => fst r | _ => mkGMSA [] [] [] [] [] [] [] [] [] true true [] [] 0 None [] end)
    None) as (host & sd & sids & _ & _ & _ & _ & _ & _ & _ & Hget).
  - discriminate.
  - vm_compute. reflexivity.
  - exact Hget.
Defined.
