(* ===== verification/Delegation.v ===== *)
(** * computer.go, gmsa.go and principals.go, end to end

    An update that names principals resolves each identity to a SID, builds a
    security descriptor of them with the domain's SID, writes it into an
    attribute, reads the object back and turns the descriptor into GUIDs.  Over
    a directory that answers and stores what is written, the principals it
    returns are the objects the spec names. *)
From S2P Require Export Direct Computers Gmsas.

(** ** The cached domain SID *)

Section cache.
Context `{Unicode} `{AdCore} `{Env}.

(** Only [domainSID] writes the cache. *)
Definition keeps_sid {A} (m : M A) : Prop := forall s, st_dsid (snd (m s)) = st_dsid s.

Lemma keeps_lift {A} (r : outcome A) : keeps_sid (lift r).
Proof. done. Qed.
Lemma keeps_bind {A B} (m : M A) (f : A -> M B) :
  keeps_sid m -> (forall a, keeps_sid (f a)) -> keeps_sid (m ≫= f).
Proof.
  intros Hm Hf s. specialize (Hm s). unfold mbind, M_bind.
  destruct (m s) as [[a|e| | |] s1]; cbn [snd] in *; rewrite ?Hf; done.
Qed.
Lemma keeps_attempt {A} (m : M A) : keeps_sid m -> keeps_sid (attempt m).
Proof. intros Hm s. specialize (Hm s). unfold attempt. by destruct (m s) as [[] ?]. Qed.
Lemma keeps_on_error {A} (m : M A) (f : error -> M A) :
  keeps_sid m -> (forall e, keeps_sid (f e)) -> keeps_sid (on_error m f).
Proof. intros Hm Hf. apply keeps_bind; [by apply keeps_attempt|]. by intros []. Qed.
Lemma keeps_map_error {A} g (m : M A) : keeps_sid m -> keeps_sid (map_error g m).
Proof. intros Hm. by apply keeps_on_error. Qed.
Lemma keeps_ask {A} (f : World -> (A + error) * World) : keeps_sid (ask f).
Proof. intros s. unfold ask. by destruct (f _). Qed.
Lemma keeps_tell f : keeps_sid (tell f).
Proof. intros s. unfold tell. by destruct (f _). Qed.
Lemma keeps_give : keeps_sid give_permit.
Proof. intros s. unfold give_permit. by destruct (recv _). Qed.

Lemma keeps_Acquire : keeps_sid Acquire.
Proof.
  apply keeps_bind; [apply keeps_tell|intros _]. apply keeps_bind.
  { intros s. unfold take_permit. by destruct (try_send _). }
  intros _ s. unfold take_conn. destruct (acquire_section _).
  - by apply (keeps_bind give_permit); [apply keeps_give|].
  - done.
  - revert s. fold (keeps_sid dial_and_bind). unfold dial_and_bind.
    apply keeps_bind; [|intros h; apply keeps_bind; [|done]]; apply keeps_on_error;
      try apply keeps_ask; try apply keeps_tell; intros e; repeat (apply keeps_bind; [|intros _]);
      try apply keeps_give; done.
Qed.
Lemma keeps_Release h : keeps_sid (Release h).
Proof.
  apply keeps_bind; [|intros _; apply keeps_give]. intros s. unfold put_back.
  by destruct (release_section _ h) as [? []].
Qed.
Lemma keeps_Discard h : keeps_sid (Discard h).
Proof. apply keeps_bind; [done|intros _; apply keeps_give]. Qed.

Lemma keeps_withConn {A} c op (zero : A) fn : (forall h, keeps_sid (fn h)) -> keeps_sid (withConn c op zero fn).
Proof.
  intros Hfn. unfold withConn. generalize 1. induction (Z.to_nat (c_MaxAttempts c)) as [|fuel IH]; intros n; [done|].
  cbn [withConn_from]. apply keeps_bind; [apply keeps_map_error, keeps_Acquire|intros h].
  apply keeps_bind; [by apply keeps_attempt|intros [a|e]]; apply keeps_bind.
  - apply keeps_Release.
  - done.
  - destruct (is_kind _ _); [apply keeps_Discard|apply keeps_Release].
  - intros _. destruct (_ || _); [done|]. apply keeps_bind; [apply keeps_tell|intros _; apply IH].
Qed.

Lemma keeps_getOne c op id class want ctl : keeps_sid (getOne c op id class want ctl).
Proof.
  unfold getOne. apply keeps_bind; [by apply keeps_map_error|intros f]. apply keeps_bind.
  - apply keeps_attempt, keeps_withConn. intros h. unfold search_cb. apply keeps_bind; [apply keeps_ask|done].
  - intros [es|e]; [|by repeat case_match]. by repeat case_match.
Qed.

Lemma keeps_principal_guids c op sids : keeps_sid (principal_guids c op sids).
Proof.
  induction sids as [|raw sids IH]; [done|]. cbn [principal_guids]. apply keeps_bind; [|intros g; by apply keeps_bind].
  unfold principalGUID. destruct (SIDToString raw); try done.
  apply keeps_bind; [apply keeps_attempt, keeps_getOne|]. intros [e|err]; by repeat case_match.
Qed.

Lemma keeps_modelled_with {A} (model : Entry -> outcome A) attr set c op e :
  keeps_sid (modelled_with model attr set c op e).
Proof.
  unfold modelled_with. apply keeps_bind; [by apply keeps_map_error|intros m]. destruct (First e attr); [done|].
  apply keeps_bind; [|done]. unfold principalGUIDs. apply keeps_bind; [by apply keeps_map_error|].
  intros sids. apply keeps_principal_guids.
Qed.

(** The domain SID has not been read, or was [d]. *)
Definition cached (d : bytes) (s : St) : Prop := st_dsid s = None \/ st_dsid s = Some (inl d).

(** [yields], from such a state. *)
Definition yields_from {A} (d : bytes) (m : M A) (w : World) (r : outcome A) (w' : World) : Prop := forall s,
  ready s -> st_world s = w -> cached d s ->
  exists s', m s = (r, s') /\ st_world s' = w' /\ ready s' /\ st_locks s' = st_locks s.

Lemma yields_from_any {A} d (m : M A) w r w' : yields m w r w' -> yields_from d m w r w'.
Proof. intros Hm s Hs Hw _. by apply Hm. Qed.

(** What precedes the read of the cache, and what follows it. *)
Lemma yields_from_before {A B} d (m : M A) (f : A -> M B) w a w1 r w2 :
  keeps_sid m -> yields m w (Ret a) w1 -> yields_from d (f a) w1 r w2 -> yields_from d (m ≫= f) w r w2.
Proof.
  intros Hk Hm Hf s Hs Hw Hd. destruct (Hm s Hs Hw) as (s1 & E1 & Hw1 & Hs1 & Hl1).
  specialize (Hk s). rewrite E1 in Hk. cbn [snd] in Hk. destruct (Hf s1 Hs1 Hw1) as (s2 & E2 & Hw2 & Hs2 & Hl2).
  { unfold cached in *. by rewrite Hk. }
  exists s2. unfold mbind, M_bind. rewrite E1. split_and!; [done..|congruence].
Qed.
Lemma yields_from_bind {A B} d (m : M A) (f : A -> M B) w a w1 r w2 :
  yields_from d m w (Ret a) w1 -> yields (f a) w1 r w2 -> yields_from d (m ≫= f) w r w2.
Proof.
  intros Hm Hf s Hs Hw Hd. destruct (Hm s Hs Hw Hd) as (s1 & E1 & Hw1 & Hs1 & Hl1).
  destruct (Hf s1 Hs1 Hw1) as (s2 & E2 & Hw2 & Hs2 & Hl2).
  exists s2. unfold mbind, M_bind. rewrite E1. split_and!; [done..|congruence].
Qed.
Lemma yields_from_map_error {A} d g (m : M A) w a w' :
  yields_from d m w (Ret a) w' -> yields_from d (map_error g m) w (Ret a) w'.
Proof.
  intros Hm s Hs Hw Hd. destruct (Hm s Hs Hw Hd) as (s1 & E1 & ?). exists s1.
  unfold map_error, on_error, attempt, mbind, M_bind. by rewrite E1.
Qed.
End cache.

(** ** A directory of principals *)

Section principals.
Context `{Unicode} `{AdCore} `{Env} (c : core).

(** The naming context carries the domain's SID. *)
Definition domain_is (dsid : bytes) : Prop := dsid <> [] /\ forall w, exists e,
  First e "objectSid"%go = dsid /\
  forall h, exists ctrls, env_search h (domain_request c) w = (inl (mkSearchResult [e] ctrls), w).

(** [id] names one object, whose SID is [sid]. *)
Definition named (id : Identity) (sid : bytes) : Prop := sid <> [] /\ exists f, identityFilter id = Ret f /\
  forall w, exists e, First e "objectSid"%go = sid /\ forall h, exists ctrls,
    env_search h (getOne_request c "*"%go f ["objectSid"%go] []) w = (inl (mkSearchResult [e] ctrls), w).

(** The lookup of a SID is answered with [answers sid]. *)
Definition looked_up_by_sid (answers : gostring -> list Entry) : Prop := forall sid,
  exists f, identityFilter (BySID sid) = Ret f /\ forall w h, exists ctrls,
    env_search h (getOne_request c "*"%go f ["objectGUID"%go] []) w
    = (inl (mkSearchResult (answers sid) ctrls), w).

Context (Hst : still) (Hmax : 1 <= c_MaxAttempts c).

Lemma domainSID_yields op dsid w : domain_is dsid -> yields_from dsid (domainSID c op) w (Ret dsid) w.
Proof using Hst Hmax.
  intros [Hne Hd] s Hs Hw Hc. destruct (Hd w) as (e & He & Hsrv). unfold domainSID.
  destruct Hc as [-> | ->]; [|by exists s].
  assert (yields (read_domain_sid c op) w (Ret dsid) w) as Hread.
  { unfold read_domain_sid. eapply (yields_bind _ _ w e w).
    - apply (yields_withConn c op _ _ w (Ret e) w); try done; [intros; apply domain_cb_steady|].
      intros h. destruct (Hsrv h) as [ctrls Hr]. unfold domain_cb, conn_Search.
      apply (performs_bind _ _ w (mkSearchResult [e] ctrls) w); [|apply performs_ret].
      pose proof (performs_ask (env_search h (domain_request c)) w) as Ha. rewrite Hr in Ha. exact Ha.
    - rewrite He. destruct dsid; [done|]. apply yields_ret. }
  destruct (Hread s Hs Hw) as (s1 & -> & Hw1 & Hs1 & Hl1).
  exists (set_dsid s1 (Some (inl dsid))). split_and!; [done..|]. exact Hl1.
Qed.

Lemma principalSIDs_yields op ids sids w :
  Forall2 named ids sids -> yields (principalSIDs c op ids) w (Ret sids) w.
Proof using Hst Hmax.
  induction 1 as [|id sid ids sids [Hne (f & Hf & Hsrv)] _ IH]; [apply yields_ret|]. cbn [principalSIDs].
  destruct (Hsrv w) as (e & He & Hr). eapply (yields_bind _ _ w sid w).
  - unfold principalSID. eapply (yields_bind _ _ w e w).
    + unfold on_error. apply (yields_bind _ _ w (inl e) w); [|apply yields_ret].
      apply (yields_attempt _ w (Ret e)). exact (getOne_yields c op id _ _ _ w f [e] Hst Hmax Hf Hr).
    + rewrite He. destruct sid; [done|]. apply yields_ret.
  - eapply yields_bind; [exact IH|]. apply yields_ret.
Qed.

(** The descriptor of [ids]: who they are, and that it fits. *)
Record principals (dsid : bytes) (ids : list Identity) (sids : list bytes) : Prop := {
  pr_domain : domain_is dsid;
  pr_admins : exists admins, domainAdminsSID dsid = Ret admins;
  pr_named : Forall2 named ids sids;
  pr_exact : Forall (exact sidLen) sids;
  pr_size : acl_size (map allowFullACE sids) < 65536
}.

Lemma principalSDValue_yields op dsid ids sids w :
  principals dsid ids sids ->
  exists sd, PrincipalSIDs sd = Ret sids /\ yields_from dsid (principalSDValue c op ids) w (Ret sd) w.
Proof using Hst Hmax.
  intros [Hd [admins Ha] Hn He Hsz].
  destruct (proj1 (BuildPrincipalSD_reads _ _ _ Ha Hsz) He) as (sd & p & Hb & Hr & _).
  exists sd. split; [done|]. unfold principalSDValue. intros s Hs Hw Hc.
  destruct (domainSID_yields op dsid w Hd s Hs Hw Hc) as (s1 & E1 & Hw1 & Hs1 & Hl1).
  assert (yields (sids ← principalSIDs c op ids;
    map_error (adErr KindConstraint op) (lift (BuildPrincipalSD dsid sids))) w (Ret sd) w) as Hrest.
  { eapply yields_bind; [by apply principalSIDs_yields|]. rewrite Hb.
    apply (yields_map_error _ _ w (Ret sd)), yields_ret. }
  destruct (Hrest s1 Hs1 Hw1) as (s2 & E2 & Hw2 & Hs2 & Hl2). exists s2.
  unfold mbind at 1, M_bind at 1. rewrite E1. split_and!; [exact E2|done..|congruence].
Qed.

(** *** Reading it back *)

Definition read_principals (op : gostring) (answers : gostring -> list Entry) (raw : bytes)
    : outcome (list gostring) :=
  sids ← PrincipalSIDs raw; principal_answers op answers sids.

Lemma principal_guids_yields op answers sids gs w :
  looked_up_by_sid answers -> principal_answers op answers sids = Ret gs ->
  yields (principal_guids c op sids) w (Ret gs) w.
Proof using Hst Hmax.
  intros Hans. revert gs. induction sids as [|raw sids IH]; intros gs; cbn [principal_answers principal_guids].
  { intros [= <-]. apply yields_ret. }
  intros (g & Hg & (rest & Hrest & [= <-])%bind_Ret)%bind_Ret. specialize (IH _ Hrest).
  assert (exists o, yields (principalGUID c op raw) w (Ret o) w /\ g = match o with Some g => [g] | None => [] end) as (o & Ho & ->).
  { unfold principal_answer, principalGUID in *.
    destruct (SIDToString raw) as [sid|e| | |]; [|by exists None; injection Hg as <-; split; [apply yields_ret|]..].
    destruct (Hans sid) as (f & Hf & Hsrv).
    pose proof (yields_attempt _ _ _ _ (getOne_yields c op (BySID sid) "*"%go ["objectGUID"%go] [] w f
      (answers sid) Hst Hmax Hf (Hsrv w))) as Hone.
    destruct (one_entry _ _ _ _) as [e|err| | |] eqn:Eo;
      [| |by destruct (answers sid) as [|? [|]]..]; cbn in Hone.
    - destruct (GUIDToString _) as [guid|e'| | |] eqn:Eg; injection Hg as <-; [exists (Some guid)|exists None..];
        (split; [|done]); (eapply yields_bind; [exact Hone|]); cbv beta iota; rewrite Eg; apply yields_ret.
    - destruct (isNotFound err) eqn:En; [|done]. injection Hg as <-. exists None. split; [|done].
      eapply yields_bind; [exact Hone|]. cbv beta iota. rewrite En. apply yields_ret. }
  eapply yields_bind; [exact Ho|]. eapply yields_bind; [exact IH|]. destruct o; apply yields_ret.
Qed.

(** The principals [ids] asked for are those with the GUIDs [gs]; asking for
    none leaves [gs0]. *)
Definition asked (op : gostring) (answers : gostring -> list Entry) (dsid : bytes)
    (ids : option (list Identity)) (gs0 gs : list gostring) : Prop :=
  match ids with
  | None => gs = gs0
  | Some ids => exists sids, principals dsid ids sids /\ principal_answers op answers sids = Ret gs
  end.

Lemma principals_value_yields op opG answers dsid ids gs0 gs raw w :
  asked opG answers dsid ids gs0 gs -> read_principals opG answers raw = Ret gs0 ->
  exists sd, read_principals opG answers (default raw sd) = Ret gs /\
    yields_from dsid (principals_value c op ids) w (Ret sd) w.
Proof using Hst Hmax.
  destruct ids as [ids|]; cbn [asked principals_value].
  - intros (sids & Hp & Hgs) _. destruct (principalSDValue_yields op dsid ids sids w Hp) as (sd & Hr & Hy).
    exists (Some sd). split; [by unfold read_principals; cbn; rewrite Hr|].
    eapply yields_from_bind; [exact Hy|]. apply yields_ret.
  - intros -> Hraw. exists None. split; [exact Hraw|]. apply yields_from_any, yields_ret.
Qed.
End principals.

(** ** The update of an object with principals *)

Section update.
Context `{Unicode} `{AdCore} `{Env} (c : core) (get : World -> Entry).
Context {A : Type} (model : Entry -> outcome A) (attr : gostring) (set : A -> list gostring -> A).
Context (class : gostring) (want : list gostring) (ctl : list Control) (opG : gostring).
Context (Hst : still) (Hmax : 1 <= c_MaxAttempts c) (answers : gostring -> list Entry).
Context (Hans : looked_up_by_sid c answers).

Definition get_object (id : Identity) : M A :=
  e ← getOne c opG id class want ctl; modelled_with model attr set c opG e.

Lemma modelled_with_yields e m gs w :
  model e = Ret m -> set m [] = m -> read_principals opG answers (First e attr) = Ret gs ->
  yields (modelled_with model attr set c opG e) w (Ret (set m gs)) w.
Proof using Hst Hmax Hans.
  intros Hm Hset. unfold modelled_with, read_principals. intros (sids & Hs & Hgs)%bind_Ret.
  eapply (yields_bind _ _ w m w).
  { unfold modelled. rewrite Hm. apply (yields_map_error _ _ w (Ret m)), yields_lift. }
  destruct (First e attr) as [|b raw].
  { injection Hs as <-. injection Hgs as <-. rewrite Hset. apply yields_ret. }
  eapply yields_bind; [|apply yields_ret]. unfold principalGUIDs. rewrite Hs.
  eapply (yields_bind _ _ w sids w).
  - apply (yields_map_error _ _ w (Ret sids)), yields_lift.
  - by eapply principal_guids_yields.
Qed.

Lemma get_object_yields id m gs w :
  found c get class want ctl id w -> model (get w) = Ret m -> set m [] = m ->
  read_principals opG answers (First (get w) attr) = Ret gs ->
  yields (get_object id) w (Ret (set m gs)) w.
Proof using Hst Hmax Hans.
  intros (f & Hf & Hsrv) Hm Hset Hgs. eapply yields_bind.
  - by apply (getOne_yields c opG id class want ctl w f [get w]).
  - by apply modelled_with_yields.
Qed.

Lemma get_object_keeps id : keeps_sid (get_object id).
Proof using Type. apply keeps_bind; [apply keeps_getOne|intros e; apply keeps_modelled_with]. Qed.

(** The body the two updates share. *)
Definition update_object (op : gostring) (fuel : nat) (id : Identity) (ids : option (list Identity))
    (guid dn name container : A -> gostring) (mods : A -> option bytes -> list Modification)
    (new_name new_container : gostring) : M (A * option error) :=
  current ← get_object id;
  sd ← map_error (fun err => WithIdentity err op id) (principals_value c op ids);
  modify_object c op id (dn current) (mods current sd);;
  rename_move c op id (dn current) (name current) (container current) new_name new_container;;
  updated ← get_object (ByGUID (guid current));
  with_replication c fuel (guid updated) updated.

Lemma update_object_yields op fuel id ids guid dn name container mods new_container w m m' gs0 gs dsid :
  repl_Wait (c_repl c) = false -> stores get ->
  found c get class want ctl id w -> finds c get class want ctl (ByGUID (guid (set m gs0))) ->
  model (get w) = Ret m -> set m [] = m -> set m' [] = m' ->
  dn (set m gs0) = en_DN (get w) -> EqualFoldDN new_container (container (set m gs0)) = inl true ->
  read_principals opG answers (First (get w) attr) = Ret gs0 -> asked c opG answers dsid ids gs0 gs ->
  (forall sd, let e := apply_mods (get w) (mods (set m gs0) sd) in
     model e = Ret m' /\ First e attr = default (First (get w) attr) sd) ->
  exists w', yields_from dsid
      (update_object op fuel id ids guid dn name container mods (name (set m gs0)) new_container)
      w (Ret (set m' gs, None)) w' /\
    model (get w') = Ret m' /\ read_principals opG answers (First (get w') attr) = Ret gs.
Proof using Hst Hmax Hans.
  intros Hrep Hkeep Hid Hguid Hm Hset Hset' Hdn Hcont Hgs0 Hask Hmods.
  destruct (principals_value_yields c Hst Hmax op opG answers dsid ids gs0 gs _ w Hask Hgs0) as (sd & Hr & Hv).
  destruct (modify_object_yields c get Hst Hmax op id (dn (set m gs0)) (mods (set m gs0) sd) w Hkeep Hdn)
    as (w' & Hget & _ & Hy).
  destruct (Hmods sd) as [Hm' Hattr]. rewrite <- Hget in Hm', Hattr.
  exists w'. rewrite Hattr. split_and!; [|done..]. unfold update_object.
  eapply yields_from_before; [apply get_object_keeps|by apply get_object_yields|].
  eapply yields_from_bind; [apply yields_from_map_error, Hv|]. eapply yields_bind; [exact Hy|].
  eapply yields_bind; [by apply rename_move_stays|].
  eapply yields_bind; [|by apply no_replication].
  apply get_object_yields; [by apply finds_found|done..|by rewrite Hattr].
Qed.

(** A body that reads the cache, behind its validation and its lock. *)
Lemma validated_yields_from {B} d (v : option error) key (m : M B) s r w' :
  v = None -> ready s -> unlocked key s -> cached d s -> yields_from d m (st_world s) r w' ->
  exists s', (lift (of_nil v);; with_lock key m) s = (r, s') /\ st_world s' = w' /\
    ready s' /\ st_locks s' = st_locks s.
Proof using Type.
  intros -> Hs (l & Hl & Hu) Hc Hm. destruct (Hm (set_locks s l)) as (s1 & E & Hw & Hs1 & Hl1); [done..|].
  exists (unlock key s1). unfold with_lock, lock, mbind, M_bind, lift. cbn [of_nil].
  rewrite Hl. unfold deferred_unlock. rewrite E.
  split_and!; [done..|]. unfold unlock. cbn. rewrite Hl1. exact Hu.
Qed.
End update.

Lemma computer_no_principals `{Unicode} `{AdCore} e m :
  computer_model e = Ret m -> with_computer_principals m [] = m.
Proof. unfold computer_model. intros Hm. inv_ret Hm. by injection Hm as <-. Qed.
Lemma computer_DN `{Unicode} `{AdCore} e m : computer_model e = Ret m -> cm_DN m = en_DN e.
Proof. unfold computer_model. intros Hm. inv_ret Hm. by injection Hm as <-. Qed.
Lemma gmsa_no_principals `{Unicode} `{AdCore} e m : gmsa_model e = Ret m -> with_gmsa_principals m [] = m.
Proof. unfold gmsa_model. intros Hm. inv_ret Hm. by injection Hm as <-. Qed.
Lemma gmsa_DN `{Unicode} `{AdCore} e m : gmsa_model e = Ret m -> ma_DN m = en_DN e.
Proof. unfold gmsa_model. intros Hm. inv_ret Hm. by injection Hm as <-. Qed.

(** ** Properties *)

(** C16: the principals a computer update delegates to are those one reads
    back.  Against a directory that shows the computer, stores what is written
    to it and knows the principals, an update that neither renames nor moves
    succeeds: the descriptor it builds of the identities' SIDs, owned by the
    domain's administrators, is written and read, and the computer it returns,
    which a later [Get] returns as well, has the fields of the spec, what the
    spec does not mention as it was, and as its principals the objects the
    directory finds for these SIDs, in order.  Without principals in the spec
    those it had stay. *)
Theorem Computer_Update_delegates `{Unicode} `{AdCore} `{Env} (c : core) (get : World -> Entry) (fuel : nat)
    (id : Identity) (spec : ComputerSpec Identity) (m : Computer) (s : St) (dsid : bytes)
    (answers : gostring -> list Entry) (gs0 gs : list gostring) :
  still -> 1 <= c_MaxAttempts c -> repl_Wait (c_repl c) = false -> stores get ->
  finds c get "computer"%go computerAttrs [sdDACL] id ->
  finds c get "computer"%go computerAttrs [sdDACL] (ByGUID (cm_GUID m)) ->
  ComputerSpec_Validate spec "Computer.Update"%go false = None ->
  cs_Name spec = cm_Name m -> EqualFoldDN (cs_Container spec) (cm_Container m) = inl true ->
  (forall a, In a computerAttrs -> spelled a (get (st_world s))) ->
  computer_model (get (st_world s)) = Ret m ->
  (exp_IsSet (cs_AccountExpiration spec) = true ->
     - 2 ^ 63 <= exp_Value (cs_AccountExpiration spec) < 2 ^ 63) ->
  looked_up_by_sid c answers ->
  read_principals "Computer.Get"%go answers (First (get (st_world s)) rbcd) = Ret gs0 ->
  asked c "Computer.Get"%go answers dsid (cs_PrincipalsAllowed spec) gs0 gs ->
  ready s -> unlocked (IdentityArg id) s -> cached dsid s ->
  let updated := with_computer_principals (merged_computer spec m) gs in
  exists s', Computer_Update c fuel id spec s = (Ret (updated, None), s') /\
    fst (Computer_Get c id s') = Ret updated /\ ready s' /\ st_locks s' = st_locks s.
Proof.
  intros Hst Hmax Hrep Hkeep Hid Hguid Hval Hname Hcont Hsp Hm Hexp Hans Hgs0 Hask Hs Hlock Hc updated.
  pose proof (fun sd => computer_update_delta spec _ m sd Hsp Hm Hexp) as Hmods.
  pose proof (computer_no_principals _ _ Hm) as Hset. set (m' := merged_computer spec m) in *.
  destruct (update_object_yields c get computer_model rbcd with_computer_principals "computer"%go computerAttrs
    [sdDACL] "Computer.Get"%go Hst Hmax answers Hans "Computer.Update"%go fuel id (cs_PrincipalsAllowed spec)
    cm_GUID cm_DN cm_Name cm_Container (computer_mods spec) (cs_Container spec) (st_world s) m m' gs0 gs dsid)
    as (w' & Hy & Hm' & Hgs); [try done..|].
  { by apply finds_found. }
  { by apply computer_DN in Hm. }
  destruct (validated_yields_from dsid (ComputerSpec_Validate spec "Computer.Update"%go false) (IdentityArg id)
    (Computer_Update_locked c fuel id spec) s (Ret (updated, None)) w') as (s' & E & <- & Hs' & Hl'); [done..| |].
  { unfold Computer_Update_locked. rewrite Hname. exact Hy. }
  exists s'. split_and!; [exact E| |done..].
  destruct (get_object_yields c get computer_model rbcd with_computer_principals "computer"%go computerAttrs
    [sdDACL] "Computer.Get"%go Hst Hmax answers Hans id m' gs (st_world s') (finds_found _ _ _ _ _ _ _ Hid)
    Hm' eq_refl Hgs s') as (s2 & E2 & _); [done..|].
  change (fst (get_object c computer_model rbcd with_computer_principals "computer"%go computerAttrs [sdDACL]
    "Computer.Get"%go id s') = Ret updated). by rewrite E2.
Qed.

(** The readers of a managed password are set and read back in the same way. *)
Theorem GMSA_Update_delegates `{Unicode} `{AdCore} `{Env} (c : core) (get : World -> Entry) (fuel : nat)
    (id : Identity) (spec : GMSASpec Identity) (m : GMSA) (s : St) (dsid : bytes)
    (answers : gostring -> list Entry) (gs0 gs : list gostring) :
  still -> 1 <= c_MaxAttempts c -> repl_Wait (c_repl c) = false -> stores get ->
  finds c get gmsaClass gmsaAttrs [] id -> finds c get gmsaClass gmsaAttrs [] (ByGUID (ma_GUID m)) ->
  GMSASpec_Validate spec "ServiceAccount.Update"%go false = None ->
  ms_Name spec = ma_Name m -> EqualFoldDN (ms_Container spec) (ma_Container m) = inl true ->
  (forall a, In a gmsaAttrs -> spelled a (get (st_world s))) ->
  gmsa_model (get (st_world s)) = Ret m ->
  (exp_IsSet (ms_AccountExpiration spec) = true ->
     - 2 ^ 63 <= exp_Value (ms_AccountExpiration spec) < 2 ^ 63) ->
  looked_up_by_sid c answers ->
  read_principals "ServiceAccount.Get"%go answers (First (get (st_world s)) membership) = Ret gs0 ->
  asked c "ServiceAccount.Get"%go answers dsid (ms_PrincipalsAllowed spec) gs0 gs ->
  ready s -> unlocked (IdentityArg id) s -> cached dsid s ->
  let updated := with_gmsa_principals (merged_gmsa spec m) gs in
  exists s', GMSA_Update c fuel id spec s = (Ret (updated, None), s') /\
    fst (GMSA_Get c id s') = Ret updated /\ ready s' /\ st_locks s' = st_locks s.
Proof.
  intros Hst Hmax Hrep Hkeep Hid Hguid Hval Hname Hcont Hsp Hm Hexp Hans Hgs0 Hask Hs Hlock Hc updated.
  pose proof (fun sd => gmsa_delta spec _ m sd Hsp Hm Hexp) as Hmods.
  pose proof (gmsa_no_principals _ _ Hm) as Hset. set (m' := merged_gmsa spec m) in *.
  destruct (update_object_yields c get gmsa_model membership with_gmsa_principals gmsaClass gmsaAttrs
    [] "ServiceAccount.Get"%go Hst Hmax answers Hans "ServiceAccount.Update"%go fuel id (ms_PrincipalsAllowed spec)
    ma_GUID ma_DN ma_Name ma_Container (gmsa_mods spec) (ms_Container spec) (st_world s) m m' gs0 gs dsid)
    as (w' & Hy & Hm' & Hgs); [try done..|].
  { by apply finds_found. }
  { by apply gmsa_DN in Hm. }
  destruct (validated_yields_from dsid (GMSASpec_Validate spec "ServiceAccount.Update"%go false) (IdentityArg id)
    (GMSA_Update_locked c fuel id spec) s (Ret (updated, None)) w') as (s' & E & <- & Hs' & Hl'); [done..| |].
  { unfold GMSA_Update_locked. rewrite Hname. exact Hy. }
  exists s'. split_and!; [exact E| |done..].
  destruct (get_object_yields c get gmsa_model membership with_gmsa_principals gmsaClass gmsaAttrs
    [] "ServiceAccount.Get"%go Hst Hmax answers Hans id m' gs (st_world s') (finds_found _ _ _ _ _ _ _ Hid)
    Hm' eq_refl Hgs s') as (s2 & E2 & _); [done..|].
  change (fst (get_object c gmsa_model membership with_gmsa_principals gmsaClass gmsaAttrs []
    "ServiceAccount.Get"%go id s') = Ret updated). by rewrite E2.
Qed.

(** ** A run *)

Section samples.
#[local] Existing Instances ascii_unicode sample_adcore.

(** A directory of one computer, whose state is its entry, in a domain with one
    account that every SID finds. *)
Definition domain_env : Env := {|
  World := Entry;
  Handle := unit;
  env_dial w := (inl tt, w);
  env_bind h w := (None, w);
  env_search h req w :=
    (inl (mkSearchResult
      [match sr_Scope req, sr_Attributes req with
       | ScopeBase, _ => domain_entry
       | _, [_] => account_entry
       | _, _ => w
       end] []), w);
  env_add h dn attrs w := (Some (ErrNew "refused"%go), w);
  env_modify h dn mods ctrls w := (None, apply_mods w mods);
  env_modifydn h dn rdn del sup w := (Some (ErrNew "refused"%go), w);
  env_delete h dn w := (Some (ErrNew "refused"%go), w);
  env_close h w := (None, w);
  env_select w := (None, w);
  env_backoff n w := (None, w);
  env_dial_other host w := (inl tt, w);
  env_now w := (0, w);
  env_wait d w := (None, w);
  Mutex := list gostring;
  mutex_lock key l := if decide (key ∈ l) then None else Some (key :: l);
  mutex_unlock key l := tl l
|}.

Definition domain_state (e : Entry) : @St domain_env := @mkSt domain_env e (NewPool 2) [] None.
Definition delegating_spec : ComputerSpec sample_identity :=
  mkComputerSpec sample_identity "SRV01"%go "SRV02"%go "DC=example"%go None (Some "web"%go) None None None
    (Some false) None (Some []) None (Some ["aes256"%go; "rc4"%go]) (mkExpiration false false 0)
    (Some [account_id]).

Lemma sample_computer_spelled a : In a computerAttrs -> spelled a sample_computer_entry.
Proof.
  intros Ha k vs Hin Hf. cbn in Ha, Hin.
  repeat destruct Hin as [[= <- <-]|Hin]; try done; repeat destruct Ha as [<-|Ha]; try done;
    vm_compute in Hf; discriminate.
Qed.

Lemma domain_finds (id : sample_identity) f :
  identityFilter id = Ret f ->
  @finds _ domain_env sample_core (fun w => w) "computer"%go computerAttrs [sdDACL] id.
Proof. intros Hf. exists f. split; [exact Hf|]. intros w h. by exists []. Qed.

Lemma domain_still : @still domain_env.
Proof. split; try done. intros w. by exists tt. Qed.
Lemma domain_stores : @stores domain_env (fun w => w).
Proof. intros w mods. by exists (apply_mods w mods). Qed.
Lemma domain_lookups : @looked_up_by_sid _ domain_env sample_core (fun _ => [account_entry]).
Proof. intros sid. eexists. split; [reflexivity|]. intros w h. by exists []. Qed.

Definition account_guid : gostring := "00112233-4455-6677-8899-aabbccddeeff"%go.

Lemma domain_principals :
  @principals _ _ domain_env sample_core sample_domain_sid [account_id] [SIDSelf].
Proof.
  split.
  - split; [discriminate|]. intros w. exists domain_entry. split; [reflexivity|]. intros h. by exists [].
  - eexists. vm_compute. reflexivity.
  - repeat constructor; [discriminate|]. eexists. split; [reflexivity|]. intros w. exists account_entry.
    split; [reflexivity|]. intros h. by exists [].
  - repeat constructor.
  - vm_compute. reflexivity.
Qed.

Lemma Computer_Update_delegates_witness :
  let id : Identity := SampleDN "CN=SRV01,DC=example"%go in
  exists m s', cm_SamAccountName m = "SRV02"%go /\ cm_PrincipalsAllowed m = [account_guid] /\
    @Computer_Update _ _ domain_env sample_core 0 id delegating_spec (domain_state sample_computer_entry)
    = (Ret (m, None), s') /\
    fst (@Computer_Get _ _ domain_env sample_core id s') = Ret m.
Proof.
  intros id.
  destruct (computer_model sample_computer_entry) as [m| | | |] eqn:Em; try (vm_compute in Em; discriminate Em).
  destruct (@Computer_Update_delegates _ _ domain_env sample_core (fun w => w) 0 id delegating_spec m
    (domain_state sample_computer_entry) sample_domain_sid (fun _ => [account_entry]) [] [account_guid])
    as (s' & E & Eg & _).
  - exact domain_still.
  - discriminate.
  - reflexivity.
  - exact domain_stores.
  - eapply domain_finds. reflexivity.
  - eapply domain_finds. vm_compute in Em. injection Em as <-. reflexivity.
  - reflexivity.
  - vm_compute in Em. injection Em as <-. reflexivity.
  - vm_compute in Em. injection Em as <-. reflexivity.
  - exact sample_computer_spelled.
  - exact Em.
  - discriminate.
  - exact domain_lookups.
  - reflexivity.
  - exists [SIDSelf]. split; [exact domain_principals|vm_compute; reflexivity].
  - split; [exact (le_S _ _ (le_n 1))|reflexivity].
  - exists ["CN=SRV01,DC=example"%go]. split; reflexivity.
  - by left.
  - eexists _, s'. split; [|split; [|split; [exact E|exact Eg]]]; [|reflexivity].
    vm_compute in Em. injection Em as <-. reflexivity.
Defined.
End samples.
