(* ===== verification/Creation.v ===== *)
(** * Creates, end to end

    What one creates is what one reads back: against a directory that stores
    the attributes of an add beside those it stamps itself, a create returns
    the object of its spec.  The principals of a computer and of a service
    account are those of [Delegation]. *)
From S2P Require Export Delegation.

(** ** What an add leaves *)

(** The values an add gives an attribute. *)
Definition given (attrs : list Attribute) (a : gostring) : option (list bytes) :=
  map_get (map (fun x => (a_Type x, a_Vals x)) attrs) a.

Lemma given_app l1 l2 a : given (l1 ++ l2) a = match given l1 a with Some v => Some v | None => given l2 a end.
Proof.
  unfold given, map_get. rewrite map_app. induction l1 as [|x l1 IH]; [done|]. cbn.
  by case_decide.
Qed.

(** The value of an optional attribute; an empty one is not sent. *)
Definition sent (val : option gostring) : option (list bytes) :=
  match val with None | Some [] => None | Some v => Some [v] end.
Definition sent_multi (vals : option (list gostring)) : option (list bytes) :=
  match vals with None | Some [] => None | Some vs => Some vs end.

Lemma given_string add attr val a :
  given (appendStringAttr add attr val) a
  = match given add a with Some v => Some v | None => if decide (attr = a) then sent val else None end.
Proof.
  destruct val as [[|b v]|]; cbn [appendStringAttr sent].
  1,3: destruct (given add a); [done|]; by case_decide.
  rewrite given_app. destruct (given add a); [done|]. unfold given. cbn. by case_decide.
Qed.

Lemma given_multi add attr vals a :
  given (appendMultiAttr add attr vals) a
  = match given add a with Some v => Some v | None => if decide (attr = a) then sent_multi vals else None end.
Proof.
  destruct vals as [[|v vs]|]; cbn [appendMultiAttr sent_multi].
  1,3: destruct (given add a); [done|]; by case_decide.
  rewrite given_app. destruct (given add a); [done|]. unfold given, byteValues. cbn. by case_decide.
Qed.

(** An attribute that is added when there is a value. *)
Definition append_one (add : list Attribute) (attr : gostring) (v : option bytes) : list Attribute :=
  match v with Some v => add ++ [mkAttribute attr [v]] | None => add end.
Definition sent_one (v : option bytes) : option (list bytes) := option_map (fun v => [v]) v.

Lemma given_one add attr v a :
  given (append_one add attr v) a
  = match given add a with Some v => Some v | None => if decide (attr = a) then sent_one v else None end.
Proof.
  destruct v as [v|]; cbn [append_one sent_one option_map].
  2: destruct (given add a); [done|]; by case_decide.
  rewrite given_app. destruct (given add a); [done|]. unfold given. cbn. by case_decide.
Qed.

(** The attributes a directory gives an object of its own accord. *)
Definition stamped : list gostring :=
  ["objectGUID"; "distinguishedName"; "name"; "objectSid"; "accountExpires";
   "operatingSystem"; "operatingSystemVersion"]%go.

Section created.
Context `{Unicode} `{AdCore} `{Env} (c : core) (get : World -> Entry).

(** The entry of an object added at [dn], as a reader of [want] sees it. *)
Record created (want : list gostring) (dn name : gostring) (attrs : list Attribute) (e : Entry) : Prop := {
  cr_dn : en_DN e = dn;
  cr_name : First e "name"%go = name;
  cr_given a vs : given attrs a = Some vs -> First e a = hd [] vs /\ vals_of e a = vs;
  cr_absent a : In a want -> ~ In a stamped -> given attrs a = None -> First e a = [] /\ vals_of e a = []
}.

(** The directory [w] accepts the add, and finds the object it leaves. *)
Definition accepts (class : gostring) (want : list gostring) (ctl : list Control) (dn name : gostring)
    (attrs : list Attribute) (w w' : World) : Prop :=
  (forall h, env_add h dn attrs w = (None, w')) /\
  created want dn name attrs (get w') /\ found c get class want ctl (ByDN dn) w'.

Lemma read_string want dn name attrs e a val :
  created want dn name attrs e -> In a want -> ~ In a stamped -> given attrs a = sent val ->
  First e a = default [] val.
Proof using Type.
  intros He Ha Hs Hg. destruct val as [[|b v]|]; cbn [sent default from_option] in *;
    [by apply (cr_absent _ _ _ _ _ He)| |by apply (cr_absent _ _ _ _ _ He)].
  by destruct (cr_given _ _ _ _ _ He a _ Hg) as [-> _].
Qed.

Lemma read_multi want dn name attrs e a vals :
  created want dn name attrs e -> In a want -> ~ In a stamped -> given attrs a = sent_multi vals ->
  vals_of e a = default [] vals.
Proof using Type.
  intros He Ha Hs Hg. destruct vals as [[|b v]|]; cbn [sent_multi default from_option] in *;
    [by apply (cr_absent _ _ _ _ _ He)| |by apply (cr_absent _ _ _ _ _ He)].
  by destruct (cr_given _ _ _ _ _ He a _ Hg) as [_ ->].
Qed.

Lemma read_one want dn name attrs e a v :
  created want dn name attrs e -> given attrs a = Some [v] -> First e a = v.
Proof using Type. intros He Hg. by destruct (cr_given _ _ _ _ _ He a _ Hg) as [-> _]. Qed.

Lemma read_opt want dn name attrs e a v :
  created want dn name attrs e -> In a want -> ~ In a stamped -> given attrs a = sent_one v ->
  First e a = default [] v.
Proof using Type.
  intros He Ha Hs Hg. destruct v as [v|]; cbn [sent_one option_map default from_option] in *;
    [|by apply (cr_absent _ _ _ _ _ He)].
  by destruct (cr_given _ _ _ _ _ He a _ Hg) as [-> _].
Qed.

Context (Hst : still) (Hmax : 1 <= c_MaxAttempts c).

Lemma add_yields op dn attrs filter w w' :
  (forall h, env_add h dn attrs w = (None, w')) ->
  yields (on_error (withConn c op tt (fun h => conn_Add h dn attrs))
    (fun err => err ← annotateAlreadyExists c err dn filter; fail err)) w (Ret tt) w'.
Proof using Hst Hmax.
  intros Hadd. unfold on_error. apply (yields_bind _ _ w (inl tt) w'); [|apply yields_ret].
  apply (yields_attempt _ w (Ret tt)). apply (yields_withConn c op tt _ w (Ret tt) w'); try done.
  - intros. apply steady_tell.
  - intros h. pose proof (performs_tell (env_add h dn attrs) w) as Ht. rewrite Hadd in Ht. exact Ht.
Qed.
End created.

(** Membership in a list of names. *)
Ltac solve_listed :=
  lazymatch goal with
  | |- In _ _ => cbn; tauto
  | |- ~ In _ _ => let Hin := fresh in intros Hin; cbn in Hin; repeat destruct Hin as [Hin|Hin]; done
  end.

(** What an add gives the attribute of the goal. *)
Ltac solve_given :=
  cbv zeta; cbn [fold_left fst snd]; rewrite ?given_one, ?given_app, ?given_multi, ?given_string, ?given_app;
  first [reflexivity
        | lazymatch goal with
          | |- _ = sent ?v => destruct v as [[|]|]; reflexivity
          | |- _ = sent_multi ?v => destruct v as [[|]|]; reflexivity
          | |- _ = sent_one ?v => destruct v; reflexivity
          end].

(** ** Groups *)

Section groups.
Context `{Unicode} `{AdCore} `{Env} (c : core) (get : World -> Entry).

Definition group_dn (spec : GroupSpec) : gostring := cnRDN (gs_Name spec) ++ ","%go ++ gs_Container spec.

(** The group a spec describes. *)
Definition group_of (spec : GroupSpec) (guid sid : gostring) : Group :=
  mkGroup guid (group_dn spec) (gs_Name spec) (gs_SamAccountName spec) (gs_Container spec)
    (normal_scope (gs_Scope spec)) (normal_category (gs_Category spec))
    (default [] (gs_Description spec)) (default [] (gs_ManagedBy spec)) sid.

Lemma group_created spec e guid sid :
  created groupAttrs (group_dn spec) (gs_Name spec) (group_add spec) e ->
  ContainerOf (group_dn spec) = inl (gs_Container spec) ->
  GUIDToString (First e "objectGUID"%go) = Ret guid -> sid_or_empty e = Ret sid ->
  group_model e = Ret (group_of spec guid sid).
Proof using Type.
  intros He Hcont Hguid Hsid. unfold group_model, FirstString.
  rewrite Hguid, (cr_dn _ _ _ _ _ He), Hcont, Hsid, (cr_name _ _ _ _ _ He). cbn [mbind outcome_bind of_sum].
  rewrite (read_one _ _ _ _ _ "sAMAccountName"%go (gs_SamAccountName spec) He)
    by (unfold group_add; solve_given).
  rewrite (read_one _ _ _ _ _ "groupType"%go
    (GroupTypeString (GroupTypeValue (gs_Scope spec) (gs_Category spec))) He) by (unfold group_add; solve_given).
  rewrite (read_string _ _ _ _ _ "description"%go (gs_Description spec) He)
    by (first [solve_listed | unfold group_add; solve_given]).
  rewrite (read_string _ _ _ _ _ "managedBy"%go (gs_ManagedBy spec) He)
    by (first [solve_listed | unfold group_add; solve_given]).
  rewrite GroupTypeString_parse by apply GroupTypeValue_range. cbn [mbind outcome_bind].
  assert (ScopeAndCategory (GroupTypeValue (gs_Scope spec) (gs_Category spec))
    = (normal_scope (gs_Scope spec), normal_category (gs_Category spec))) as ->
    by by destruct (gs_Scope spec), (gs_Category spec).
  done.
Qed.

(** A group that is created is the group of its spec, with the GUID and the SID
    the directory gave it. *)
Theorem Group_Create_yields fuel spec w w' guid sid :
  still -> 1 <= c_MaxAttempts c -> repl_Wait (c_repl c) = false ->
  GroupSpec_Validate spec "Group.Create"%go true = None ->
  accepts c get "group"%go groupAttrs [] (group_dn spec) (gs_Name spec) (group_add spec) w w' ->
  ContainerOf (group_dn spec) = inl (gs_Container spec) ->
  GUIDToString (First (get w') "objectGUID"%go) = Ret guid -> sid_or_empty (get w') = Ret sid ->
  yields (Group_Create c fuel spec) w (Ret (group_of spec guid sid, None)) w'.
Proof using Type.
  intros Hst Hmax Hrep Hval (Hadd & He & Hfind) Hcont Hguid Hsid. unfold Group_Create. rewrite Hval.
  apply (yields_bind _ _ w tt w); [apply yields_lift|]. cbv zeta.
  eapply yields_bind; [by apply add_yields|].
  eapply yields_bind; [|by apply no_replication].
  by eapply get_yields, group_created.
Qed.
End groups.

(** ** Computers *)

Section computers.
Context `{Unicode} `{AdCore} `{Env} (c : core) (get : World -> Entry).

Lemma computer_add_one spec sd :
  computer_add spec sd
  = append_one (append_one (append_one
      (appendMultiAttr (appendMultiAttr (appendStringAttr (appendStringAttr (appendStringAttr
        (appendStringAttr (appendStringAttr
          [mkAttribute "objectClass"%go ["top"; "person"; "organizationalPerson"; "user"; "computer"]%go;
           mkAttribute "cn"%go [cs_Name spec];
           mkAttribute "sAMAccountName"%go [samWithDollar (cs_SamAccountName spec)];
           mkAttribute "userAccountControl"%go
             [Uint32String (created_uac (cs_Enabled spec) (cs_TrustedForDelegation spec))]]
          "dNSHostName"%go (cs_DNSHostName spec)) "description"%go (cs_Description spec))
        "displayName"%go (cs_DisplayName spec)) "location"%go (cs_Location spec))
        "managedBy"%go (cs_ManagedBy spec))
        "servicePrincipalName"%go (cs_ServicePrincipalNames spec))
        "msDS-AllowedToDelegateTo"%go (cs_AllowedToDelegateTo spec))
      encAttr (option_map enc_value (cs_KerberosEncryptionType spec)))
      "accountExpires"%go (if exp_IsSet (cs_AccountExpiration spec)
        then Some (TimeToFileTime (exp_Value (cs_AccountExpiration spec))) else None))
      rbcd sd.
Proof using Type.
  unfold computer_add. cbv zeta. cbn [fold_left fst snd].
  by destruct (cs_KerberosEncryptionType spec), (exp_IsSet _), sd.
Qed.

(** The computer a spec describes, in the entry [e] the directory made of it. *)
Definition computer_of (spec : ComputerSpec Identity) (e : Entry) (guid : gostring) (expires : option Z)
    : Computer :=
  mkComputer guid (computer_dn spec) (cs_Name spec) (samWithoutDollar (cs_SamAccountName spec))
    (cs_Container spec) (mustSID e) (default true (cs_Enabled spec))
    (default [] (cs_DNSHostName spec)) (default [] (cs_Description spec)) (default [] (cs_DisplayName spec))
    (default [] (cs_Location spec)) (default [] (cs_ManagedBy spec))
    (default false (cs_TrustedForDelegation spec))
    (default [] (cs_ServicePrincipalNames spec)) (default [] (cs_AllowedToDelegateTo spec))
    (EncTypeNames (match cs_KerberosEncryptionType spec with Some names => EncTypeBits names | None => 0 end))
    (if exp_IsSet (cs_AccountExpiration spec)
     then Some (Z.quot (exp_Value (cs_AccountExpiration spec)) 100 * 100) else expires)
    (First e "operatingSystem"%go) (First e "operatingSystemVersion"%go) [].

Lemma created_uac_range enabled trusted : 0 <= created_uac enabled trusted < 2 ^ 32.
Proof using Type. unfold created_uac. by repeat case_decide. Qed.
Lemma created_uac_bits enabled trusted :
  negb (has_bits (created_uac enabled trusted) UACAccountDisable) = default true enabled /\
  has_bits (created_uac enabled trusted) UACTrustedForDelegation = default false trusted.
Proof using Type. by destruct enabled as [[]|], trusted as [[]|]. Qed.

(** A word that was sent reads back, and one that was not is 0. *)
Lemma uac_of_word e attr v : First e attr = Uint32String v -> 0 <= v < 2 ^ 32 -> uac_of e attr = Ret v.
Proof using Type.
  intros He Hv. unfold uac_of, FirstString. rewrite He. pose proof (Uint32String_parse v Hv) as Hp.
  by destruct (Uint32String v).
Qed.

Lemma expires_created (e : Entry) exp expires :
  (exp_IsSet exp = true -> - 2 ^ 63 <= exp_Value exp < 2 ^ 63) ->
  (if exp_IsSet exp then First e "accountExpires"%go = TimeToFileTime (exp_Value exp)
   else FileTimeToTime (First e "accountExpires"%go) = Ret expires) ->
  FileTimeToTime (First e "accountExpires"%go)
  = Ret (if exp_IsSet exp then Some (Z.quot (exp_Value exp) 100 * 100) else expires).
Proof using Type. intros Hexp. destruct (exp_IsSet exp); [|done]. intros ->. by apply TimeToFileTime_parse, Hexp. Qed.

(** Enough for the account: the word of encryption types. *)
Lemma uac_of_enc e names :
  First e encAttr = default [] (option_map enc_value names) ->
  uac_of e encAttr = Ret (match names with Some names => EncTypeBits names | None => 0 end).
Proof using Type.
  destruct names as [names|]; cbn [option_map default from_option].
  - intros He. apply uac_of_word; [exact He|apply EncTypeBits_range].
  - intros He. unfold uac_of, FirstString. by rewrite He.
Qed.

Lemma computer_created spec sd e guid expires :
  created computerAttrs (computer_dn spec) (cs_Name spec) (computer_add spec sd) e ->
  ContainerOf (computer_dn spec) = inl (cs_Container spec) ->
  GUIDToString (First e "objectGUID"%go) = Ret guid ->
  (exp_IsSet (cs_AccountExpiration spec) = true ->
     - 2 ^ 63 <= exp_Value (cs_AccountExpiration spec) < 2 ^ 63) ->
  (exp_IsSet (cs_AccountExpiration spec) = false ->
     FileTimeToTime (First e "accountExpires"%go) = Ret expires) ->
  computer_model e = Ret (computer_of spec e guid expires) /\ First e rbcd = default [] sd.
Proof using Type.
  rewrite computer_add_one. intros He Hcont Hguid Hexp Hstamp.
  assert (forall a val, In a computerAttrs -> ~ In a stamped -> _ -> First e a = default [] val) as Hstr
    by exact (fun a val => read_string _ _ _ _ _ a val He).
  split; [|by apply (read_opt _ _ _ _ _ rbcd sd He); [solve_listed..|solve_given]].
  unfold computer_model, FirstString, strValues.
  rewrite Hguid, (cr_dn _ _ _ _ _ He), Hcont, (cr_name _ _ _ _ _ He). cbn [mbind outcome_bind of_sum].
  rewrite (uac_of_word e "userAccountControl"%go
    (created_uac (cs_Enabled spec) (cs_TrustedForDelegation spec)))
    by (first [apply created_uac_range | apply (read_one _ _ _ _ _ _ _ He); solve_given]).
  cbn [mbind outcome_bind].
  rewrite (expires_created e (cs_AccountExpiration spec) expires Hexp).
  2: { destruct (exp_IsSet _) eqn:Eset; [|by apply Hstamp].
       apply (read_one _ _ _ _ _ _ _ He). solve_given. }
  cbn [mbind outcome_bind].
  rewrite (uac_of_enc e (cs_KerberosEncryptionType spec))
    by (apply (read_opt _ _ _ _ _ _ _ He); [solve_listed..|solve_given]).
  cbn [mbind outcome_bind].
  rewrite (read_one _ _ _ _ _ "sAMAccountName"%go (samWithDollar (cs_SamAccountName spec)) He) by solve_given.
  rewrite sam_roundtrip.
  rewrite (Hstr "dNSHostName"%go (cs_DNSHostName spec)), (Hstr "description"%go (cs_Description spec)),
    (Hstr "displayName"%go (cs_DisplayName spec)), (Hstr "location"%go (cs_Location spec)),
    (Hstr "managedBy"%go (cs_ManagedBy spec)) by (first [solve_listed | solve_given]).
  rewrite (read_multi _ _ _ _ _ "servicePrincipalName"%go (cs_ServicePrincipalNames spec) He),
    (read_multi _ _ _ _ _ "msDS-AllowedToDelegateTo"%go (cs_AllowedToDelegateTo spec) He)
    by (first [solve_listed | solve_given]).
  destruct (created_uac_bits (cs_Enabled spec) (cs_TrustedForDelegation spec)) as [-> ->]. done.
Qed.
End computers.

(** ** Service accounts *)

Section gmsas.
Context `{Unicode} `{AdCore} `{Env} (c : core) (get : World -> Entry).

Definition gmsa_interval (spec : GMSASpec Identity) : Z :=
  default defaultManagedPasswordInterval (ms_ManagedPasswordIntervalInDays spec).

Lemma gmsa_add_one spec host sd :
  gmsa_add spec host sd
  = append_one (append_one (append_one
      (appendMultiAttr (appendStringAttr (appendStringAttr
          [mkAttribute "objectClass"%go
             ["top"%go; "person"%go; "organizationalPerson"%go; "user"%go; "computer"%go; gmsaClass];
           mkAttribute "cn"%go [ms_Name spec];
           mkAttribute "sAMAccountName"%go [samWithDollar (ms_SamAccountName spec)];
           mkAttribute "userAccountControl"%go
             [Uint32String (created_uac (ms_Enabled spec) (ms_TrustedForDelegation spec))];
           mkAttribute "dNSHostName"%go [host];
           mkAttribute membership [sd]]
          "description"%go (ms_Description spec)) "displayName"%go (ms_DisplayName spec))
        "servicePrincipalName"%go (ms_ServicePrincipalNames spec))
      encAttr (option_map enc_value (ms_KerberosEncryptionType spec)))
      "msDS-ManagedPasswordInterval"%go (Some (fmt_d (gmsa_interval spec))))
      "accountExpires"%go (if exp_IsSet (ms_AccountExpiration spec)
        then Some (TimeToFileTime (exp_Value (ms_AccountExpiration spec))) else None).
Proof using Type.
  unfold gmsa_add. cbv zeta. cbn [fold_left fst snd].
  by destruct (ms_KerberosEncryptionType spec), (exp_IsSet _).
Qed.

(** The account a spec describes, in the entry [e] the directory made of it. *)
Definition gmsa_of (spec : GMSASpec Identity) (host : gostring) (e : Entry) (guid : gostring)
    (expires : option Z) : GMSA :=
  mkGMSA guid (gmsa_dn spec) (ms_Name spec) (samWithoutDollar (ms_SamAccountName spec))
    (ms_Container spec) (mustSID e) host
    (default [] (ms_Description spec)) (default [] (ms_DisplayName spec)) (default true (ms_Enabled spec))
    (default false (ms_TrustedForDelegation spec)) (default [] (ms_ServicePrincipalNames spec))
    (EncTypeNames (match ms_KerberosEncryptionType spec with Some names => EncTypeBits names | None => 0 end))
    (gmsa_interval spec)
    (if exp_IsSet (ms_AccountExpiration spec)
     then Some (Z.quot (exp_Value (ms_AccountExpiration spec)) 100 * 100) else expires) [].

Lemma gmsa_created spec host sd e guid expires :
  created gmsaAttrs (gmsa_dn spec) (ms_Name spec) (gmsa_add spec host sd) e ->
  ContainerOf (gmsa_dn spec) = inl (ms_Container spec) ->
  GUIDToString (First e "objectGUID"%go) = Ret guid ->
  0 <= gmsa_interval spec < 2 ^ 31 ->
  (exp_IsSet (ms_AccountExpiration spec) = true ->
     - 2 ^ 63 <= exp_Value (ms_AccountExpiration spec) < 2 ^ 63) ->
  (exp_IsSet (ms_AccountExpiration spec) = false ->
     FileTimeToTime (First e "accountExpires"%go) = Ret expires) ->
  gmsa_model e = Ret (gmsa_of spec host e guid expires) /\ First e membership = sd.
Proof using Type.
  rewrite gmsa_add_one. intros He Hcont Hguid Hint Hexp Hstamp.
  split; [|by apply (read_one _ _ _ _ _ _ _ He); solve_given].
  unfold gmsa_model, FirstString, strValues.
  rewrite Hguid, (cr_dn _ _ _ _ _ He), Hcont, (cr_name _ _ _ _ _ He). cbn [mbind outcome_bind of_sum].
  rewrite (uac_of_word e "userAccountControl"%go
    (created_uac (ms_Enabled spec) (ms_TrustedForDelegation spec)))
    by (first [apply created_uac_range | apply (read_one _ _ _ _ _ _ _ He); solve_given]).
  cbn [mbind outcome_bind].
  rewrite (expires_created e (ms_AccountExpiration spec) expires Hexp).
  2: { destruct (exp_IsSet _) eqn:Eset; [|by apply Hstamp].
       apply (read_one _ _ _ _ _ _ _ He). solve_given. }
  cbn [mbind outcome_bind].
  rewrite (uac_of_enc e (ms_KerberosEncryptionType spec))
    by (apply (read_opt _ _ _ _ _ _ _ He); [solve_listed..|solve_given]).
  cbn [mbind outcome_bind].
  rewrite (uac_of_word e "msDS-ManagedPasswordInterval"%go (gmsa_interval spec)); [|
    rewrite (read_one _ _ _ _ _ _ (fmt_d (gmsa_interval spec)) He) by solve_given;
    unfold fmt_d, Uint32String; by rewrite (wrap_s_small 32 (gmsa_interval spec)) by (simpl; lia)|lia].
  cbn [mbind outcome_bind].
  rewrite (read_one _ _ _ _ _ "sAMAccountName"%go (samWithDollar (ms_SamAccountName spec)) He) by solve_given.
  rewrite (read_one _ _ _ _ _ "dNSHostName"%go host He), sam_roundtrip by solve_given.
  rewrite (read_string _ _ _ _ _ "description"%go (ms_Description spec) He),
    (read_string _ _ _ _ _ "displayName"%go (ms_DisplayName spec) He),
    (read_multi _ _ _ _ _ "servicePrincipalName"%go (ms_ServicePrincipalNames spec) He)
    by (first [solve_listed | solve_given]).
  destruct (created_uac_bits (ms_Enabled spec) (ms_TrustedForDelegation spec)) as [-> ->]. done.
Qed.
End gmsas.

(** ** Creating an object with principals *)

Section creation.
Context `{Unicode} `{AdCore} `{Env} (c : core) (get : World -> Entry).

(** The directory takes the add, gives the object the GUID [guid], and, where
    the add does not say when the account expires, [expires]. *)
Definition takes (class : gostring) (want : list gostring) (ctl : list Control) (dn name : gostring)
    (exp : Expiration) (guid : gostring) (expires : option Z) (w : World) (attrs : list Attribute)
    (w' : World) : Prop :=
  accepts c get class want ctl dn name attrs w w' /\
  GUIDToString (First (get w') "objectGUID"%go) = Ret guid /\
  (exp_IsSet exp = false -> FileTimeToTime (First (get w') "accountExpires"%go) = Ret expires).

Lemma yields_from_ready {A} d (m : M A) s r w' :
  yields_from d m (st_world s) r w' -> ready s -> cached d s ->
  exists s', m s = (r, s') /\ st_world s' = w' /\ ready s' /\ st_locks s' = st_locks s.
Proof using Type. intros Hm Hs Hc. by apply Hm. Qed.

(** A computer that is created is the computer of its spec, and delegates to
    the objects the directory finds for the principals' SIDs. *)
Theorem Computer_Create_delegates fuel spec s dsid answers gs guid expires :
  still -> 1 <= c_MaxAttempts c -> repl_Wait (c_repl c) = false ->
  ComputerSpec_Validate spec "Computer.Create"%go true = None ->
  ContainerOf (computer_dn spec) = inl (cs_Container spec) ->
  (exp_IsSet (cs_AccountExpiration spec) = true ->
     - 2 ^ 63 <= exp_Value (cs_AccountExpiration spec) < 2 ^ 63) ->
  (forall sd, exists w', takes "computer"%go computerAttrs [sdDACL] (computer_dn spec) (cs_Name spec)
     (cs_AccountExpiration spec) guid expires (st_world s) (computer_add spec sd) w') ->
  looked_up_by_sid c answers -> asked c "Computer.Get"%go answers dsid (cs_PrincipalsAllowed spec) [] gs ->
  ready s -> cached dsid s ->
  exists s', Computer_Create c fuel spec s
    = (Ret (with_computer_principals (computer_of spec (get (st_world s')) guid expires) gs, None), s') /\
    ready s' /\ st_locks s' = st_locks s.
Proof using Type.
  intros Hst Hmax Hrep Hval Hcont Hexp Htakes Hans Hask Hs Hc.
  destruct (principals_value_yields c Hst Hmax "Computer.Create"%go "Computer.Get"%go answers dsid
    (cs_PrincipalsAllowed spec) [] gs [] (st_world s) Hask eq_refl) as (sd & Hr & Hv).
  destruct (Htakes sd) as (w' & (Hadd & He & Hfind) & Hguid & Hstamp).
  destruct (computer_created spec sd (get w') guid expires He Hcont Hguid Hexp Hstamp) as [Hm Hattr].
  destruct (yields_from_ready dsid (Computer_Create c fuel spec) s
    (Ret (with_computer_principals (computer_of spec (get w') guid expires) gs, None)) w')
    as (s' & E & <- & Hs' & Hl); [|done..|by exists s'].
  unfold Computer_Create. rewrite Hval. cbv zeta.
  apply (yields_from_before dsid _ _ (st_world s) tt (st_world s)); [done|apply yields_lift|].
  eapply yields_from_bind; [exact Hv|].
  eapply yields_bind; [by apply add_yields|]. eapply yields_bind; [|by apply no_replication].
  apply (get_object_yields c get computer_model rbcd with_computer_principals "computer"%go computerAttrs
    [sdDACL] "Computer.Get"%go Hst Hmax answers Hans); [done|done|done|by rewrite Hattr].
Qed.
End creation.

(** ** Property *)

(** C17: a service account that is created is the account of its spec.
    Against a directory that takes the add, knows the principals and reads the
    object back, [ServiceAccount.Create] succeeds; the account it returns, as
    the directory now models it, has the spec's names, host, bits, encryption
    types, password interval and expiration (to 100 nanoseconds), the defaults
    for what the spec leaves out, and exactly the objects the directory finds
    for the principals' SIDs as the readers of its password: nobody when the
    spec names none. *)
Theorem GMSA_Create_delegates `{Unicode} `{AdCore} `{Env} (c : core) (get : World -> Entry) (fuel : nat)
    (spec : GMSASpec Identity) (host : gostring) (s : St) (dsid : bytes)
    (answers : gostring -> list Entry) (gs : list gostring) (guid : gostring) (expires : option Z) :
  still -> 1 <= c_MaxAttempts c -> repl_Wait (c_repl c) = false ->
  GMSASpec_Validate spec "ServiceAccount.Create"%go true = None -> ms_DNSHostName spec = Some host ->
  ContainerOf (gmsa_dn spec) = inl (ms_Container spec) -> 0 <= gmsa_interval spec < 2 ^ 31 ->
  (exp_IsSet (ms_AccountExpiration spec) = true ->
     - 2 ^ 63 <= exp_Value (ms_AccountExpiration spec) < 2 ^ 63) ->
  (forall sd, exists w', takes c get gmsaClass gmsaAttrs [] (gmsa_dn spec) (ms_Name spec)
     (ms_AccountExpiration spec) guid expires (st_world s) (gmsa_add spec host sd) w') ->
  looked_up_by_sid c answers ->
  asked c "ServiceAccount.Get"%go answers dsid (Some (default [] (ms_PrincipalsAllowed spec))) [] gs ->
  ready s -> cached dsid s ->
  exists s', let e := get (st_world s') in
    GMSA_Create c fuel spec s
    = (Ret (with_gmsa_principals (gmsa_of spec host e guid expires) gs, None), s') /\
    gmsa_model e = Ret (gmsa_of spec host e guid expires) /\ ready s' /\ st_locks s' = st_locks s.
Proof.
  intros Hst Hmax Hrep Hval Hhost Hcont Hint Hexp Htakes Hans (sids & Hp & Hgs) Hs Hc.
  destruct (principalSDValue_yields c Hst Hmax "ServiceAccount.Create"%go dsid _ sids (st_world s) Hp)
    as (sd & Hr & Hv).
  destruct (Htakes sd) as (w' & (Hadd & He & Hfind) & Hguid & Hstamp).
  destruct (gmsa_created spec host sd (get w') guid expires He Hcont Hguid Hint Hexp Hstamp) as [Hm Hattr].
  destruct (yields_from_ready dsid (GMSA_Create c fuel spec) s
    (Ret (with_gmsa_principals (gmsa_of spec host (get w') guid expires) gs, None)) w')
    as (s' & E & <- & Hs' & Hl); [|done..|by exists s'].
  unfold GMSA_Create. rewrite Hval. cbv zeta.
  apply (yields_from_before dsid _ _ (st_world s) tt (st_world s)); [done|apply yields_lift|].
  eapply yields_from_bind; [exact Hv|]. rewrite Hhost.
  apply (yields_bind _ _ (st_world s) host (st_world s)); [apply yields_lift|].
  eapply yields_bind; [by apply add_yields|]. eapply yields_bind; [|by apply no_replication].
  apply (get_object_yields c get gmsa_model membership with_gmsa_principals gmsaClass gmsaAttrs
    [] "ServiceAccount.Get"%go Hst Hmax answers Hans); [done|done|done|].
  unfold read_principals. rewrite Hattr, Hr. exact Hgs.
Qed.

(** *** A run *)

Section samples.
#[local] Existing Instances ascii_unicode sample_adcore.

(** A directory of one object, which an add replaces; it stamps the GUID, the
    name and the SID. *)
Definition stamping_entry (dn : gostring) (attrs : list Attribute) : Entry :=
  mkEntry dn
    ([("objectGUID"%go, [sample_guid]); ("name"%go, default [] (given attrs "cn"%go)); ("objectSid"%go, [everyone])]
     ++ map (fun x => (a_Type x, a_Vals x)) attrs).
Definition stamping_env : Env := {|
  World := Entry;
  Handle := unit;
  env_dial w := (inl tt, w);
  env_bind h w := (None, w);
  env_search h req w :=
    (inl (mkSearchResult
      [match sr_Scope req, sr_Attributes req with
       | ScopeBase, _ => domain_entry
       | _, [_] => account_entry
       | _, _ => w
       end] []), w);
  env_add h dn attrs w := (None, stamping_entry dn attrs);
  env_modify h dn mods ctrls w := (Some (ErrNew "refused"%go), w);
  env_modifydn h dn rdn del sup w := (Some (ErrNew "refused"%go), w);
  env_delete h dn w := (Some (ErrNew "refused"%go), w);
  env_close h w := (None, w);
  env_select w := (None, w);
  env_backoff n w := (None, w);
  env_dial_other host w := (inl tt, w);
  env_now w := (0, w);
  env_wait d w := (None, w);
  Mutex := list gostring;
  mutex_lock key l := if decide (key ∈ l) then None else Some (key :: l);
  mutex_unlock key l := tl l
|}.
Definition stamping_state : @St stamping_env := @mkSt stamping_env domain_entry (NewPool 2) [] None.

Definition created_gmsa_spec : GMSASpec sample_identity :=
  mkGMSASpec sample_identity "MSA01"%go "MSA01"%go "CN=Managed,DC=example"%go (Some "msa01.example"%go)
    (Some "web farm"%go) None None (Some true) (Some ["HTTP/web.example"%go]) (Some ["aes256"%go]) None
    (mkExpiration false false 0) (Some [account_id]).

Lemma stamping_created sd :
  created gmsaAttrs (gmsa_dn created_gmsa_spec) "MSA01"%go (gmsa_add created_gmsa_spec "msa01.example"%go sd)
    (stamping_entry (gmsa_dn created_gmsa_spec) (gmsa_add created_gmsa_spec "msa01.example"%go sd)).
Proof.
  split; [reflexivity|reflexivity| |].
  - intros a vs Hg. rewrite gmsa_add_one in Hg. cbn in Hg. unfold given, map_get in Hg. cbn in Hg.
    repeat (destruct (decide _) as [<-|]; [injection Hg as <-; split; reflexivity|]). discriminate Hg.
  - intros a Ha Hs Hg. cbn in Ha.
    repeat destruct Ha as [<-|Ha];
      first [contradiction Ha | exfalso; apply Hs; cbn; tauto | vm_compute in Hg; discriminate Hg
            | split; vm_compute; reflexivity].
Qed.

Lemma stamping_takes sd : exists w', @takes ascii_unicode sample_adcore stamping_env sample_core (fun w => w) gmsaClass gmsaAttrs []
  (gmsa_dn created_gmsa_spec) "MSA01"%go (mkExpiration false false 0) account_guid None domain_entry
  (gmsa_add created_gmsa_spec "msa01.example"%go sd) w'.
Proof.
  eexists. split; [split; [intros h; reflexivity|split; [apply stamping_created|]]|split; [reflexivity|reflexivity]].
  eexists. split; [reflexivity|]. intros h. by exists [].
Qed.

Lemma stamping_still : @still stamping_env.
Proof. split; try done. intros w. by exists tt. Qed.

Lemma stamping_principals :
  @principals ascii_unicode sample_adcore stamping_env sample_core sample_domain_sid [account_id] [SIDSelf].
Proof.
  split.
  - split; [discriminate|]. intros w. exists domain_entry. split; [reflexivity|]. intros h. by exists [].
  - eexists. vm_compute. reflexivity.
  - repeat constructor; [discriminate|]. eexists. split; [reflexivity|]. intros w. exists account_entry.
    split; [reflexivity|]. intros h. by exists [].
  - repeat constructor.
  - vm_compute. reflexivity.
Qed.

Lemma GMSA_Create_delegates_witness :
  exists m s', ma_Name m = "MSA01"%go /\ ma_DNSHostName m = "msa01.example"%go /\
    ma_TrustedForDelegation m = true /\ ma_ManagedPasswordIntervalInDays m = 30 /\
    ma_PrincipalsAllowed m = [account_guid] /\
    @GMSA_Create ascii_unicode sample_adcore stamping_env sample_core 0 created_gmsa_spec stamping_state = (Ret (m, None), s').
Proof.
  destruct (@GMSA_Create_delegates ascii_unicode sample_adcore stamping_env sample_core (fun w => w) 0 created_gmsa_spec
    "msa01.example"%go stamping_state sample_domain_sid (fun _ => [account_entry]) [account_guid] account_guid
    None) as (s' & E & _).
  - exact stamping_still.
  - discriminate.
  - reflexivity.
  - reflexivity.
  - reflexivity.
  - reflexivity.
  - split; [discriminate|reflexivity].
  - discriminate.
  - exact stamping_takes.
  - intros sid. eexists. split; [reflexivity|]. intros w h. by exists [].
  - exists [SIDSelf]. split; [exact stamping_principals|vm_compute; reflexivity].
  - split; [exact (le_S _ _ (le_n 1))|reflexivity].
  - by left.
  - refine (ex_intro _ _ (ex_intro _ s' (conj _ (conj _ (conj _ (conj _ (conj _ E))))))); reflexivity.
Defined.
End samples.
