(* ===== verification/Client.v ===== *)
(** * client.go: building a client

    The binder and the diallers a configuration stands for, [newClient] over
    any environment, and [New] over the LDAP library: [client_env] is the
    environment whose connections are go-ldap's, so that what the directory
    components prove about [Env] holds of the client [New] returns. *)
From S2P Require Export Config Trace.

(** [60 * time.Second] in nanoseconds. *)
Definition defaultTimeout : Z := 60 * 10 ^ 9.

(** ** The binder and the diallers *)

Section dialers.
Context `{Unicode} `{ErrorText} `{Digests} `{KrbLib} `{!LdapLib} `{Retries}.

Definition binderForHost (c : Config) (host : gostring) : Binder + error :=
  match Simple c, Kerberos c, NTLM c with
  | Some a, _, _ => inl (SimpleBinder (sa_Username a) (secret_Reveal (sa_Password a)))
  | None, Some k, _ =>
      let realm := match ka_Realm k with [] => RealmFromServer (Server c) | r => r end in
      inl (KerberosBind (mkKerberosBinder (ka_CCachePath k) (ka_Keytab k)
             (secret_Reveal (ka_Password k)) (ka_Username k) realm (ka_Krb5ConfPath k)
             (ka_SPN k) host None))
  | None, None, Some n =>
      inl (NTLMBinder (na_Domain n) (na_Username n) (secret_Reveal (na_Password n)))
  | None, None, None => inr (constraint "no auth block; Validate should have caught this"%go)
  end.

(** [Config.binder]. *)
Definition binder (c : Config) : Binder + error := binderForHost c (Server c).

Definition cfg_port (c : Config) : Z := if Port c =? 0 then DefaultPort (TLS c) else Port c.
Definition cfg_timeout (c : Config) : Z := if Timeout c =? 0 then defaultTimeout else Timeout c.

Definition dial_options (c : Config) (host : gostring) (tls : TLSConfig CertPool) : DialOptions :=
  mkDialOptions host (cfg_port c) (bool_decide (TLS c = TLSStartTLS)) tls (cfg_timeout c).

(** [Config.dialer]: the dialler and the binder. *)
Definition dialer (c : Config) (w : LdapWorld)
    : (LdapWorld -> (LdapConn + error) * LdapWorld) * Binder + error :=
  match match cfg_TLSConfig c with
        | Some tls => inl tls
        | None =>
            match BuildTLSConfig (Server c) (CACertificateFile c) (InsecureSkipVerify c) w with
            | inl tls => inl tls
            | inr err => inr (adErr KindConstraint "New"%go err)
            end
        end with
  | inr err => inr err
  | inl tls =>
      match binder c with
      | inr err => inr err
      | inl b => inl (Dial (dial_options c (Server c) tls), b)
      end
  end.

(** The TLS configuration for another controller: its name is the one that is
    verified. *)
Definition other_tls (c : Config) (host : gostring) (w : LdapWorld) : TLSConfig CertPool + error :=
  match cfg_TLSConfig c with
  | None => BuildTLSConfig host (CACertificateFile c) (InsecureSkipVerify c) w
  | Some tls => inl (mkTLSConfig host (tls_MinVersion tls) (tls_InsecureSkipVerify tls) (tls_RootCAs tls))
  end.

(** The error of a call that neither blocks nor panics; [Bind_returns] shows
    that [Bind] is such a call. *)
Definition err_of {A} (r : outcome A) : option error :=
  match r with Fail e => Some e | _ => None end.

(** Dialling another controller and binding there; a connection that does not
    bind is closed. *)
Definition dial_and_bind_other (o : DialOptions) (b : Binder) (w : LdapWorld)
    : (LdapConn + error) * LdapWorld :=
  let '(l, w) := Dial o w in
  match l with
  | inr err => (inr err, w)
  | inl l =>
      let '(r, w) := Bind b (Some l) w in
      match err_of r with
      | Some err => (inr err, snd (goldap_Close l w))
      | None => (inl l, w)
      end
  end.

(** The function [Config.otherDialer] returns. *)
Definition otherDialer (c : Config) (host : gostring) (w : LdapWorld) : (LdapConn + error) * LdapWorld :=
  match other_tls c host w with
  | inr err => (inr err, w)
  | inl tls =>
      match binderForHost c host with
      | inr err => (inr err, w)
      | inl b => dial_and_bind_other (dial_options c host tls) b w
      end
  end.
End dialers.

(** ** newClient *)

Section new_client.
Context `{Unicode} `{AdCore} `{Env}.

Definition root_request : SearchRequest :=
  mkSearchRequest [] ScopeBase "(objectClass=*)"%go
    ["defaultNamingContext"%go; "dnsHostName"%go; "schemaNamingContext"%go; "configurationNamingContext"%go]
    0 [].

(** The naming contexts the rootDSE names: default, schema, configuration. *)
Definition root_cb (h : Handle) : M (gostring * gostring * gostring) :=
  res ← conn_Search h root_request;
  match res_Entries res with
  | [] => fail (ErrNew "the rootDSE returned no entry"%go)
  | e :: _ =>
      mret (FirstString e "defaultNamingContext"%go, FirstString e "schemaNamingContext"%go,
            FirstString e "configurationNamingContext"%go)
  end.

(** [pool.Close()], its error dropped. *)
Definition close_pool : M unit := attempt Pool_Close;; mret tt.

Definition set_contexts (c : core) (dnc schemaNC configNC : gostring) : core :=
  mkCore (c_server c) dnc schemaNC configNC (c_MaxAttempts c) (c_repl c).

(** From the core whose naming contexts are still empty, over its new pool. *)
Definition newClient (c : core) : M core :=
  '(dnc, schemaNC, configNC) ←
    on_error (withConn c "New"%go ([], [], []) root_cb) (fun err => close_pool;; fail err);
  match dnc with
  | [] =>
      close_pool;;
      fail (adErr KindTransport "New"%go
              (ErrNew "adldap: the rootDSE returned no defaultNamingContext"%go))
  | _ => mret (set_contexts c dnc schemaNC configNC)
  end.

(** [Client.Close]. *)
Definition Client_Close : M unit := Pool_Close.
End new_client.

(** ** New *)

(** What the client uses of its platform besides the LDAP library. *)
Class Platform `{KrbLib} `{!LdapLib} `{Retries} := {
  pf_select : LdapWorld -> option error * LdapWorld;
  pf_backoff : RetryConfig -> Z -> LdapWorld -> option error * LdapWorld;
  pf_now : LdapWorld -> Z * LdapWorld;
  pf_wait : Z -> LdapWorld -> option error * LdapWorld;
  KeyedMutex : Type;
  NewKeyedMutex : KeyedMutex;
  pf_lock : gostring -> KeyedMutex -> option KeyedMutex;
  pf_unlock : gostring -> KeyedMutex -> KeyedMutex
}.

Section new.
Context `{Unicode} `{ErrorText} `{Digests} `{KrbLib} `{!LdapLib} `{Retries} `{!Platform} `{AdCore}.

(** The environment of a client: its connections are go-ldap's. *)
Definition client_env (cfg : Config) (dial : LdapWorld -> (LdapConn + error) * LdapWorld)
    (b : Binder) : Env := {|
  World := LdapWorld;
  Handle := LdapConn;
  env_dial := dial;
  env_bind l w := let '(r, w) := Bind b (Some l) w in (err_of r, w);
  env_search := goldap_Search;
  env_add := goldap_Add;
  env_modify := goldap_Modify;
  env_modifydn := goldap_ModifyDN;
  env_delete := goldap_Delete;
  env_close := goldap_Close;
  env_select := pf_select;
  env_backoff := pf_backoff (Retry_WithDefaults (Retry cfg));
  env_dial_other := otherDialer cfg;
  env_now := pf_now;
  env_wait := pf_wait;
  Mutex := KeyedMutex;
  mutex_lock := pf_lock;
  mutex_unlock := pf_unlock
|}.

(** The state of a client just made: an empty pool, no key locked, no domain
    SID. *)
Definition new_state (env : Env) (size : Z) (locks : @Mutex env) (w : @World env) : @St env :=
  @mkSt env w (NewPool size) locks None.

Definition new_core (cfg : Config) : core :=
  mkCore (Server cfg) [] [] [] (Retry_MaxAttempts (Retry_WithDefaults (Retry cfg))) (Replication cfg).

(** A client: the environment it runs in, the core, and its state. *)
Record Client := mkClient {
  cl_env : Env;
  cl_core : core;
  cl_state : @St cl_env
}.

Definition new_over (cfg : Config) (dial : LdapWorld -> (LdapConn + error) * LdapWorld) (b : Binder)
    (w : LdapWorld) : outcome Client * LdapWorld :=
  let env := client_env cfg dial b in
  let '(r, s) := @newClient _ _ env (new_core cfg)
                   (new_state env (MaxConcurrency cfg) NewKeyedMutex w) in
  (c ← r; Ret (mkClient env c s), @st_world env s).

Definition New (cfg : Config) (w : LdapWorld) : outcome Client * LdapWorld :=
  match Validate cfg with
  | Some err => (Fail err, w)
  | None =>
      match dialer cfg w with
      | inr err => (Fail err, w)
      | inl (dial, b) => new_over cfg dial b w
      end
  end.

(** [Client.Server] and [Client.DefaultNamingContext]. *)
Definition Client_Server (c : Client) : gostring := c_server (cl_core c).
Definition DefaultNamingContext (c : Client) : gostring := c_dnc (cl_core c).
End new.

(** ** NewWithConn *)

Section with_conn.
Context `{Unicode} `{KrbLib} `{!LdapLib} `{Retries} `{AdCore} (env : Env).

(** Connections that are bound when they are made, and one dialler for every
    host. *)
Definition with_conn_env : Env := {|
  World := @World env;
  Handle := @Handle env;
  env_dial := @env_dial env;
  env_bind _ w := (None, w);
  env_search := @env_search env;
  env_add := @env_add env;
  env_modify := @env_modify env;
  env_modifydn := @env_modifydn env;
  env_delete := @env_delete env;
  env_close := @env_close env;
  env_select := @env_select env;
  env_backoff := @env_backoff env;
  env_dial_other _ := @env_dial env;
  env_now := @env_now env;
  env_wait := @env_wait env;
  Mutex := @Mutex env;
  mutex_lock := @mutex_lock env;
  mutex_unlock := @mutex_unlock env
|}.

Definition NewWithConn (cfg : Config) (locks : @Mutex env) (w : @World env)
    : outcome core * @St with_conn_env :=
  let s := new_state with_conn_env (MaxConcurrency cfg) locks w in
  match Validate cfg with
  | Some err => (Fail err, s)
  | None => @newClient _ _ with_conn_env (new_core cfg) s
  end.
End with_conn.

(** ** Lemmas *)

Section client_lemmas.
Context `{Unicode} `{AdCore} `{Env}.

Lemma root_cb_steady h : steady (root_cb h).
Proof. unfold root_cb. solve_quiet. Qed.

(** [p.Close()] gives no permit and takes none, and leaves the pool closed and
    empty. *)
Lemma close_pool_closes s :
  exists s', close_pool s = (Ret tt, s') /\ idle (st_pool s') = [] /\ done (st_pool s') = true /\
    sem (st_pool s') = sem (st_pool s) /\ size (st_pool s') = size (st_pool s) /\
    st_locks s' = st_locks s.
Proof.
  unfold close_pool, attempt, Pool_Close, close_section, tell, mbind, M_bind.
  destruct (close_all (idle (st_pool s)) _) as [[e|] w]; by eexists.
Qed.

Lemma close_pool_quiet : quiet close_pool.
Proof. intros s _ _. destruct (close_pool_closes s) as (s' & E & _ & _ & ?). by rewrite E. Qed.

Lemma newClient_quiet c : quiet (newClient c).
Proof.
  unfold newClient. apply quiet_bind.
  - apply quiet_on_error; [apply withConn_quiet, root_cb_steady|].
    intros e. apply quiet_bind; [apply close_pool_quiet|]. intros []. solve_quiet.
  - intros [[dnc sch] conf]. destruct dnc; [|apply quiet_ret].
    apply quiet_bind; [apply close_pool_quiet|]. intros []. solve_quiet.
Qed.

(** What a client that was made has read. *)
Definition read_root (c c' : core) : Prop :=
  exists h s1 s2 res e rest,
    conn_Search h root_request s1 = (Ret res, s2) /\ res_Entries res = e :: rest /\
    c' = set_contexts c (FirstString e "defaultNamingContext"%go)
           (FirstString e "schemaNamingContext"%go) (FirstString e "configurationNamingContext"%go) /\
    c_dnc c' <> [].

Lemma M_bind_Ret {A B} (m : M A) (f : A -> M B) s b s' :
  (m ≫= f) s = (Ret b, s') -> exists a s1, m s = (Ret a, s1) /\ f a s1 = (Ret b, s').
Proof. unfold mbind, M_bind. destruct (m s) as [[a|e| | |] s1]; try done. by exists a, s1. Qed.

Lemma on_error_Ret {A} (m : M A) (f : error -> M A) s a s' :
  on_error m f s = (Ret a, s') ->
  m s = (Ret a, s') \/ exists e s1, m s = (Fail e, s1) /\ f e s1 = (Ret a, s').
Proof.
  unfold on_error, attempt, mbind, M_bind. destruct (m s) as [[b|e| | |] s1]; cbn; try done.
  - intros [= <- <-]. by left.
  - intros E. right. by exists e, s1.
Qed.

Lemma close_pool_fails {A} e s a s' : (close_pool;; fail (A := A) e) s <> (Ret a, s').
Proof.
  destruct (close_pool_closes s) as (s2 & Hc & _). unfold mbind, M_bind. rewrite Hc. done.
Qed.

Lemma newClient_Ret c s c' s' : newClient c s = (Ret c', s') -> read_root c c'.
Proof.
  intros ([[dnc sch] conf] & s1 & Hon & Hrest)%M_bind_Ret.
  apply on_error_Ret in Hon as [Ew|(e & s2 & _ & Hf)]; [|by apply close_pool_fails in Hf].
  destruct dnc as [|d0 dnc]; [by apply close_pool_fails in Hrest|]. injection Hrest as <- <-.
  destruct (decide (1 <= c_MaxAttempts c)) as [Hmax|Hmax].
  2: { unfold withConn in Ew. destruct (Z.to_nat (c_MaxAttempts c)) eqn:E; [|lia]. done. }
  apply withConn_Ret in Ew as (h & s2 & s3 & Hcb); [|done].
  apply M_bind_Ret in Hcb as (res & s4 & Hres & Hcb).
  destruct (res_Entries res) as [|e rest] eqn:Ee; [done|].
  exists h, s2, s4, res, e, rest. injection Hcb as Hdnc Hsch Hconf _.
  split_and!; [done|done|unfold set_contexts; by rewrite Hdnc, Hsch, Hconf|done].
Qed.

Lemma root_cb_in_use h : respects (rtc (in_use h)) (root_cb h).
Proof.
  apply respects_bind; [exact _|apply respects_ask; intros w; apply rtc_once, in_use_search|].
  intros res. destruct (res_Entries res); apply respects_lift; exact _.
Qed.

(** The client read the rootDSE over a connection it had opened, and pooled
    that connection. *)
Lemma newClient_opened c s c' s' :
  done (st_pool s) = false -> idle (st_pool s) = [] -> newClient c s = (Ret c', s') ->
  exists h ws res e rest, opened (st_world s) h ws /\
    env_search h root_request ws = (inl res, st_world s') /\ res_Entries res = e :: rest /\
    c' = set_contexts c (FirstString e "defaultNamingContext"%go)
           (FirstString e "schemaNamingContext"%go) (FirstString e "configurationNamingContext"%go) /\
    c_dnc c' <> [] /\ idle (st_pool s') = [h].
Proof.
  intros Hd Hi ([[dnc sch] conf] & s1 & Hon & Hrest)%M_bind_Ret.
  apply on_error_Ret in Hon as [Ew|(e & s2 & _ & Hf)]; [|by apply close_pool_fails in Hf].
  destruct dnc as [|d0 dnc]; [by apply close_pool_fails in Hrest|]. injection Hrest as <- <-.
  destruct (decide (1 <= c_MaxAttempts c)) as [Hmax|Hmax].
  2: { unfold withConn in Ew. destruct (Z.to_nat (c_MaxAttempts c)) eqn:E; [|lia]. done. }
  apply (withConn_opened c "New"%go _ root_cb root_cb_steady root_cb_in_use _ _ _ Hmax Hd Hi)
    in Ew as (h & s2 & s3 & Hcb & Ho & Hidle & Hw).
  apply M_bind_Ret in Hcb as (res & s4 & Hres & Hcb).
  destruct (res_Entries res) as [|e rest] eqn:Ee; [done|].
  exists h, (st_world s2), res, e, rest. injection Hcb as Hdnc Hsch Hconf <-.
  unfold conn_Search, ask in Hres. destruct (env_search h root_request (st_world s2)) as [[r|?] w2] eqn:Es; [|done].
  injection Hres as -> <-. cbn in Hw.
  split_and!; [exact Ho|by rewrite Hw|exact Ee|unfold set_contexts; by rewrite Hdnc, Hsch, Hconf|done|exact Hidle].
Qed.
End client_lemmas.

Section dialer_lemmas.
Context `{Unicode} `{ErrorText} `{Digests} `{KrbLib} `{!LdapLib} `{Retries}.

(** A valid configuration has a binder for every host. *)
Lemma binderForHost_valid cfg host : valid cfg -> exists b, binderForHost cfg host = inl b.
Proof.
  intros (_ & _ & Ha). unfold valid_auth in Ha. unfold binderForHost.
  destruct (Simple cfg), (Kerberos cfg), (NTLM cfg); try done; by eexists.
Qed.

(** A named CA file is what verifies the controller: it is never replaced by
    the system pool. *)
Definition verified_by (caFile : gostring) (w : LdapWorld) (tls : TLSConfig CertPool) : Prop :=
  match caFile with
  | [] => tls_RootCAs tls = None
  | _ => exists pem pool, os_ReadFile caFile w = inl pem /\ AppendCertsFromPEM pem = Some pool /\
           tls_RootCAs tls = Some pool
  end.

Lemma BuildTLSConfig_inl host ca skip w tls :
  BuildTLSConfig host ca skip w = inl tls ->
  tls_ServerName tls = host /\ tls_MinVersion tls = VersionTLS12 /\
  tls_InsecureSkipVerify tls = skip /\ verified_by ca w tls.
Proof.
  unfold BuildTLSConfig, verified_by. destruct ca as [|a ca]; [by intros [= <-]|].
  destruct (os_ReadFile _ w) as [pem|e] eqn:Er; [|done].
  destruct (AppendCertsFromPEM pem) as [pool|] eqn:Ep; [|done].
  intros [= <-]. split_and!; try done. by exists pem, pool.
Qed.

(** The TLS configuration of a connection to [host], unless the caller gave
    one, which then only changes its name. *)
Definition tls_for (cfg : Config) (host : gostring) (w : LdapWorld) (tls : TLSConfig CertPool) : Prop :=
  tls_ServerName tls = host /\
  match cfg_TLSConfig cfg with
  | None => tls_MinVersion tls = VersionTLS12 /\
            tls_InsecureSkipVerify tls = InsecureSkipVerify cfg /\
            verified_by (CACertificateFile cfg) w tls
  | Some t => tls_RootCAs tls = tls_RootCAs t /\ tls_MinVersion tls = tls_MinVersion t /\
              tls_InsecureSkipVerify tls = tls_InsecureSkipVerify t
  end.

Lemma other_tls_for cfg host w tls : other_tls cfg host w = inl tls -> tls_for cfg host w tls.
Proof.
  unfold other_tls, tls_for. destruct (cfg_TLSConfig cfg) as [t|]; [by intros [= <-]|].
  apply BuildTLSConfig_inl.
Qed.

Lemma err_of_None b c w : err_of (fst (Bind b c w)) = None -> fst (Bind b c w) = Ret tt.
Proof. pose proof (Bind_returns b c w). by destruct (fst (Bind b c w)) as [[]| | | |]. Qed.

Lemma dial_and_bind_other_inl o b w l w' :
  dial_and_bind_other o b w = (inl l, w') ->
  exists w1, Dial o w = (inl l, w1) /\ Bind b (Some l) w1 = (Ret tt, w').
Proof.
  unfold dial_and_bind_other. destruct (Dial o w) as [[l0|e] w1]; [|done].
  pose proof (err_of_None b (Some l0) w1) as Hb.
  destruct (Bind b (Some l0) w1) as [r w2] eqn:E; cbn [fst] in Hb.
  destruct (err_of r) as [e|]; [done|]. specialize (Hb eq_refl). cbn in Hb. subst r.
  intros [= -> <-]. by exists w1.
Qed.

(** The credential a binder presents for [host] under [cfg]. *)
Definition presents (cfg : Config) (host : gostring) (l : LdapConn) (b : Binder)
    (w w' : LdapWorld) : Prop :=
  match b with
  | KerberosBind kb =>
      kb_Host kb = host /\ bound_to_channel kb l w w' /\
      exists k, Kerberos cfg = Some k /\
        spn kb = match ka_SPN k with [] => "ldap/"%go ++ host | s => s end
  | SimpleBinder user pw =>
      pw <> [] /\ ldap_Bind l user pw w = (None, w') /\
      exists a, Simple cfg = Some a /\ user = sa_Username a /\ pw = secret_Reveal (sa_Password a)
  | NTLMBinder dom user pw =>
      ldap_NTLMBind l dom user pw w = (None, w') /\
      exists a, NTLM cfg = Some a /\ dom = na_Domain a /\ user = na_Username a /\
                pw = secret_Reveal (na_Password a)
  | noBinder => False
  end.

Lemma raw_error_Ret r w' : (let '(err, w) := raw_error r in (of_nil err, w)) = (Ret tt, w') -> r = (None, w').
Proof. destruct r as [[e|] w]; [done|]. cbn. by intros [= ->]. Qed.

Lemma binderForHost_presents cfg host b l w w' :
  binderForHost cfg host = inl b -> Bind b (Some l) w = (Ret tt, w') -> presents cfg host l b w w'.
Proof.
  unfold binderForHost.
  destruct (Simple cfg) as [a|] eqn:Es; [|destruct (Kerberos cfg) as [k|] eqn:Ek;
    [|destruct (NTLM cfg) as [n|] eqn:En; [|done]]]; intros [= <-]; cbn [presents]; unfold_bind.
  - destruct (secret_Reveal (sa_Password a)) as [|p pw] eqn:Ep; [done|].
    intros Hb%raw_error_Ret. split_and!; [done|done|]. by exists a.
  - intros Hb%krb_bind_Ret. split_and!; [done|done|]. exists k. split; [done|].
    unfold spn. cbn. by destruct (ka_SPN k).
  - intros Hb%raw_error_Ret. split; [done|]. by exists n.
Qed.
End dialer_lemmas.

Section new_lemmas.
Context `{Unicode} `{ErrorText} `{Digests} `{KrbLib} `{!LdapLib} `{Retries} `{!Platform} `{AdCore}.

Lemma new_over_Ret cfg dial b w cl w' :
  new_over cfg dial b w = (Ret cl, w') ->
  let env := client_env cfg dial b in
  exists c (s : @St env),
    @newClient _ _ env (new_core cfg) (new_state env (MaxConcurrency cfg) NewKeyedMutex w) = (Ret c, s) /\
    cl = mkClient env c s /\ w' = @st_world env s.
Proof.
  unfold new_over. cbv zeta. destruct (newClient _ _) as [[c|e| | |] s] eqn:En; try done.
  intros [= <- <-]. by exists c, s.
Qed.

Lemma new_state_free env n locks w : @free env (new_state env n locks w).
Proof. unfold free, new_state. cbn. case_decide; lia. Qed.

Lemma newClient_pinned env c n locks w c' s' :
  @newClient _ _ env c (new_state env n locks w) = (Ret c', s') ->
  c_server c' = c_server c /\ sem (st_pool s') = 0%nat.
Proof.
  intros Hn. pose proof (newClient_quiet c (new_state env n locks w) (new_state_free env n locks w) I) as Hq.
  rewrite Hn in Hq. destruct Hq as (_ & Hsem & _). split; [|exact Hsem].
  apply newClient_Ret in Hn as (l & s1 & s2 & res & e & rest & _ & _ & -> & _). done.
Qed.
End new_lemmas.

(** ** Properties *)

(** C11: a connection to a replication target is as protected as the pinned
    one.  When the dialler returns a connection to [host], it was opened as
    ldaps or upgraded by StartTLS before anything else, under TLS 1.2 or later
    (or the caller's own configuration), verified for the name [host] itself
    against the named CA file if there is one; and it was bound with the
    configured credential, which for Kerberos means a ticket for that host's
    service (unless a principal is configured) and a token over that
    connection's own certificate. *)
Theorem otherDialer_success `{Unicode} `{ErrorText} `{Digests} `{KrbLib} `{!LdapLib} `{Retries}
    (cfg : Config) (host : gostring) (w w' : LdapWorld) (l : LdapConn) :
  otherDialer cfg host w = (inl l, w') ->
  exists tls b w1, let o := dial_options cfg host tls in
    tls_for cfg host w tls /\ encrypted o l w w1 /\ presents cfg host l b (timed o l w1) w'.
Proof.
  unfold otherDialer. destruct (other_tls cfg host w) as [tls|] eqn:Et; [|done].
  destruct (binderForHost cfg host) as [b|] eqn:Eb; [|done].
  intros (w1 & Hd & Hb)%dial_and_bind_other_inl. apply Dial_encrypted in Hd as (w0 & He & ->).
  exists tls, b, w0. cbv zeta. split_and!; [by apply other_tls_for|done|].
  by eapply binderForHost_presents.
Qed.

(** C10: what [New] promises.  A client it returns comes from a valid
    configuration, is pinned to the configured server, and carries the naming
    contexts of the first entry of the rootDSE, the default one not empty.  It
    read them over a connection [l] that the configuration's dialler opened
    and its binder bound, in that order, nothing being dialled, bound or closed
    between the bind and the search; that connection is the one the pool then
    holds; no permit is taken.  An invalid configuration, an unreadable or
    certificate-free CA file is refused before anything is dialled. *)
Theorem New_exact `{Unicode} `{ErrorText} `{Digests} `{KrbLib} `{!LdapLib} `{Retries} `{!Platform}
    `{AdCore} (cfg : Config) (w : LdapWorld) :
  (forall cl w', New cfg w = (Ret cl, w') ->
     valid cfg /\ Client_Server cl = Server cfg /\ DefaultNamingContext cl <> [] /\
     exists dial b, dialer cfg w = inl (dial, b) /\ let env := client_env cfg dial b in
     exists c (s : @St env) l wd wb wc ws res e rest,
       cl = mkClient env c s /\ sem (st_pool s) = 0%nat /\ idle (st_pool s) = [l] /\
       rtc (@calling env) w wd /\ dial wd = (inl l, wb) /\ Bind b (Some l) wb = (Ret tt, wc) /\
       rtc (@in_use env l) wc ws /\ goldap_Search l root_request ws = (inl res, w') /\
       res_Entries res = e :: rest /\
       DefaultNamingContext cl = FirstString e "defaultNamingContext"%go /\
       c_schemaNC (cl_core cl) = FirstString e "schemaNamingContext"%go /\
       c_configNC (cl_core cl) = FirstString e "configurationNamingContext"%go) /\
  (~ valid cfg -> exists e, New cfg w = (Fail e, w)) /\
  (cfg_TLSConfig cfg = None -> CACertificateFile cfg <> [] ->
   (forall pem, os_ReadFile (CACertificateFile cfg) w = inl pem -> AppendCertsFromPEM pem = None) ->
   exists e, New cfg w = (Fail e, w)).
Proof.
  unfold New. split_and!.
  - intros cl w'. destruct (Validate cfg) eqn:Ev; [done|]. apply Validate_valid in Ev.
    destruct (dialer cfg w) as [[dial b]|] eqn:Ed; [|done].
    intros (c & s & Hn & -> & ->)%new_over_Ret. split; [done|].
    pose proof Hn as Hp. apply newClient_pinned in Hp as (Hsrv & Hsem). split; [exact Hsrv|].
    apply newClient_opened in Hn as (l & ws & res & e & rest & Ho & Hs & He & Hc & Hne & Hidle); [|done..].
    destruct Ho as (wd & wb & wc & Hwd & Hdial & Hbind & Hws). split; [exact Hne|].
    exists dial, b. split; [done|]. exists c, s, l, wd, wb, wc, ws, res, e, rest.
    split_and!; try done; [|by rewrite Hc..].
    change ((let '(r, w1) := Bind b (Some l) wb in (err_of r, w1)) = (None, wc)) in Hbind.
    pose proof (err_of_None b (Some l) wb) as Hb.
    destruct (Bind b (Some l) wb) as [r w2]. injection Hbind as He0 <-. cbn [fst] in Hb. by rewrite (Hb He0).
  - intros Hinv. destruct (Validate cfg) as [e|] eqn:Ev; [by exists e|].
    by apply Validate_valid in Ev.
  - intros Htls Hca Hpem. destruct (Validate cfg) as [e|]; [by exists e|].
    unfold dialer. rewrite Htls. unfold BuildTLSConfig.
    destruct (CACertificateFile cfg) as [|a ca]; [done|].
    destruct (os_ReadFile _ w) as [pem|e]; [|by eexists].
    rewrite (Hpem pem eq_refl). by eexists.
Qed.

Definition toy_retries : Retries := {|
  RetryConfig := Z; Retry_WithDefaults n := if n =? 0 then 3 else n; Retry_MaxAttempts n := n
|}.

Definition toy_platform : @Platform toy_krb toy_ldap toy_retries := {|
  pf_select w := (None, w); pf_backoff r n w := (None, w); pf_now w := (0, w);
  pf_wait d w := (Some ctx_DeadlineExceeded, w);
  KeyedMutex := list gostring; NewKeyedMutex := [];
  pf_lock key l := if decide (key ∈ l) then None else Some (key :: l);
  pf_unlock key l := filter (fun k => k <> key) l
|}.

Definition toy_digests : Digests := {| hash_sum h b := take 8 b; md5_sum b := repeat xcb 16 |}.

(** A password-authenticated Kerberos configuration over StartTLS. *)
Definition toy_kerberos : KerberosAuth :=
  mkKerberosAuth [] [] "svc"%go (mkSecret false "hunter2"%go) [] [] [].
Definition toy_config (server : gostring) : @Config toy_krb toy_ldap toy_retries :=
  @mkConfig toy_krb toy_ldap toy_retries server 0 TLSStartTLS "/ca.pem"%go false None None
    (Some toy_kerberos) None 0 0 (0 : @RetryConfig toy_retries) sample_repl.

Lemma otherDialer_success_witness :
  let cfg := toy_config "dc1.example.com"%go in
  let host := "dc2.example.com"%go in
  exists tls, @tls_for toy_krb toy_ldap toy_retries cfg host [] tls /\ tls_ServerName tls = host.
Proof.
  intros cfg host.
  destruct (@otherDialer_success ascii_unicode toy_text toy_digests toy_krb toy_ldap toy_retries cfg host []
    ["Destroy"%go; "GSSAPI ldap/dc2.example.com"%go; "StartTLS dc2.example.com"%go;
     "Dial ldap://dc2.example.com:389"%go] "ldap://dc2.example.com:389"%go ltac:(vm_compute; reflexivity))
    as (tls & b & w1 & Htls & _).
  exists tls. split; [exact Htls|exact (proj1 Htls)].
Defined.

(** A client is made over one connection, which is dialled and bound; a CA file
    without a certificate stops [New] before it dials. *)
Lemma New_exact_witness :
  let cfg := @mkConfig toy_krb toy_ldap toy_retries "dc1"%go 0 TLSLDAPS "/missing.pem"%go false None None
    (Some toy_kerberos) None 0 0 (0 : @RetryConfig toy_retries) sample_repl in
  let new cfg := @New ascii_unicode toy_text toy_digests toy_krb toy_ldap toy_retries toy_platform
                   sample_adcore cfg [] in
  (exists cl w' dial b l wd wb wc ws res,
     new (toy_config "dc1.example.com"%go) = (Ret cl, w') /\
     @dialer ascii_unicode toy_krb toy_ldap toy_retries (toy_config "dc1.example.com"%go) [] = inl (dial, b) /\
     dial wd = (inl l, wb) /\
     @Bind ascii_unicode toy_text toy_digests toy_krb toy_ldap b (Some l) wb = (Ret tt, wc) /\
     @goldap_Search toy_text toy_krb toy_ldap l root_request ws = (inl res, w')) /\
  exists e, new cfg = (Fail e, []).
Proof.
  intros cfg new. split.
  - assert (match fst (new (toy_config "dc1.example.com"%go)) with Ret _ => true | _ => false end = true) as Hr
      by (vm_compute; reflexivity).
    destruct (new (toy_config "dc1.example.com"%go)) as [[cl| | | |] w'] eqn:E; try discriminate Hr.
    destruct (proj1 (@New_exact ascii_unicode toy_text toy_digests toy_krb toy_ldap toy_retries
      toy_platform sample_adcore (toy_config "dc1.example.com"%go) []) cl w' E)
      as (_ & _ & _ & dial & b & Hd & c & s & l & wd & wb & wc & ws & res & e & rest & _ & _ & _ & _ &
          Hdial & Hbind & _ & Hs & _).
    exists cl, w', dial, b, l, wd, wb, wc, ws, res.
    split; [reflexivity|]. split; [exact Hd|]. split; [exact Hdial|]. split; [exact Hbind|exact Hs].
  - refine (proj2 (proj2 (@New_exact ascii_unicode toy_text toy_digests toy_krb toy_ldap toy_retries
      toy_platform sample_adcore cfg [])) eq_refl _ _); [done|].
    intros pem Hpem. vm_compute in Hpem. discriminate Hpem.
Defined.

(** The whole of [New] against the concrete library: dial, upgrade, bind,
    read, and a client pinned to the naming context of the rootDSE. *)
Example New_runs :
  match @New ascii_unicode toy_text toy_digests toy_krb toy_ldap toy_retries toy_platform sample_adcore
          (toy_config "dc1.example.com"%go) [] with
  | (Ret c, log) => DefaultNamingContext c = "DC=example,DC=com"%go /\
      log = ["Search"%go; "Destroy"%go; "GSSAPI ldap/dc1.example.com"%go; "StartTLS dc1.example.com"%go;
             "Dial ldap://dc1.example.com:389"%go]
  | _ => False
  end.
Proof. vm_compute. split; reflexivity. Qed.

(** With a server name that has no domain, no realm is derived from it, and
    the ticket for a replication target asks for that target's realm. *)
Lemma realm_follows_the_target :
  exists kb, @binderForHost ascii_unicode toy_krb toy_ldap toy_retries (toy_config "dc1"%go)
               "dc2.other.example"%go = inl (KerberosBind kb) /\ kb_Realm kb = [] /\
    @newTicketSource ascii_unicode toy_krb (@ticket_options toy_krb toy_ldap kb []) =
      Ret "svc@OTHER.EXAMPLE"%go.
Proof. eexists. split; [reflexivity|]. split; reflexivity. Qed.
