(* ===== verification/Ledger.v ===== *)
(** * No operation leaks a connection

    [opened] counts the connections of a world that were dialled and not yet
    closed.  Whatever an operation does and however it ends, it changes the
    number of open connections exactly as it changes the number of idle ones:
    what it dialled and did not put back it has closed. *)
From S2P Require Export Client Groups OUs Users Acls Schema Computers Gmsas.

Section ledger.
Context `{Env}.

(** What the calls of an environment do to the number of open connections. *)
Record ledger (opened : World -> Z) : Prop := {
  led_dial w : opened (snd (env_dial w)) = opened w + match fst (env_dial w) with inl _ => 1 | inr _ => 0 end;
  led_dial_other host w : opened (snd (env_dial_other host w)) =
    opened w + match fst (env_dial_other host w) with inl _ => 1 | inr _ => 0 end;
  led_close h w : opened (snd (env_close h w)) = opened w - 1;
  led_bind h w : opened (snd (env_bind h w)) = opened w;
  led_search h req w : opened (snd (env_search h req w)) = opened w;
  led_add h dn attrs w : opened (snd (env_add h dn attrs w)) = opened w;
  led_modify h dn mods ctl w : opened (snd (env_modify h dn mods ctl w)) = opened w;
  led_modifydn h dn rdn del sup w : opened (snd (env_modifydn h dn rdn del sup w)) = opened w;
  led_delete h dn w : opened (snd (env_delete h dn w)) = opened w;
  led_select w : opened (snd (env_select w)) = opened w;
  led_backoff n w : opened (snd (env_backoff n w)) = opened w;
  led_now w : opened (snd (env_now w)) = opened w;
  led_wait d w : opened (snd (env_wait d w)) = opened w
}.

Context (opened : World -> Z).

(** The connections that are neither idle nor closed. *)
Definition lent (s : St) : Z := opened (st_world s) - len (idle (st_pool s)).

(** [m] lends out [d] connections more than it takes back. *)
Definition lends {A} (d : Z) (m : M A) : Prop := forall s, lent (snd (m s)) = lent s + d.
Definition level {A} (m : M A) : Prop := forall s, lent (snd (m s)) = lent s.
(** [m] opens and closes nothing. *)
Definition flat {A} (m : M A) : Prop := forall s, opened (st_world (snd (m s))) = opened (st_world s).

Lemma level_same {A} (m : M A) : (forall s, snd (m s) = s) -> level m.
Proof. intros Hm s. by rewrite Hm. Qed.
Lemma level_ret {A} (a : A) : level (mret a).
Proof. by apply level_same. Qed.
Lemma level_lift {A} (r : outcome A) : level (lift r).
Proof. by apply level_same. Qed.
Lemma level_fail {A} e : level (fail (A := A) e).
Proof. by apply level_same. Qed.
Lemma level_ask {A} (f : World -> (A + error) * World) :
  (forall w, opened (snd (f w)) = opened w) -> level (ask f).
Proof. intros Hf s. specialize (Hf (st_world s)). unfold ask. destruct (f _) as [r w]. unfold lent. cbn in *. lia. Qed.
Lemma level_tell f : (forall w, opened (snd (f w)) = opened w) -> level (tell f).
Proof. intros Hf s. specialize (Hf (st_world s)). unfold tell. destruct (f _) as [r w]. unfold lent. cbn in *. lia. Qed.

Lemma level_bind {A B} (m : M A) (f : A -> M B) : level m -> (forall a, level (f a)) -> level (m ≫= f).
Proof.
  intros Hm Hf s. specialize (Hm s). unfold mbind, M_bind.
  destruct (m s) as [[a|e| | |] s1]; cbn in *; try done. by rewrite Hf.
Qed.
Lemma level_attempt {A} (m : M A) : level m -> level (attempt m).
Proof. intros Hm s. specialize (Hm s). unfold attempt. by destruct (m s) as [[a|e| | |] s1]. Qed.
Lemma level_on_error {A} (m : M A) (f : error -> M A) :
  level m -> (forall e, level (f e)) -> level (on_error m f).
Proof.
  intros Hm Hf. apply level_bind; [by apply level_attempt|]. intros [a|e]; [apply level_ret|apply Hf].
Qed.
Lemma level_map_error {A} f (m : M A) : level m -> level (map_error f m).
Proof. intros Hm. apply level_on_error; [done|]. intros e. apply level_fail. Qed.

Lemma level_with_lock {A} key (m : M A) : level m -> level (with_lock key m).
Proof.
  intros Hm. apply level_bind.
  - intros s. unfold lock. by destruct (mutex_lock key _).
  - intros [] s. specialize (Hm s). unfold deferred_unlock. by destruct (m s).
Qed.

Lemma flat_ret {A} (a : A) : flat (mret a).
Proof. by intros s. Qed.
Lemma flat_lift {A} (r : outcome A) : flat (lift r).
Proof. by intros s. Qed.
Lemma flat_ask {A} (f : World -> (A + error) * World) :
  (forall w, opened (snd (f w)) = opened w) -> flat (ask f).
Proof. intros Hf s. specialize (Hf (st_world s)). unfold ask. by destruct (f _). Qed.
Lemma flat_tell f : (forall w, opened (snd (f w)) = opened w) -> flat (tell f).
Proof. intros Hf s. specialize (Hf (st_world s)). unfold tell. by destruct (f _). Qed.
Lemma flat_bind {A B} (m : M A) (f : A -> M B) : flat m -> (forall a, flat (f a)) -> flat (m ≫= f).
Proof.
  intros Hm Hf s. specialize (Hm s). unfold mbind, M_bind.
  destruct (m s) as [[a|e| | |] s1]; cbn in *; try done. by rewrite Hf.
Qed.
Lemma flat_attempt {A} (m : M A) : flat m -> flat (attempt m).
Proof. intros Hm s. specialize (Hm s). unfold attempt. by destruct (m s) as [[a|e| | |] s1]. Qed.
Lemma flat_on_error {A} (m : M A) (f : error -> M A) : flat m -> (forall e, flat (f e)) -> flat (on_error m f).
Proof.
  intros Hm Hf. apply flat_bind; [by apply flat_attempt|]. intros [a|e]; [apply flat_ret|apply Hf].
Qed.

(** ** The pool *)

Context (Hled : ledger opened).

Lemma level_give_permit : level give_permit.
Proof. intros s. unfold give_permit, recv. by destruct (sem (st_pool s)). Qed.

Lemma lends_close h : lends (-1) (conn_Close h).
Proof using Hled.
  intros s. unfold conn_Close, lent. cbn. rewrite (led_close _ Hled). lia.
Qed.

(** Giving a connection back, whether it is pooled or closed. *)
Lemma lends_Release h : lends (-1) (Release h).
Proof using Hled.
  intros s. unfold Release, put_back, mbind, M_bind.
  destruct (release_section (st_pool s) h) as [p late] eqn:Er.
  unfold release_section in Er. destruct (done (st_pool s)); injection Er as <- <-.
  - pose proof (lends_close h (set_st_pool s (st_pool s))) as Hc.
    destruct (conn_Close h _) as [r s1] eqn:Ec. unfold conn_Close in Ec. injection Ec as <- <-.
    cbn beta iota. rewrite level_give_permit. exact Hc.
  - cbn beta iota. rewrite level_give_permit. unfold lent. cbn. rewrite len_app. change (len [h]) with 1. lia.
Qed.
Lemma lends_Discard h : lends (-1) (Discard h).
Proof using Hled.
  intros s. unfold Discard, mbind, M_bind. pose proof (lends_close h s) as Hc.
  destruct (conn_Close h s) as [r s1] eqn:Ec. unfold conn_Close in Ec. injection Ec as <- <-.
  cbn beta iota. by rewrite level_give_permit.
Qed.

(** [Acquire] lends out one connection when it returns one. *)
Lemma Acquire_lends s :
  lent (snd (Acquire s)) = lent s + match fst (Acquire s) with Ret _ => 1 | _ => 0 end.
Proof using Hled.
  unfold Acquire, tell, mbind, M_bind. pose proof (led_select _ Hled (st_world s)) as Hs.
  destruct (env_select (st_world s)) as [[e|] w]; cbn in *; [unfold lent; cbn; lia|].
  unfold take_permit, try_send. cbn. case_decide; [|unfold lent; cbn; lia].
  unfold take_conn, acquire_section. cbn. destruct (done (st_pool s)).
  - unfold give_permit, mbind, M_bind. cbn. unfold lent. cbn. lia.
  - destruct (rev (idle (st_pool s))) as [|h r] eqn:Ei.
    + unfold dial_and_bind, on_error, attempt, ask, tell, mbind, M_bind. cbn.
      pose proof (led_dial _ Hled w) as Hd. destruct (env_dial w) as [[h|e] w1]; cbn in *.
      * pose proof (led_bind _ Hled h w1) as Hb. destruct (env_bind h w1) as [[e|] w2]; cbn in *.
        -- pose proof (led_close _ Hled h w2) as Hc. unfold lent. cbn. lia.
        -- unfold lent. cbn. lia.
      * unfold lent. cbn. lia.
    + cbn. unfold lent. cbn. apply (f_equal (@rev _)) in Ei. rewrite rev_involutive in Ei.
      rewrite Ei. cbn [rev]. rewrite len_app. change (len [h]) with 1. lia.
Qed.

Lemma level_withConn `{AdCore} {A} (c : core) op (zero : A) fn :
  (forall h, steady (fn h)) -> (forall h, flat (fn h)) -> level (withConn c op zero fn).
Proof using Hled.
  intros Hst Hfl. unfold withConn. generalize 1 as n.
  induction (Z.to_nat (c_MaxAttempts c)) as [|fuel IH]; intros n s; [done|].
  cbn [withConn_from]. unfold map_error, on_error, attempt, mbind, M_bind.
  pose proof (Acquire_lends s) as Ha. destruct (Acquire s) as [[h|e| | |] s1]; cbn [fst snd] in *; cbn; try lia.
  destruct (Hst h s1) as (Hr & Hp & _). pose proof (Hfl h s1) as Ho.
  destruct (fn h s1) as [r s2]; cbn [fst snd] in *.
  assert (lent s2 = lent s1) as Hl by (unfold lent; by rewrite Hp, Ho).
  destruct r as [a|e| | |]; try done; cbn beta iota.
  - pose proof (lends_Release h s2) as Hg. destruct (Release h s2) as [[[]| | | |] s3]; cbn in *; lia.
  - set (l := is_kind _ _).
    assert (lent (snd ((if l then Discard h else Release h) s2)) = lent s2 - 1) as Hg.
    { destruct l; [rewrite lends_Discard|rewrite lends_Release]; lia. }
    destruct ((if l then Discard h else Release h) s2) as [[[]|e'| | |] s3]; cbn in *; try lia.
    destruct (_ || _); cbn; [lia|]. unfold tell.
    pose proof (led_backoff _ Hled n (st_world s3)) as Hb.
    destruct (env_backoff n (st_world s3)) as [[e'|] w]; cbn in *; [unfold lent in *; cbn; lia|].
    rewrite IH. unfold lent in *. cbn. lia.
Qed.

(** [Close] closes every idle connection. *)
Lemma close_all_opened hs w : opened (snd (close_all hs w)) = opened w - len hs.
Proof using Hled.
  revert w. induction hs as [|h hs IH]; intros w; cbn [close_all].
  - change (len (@nil Handle)) with 0. cbn. lia.
  - pose proof (led_close _ Hled h w) as Hc. destruct (env_close h w) as [e w1]. cbn in Hc.
    specialize (IH w1). destruct (close_all hs w1) as [e' w2]. cbn in *. rewrite len_cons. lia.
Qed.

Lemma level_Pool_Close : level Pool_Close.
Proof using Hled.
  intros s. unfold Pool_Close, close_section, tell. cbn.
  pose proof (close_all_opened (idle (st_pool s)) (st_world s)) as Hc.
  destruct (close_all _ _) as [e w]. unfold lent. cbn in *. change (len (@nil Handle)) with 0. lia.
Qed.

(** A connection to another controller is closed before its probe ends. *)
Lemma level_other {A} host (m : Handle -> M A) :
  (forall h, steady (m h)) -> (forall h, flat (m h)) ->
  level (h ← ask (env_dial_other host); deferred_close h (m h)).
Proof using Hled.
  intros Hst Hfl s. unfold ask, mbind, M_bind. pose proof (led_dial_other _ Hled host (st_world s)) as Hd.
  destruct (env_dial_other host (st_world s)) as [[h|e] w]; cbn [fst snd of_sum] in *.
  2: { unfold lent. cbn. lia. }
  unfold deferred_close. destruct (Hst h (set_world s w)) as (_ & Hp & _).
  pose proof (Hfl h (set_world s w)) as Ho. destruct (m h _) as [r s1]. cbn [fst snd] in *.
  rewrite lends_close. unfold lent in *. rewrite Hp, Ho. cbn. lia.
Qed.
End ledger.

(** ** Automation *)

Create HintDb level.
Ltac level_step Hled :=
  lazymatch goal with
  | |- level _ (mbind _ _) => apply level_bind; [|intros ?]
  | |- level _ (on_error _ _) => apply level_on_error; [|intros ?]
  | |- level _ (map_error _ _) => apply level_map_error
  | |- level _ (attempt _) => apply level_attempt
  | |- level _ (with_lock _ _) => apply level_with_lock
  | |- level _ (withConn _ _ _ _) => apply (level_withConn _ Hled); intros ?; [solve_quiet|]
  | |- level _ (lift _) => apply level_lift
  | |- level _ (fail _) => apply level_fail
  | |- level _ (mret _) => apply level_ret
  | |- level _ (match ?x with _ => _ end) => destruct x
  | |- flat _ (mbind _ _) => apply flat_bind; [|intros ?]
  | |- flat _ (on_error _ _) => apply flat_on_error; [|intros ?]
  | |- flat _ (attempt _) => apply flat_attempt
  | |- flat _ (lift _) => apply flat_lift
  | |- flat _ (fail _) => apply flat_lift
  | |- flat _ (mret _) => apply flat_ret
  | |- flat _ (conn_Search _ _) => apply flat_ask; apply (led_search _ Hled)
  | |- flat _ (conn_Add _ _ _) => apply flat_tell; apply (led_add _ Hled)
  | |- flat _ (conn_Modify _ _ _ _) => apply flat_tell; apply (led_modify _ Hled)
  | |- flat _ (conn_ModifyDN _ _ _ _ _) => apply flat_tell; apply (led_modifydn _ Hled)
  | |- flat _ (conn_Delete _ _) => apply flat_tell; apply (led_delete _ Hled)
  | |- flat _ (match ?x with _ => _ end) => destruct x
  end.
Ltac solve_level Hled := cbv zeta; repeat (solve [eauto with level] || (level_step Hled; cbv zeta)).

(** ** The operations *)

Section operations.
Context `{Unicode} `{AdCore} `{Env} (opened : World -> Z) (Hled : ledger opened).

Abbreviation level := (level opened).

Lemma level_searchEntries c op q class want controls : level (searchEntries c op q class want controls).
Proof using Hled. unfold searchEntries, search_cb. solve_level Hled. Qed.
#[local] Hint Resolve level_searchEntries : level.

Lemma level_getOne c op id class want controls : level (getOne c op id class want controls).
Proof using Hled. unfold getOne, search_cb. solve_level Hled. Qed.
#[local] Hint Resolve level_getOne : level.

Lemma level_resolveDN c op id : level (resolveDN c op id).
Proof using Hled. unfold resolveDN. solve_level Hled. Qed.
#[local] Hint Resolve level_resolveDN : level.

Lemma level_annotateAlreadyExists c err dn filter : level (annotateAlreadyExists c err dn filter).
Proof using Hled. unfold annotateAlreadyExists, probeDeleted, search_cb. solve_level Hled. Qed.
#[local] Hint Resolve level_annotateAlreadyExists : level.

Lemma level_objectPresentOn c host filter : level (objectPresentOn c host filter).
Proof using Hled.
  unfold objectPresentOn. apply (level_other opened Hled host (fun h => res ← conn_Search h (present_request c filter); _)).
  - intros h. solve_quiet.
  - intros h. solve_level Hled.
Qed.
#[local] Hint Resolve level_objectPresentOn : level.

Lemma level_poll_round c guid filter pending : level (poll_round c guid filter pending).
Proof using Hled.
  induction pending as [|t pending IH]; cbn [poll_round]; [solve_level Hled|].
  unfold try_sync, forceSync, forceSync_cb. solve_level Hled.
Qed.
#[local] Hint Resolve level_poll_round : level.

Lemma level_time_Now : level time_Now.
Proof using Hled.
  intros s. unfold time_Now. pose proof (led_now _ Hled (st_world s)) as Hn.
  destruct (env_now _) as [t w]. unfold lent. cbn in *. lia.
Qed.
#[local] Hint Resolve level_time_Now : level.

Lemma level_replicate_from c guid filter deadline fuel pending :
  level (replicate_from c guid filter deadline fuel pending).
Proof using Hled.
  revert pending. induction fuel as [|fuel IH]; intros pending; cbn [replicate_from]; solve_level Hled.
  apply level_tell, (led_wait _ Hled).
Qed.
#[local] Hint Resolve level_replicate_from : level.

Lemma level_replicate c fuel guid : level (replicate c fuel guid).
Proof using Hled. unfold replicate, replicationTargets, dclist_cb. solve_level Hled. Qed.
#[local] Hint Resolve level_replicate : level.

(** ** What the classes share *)

Lemma level_modelled {A} op (model : Entry -> outcome A) e : level (modelled op model e).
Proof. unfold modelled. apply level_map_error, level_lift. Qed.
Lemma level_model_all {A} op (model : Entry -> outcome A) es : level (model_all op model es).
Proof. apply level_lift. Qed.
Lemma level_with_replication {A} c fuel guid (m : A) : level (with_replication c fuel guid m).
Proof using Hled. unfold with_replication. solve_level Hled. Qed.
Lemma level_modify_object c op id dn mods : level (modify_object c op id dn mods).
Proof using Hled. unfold modify_object. solve_level Hled. Qed.
Lemma level_sameContainer op a b : level (sameContainer op a b).
Proof. unfold sameContainer. apply level_map_error, level_lift. Qed.
Lemma level_move_object c op id dn rdn same container : level (move_object c op id dn rdn same container).
Proof using Hled. unfold move_object. solve_level Hled. Qed.
#[local] Hint Resolve level_modelled level_model_all level_with_replication level_modify_object
  level_sameContainer level_move_object : level.

Lemma level_rename_move c op id dn n1 c1 n2 c2 : level (rename_move c op id dn n1 c1 n2 c2).
Proof using Hled. unfold rename_move. solve_level Hled. Qed.
Lemma level_edit_descriptor c op dn gone empty edit : level (edit_descriptor c op dn gone empty edit).
Proof using Hled. unfold edit_descriptor, write_descriptor, descriptor_cb. solve_level Hled. Qed.
Lemma level_delete_object {A} (get : Identity -> M A) guid dn c op id before :
  (forall id, level (get id)) -> (forall a, level (before a)) ->
  level (delete_object get guid dn c op id before).
Proof using Hled. intros. unfold delete_object, delete_locked, confirm_gone. solve_level Hled. Qed.
#[local] Hint Resolve level_rename_move level_edit_descriptor : level.

(** ** Groups, units and users *)

Lemma level_Group_Get c id : level (Group_Get c id).
Proof using Hled. unfold Group_Get. solve_level Hled. Qed.
#[local] Hint Resolve level_Group_Get : level.
Lemma level_Group_Search c q : level (Group_Search c q).
Proof using Hled. unfold Group_Search. solve_level Hled. Qed.
Lemma level_Group_Create c fuel spec : level (Group_Create c fuel spec).
Proof using Hled. unfold Group_Create. solve_level Hled. Qed.
Lemma level_Group_Update c fuel id spec : level (Group_Update c fuel id spec).
Proof using Hled. unfold Group_Update. solve_level Hled. Qed.
Lemma level_Group_Delete c id : level (Group_Delete c id).
Proof using Hled. apply level_delete_object; intros; solve_level Hled. Qed.

Lemma level_resolveDNs c op l : level (resolveDNs c op l).
Proof using Hled. induction l; cbn [resolveDNs]; solve_level Hled. Qed.
#[local] Hint Resolve level_resolveDNs : level.
Lemma level_editMembers c op id l o : level (editMembers c op id l o).
Proof using Hled. unfold editMembers, editMembers_locked, members_cb. solve_level Hled. Qed.
Lemma level_rangedValues_from c op dn attr fuel out lo :
  level (rangedValues_from c op dn attr fuel out lo).
Proof using Hled.
  revert out lo. induction fuel as [|fuel IH]; intros out lo; cbn [rangedValues_from]; unfold page_cb;
    solve_level Hled.
Qed.
Lemma level_resolveMembers c op dns : level (resolveMembers c op dns).
Proof using Hled. unfold resolveMembers, search_cb. solve_level Hled. Qed.
#[local] Hint Resolve level_resolveMembers level_rangedValues_from : level.
Lemma level_Members c fuel id : level (Members c fuel id).
Proof using Hled. unfold Members, rangedValues. solve_level Hled. Qed.
Lemma level_MembersRecursive c id : level (MembersRecursive c id).
Proof using Hled. unfold MembersRecursive, search_cb. solve_level Hled. Qed.
Lemma level_IsMember c id m : level (IsMember c id m).
Proof using Hled. unfold IsMember, search_cb. solve_level Hled. Qed.

Lemma level_setProtection c op dn want : level (setProtection c op dn want).
Proof using Hled. apply level_edit_descriptor. Qed.
Lemma level_OU_Get c id : level (OU_Get c id).
Proof using Hled. unfold OU_Get. solve_level Hled. Qed.
#[local] Hint Resolve level_setProtection level_OU_Get : level.
Lemma level_OU_Search c q : level (OU_Search c q).
Proof using Hled. unfold OU_Search. solve_level Hled. Qed.
Lemma level_OU_Create c fuel spec : level (OU_Create c fuel spec).
Proof using Hled. unfold OU_Create. solve_level Hled. Qed.
Lemma level_OU_Update c fuel id spec : level (OU_Update c fuel id spec).
Proof using Hled. unfold OU_Update, OU_Update_locked, ou_move. solve_level Hled. Qed.
Lemma level_OU_Delete c id opts : level (OU_Delete c id opts).
Proof using Hled.
  apply level_delete_object; intros; [solve_level Hled|].
  unfold ou_before_delete, count_children, children_cb. solve_level Hled.
Qed.

Lemma level_setCanChangePassword c op dn can : level (setCanChangePassword c op dn can).
Proof using Hled. apply level_edit_descriptor. Qed.
Lemma level_User_Get c id : level (User_Get c id).
Proof using Hled. unfold User_Get. solve_level Hled. Qed.
Lemma level_setPasswordLocked c op id p : level (setPasswordLocked c op id p).
Proof using Hled. unfold setPasswordLocked, password_cb. solve_level Hled. Qed.
#[local] Hint Resolve level_setCanChangePassword level_User_Get level_setPasswordLocked : level.
Lemma level_User_Search c q : level (User_Search c q).
Proof using Hled. unfold User_Search. solve_level Hled. Qed.
Lemma level_SetPassword c id p : level (SetPassword c id p).
Proof using Hled. unfold SetPassword. solve_level Hled. Qed.
#[local] Hint Resolve level_SetPassword : level.
Lemma level_User_Create c fuel spec : level (User_Create c fuel spec).
Proof using Hled.
  unfold User_Create, create_password, create_post, create_can_change, post_cb. solve_level Hled.
Qed.
Lemma level_User_Update c fuel id spec : level (User_Update c fuel id spec).
Proof using Hled. unfold User_Update, User_Update_locked. solve_level Hled. Qed.
Lemma level_User_Delete c id : level (User_Delete c id).
Proof using Hled. apply level_delete_object; intros; solve_level Hled. Qed.

(** ** ACLs, schema and principals *)

Lemma level_readDescriptor c op id : level (readDescriptor c op id).
Proof using Hled. unfold readDescriptor. solve_level Hled. Qed.
#[local] Hint Resolve level_readDescriptor : level.
Lemma level_ACL_Get c id : level (ACL_Get c id).
Proof using Hled. unfold ACL_Get. solve_level Hled. Qed.
#[local] Hint Resolve level_ACL_Get : level.
Lemma level_Grant c id aces : level (Grant c id aces).
Proof using Hled. unfold Grant, Grant_locked, decode_all, write_edit, write_descriptor. solve_level Hled. Qed.
Lemma level_Revoke c id aces : level (Revoke c id aces).
Proof using Hled. unfold Revoke, Revoke_locked, decode_all, write_edit, write_descriptor. solve_level Hled. Qed.

Lemma level_resolve_from c op refs out : level (resolve_from c op refs out).
Proof using Hled.
  revert out. induction refs as [|r refs IH]; intros out; cbn [resolve_from];
    unfold resolveOne, search_cb; solve_level Hled.
Qed.
Lemma level_Resolve c refs : level (Resolve c refs).
Proof using Hled. apply level_resolve_from. Qed.

Lemma level_domainSID c op : level (domainSID c op).
Proof using Hled.
  assert (level (read_domain_sid c op)) as Hr by (unfold read_domain_sid, domain_cb; solve_level Hled).
  intros s. specialize (Hr s). unfold domainSID. destruct (st_dsid s) as [[sid|e]|]; [done..|].
  by destruct (read_domain_sid c op s) as [[sid|e| | |] s1].
Qed.
#[local] Hint Resolve level_domainSID : level.
Lemma level_principalSIDs c op ids : level (principalSIDs c op ids).
Proof using Hled. induction ids; cbn [principalSIDs]; unfold principalSID; solve_level Hled. Qed.
Lemma level_principal_guids c op sids : level (principal_guids c op sids).
Proof using Hled. induction sids; cbn [principal_guids]; unfold principalGUID; solve_level Hled. Qed.
#[local] Hint Resolve level_principalSIDs level_principal_guids : level.
Lemma level_principalGUIDs c op sd : level (principalGUIDs c op sd).
Proof using Hled. unfold principalGUIDs. solve_level Hled. Qed.
Lemma level_principalSDValue c op ids : level (principalSDValue c op ids).
Proof using Hled. unfold principalSDValue. solve_level Hled. Qed.
#[local] Hint Resolve level_principalGUIDs level_principalSDValue : level.

(** ** Computers and service accounts *)

Lemma level_modelled_with {A} model attr (set : A -> list gostring -> A) c op e :
  level (modelled_with model attr set c op e).
Proof using Hled. unfold modelled_with. solve_level Hled. Qed.
#[local] Hint Resolve level_modelled_with : level.
Lemma level_modelled_all {A} model attr (set : A -> list gostring -> A) c op es :
  level (modelled_all model attr set c op es).
Proof using Hled. induction es; cbn [modelled_all]; solve_level Hled. Qed.
Lemma level_principals_value c op ids : level (principals_value c op ids).
Proof using Hled. unfold principals_value. solve_level Hled. Qed.
#[local] Hint Resolve level_modelled_all level_principals_value : level.

Lemma level_Computer_Get c id : level (Computer_Get c id).
Proof using Hled. unfold Computer_Get. solve_level Hled. Qed.
#[local] Hint Resolve level_Computer_Get : level.
Lemma level_Computer_Search c q : level (Computer_Search c q).
Proof using Hled. unfold Computer_Search. solve_level Hled. Qed.
Lemma level_Computer_Create c fuel spec : level (Computer_Create c fuel spec).
Proof using Hled. unfold Computer_Create. solve_level Hled. Qed.
Lemma level_Computer_Update c fuel id spec : level (Computer_Update c fuel id spec).
Proof using Hled. unfold Computer_Update, Computer_Update_locked. solve_level Hled. Qed.
Lemma level_Computer_Delete c id : level (Computer_Delete c id).
Proof using Hled. apply level_delete_object; intros; solve_level Hled. Qed.

Lemma level_GMSA_Get c id : level (GMSA_Get c id).
Proof using Hled. unfold GMSA_Get. solve_level Hled. Qed.
#[local] Hint Resolve level_GMSA_Get : level.
Lemma level_GMSA_Search c q : level (GMSA_Search c q).
Proof using Hled. unfold GMSA_Search. solve_level Hled. Qed.
Lemma level_GMSA_Create c fuel spec : level (GMSA_Create c fuel spec).
Proof using Hled. unfold GMSA_Create. solve_level Hled. Qed.
Lemma level_GMSA_Update c fuel id spec : level (GMSA_Update c fuel id spec).
Proof using Hled. unfold GMSA_Update, GMSA_Update_locked. solve_level Hled. Qed.
Lemma level_GMSA_Delete c id : level (GMSA_Delete c id).
Proof using Hled. apply level_delete_object; intros; solve_level Hled. Qed.

(** ** The client *)

Lemma level_newClient c : level (newClient c).
Proof using Hled.
  assert (level close_pool) as Hclose.
  { unfold close_pool. apply level_bind; [apply level_attempt, (level_Pool_Close _ Hled)|]. intros ?. solve_level Hled. }
  unfold newClient. apply level_bind; [apply level_on_error|].
  - apply (level_withConn _ Hled); intros h; [apply root_cb_steady|]. unfold root_cb. solve_level Hled.
  - intros e. apply level_bind; [done|]. intros ?. solve_level Hled.
  - intros [[dnc sch] conf]. destruct dnc; [|apply level_ret].
    apply level_bind; [done|]. intros ?. solve_level Hled.
Qed.
End operations.

(** ** The connections of go-ldap

    The ledger of the environment [New] builds, from what the LDAP library
    does to the number of open connections: only dialling opens one, only
    [Close] closes one. *)

Section goldap_ledger.
Context `{Unicode} `{ErrorText} `{Digests} `{KrbLib} `{!LdapLib} `{Retries} `{!Platform} `{AdCore}.

Record lib_ledger (opened : LdapWorld -> Z) : Prop := {
  lib_dial url t tls w : opened (snd (ldap_DialURL url t tls w)) =
    opened w + match fst (ldap_DialURL url t tls w) with inl _ => 1 | inr _ => 0 end;
  lib_close l w : opened (snd (ldap_Close l w)) = opened w - 1;
  lib_starttls l tls w : opened (snd (ldap_StartTLS l tls w)) = opened w;
  lib_timeout l t w : opened (ldap_SetTimeout l t w) = opened w;
  lib_bind l u p w : opened (snd (ldap_Bind l u p w)) = opened w;
  lib_ntlm l d u p w : opened (snd (ldap_NTLMBind l d u p w)) = opened w;
  lib_gssapi l src cbt sp opts w : opened (snd (ldap_GSSAPIBind l src cbt sp opts w)) = opened w;
  lib_destroy src w : opened (client_Destroy src w) = opened w;
  lib_search l sr w : opened (snd (ldap_Search l sr w)) = opened w;
  lib_paging l sr n w : opened (snd (ldap_SearchWithPaging l sr n w)) = opened w;
  lib_add l dn attrs w : opened (snd (ldap_Add l dn attrs w)) = opened w;
  lib_modify l dn cs ms w : opened (snd (ldap_Modify l dn cs ms w)) = opened w;
  lib_modifydn l dn rdn d sup w : opened (snd (ldap_ModifyDN l dn rdn d sup w)) = opened w;
  lib_del l dn w : opened (snd (ldap_Del l dn w)) = opened w;
  lib_select w : opened (snd (pf_select w)) = opened w;
  lib_backoff r n w : opened (snd (pf_backoff r n w)) = opened w;
  lib_now w : opened (snd (pf_now w)) = opened w;
  lib_wait d w : opened (snd (pf_wait d w)) = opened w
}.

Context (opened : LdapWorld -> Z) (Hlib : lib_ledger opened).

Definition opens {A} (r : A + error) : Z := match r with inl _ => 1 | inr _ => 0 end.

(** A StartTLS that fails closes what was dialled. *)
Lemma Dial_ledger o w : opened (snd (Dial o w)) = opened w + opens (fst (Dial o w)).
Proof using Hlib.
  unfold Dial.
  assert (opened (snd (dial_tls o w)) = opened w + opens (fst (dial_tls o w))) as Hd.
  { unfold dial_tls. destruct (d_StartTLS o); [|apply (lib_dial _ Hlib)].
    set (url := _ ++ _). pose proof (lib_dial _ Hlib url (d_Timeout o) None w) as Hu.
    destruct (ldap_DialURL url _ None w) as [[l|e] w1]; cbn [fst snd opens] in *; [|done].
    pose proof (lib_starttls _ Hlib l (d_TLSConfig o) w1) as Hs.
    destruct (ldap_StartTLS l _ w1) as [[e|] w2]; cbn [fst snd opens] in *; [|lia].
    rewrite (lib_close _ Hlib). lia. }
  destruct (dial_tls o w) as [[l|e] w1]; cbn [fst snd opens] in *; [|done].
  case_match; [rewrite (lib_timeout _ Hlib)|]; done.
Qed.

Lemma Bind_ledger b c w : opened (snd (Bind b c w)) = opened w.
Proof using Hlib.
  destruct b as [user pw|kb|dom user pw|]; unfold_bind.
  - destruct pw; [done|]. destruct c as [g|]; [|done]. unfold raw_error. cbn. apply (lib_bind _ Hlib).
  - destruct c as [g|]; [|done]. unfold krb_bind.
    destruct (ldap_TLSConnectionState g w) as [state ok]. destruct (peerCertificate state ok); [|done].
    destruct (newTicketSource _) as [src| | | |]; try done.
    pose proof (lib_gssapi _ Hlib g src (tokenForCertificate (Some c)) (spn kb) apOptions w) as Hg.
    destruct (ldap_GSSAPIBind _ _ _ _ _ _) as [err w1]. cbn [snd] in *. by rewrite (lib_destroy _ Hlib).
  - destruct c as [g|]; [|done]. unfold raw_error. cbn. apply (lib_ntlm _ Hlib).
  - done.
Qed.

Lemma otherDialer_ledger cfg host w :
  opened (snd (otherDialer cfg host w)) = opened w + opens (fst (otherDialer cfg host w)).
Proof using Hlib.
  unfold otherDialer. destruct (other_tls cfg host w) as [tls|]; [|cbn; lia].
  destruct (binderForHost cfg host) as [b|]; [|cbn; lia]. unfold dial_and_bind_other.
  pose proof (Dial_ledger (dial_options cfg host tls) w) as Hd.
  destruct (Dial _ w) as [[l|e] w1]; cbn [fst snd opens] in *; [|done].
  pose proof (Bind_ledger b (Some l) w1) as Hb. destruct (Bind b (Some l) w1) as [r w2]. cbn [snd] in *.
  destruct (err_of r); cbn [fst snd opens]; [|lia].
  unfold goldap_Close. rewrite (lib_close _ Hlib). lia.
Qed.

Lemma goldap_Search_ledger l req w : opened (snd (goldap_Search l req w)) = opened w.
Proof using Hlib.
  unfold goldap_Search. pose proof (lib_search _ Hlib l (searchToGoLDAP req) w) as Hs.
  pose proof (lib_paging _ Hlib l (searchToGoLDAP req) pageSize w) as Hp.
  destruct (decide _); [destruct (ldap_Search _ _ w) as [[res|err] w1]
                       |destruct (ldap_SearchWithPaging _ _ _ w) as [[res|err] w1]]; done.
Qed.

(** The dialler of a configuration. *)
Lemma dialer_ledger cfg w0 dial b w :
  dialer cfg w0 = inl (dial, b) -> opened (snd (dial w)) = opened w + opens (fst (dial w)).
Proof using Hlib.
  unfold dialer. destruct (match cfg_TLSConfig cfg with Some _ => _ | None => _ end); [|done].
  destruct (binder cfg); [|done]. intros [= <- <-]. apply Dial_ledger.
Qed.

Lemma client_env_ledger cfg w0 dial b :
  dialer cfg w0 = inl (dial, b) -> @ledger (client_env cfg dial b) opened.
Proof using Hlib.
  intros Hd. constructor; cbn.
  - intros w. by eapply dialer_ledger.
  - intros host w. apply otherDialer_ledger.
  - intros h w. apply (lib_close _ Hlib).
  - intros h w. pose proof (Bind_ledger b (Some h) w) as Hb. by destruct (Bind b (Some h) w).
  - apply goldap_Search_ledger.
  - intros. apply (lib_add _ Hlib).
  - intros. apply (lib_modify _ Hlib).
  - intros. apply (lib_modifydn _ Hlib).
  - intros. apply (lib_del _ Hlib).
  - intros. apply (lib_select _ Hlib).
  - intros. apply (lib_backoff _ Hlib).
  - intros. apply (lib_now _ Hlib).
  - intros. apply (lib_wait _ Hlib).
Qed.
End goldap_ledger.
