(* ===== verification/Session.v ===== *)
(** * A whole session of a client

    [Client.Directory] hands a consumer the operations of every class; a
    session is a client made by [newClient], any sequence of those operations
    with any arguments, whatever each of them answers, and [Close].  The
    theorem puts together what every component promises: each operation
    returns, gives back the permits and the keys it took, and no connection
    outlives the session. *)
From S2P Require Export Ledger.

Section session.
Context `{Unicode} `{AdCore} `{Env}.

(** The methods reached through [Client.Directory], with their arguments. *)
Inductive call :=
  | OU_create (spec : OUSpec) | OU_get (id : Identity) | OU_search (q : Query)
  | OU_update (id : Identity) (spec : OUSpec) | OU_delete (id : Identity) (opts : DeleteOptions)
  | Group_create (spec : GroupSpec) | Group_get (id : Identity) | Group_search (q : Query)
  | Group_update (id : Identity) (spec : GroupSpec) | Group_delete (id : Identity)
  | Group_members (id : Identity) | Group_members_recursive (id : Identity)
  | Group_add_members (id : Identity) (ms : list Identity)
  | Group_remove_members (id : Identity) (ms : list Identity)
  | Group_is_member (id m : Identity)
  | User_create (spec : UserSpec) | User_get (id : Identity) | User_search (q : Query)
  | User_update (id : Identity) (spec : UserSpec) | User_delete (id : Identity)
  | User_set_password (id : Identity) (p : Secret)
  | Computer_create (spec : ComputerSpec Identity) | Computer_get (id : Identity) | Computer_search (q : Query)
  | Computer_update (id : Identity) (spec : ComputerSpec Identity) | Computer_delete (id : Identity)
  | GMSA_create (spec : GMSASpec Identity) | GMSA_get (id : Identity) | GMSA_search (q : Query)
  | GMSA_update (id : Identity) (spec : GMSASpec Identity) | GMSA_delete (id : Identity)
  | ACL_get (id : Identity) | ACL_grant (id : Identity) (aces : list ACE)
  | ACL_revoke (id : Identity) (aces : list ACE)
  | Schema_resolve (refs : list SchemaRef).

Definition ignore {A} (m : M A) : M unit := m;; mret tt.

Definition run_call (c : core) (fuel : nat) (x : call) : M unit :=
  match x with
  | OU_create spec => ignore (OU_Create c fuel spec)
  | OU_get id => ignore (OU_Get c id)
  | OU_search q => ignore (OU_Search c q)
  | OU_update id spec => ignore (OU_Update c fuel id spec)
  | OU_delete id opts => ignore (OU_Delete c id opts)
  | Group_create spec => ignore (Group_Create c fuel spec)
  | Group_get id => ignore (Group_Get c id)
  | Group_search q => ignore (Group_Search c q)
  | Group_update id spec => ignore (Group_Update c fuel id spec)
  | Group_delete id => ignore (Group_Delete c id)
  | Group_members id => ignore (Members c fuel id)
  | Group_members_recursive id => ignore (MembersRecursive c id)
  | Group_add_members id ms => ignore (AddMembers c id ms)
  | Group_remove_members id ms => ignore (RemoveMembers c id ms)
  | Group_is_member id m => ignore (IsMember c id m)
  | User_create spec => ignore (User_Create c fuel spec)
  | User_get id => ignore (User_Get c id)
  | User_search q => ignore (User_Search c q)
  | User_update id spec => ignore (User_Update c fuel id spec)
  | User_delete id => ignore (User_Delete c id)
  | User_set_password id p => ignore (SetPassword c id p)
  | Computer_create spec => ignore (Computer_Create c fuel spec)
  | Computer_get id => ignore (Computer_Get c id)
  | Computer_search q => ignore (Computer_Search c q)
  | Computer_update id spec => ignore (Computer_Update c fuel id spec)
  | Computer_delete id => ignore (Computer_Delete c id)
  | GMSA_create spec => ignore (GMSA_Create c fuel spec)
  | GMSA_get id => ignore (GMSA_Get c id)
  | GMSA_search q => ignore (GMSA_Search c q)
  | GMSA_update id spec => ignore (GMSA_Update c fuel id spec)
  | GMSA_delete id => ignore (GMSA_Delete c id)
  | ACL_get id => ignore (ACL_Get c id)
  | ACL_grant id aces => ignore (Grant c id aces)
  | ACL_revoke id aces => ignore (Revoke c id aces)
  | Schema_resolve refs => ignore (Resolve c refs)
  end.

(** One call after the other: the results, and the state they leave. *)
Fixpoint run_calls (c : core) (fuel : nat) (xs : list call) (s : St) : list (outcome unit) * St :=
  match xs with
  | [] => ([], s)
  | x :: xs =>
      let '(r, s) := run_call c fuel x s in
      let '(rs, s) := run_calls c fuel xs s in
      (r :: rs, s)
  end.

(** [newClient], the calls, [Close]: the client (or why there is none), the
    results, and the last state. *)
Definition session (c : core) (fuel : nat) (xs : list call) (s : St)
    : outcome core * list (outcome unit) * St :=
  let '(r, s) := newClient c s in
  match r with
  | Ret c => let '(rs, s) := run_calls c fuel xs s in (Ret c, rs, snd (Client_Close s))
  | r => (r, [], s)
  end.

(** [Group.Members] follows the pages of the server as long as it sends
    another, so only the server bounds it. *)
Definition paged (x : call) : bool := match x with Group_members _ => true | _ => false end.

(** ** Lemmas *)

Lemma ignore_runs {A} P (m : M A) : runs P m -> runs P (ignore m).
Proof. intros Hm. apply runs_bind; [done|]. intros a. apply quiet_ret. Qed.

Lemma level_ignore {A} opened (m : M A) : level opened m -> level opened (ignore m).
Proof. intros Hm. apply level_bind; [done|]. intros a. apply level_ret. Qed.

Context (c : core) (fuel : nat).

Lemma level_run_call opened x : ledger opened -> level opened (run_call c fuel x).
Proof.
  intros Hled. destruct x; cbn [run_call]; apply level_ignore;
    eauto using level_OU_Create, level_OU_Get, level_OU_Search, level_OU_Update, level_OU_Delete,
      level_Group_Create, level_Group_Get, level_Group_Search, level_Group_Update, level_Group_Delete,
      level_Members, level_MembersRecursive, level_editMembers, level_IsMember,
      level_User_Create, level_User_Get, level_User_Search, level_User_Update, level_User_Delete,
      level_SetPassword, level_Computer_Create, level_Computer_Get, level_Computer_Search,
      level_Computer_Update, level_Computer_Delete, level_GMSA_Create, level_GMSA_Get,
      level_GMSA_Search, level_GMSA_Update, level_GMSA_Delete, level_ACL_Get, level_Grant,
      level_Revoke, level_Resolve.
Qed.

Lemma level_run_calls opened xs s :
  ledger opened -> lent opened (snd (run_calls c fuel xs s)) = lent opened s.
Proof.
  intros Hled. revert s. induction xs as [|x xs IH]; intros s; [done|]. cbn [run_calls].
  pose proof (level_run_call opened x Hled s) as Hx. destruct (run_call c fuel x s) as [r s1].
  specialize (IH s1). destruct (run_calls c fuel xs s1) as [rs s2]. cbn in *. congruence.
Qed.

(** Every key is free. *)
Definition all_free (l : Mutex) : Prop :=
  forall key, exists l', mutex_lock key l = Some l' /\ mutex_unlock key l' = l.

(** What [GMSASpec.Validate] promises a create: the host name is there. *)
Definition host_validated : Prop := forall (spec : GMSASpec Identity) op,
  GMSASpec_Validate spec op true = None -> ms_DNSHostName spec <> None.

Lemma run_call_runs x :
  (forall guid, quiet (replicate c fuel guid)) -> host_validated -> paged x = false ->
  runs (fun s => all_free (st_locks s)) (run_call c fuel x).
Proof.
  intros Hrep Hhost Hx.
  assert (forall A key (m : M A), runs (unlocked key) m -> runs (fun s => all_free (st_locks s)) m) as Hlk.
  { intros A key m Hm s Hs Hf. apply Hm; [done|]. apply Hf. }
  assert (forall A (m : M A), quiet m -> runs (fun s => all_free (st_locks s)) m) as Hq.
  { intros A m. apply runs_quiet. }
  destruct x; try discriminate Hx; cbn [run_call]; apply ignore_runs;
    first
      [ apply Hq; solve [eauto using OU_Create_quiet, OU_Get_quiet, OU_Search_quiet,
          Group_Create_quiet, Group_Get_quiet, Group_Search_quiet, MembersRecursive_quiet,
          IsMember_quiet, User_Get_quiet, User_Search_quiet, Computer_Create_quiet,
          Computer_Get_quiet, Computer_Search_quiet, GMSA_Create_quiet, GMSA_Get_quiet,
          GMSA_Search_quiet, ACL_Get_quiet, Resolve_quiet]
      | eapply Hlk; solve [eauto using OU_Update_runs, OU_Delete_runs, Group_Update_runs,
          Group_Delete_runs, editMembers_runs, User_Create_runs, User_Update_runs, User_Delete_runs,
          SetPassword_runs, Computer_Update_runs, Computer_Delete_runs, GMSA_Update_runs,
          GMSA_Delete_runs, Grant_runs, Revoke_runs] ].
Qed.

Lemma run_calls_run xs s :
  (forall guid, quiet (replicate c fuel guid)) -> host_validated ->
  Forall (fun x => paged x = false) xs -> free s -> all_free (st_locks s) ->
  Forall returns (fst (run_calls c fuel xs s)) /\
  sem (st_pool (snd (run_calls c fuel xs s))) = sem (st_pool s) /\
  st_locks (snd (run_calls c fuel xs s)) = st_locks s.
Proof.
  intros Hrep Hhost Hxs. revert s. induction Hxs as [|x xs Hx Hxs IH]; intros s Hs Hl; [done|].
  cbn [run_calls]. destruct (run_call_runs x Hrep Hhost Hx s Hs Hl) as (Hr & Hsem & Hsz & Hlk).
  destruct (run_call c fuel x s) as [r s1]. cbn [fst snd] in *.
  destruct (IH s1) as (Hrs & Hsem' & Hlk'); [by eapply free_same|by rewrite Hlk|].
  destruct (run_calls c fuel xs s1) as [rs s2]. cbn [fst snd] in *.
  split; [by constructor|]. split; congruence.
Qed.

End session.

Section session_lemmas.
Context `{Unicode} `{AdCore} `{Env}.

Lemma M_bind_Fail {A B} (m : M A) (f : A -> M B) s e s' :
  (m ≫= f) s = (Fail e, s') ->
  m s = (Fail e, s') \/ exists a s1, m s = (Ret a, s1) /\ f a s1 = (Fail e, s').
Proof.
  unfold mbind, M_bind. destruct (m s) as [[a|e1| | |] s1]; try done.
  - intros Hf. right. by exists a, s1.
  - intros [= -> ->]. by left.
Qed.

Lemma on_error_Fail {A} (m : M A) (f : error -> M A) s e s' :
  on_error m f s = (Fail e, s') -> exists e1 s1, m s = (Fail e1, s1) /\ f e1 s1 = (Fail e, s').
Proof.
  unfold on_error, attempt, mbind, M_bind. destruct (m s) as [[a|e1| | |] s1]; cbn; try done.
  intros Hf. by exists e1, s1.
Qed.

Lemma close_pool_then {A} e0 s1 e s' :
  (close_pool;; fail (A := A) e0) s1 = (Fail e, s') ->
  idle (st_pool s') = [] /\ done (st_pool s') = true.
Proof.
  destruct (close_pool_closes s1) as (s2 & Hc & Hi & Hd & _). unfold mbind, M_bind. rewrite Hc.
  cbn. by intros [= <- <-].
Qed.

(** A client that could not be made leaves a closed and empty pool. *)
Lemma newClient_Fail c s e s' :
  newClient c s = (Fail e, s') -> idle (st_pool s') = [] /\ done (st_pool s') = true.
Proof.
  intros [(e1 & s1 & _ & Hf)%on_error_Fail|([[dnc sch] conf] & s1 & _ & Hf)]%M_bind_Fail.
  - by eapply close_pool_then.
  - destruct dnc; [by eapply close_pool_then|discriminate Hf].
Qed.

Lemma Close_closes s :
  idle (st_pool (snd (Client_Close s))) = [] /\ done (st_pool (snd (Client_Close s))) = true /\
  sem (st_pool (snd (Client_Close s))) = sem (st_pool s) /\
  st_locks (snd (Client_Close s)) = st_locks s.
Proof.
  unfold Client_Close, Pool_Close, close_section, tell. cbn.
  by destruct (close_all (idle (st_pool s)) (st_world s)) as [e w].
Qed.
End session_lemmas.

(** ** Properties *)

(** C1: a session leaves nothing behind.  Over any directory, dialler and
    binder, for any sequence of calls with any arguments: making the client
    returns; when the session is over the pool is closed and empty and every
    connection that was dialled, for the pool or for a replication target, has
    been closed, whether the client could be made or not and however each call
    ended.  And with a clock that moves and a mutex whose keys are free, every
    call whose pages the server does not drive returns (no call blocks, panics
    or spins), and all permits and keys are back. *)
Theorem session_sound `{Unicode} `{AdCore} `{Env} (opened clock : World -> Z) (c : core) (fuel : nat)
    (size : Z) (locks : Mutex) (xs : list call) (w : World) :
  ledger opened -> ticking clock -> (replicate_fuel c <= fuel)%nat -> all_free locks -> host_validated ->
  let '(r, rs, s) := session c fuel xs (new_state _ size locks w) in
  returns r /\ idle (st_pool s) = [] /\ done (st_pool s) = true /\ opened (st_world s) = opened w /\
  (Forall (fun x => paged x = false) xs ->
     Forall returns rs /\ sem (st_pool s) = 0%nat /\ st_locks s = locks).
Proof.
  intros Hled Ht Hfuel Hfree Hhost. unfold session. set (s0 := new_state _ size locks w).
  pose proof (new_state_free _ size locks w) as Hs0. fold s0 in Hs0.
  pose proof (newClient_quiet c s0 Hs0 I) as (Hr & Hsem & Hsz & Hlk).
  pose proof (level_newClient opened Hled c s0) as Hlev.
  assert (lent opened s0 = opened w) as Hw by (unfold lent; cbn; change (len (@nil Handle)) with 0; lia).
  destruct (newClient c s0) as [r s1] eqn:En. cbn [fst snd] in *.
  destruct r as [c'|e| | |]; try done.
  - pose proof (newClient_Ret _ _ _ _ En) as (l & s3 & s4 & res & e & rest & _ & _ & Hc' & _).
    assert (forall guid, quiet (replicate c' fuel guid)) as Hrep.
    { intros guid. apply (replicate_quiet clock Ht). by subst c'. }
    pose proof (level_run_calls c' fuel opened xs s1 Hled) as Hlc.
    pose proof (run_calls_run c' fuel xs s1 Hrep Hhost) as Hrun.
    destruct (run_calls c' fuel xs s1) as [rs s2]. cbn [fst snd] in *.
    pose proof (level_Pool_Close opened Hled s2) as Hpc. fold Client_Close in Hpc.
    destruct (Close_closes s2) as (Hi & Hd & Hsc & Hlc').
    change (snd (Pool_Close s2)) with (snd (Client_Close s2)) in Hpc.
    split_and!; [done..| |].
    + unfold lent in Hpc at 1. rewrite Hi in Hpc. change (len (@nil Handle)) with 0 in Hpc. lia.
    + intros Hxs. destruct Hrun as (Hrs & Hsem2 & Hlk2); [done|by eapply free_same|by rewrite Hlk|].
      split_and!; [done|rewrite Hsc, Hsem2, Hsem; done|rewrite Hlc', Hlk2, Hlk; done].
  - destruct (newClient_Fail _ _ _ _ En) as [Hi Hd]. split_and!; [done..| |].
    + unfold lent in Hlev at 1. rewrite Hi in Hlev. change (len (@nil Handle)) with 0 in Hlev. lia.
    + intros _. split_and!; [by constructor|by rewrite Hsem|by rewrite Hlk].
Qed.

(** ** A session over the concrete library *)

Definition toy_server : gostring := "dc1.example.com"%go.
Definition toy_tls : TLSConfig gostring := mkTLSConfig toy_server VersionTLS12 false (Some "PEM"%go).
Definition toy_dial : toy_log -> (toy_conn + error) * toy_log :=
  @Dial toy_krb toy_ldap (@dial_options toy_krb toy_ldap toy_retries (toy_config toy_server) toy_server toy_tls).
Definition toy_binder : Binder :=
  KerberosBind (mkKerberosBinder [] [] "hunter2"%go "svc"%go "EXAMPLE.COM"%go [] [] toy_server None).
Definition toy_env : Env :=
  @client_env ascii_unicode toy_text toy_digests toy_krb toy_ldap toy_retries toy_platform
    (toy_config toy_server) toy_dial toy_binder.

Lemma toy_dialer :
  @dialer ascii_unicode toy_krb toy_ldap toy_retries (toy_config toy_server) [] = inl (toy_dial, toy_binder).
Proof. vm_compute. reflexivity. Qed.

(** The open connections of a log. *)
Definition toy_count (call : gostring) : Z :=
  if HasPrefix call "Dial "%go then 1 else if HasPrefix call "Close"%go then -1 else 0.
Definition toy_opened (w : toy_log) : Z := foldr (fun call n => n + toy_count call) 0 w.

Lemma toy_lib_ledger : @lib_ledger toy_krb toy_ldap toy_retries toy_platform toy_opened.
Proof.
  constructor; intros; cbn -[toy_count]; try done;
    match goal with |- context [toy_count ?x] =>
      let v := eval lazy in (toy_count x) in change (toy_count x) with v
    end; unfold toy_opened; lia.
Qed.

Lemma toy_ledger : @ledger toy_env toy_opened.
Proof.
  exact (@client_env_ledger ascii_unicode toy_text toy_digests toy_krb toy_ldap toy_retries toy_platform
    toy_opened toy_lib_ledger (toy_config toy_server) [] toy_dial toy_binder toy_dialer).
Qed.

Lemma toy_ticking : @ticking toy_env (fun _ => 0).
Proof. constructor; intros; done. Qed.

Lemma toy_all_free : @all_free toy_env [].
Proof.
  intros key. exists [key]. split; [done|]. cbn. by rewrite decide_False by naive_solver.
Qed.

Lemma toy_host_validated : @host_validated sample_adcore.
Proof. intros spec op. cbn. case_bool_decide; done. Qed.

(** Reads, a refused group and a search, then [Close]. *)
Definition toy_calls : list (@call sample_adcore) :=
  [ @OU_get sample_adcore (SampleDN "OU=x,DC=example,DC=com"%go);
    @Group_add_members sample_adcore (SampleDN "CN=g"%go) [SampleDN "CN=u"%go];
    @User_search sample_adcore (mkQuery [] [] SearchScopeSubtree 0);
    @Schema_resolve sample_adcore [mkSchemaRef RefClass "user"%go] ].

Definition toy_session := @session ascii_unicode sample_adcore toy_env
  (@new_core toy_krb toy_ldap toy_retries (toy_config toy_server)) 64 toy_calls
  (@new_state toy_env 0 [] []).

(** Every call is answered, and the log ends with the one connection closed. *)
Example toy_session_log :
  (length (snd (fst toy_session)), @st_world toy_env (snd toy_session)) =
  (4%nat, ["Close"%go; "Search"%go; "Search"%go; "Search"%go; "Search"%go; "Search"%go; "Destroy"%go;
           "GSSAPI ldap/dc1.example.com"%go; "StartTLS dc1.example.com"%go;
           "Dial ldap://dc1.example.com:389"%go]).
Proof. vm_compute. reflexivity. Qed.

Lemma session_sound_witness :
  let '(r, rs, s) := toy_session in
  returns r /\ toy_opened (@st_world toy_env s) = 0 /\ Forall returns rs.
Proof.
  pose proof (@session_sound ascii_unicode sample_adcore toy_env toy_opened (fun _ => 0)
    (@new_core toy_krb toy_ldap toy_retries (toy_config toy_server)) 64 0 [] toy_calls []
    toy_ledger toy_ticking ltac:(vm_compute; lia) toy_all_free toy_host_validated) as Hs.
  unfold toy_session. destruct (session _ _ _ _) as [[r rs] s].
  destruct Hs as (Hr & _ & _ & Ho & Hrs). split; [exact Hr|]. split; [exact Ho|].
  apply Hrs. repeat constructor.
Defined.
