(* ===== verification/Memory.v ===== *)
(** * internal/adtest/memory.go: the in-memory directory

    The directory the conformance tests run the client against, as a concrete
    environment: [MemServer] with one function per method of its [conn.Conn].
    A Go map is an association list whose order is the order in which this run
    iterates it. *)
From S2P Require Export Filters Session.

(** [adcore.SplitDN]. *)
Class SplitDNs := SplitDN : gostring -> list gostring + error.

Definition DNC : gostring := "DC=corp,DC=local"%go.

(** *** sid.go *)
Definition DomainSID : bytes :=
  [x01; x04; x00; x00; x00; x00; x00; x05; x15; x00; x00; x00; x01; x00; x00; x00;
   x02; x00; x00; x00; x03; x00; x00; x00].

Definition attributes : Type := list (gostring * list bytes).

(** [rangeLimit] is the server's MaxValRange; 0 means no paging. *)
Record MemServer := mkMemServer {
  mem_entries : list (gostring * attributes);
  mem_seq : Z;
  mem_rangeLimit : Z
}.

Definition set_entries (m : MemServer) (es : list (gostring * attributes)) : MemServer :=
  mkMemServer es (mem_seq m) (mem_rangeLimit m).

Definition Seed (m : MemServer) (dn : gostring) (attrs : attributes) : MemServer :=
  set_entries m (map_set (mem_entries m) dn attrs).

Definition StartMemory : MemServer :=
  Seed (mkMemServer [] 0 0) DNC
    [("objectClass"%go, ["top"%go; "domainDNS"%go]); ("distinguishedName"%go, [DNC]);
     ("objectSid"%go, [DomainSID])].

Definition RangeLimit (m : MemServer) (n : Z) : MemServer := mkMemServer (mem_entries m) (mem_seq m) n.

(** [delete(m, k)]. *)
Definition map_delete {A} (m : list (gostring * A)) (k : gostring) : list (gostring * A) :=
  filter (fun kv => fst kv <> k) m.

Definition raw (code : Z) (diagnostic : gostring) : error := RawError code diagnostic None.
Definition diagNoObject : gostring := "0000208D: NameErr: DSID-03100238, problem 2001 (NO_OBJECT), data 0"%go.
Definition diagEntryExists : gostring := "00002071: UpdErr: DSID-030F1173, problem 6005 (ENTRY_EXISTS), data 0"%go.
Definition diagNotOnNonLeaf : gostring := "00002015: UpdErr: DSID-030F1219, problem 6003 (NOT_ALLOWED_ON_NON_LEAF), data 0"%go.
Definition diagSizeLimitHint : gostring := "00000004: SizeLimit exceeded"%go.

(** A descriptor with an empty DACL. *)
Definition emptyDescriptor : bytes :=
  [x01; x00] ++ le_encode 2 (Z.lor 0x8000 0x4) ++ repeat x00 12 ++ le_encode 4 20
  ++ [x02; x00] ++ le_encode 2 8 ++ le_encode 2 0 ++ [x00; x00].

(** [principalSID] of sid.go: one more sub-authority, the RID. *)
Definition mem_principalSID (rid : Z) : bytes :=
  take 1 DomainSID ++ [x05] ++ drop 2 DomainSID ++ le_encode 4 rid.

Definition principalClasses : list gostring :=
  ["user"%go; "computer"%go; "group"%go; "msds-groupmanagedserviceaccount"%go].

Section memory.
Context `{Unicode}.

Definition stampSID (entry : attributes) (rid : Z) : attributes :=
  if existsb (fun c => existsb (fun p => bool_decide (ToLower c = p)) principalClasses)
       (default [] (map_get entry "objectClass"%go))
  then map_set entry "objectSid"%go [mem_principalSID rid]
  else entry.

Definition hasControl (controls : list Control) (oid : gostring) : bool :=
  existsb (fun c => bool_decide (c_OID c = oid)) controls.

Definition isTombstone (attrs : attributes) : bool :=
  match lookupFold attrs "isDeleted"%go with
  | Some (v :: _) => EqualFold v "TRUE"%go
  | _ => false
  end.

(** ** What a search returns of an entry *)

Definition baseAttr (desc : gostring) : gostring :=
  match Index desc ";"%go with Some i => take (Z.to_nat i) desc | None => desc end.

Definition project (attrs : attributes) (want : list gostring) : attributes :=
  match want with
  | [] => attrs
  | _ => filter (fun kv => existsb (fun w => bool_decide (w = "*"%go) || EqualFold (baseAttr w) (fst kv)) want
                           = true) attrs
  end.

(** The offset a ranged request asks for. *)
Definition range_lo (w : gostring) : outcome Z :=
  match Index (ToLower w) ";range="%go with
  | None => Ret 0
  | Some i =>
      spec ← slice_from w (i + 7);
      match Index spec "-"%go with
      | None => Ret 0
      | Some j => match Atoi (take (Z.to_nat j) spec) with Ret n => Ret n | _ => Ret 0 end
      end
  end.

(** One requested name: the attribute becomes a page of its values. *)
Definition range_page (attrs : attributes) (limit : Z) (out : attributes) (w : gostring)
    : outcome attributes :=
  let base := baseAttr w in
  match map_get attrs base with
  | None => Ret out
  | Some vals =>
      if len vals <=? limit then Ret out
      else
        lo ← range_lo w;
        let lo := if len vals <? lo then len vals else lo in
        let hi := lo + limit in
        let out := map_delete out base in
        if len vals <=? hi then
          Ret (map_set out (base ++ ";range="%go ++ fmt_d lo ++ "-*"%go) (drop (Z.to_nat lo) vals))
        else
          Ret (map_set out (base ++ ";range="%go ++ fmt_d lo ++ "-"%go ++ fmt_d (hi - 1))
                 (take (Z.to_nat limit) (drop (Z.to_nat lo) vals)))
  end.

Fixpoint range_pages (attrs : attributes) (limit : Z) (want : list gostring) (out : attributes)
    : outcome attributes :=
  match want with
  | [] => Ret out
  | w :: want => out ← range_page attrs limit out w; range_pages attrs limit want out
  end.

Definition rangePages (attrs : attributes) (want : list gostring) (limit : Z) : outcome attributes :=
  if limit <=? 0 then Ret attrs else range_pages attrs limit want attrs.

(** ** Search *)

(** The entries of a search, in the order of the map. *)
Fixpoint collect (m : MemServer) (req : SearchRequest) (es : list (gostring * attributes))
    : outcome (list Entry) :=
  match es with
  | [] => Ret []
  | (dn, attrs) :: es =>
      inside ← inScopeMem dn (sr_BaseDN req) (sr_Scope req);
      if negb inside then collect m req es
      else if isTombstone attrs && negb (hasControl (sr_Controls req) ControlShowDeleted)
      then collect m req es
      else
        matches ← matchFilter attrs (sr_Filter req);
        if negb matches then collect m req es
        else
          page ← rangePages (project attrs (sr_Attributes req)) (sr_Attributes req) (mem_rangeLimit m);
          out ← collect m req es;
          Ret (mkEntry dn page :: out)
  end.

Definition rootDSE : Entry :=
  mkEntry [] [("defaultNamingContext"%go, [DNC]); ("dnsHostName"%go, ["dc01.corp.local"%go]);
              ("schemaNamingContext"%go, ["CN=Schema,CN=Configuration,"%go ++ DNC]);
              ("configurationNamingContext"%go, ["CN=Configuration,"%go ++ DNC])].

Definition existsLocked (m : MemServer) (dn : gostring) : bool :=
  existsb (fun kv => equalFoldDN (fst kv) dn) (mem_entries m).

Definition keyLocked (m : MemServer) (dn : gostring) : gostring :=
  default [] (find_map (fun kv => if equalFoldDN (fst kv) dn then Some (fst kv) else None)
                (mem_entries m)).

(** The partial result that comes with a size-limit error is dropped, as every
    caller does. *)
Definition mem_Search (m : MemServer) (req : SearchRequest) : outcome (SearchResult + error) :=
  if decide (sr_BaseDN req = [] /\ sr_Scope req = ScopeBase)
  then Ret (inl (mkSearchResult [rootDSE] []))
  else
    out ← collect m req (mem_entries m);
    if bool_decide (out = []) && bool_decide (sr_Scope req = ScopeBase)
       && negb (existsLocked m (sr_BaseDN req))
    then Ret (inr (raw 32 diagNoObject))
    else if (0 <? sr_SizeLimit req) && (sr_SizeLimit req <? len out)
    then Ret (inr (raw 4 diagSizeLimitHint))
    else Ret (inl (mkSearchResult out [])).

(** ** Writes *)

Definition nextGUID (m : MemServer) : bytes * MemServer :=
  let seq := uint32 (mem_seq m + 1) in
  (le_encode 4 seq ++ repeat x00 12, mkMemServer (mem_entries m) seq (mem_rangeLimit m)).

Definition rdnValue `{SplitDNs} (dn : gostring) : gostring :=
  match SplitDN dn with
  | inl (p :: _) =>
      match Index p "="%go with
      | Some i => remove_byte "\"%byte (drop (Z.to_nat (i + 1)) p)
      | None => []
      end
  | _ => []
  end.

Definition mem_Add `{SplitDNs} (m : MemServer) (dn : gostring) (add : list Attribute)
    : option error * MemServer :=
  if existsLocked m dn then (Some (raw 68 diagEntryExists), m)
  else
    let attrs := fold_left (fun acc a => map_set acc (a_Type a) (a_Vals a)) add [] in
    let '(guid, m) := nextGUID m in
    let attrs := map_set attrs "objectGUID"%go [guid] in
    let attrs := map_set attrs "nTSecurityDescriptor"%go [emptyDescriptor] in
    let attrs := map_set attrs "distinguishedName"%go [dn] in
    let attrs := map_set attrs "name"%go [rdnValue dn] in
    let attrs := stampSID attrs (uint32 (1000 + mem_seq m)) in
    (None, set_entries m (map_set (mem_entries m) dn attrs)).

(** The spelling an attribute already has. *)
Definition attrKey (attrs : attributes) (name : gostring) : gostring :=
  default name (find_map (fun kv => if EqualFold (fst kv) name then Some (fst kv) else None) attrs).

Definition without (have drop : list bytes) : list bytes :=
  filter (fun h => existsb (fun d => EqualFold h d) drop = false) have.

(** One modification of an entry. *)
Definition mem_modify_one (attrs : attributes) (md : Modification) : attributes :=
  let name := attrKey attrs (m_Type md) in
  let have := default [] (map_get attrs name) in
  match m_Op md with
  | ModAdd => map_set attrs name (have ++ m_Vals md)
  | ModDelete =>
      match m_Vals md with
      | [] => map_delete attrs name
      | drop => map_set attrs name (without have drop)
      end
  | ModReplace =>
      match m_Vals md with
      | [] => map_delete attrs name
      | vals => map_set attrs name vals
      end
  end.

Definition mem_Modify (m : MemServer) (dn : gostring) (mods : list Modification)
    : option error * MemServer :=
  match keyLocked m dn with
  | [] => (Some (raw 32 diagNoObject), m)
  | key =>
      let attrs := default [] (map_get (mem_entries m) key) in
      (None, set_entries m (map_set (mem_entries m) key (fold_left mem_modify_one mods attrs)))
  end.

(** The loop that moves the descendants of [key] under [target].  It visits the
    names there were when it started, those that are still there: Go lets a
    range over a map skip what the body inserts. *)
Fixpoint move_children (key target : gostring) (names : list gostring)
    (es : list (gostring * attributes)) : outcome (list (gostring * attributes)) :=
  match names with
  | [] => Ret es
  | childDN :: names =>
      match map_get es childDN with
      | None => move_children key target names es
      | Some attrs =>
          if bool_decide (childDN = target) || negb (isUnder childDN key)
          then move_children key target names es
          else
            suffix ← slice childDN 0 (len childDN - len key);
            let moved := suffix ++ target in
            move_children key target names
              (map_set (map_delete es childDN) moved (map_set attrs "distinguishedName"%go [moved]))
      end
  end.

Definition mem_ModifyDN `{AdCore} `{SplitDNs} (m : MemServer) (dn newRDN newSuperior : gostring)
    : outcome (option error * MemServer) :=
  match keyLocked m dn with
  | [] => Ret (Some (raw 32 diagNoObject), m)
  | key =>
      match match newSuperior with [] => ContainerOf key | s => inl s end with
      | inr _ => Ret (Some (raw 34 "00000034: invalid DN syntax"%go), m)
      | inl parent =>
          let target := newRDN ++ ","%go ++ parent in
          if negb (equalFoldDN target key) && existsLocked m target
          then Ret (Some (raw 68 diagEntryExists), m)
          else
            let attrs := default [] (map_get (mem_entries m) key) in
            let attrs := map_set attrs "distinguishedName"%go [target] in
            let attrs := map_set attrs "name"%go [rdnValue target] in
            let es := map_set (map_delete (mem_entries m) key) target attrs in
            es ← move_children key target (map fst es) es;
            Ret (None, set_entries m es)
      end
  end.

Definition mem_Delete (m : MemServer) (dn : gostring) : option error * MemServer :=
  match keyLocked m dn with
  | [] => (Some (raw 32 diagNoObject), m)
  | key =>
      if existsb (fun kv => negb (bool_decide (fst kv = key)) && isUnder (fst kv) key) (mem_entries m)
      then (Some (raw 66 diagNotOnNonLeaf), m)
      else (None, set_entries m (map_delete (mem_entries m) key))
  end.
End memory.

(** ** Go maps *)

Lemma map_get_delete {A} (m : list (gostring * A)) k k' :
  map_get (map_delete m k) k' = if decide (k = k') then None else map_get m k'.
Proof.
  unfold map_delete. case_decide as Hk; [subst; apply map_get_none|].
  rewrite map_get_filter by congruence. done.
Qed.

(** Distinct keys, the representation invariant of a Go map. *)
Definition go_map {A} (m : list (gostring * A)) : Prop := List.NoDup (map fst m).

Lemma map_set_keys {A} (m : list (gostring * A)) k v x :
  In x (map fst (map_set m k v)) <-> x = k \/ In x (map fst m).
Proof.
  induction m as [|[k' v'] m IH]; cbn; [naive_solver|]. case_decide as Hk; cbn; [naive_solver|].
  rewrite IH. naive_solver.
Qed.

Lemma map_delete_keys {A} (m : list (gostring * A)) k x :
  In x (map fst (map_delete m k)) <-> x <> k /\ In x (map fst m).
Proof.
  unfold map_delete. rewrite !in_map_iff. setoid_rewrite In_filter. split.
  - intros (kv & <- & Hk & Hin). split; [done|]. by exists kv.
  - intros (Hk & kv & <- & Hin). by exists kv.
Qed.

Lemma map_delete_cons {A} (m : list (gostring * A)) k k' v :
  map_delete ((k', v) :: m) k = if decide (k' = k) then map_delete m k else (k', v) :: map_delete m k.
Proof.
  unfold map_delete. case_decide; [by rewrite filter_cons_False by naive_solver|].
  by rewrite filter_cons_True by done.
Qed.

Lemma go_map_set {A} (m : list (gostring * A)) k v : go_map m -> go_map (map_set m k v).
Proof.
  unfold go_map. induction m as [|[k' v'] m IH]; cbn; [constructor; [easy|constructor]|].
  intros [Hni Hnd]%List.NoDup_cons_iff. case_decide as Hk; cbn.
  - subst. by constructor.
  - constructor; [|by apply IH]. rewrite map_set_keys. naive_solver.
Qed.

Lemma go_map_delete {A} (m : list (gostring * A)) k : go_map m -> go_map (map_delete m k).
Proof.
  unfold go_map. induction m as [|[k' v'] m IH]; [done|]. cbn [map fst].
  intros [Hni Hnd]%List.NoDup_cons_iff. rewrite map_delete_cons. case_decide; [by apply IH|].
  cbn. constructor; [|by apply IH]. rewrite map_delete_keys. naive_solver.
Qed.
Create HintDb gomap.
#[export] Hint Resolve go_map_set go_map_delete : gomap.

Lemma go_map_fold {A B} (f : B -> gostring) (g : B -> A) l (m : list (gostring * A)) :
  go_map m -> go_map (fold_left (fun acc a => map_set acc (f a) (g a)) l m).
Proof. revert m. induction l as [|a l IH]; intros m Hm; [done|]. cbn. auto with gomap. Qed.

Lemma map_set_In {A} (m : list (gostring * A)) k v kv :
  In kv (map_set m k v) -> kv = (k, v) \/ In kv m.
Proof.
  induction m as [|[k' v'] m IH]; cbn; [naive_solver|]. case_decide; cbn; naive_solver.
Qed.

(** ** Well-formed directories *)

(** [strings.EqualFold] on the strings the abstract slow path decides. *)
Class FoldLaws `{Unicode} : Prop := {
  EqualFold_sym a b : EqualFold a b = true -> EqualFold b a = true;
  EqualFold_trans a b c : EqualFold a b = true -> EqualFold b c = true -> EqualFold a c = true
}.

Section wf.
Context `{FoldLaws}.

Lemma equalFoldDN_sym a b : equalFoldDN a b = true -> equalFoldDN b a = true.
Proof using All. apply EqualFold_sym. Qed.
Lemma equalFoldDN_trans a b c : equalFoldDN a b = true -> equalFoldDN b c = true -> equalFoldDN a c = true.
Proof using All. apply EqualFold_trans. Qed.
Lemma equalFoldDN_false a b c :
  equalFoldDN a b = true -> equalFoldDN b c = false -> equalFoldDN a c = false.
Proof using All.
  intros Hab Hbc. apply not_true_iff_false. intros Hac.
  by rewrite (equalFoldDN_trans b a c) in Hbc by eauto using equalFoldDN_sym.
Qed.
Lemma equalFoldDN_false_sym a b : equalFoldDN a b = false -> equalFoldDN b a = false.
Proof using All. rewrite <- !not_true_iff_false. eauto using equalFoldDN_sym. Qed.

(** No two entries with the same name up to case and spaces, and every entry a
    Go map of attributes. *)
Record mem_wf (m : MemServer) : Prop := {
  wf_keys : go_map (mem_entries m);
  wf_distinct a b : In a (map fst (mem_entries m)) -> In b (map fst (mem_entries m)) ->
    equalFoldDN a b = true -> a = b;
  wf_attrs dn attrs : In (dn, attrs) (mem_entries m) -> go_map attrs;
  wf_seq : mem_seq m = uint32 (mem_seq m)
}.

(** Setting an entry whose name no other entry has. *)
Lemma mem_wf_set m dn attrs :
  mem_wf m -> go_map attrs ->
  (forall a, In a (map fst (mem_entries m)) -> equalFoldDN a dn = true -> a = dn) ->
  mem_wf (set_entries m (map_set (mem_entries m) dn attrs)).
Proof using All.
  intros [Hk Hd Ha Hs] Hattrs Hdn. split; cbn.
  - auto with gomap.
  - intros a b [->|Hina]%map_set_keys [->|Hinb]%map_set_keys Heq; [done| |by apply Hdn|by apply Hd].
    symmetry. apply Hdn; [done|]. by apply equalFoldDN_sym.
  - intros dn' attrs' [[= -> ->]|Hin]%map_set_In; [done|by eapply Ha].
  - done.
Qed.

Lemma mem_wf_delete m dn : mem_wf m -> mem_wf (set_entries m (map_delete (mem_entries m) dn)).
Proof using Type.
  intros [Hk Hd Ha Hs]. split; cbn.
  - auto with gomap.
  - intros a b [_ Hina]%map_delete_keys [_ Hinb]%map_delete_keys. by apply Hd.
  - intros dn' attrs' [_ Hin]%In_filter. by eapply Ha.
  - done.
Qed.

Lemma existsLocked_false m dn :
  existsLocked m dn = false <-> forall a, In a (map fst (mem_entries m)) -> equalFoldDN a dn = false.
Proof using Type.
  unfold existsLocked. rewrite <- not_true_iff_false, existsb_exists. split.
  - intros Hn a ([k v] & <- & Hin)%in_map_iff. apply not_true_iff_false. intros Heq. apply Hn. by exists (k, v).
  - intros Hall ([k v] & Hin & Heq). apply (in_map fst), Hall in Hin. cbn in *. congruence.
Qed.

Lemma keyLocked_key m dn :
  keyLocked m dn = [] \/
  equalFoldDN (keyLocked m dn) dn = true /\ In (keyLocked m dn) (map fst (mem_entries m)).
Proof using Type.
  unfold keyLocked. destruct (find_map _ _) as [k|] eqn:E; [|by left]. right. cbn.
  apply find_map_Some in E as ([k' v] & Hin & Hk). cbn [fst] in Hk.
  destruct (equalFoldDN k' dn) eqn:Ef; [|done]. injection Hk as ->. split; [done|].
  by apply (in_map fst) in Hin.
Qed.

Lemma stampSID_go_map attrs rid : go_map attrs -> go_map (stampSID attrs rid).
Proof using Type. unfold stampSID. case_match; auto with gomap. Qed.

Lemma go_map_nil {A} : go_map (A := A) [].
Proof using Type. constructor. Qed.

Lemma uint32_idem z : uint32 z = uint32 (uint32 z).
Proof using Type. unfold wrap_u. by rewrite Z.mod_mod. Qed.

Lemma Add_wf `{SplitDNs} m dn add : mem_wf m -> mem_wf (snd (mem_Add m dn add)).
Proof using All.
  intros Hm. unfold mem_Add. destruct (existsLocked m dn) eqn:E; [done|]. cbv zeta. unfold nextGUID.
  cbn [snd]. apply (mem_wf_set (mkMemServer (mem_entries m) _ _)).
  - destruct Hm as [Hk Hd Ha Hs]. split; cbn; [done..|]. apply uint32_idem.
  - apply stampSID_go_map. repeat apply go_map_set. apply go_map_fold, go_map_nil.
  - intros a Hin Heq. cbn in Hin. rewrite existsLocked_false in E. by rewrite E in Heq.
Qed.

Lemma modify_one_go_map attrs md : go_map attrs -> go_map (mem_modify_one attrs md).
Proof using Type. intros. unfold mem_modify_one. repeat case_match; auto with gomap. Qed.

Lemma entry_go_map m key : mem_wf m -> go_map (default [] (map_get (mem_entries m) key)).
Proof using Type.
  intros Hm. destruct (map_get _ _) as [attrs|] eqn:E; [|apply go_map_nil]. cbn.
  apply map_get_Some in E. by eapply wf_attrs.
Qed.

Lemma wf_set_same m key attrs :
  mem_wf m -> In key (map fst (mem_entries m)) -> go_map attrs ->
  mem_wf (set_entries m (map_set (mem_entries m) key attrs)).
Proof using All. intros Hm Hin Ha. apply mem_wf_set; [done..|]. intros a Hina Heq. by apply (wf_distinct m). Qed.

Lemma Modify_wf m dn mods : mem_wf m -> mem_wf (snd (mem_Modify m dn mods)).
Proof using All.
  intros Hm. unfold mem_Modify. pose proof (keyLocked_key m dn) as Hkey.
  destruct (keyLocked m dn) as [|c key]; [done|]. destruct Hkey as [|[_ Hin]]; [done|]. cbn [snd].
  apply wf_set_same; [done..|]. pose proof (entry_go_map m (c :: key) Hm) as Ha. revert Ha.
  generalize (default [] (map_get (mem_entries m) (c :: key))).
  induction mods as [|md mods IH]; intros attrs Ha; [done|]. cbn. by apply IH, modify_one_go_map.
Qed.

Lemma Delete_wf m dn : mem_wf m -> mem_wf (snd (mem_Delete m dn)).
Proof using Type.
  intros Hm. unfold mem_Delete. destruct (keyLocked m dn); [done|]. case_match; [done|]. by apply mem_wf_delete.
Qed.

(** *** Renames *)

(** No other entry lies under [key]. *)
Definition leaf (m : MemServer) (key : gostring) : Prop :=
  forall a, In a (map fst (mem_entries m)) -> a <> key -> isUnder a key = false.

Lemma move_children_none key target names es :
  (forall a, In a names -> a = target \/ isUnder a key = false) ->
  move_children key target names es = Ret es.
Proof using Type.
  induction names as [|a names IH]; intros Hall; [done|]. cbn [move_children].
  destruct (map_get es a) as [attrs|]; [|by apply IH; intros; apply Hall; right].
  assert (bool_decide (a = target) || negb (isUnder a key) = true) as ->.
  { destruct (Hall a) as [->| ->]; [by left|by rewrite bool_decide_eq_true_2|apply orb_true_r]. }
  by apply IH; intros; apply Hall; right.
Qed.

(** The entry of a renamed object. *)
Definition renamed `{SplitDNs} (attrs : attributes) (target : gostring) : attributes :=
  map_set (map_set attrs "distinguishedName"%go [target]) "name"%go [rdnValue target].

Definition new_parent `{AdCore} (key newSuperior parent : gostring) : Prop :=
  match newSuperior with [] => ContainerOf key = inl parent | s => parent = s end.

(** What the successful rename of an object without descendants does. *)
Lemma ModifyDN_leaf `{AdCore} `{SplitDNs} m dn newRDN newSuperior m' :
  mem_wf m -> leaf m (keyLocked m dn) ->
  mem_ModifyDN m dn newRDN newSuperior = Ret (None, m') ->
  let key := keyLocked m dn in
  exists parent target,
    new_parent key newSuperior parent /\ target = newRDN ++ ","%go ++ parent /\
    equalFoldDN key dn = true /\ In key (map fst (mem_entries m)) /\
    (equalFoldDN target key = true \/ existsLocked m target = false) /\
    m' = set_entries m (map_set (map_delete (mem_entries m) key) target
           (renamed (default [] (map_get (mem_entries m) key)) target)).
Proof using Type.
  intros Hm Hleaf. cbv zeta. unfold mem_ModifyDN. revert Hleaf. pose proof (keyLocked_key m dn) as Hkey.
  destruct (keyLocked m dn) as [|c key']; intros Hleaf; [done|]. destruct Hkey as [|[Heq Hin]]; [done|].
  set (key := c :: key') in *.
  destruct (match newSuperior with [] => ContainerOf key | s => inl s end) as [parent|] eqn:Hp; [|done].
  set (target := newRDN ++ ","%go ++ parent). destruct (negb _ && _) eqn:Ex; [done|]. cbv zeta.
  rewrite move_children_none; [intros [= <-]|].
  - exists parent, target. split_and!; try done; [by destruct newSuperior; cbn; congruence|].
    apply andb_false_iff in Ex as [E%negb_false_iff|E]; [by left|by right].
  - intros a [->|[Hne Hina]%map_delete_keys]%map_set_keys; [by left|right]. by apply Hleaf.
Qed.

Lemma renamed_wf `{SplitDNs} m key target :
  mem_wf m -> In key (map fst (mem_entries m)) ->
  (equalFoldDN target key = true \/ existsLocked m target = false) ->
  mem_wf (set_entries m (map_set (map_delete (mem_entries m) key) target
           (renamed (default [] (map_get (mem_entries m) key)) target))).
Proof using All.
  intros Hm Hin Htarget.
  apply (mem_wf_set (set_entries m (map_delete (mem_entries m) key))); [by apply mem_wf_delete| |].
  - unfold renamed. repeat apply go_map_set. by apply entry_go_map.
  - intros a [Hne Hina]%map_delete_keys Heq. destruct Htarget as [Ht|Ht].
    + exfalso. apply Hne, (wf_distinct m); [done..|]. by eapply equalFoldDN_trans.
    + rewrite existsLocked_false in Ht. by rewrite Ht in Heq.
Qed.

Lemma ModifyDN_failed `{AdCore} `{SplitDNs} m dn newRDN newSuperior e m' :
  mem_ModifyDN m dn newRDN newSuperior = Ret (Some e, m') -> m' = m.
Proof using Type.
  unfold mem_ModifyDN. destruct (keyLocked m dn); [by intros [= _ <-]|].
  destruct (match newSuperior with [] => _ | _ => _ end); [|by intros [= _ <-]].
  case_match; [by intros [= _ <-]|]. cbv zeta. by destruct (move_children _ _ _ _).
Qed.

Lemma ModifyDN_wf `{AdCore} `{SplitDNs} m dn newRDN newSuperior r m' :
  mem_wf m -> leaf m (keyLocked m dn) -> mem_ModifyDN m dn newRDN newSuperior = Ret (r, m') -> mem_wf m'.
Proof using All.
  intros Hm Hl. destruct r as [e|]; [by intros ->%ModifyDN_failed|].
  intros (parent & target & _ & _ & _ & Hin & Ht & ->)%ModifyDN_leaf; [|done..]. by apply renamed_wf.
Qed.

(** *** Moving the descendants *)

Lemma map_get_key {A} (es : list (gostring * A)) k : In k (map fst es) -> map_get es k <> None.
Proof using Type.
  unfold map_get. induction es as [|[k' v] es IH]; [done|]. cbn. intros [->|Hin]; [by rewrite decide_True|].
  case_decide; [done|by apply IH].
Qed.

(** The names the loop changes, and what it makes of them. *)
Definition moving (key target a : gostring) : bool := negb (bool_decide (a = target)) && isUnder a key.
Definition moved_name (key target a : gostring) : gostring :=
  take (Z.to_nat (len a - len key)) a ++ target.
(** The names there are when the loop starts. *)
Definition names_after (m : MemServer) (key target : gostring) : list gostring :=
  target :: filter (fun a => a <> key) (map fst (mem_entries m)).

(** No descendant moves onto another entry, and no two onto one name. *)
Definition no_collision (m : MemServer) (key target : gostring) : bool :=
  let names := names_after m key target in
  let apart a b := bool_decide (a = b) ||
    negb (equalFoldDN (moved_name key target a) b)
    && negb (moving key target b && equalFoldDN (moved_name key target a) (moved_name key target b)) in
  forallb (fun a => negb (moving key target a) || forallb (apart a) names) names.

Lemma no_collision_spec m key target a b :
  no_collision m key target = true -> In a (names_after m key target) -> In b (names_after m key target) ->
  moving key target a = true -> a <> b ->
  equalFoldDN (moved_name key target a) b = false /\
  (moving key target b = true -> equalFoldDN (moved_name key target a) (moved_name key target b) = false).
Proof using Type.
  unfold no_collision. cbv zeta. rewrite forallb_forall. intros Hall Ha Hb Hm Hne.
  specialize (Hall a Ha). rewrite Hm in Hall. cbn [negb orb] in Hall. rewrite forallb_forall in Hall.
  specialize (Hall b Hb). cbv beta in Hall. rewrite bool_decide_eq_false_2 in Hall by done. cbn [orb] in Hall.
  apply andb_prop in Hall as [H1a H2a]. apply negb_true_iff in H1a, H2a. split; [done|].
  intros Hmb. by rewrite Hmb in H2a.
Qed.

Definition final_name (key target a : gostring) : gostring :=
  if moving key target a then moved_name key target a else a.

Lemma slice_moved a n s : slice a 0 n = Ret s -> s = take (Z.to_nat n) a.
Proof using Type. unfold slice. case_match; [|done]. intros [= <-]. by rewrite Z.sub_0_r. Qed.

(** The loop: the entries have the names that are left and the final names of
    the others. *)
Lemma move_children_wf m key target names es es' :
  no_collision m key target = true -> List.NoDup names -> incl names (names_after m key target) ->
  mem_wf (set_entries m es) ->
  (forall z, In z (map fst es) -> In z names \/
     exists a, In a (names_after m key target) /\ ~ In a names /\ z = final_name key target a) ->
  move_children key target names es = Ret es' -> mem_wf (set_entries m es').
Proof using All.
  intros Hno. revert es. induction names as [|a names IH]; intros es Hnd Hincl Hwf Hcov; cbn [move_children].
  { by intros [= <-]. }
  apply List.NoDup_cons_iff in Hnd as [Hni Hnd]. apply incl_cons_inv in Hincl as [Ha Hincl].
  destruct (map_get es a) as [attrs|] eqn:Eg.
  2: { apply IH; [done..|]. intros z Hz. destruct (Hcov z Hz) as [[<-|Hin]|(b & Hb & Hnb & ->)].
       - by apply map_get_key in Hz.
       - by left.
       - right. exists b. split_and!; [done| |done]. intros Hin. apply Hnb. by right. }
  destruct (bool_decide (a = target) || negb (isUnder a key)) eqn:Emv.
  { assert (final_name key target a = a) as Hfa.
    { unfold final_name, moving. by destruct (bool_decide (a = target)), (isUnder a key). }
    apply IH; [done..|]. intros z Hz. destruct (Hcov z Hz) as [[<-|Hin]|(b & Hb & Hnb & ->)]; [|by left|].
    - right. by exists a.
    - right. exists b. split_and!; [done| |done]. intros Hin. apply Hnb. by right. }
  assert (moving key target a = true) as Hmv.
  { unfold moving. by destruct (bool_decide (a = target)), (isUnder a key). }
  destruct (slice a 0 (len a - len key)) as [suffix| | | |] eqn:Es; try done. cbn [mbind outcome_bind].
  apply slice_moved in Es. subst suffix. fold (moved_name key target a).
  apply IH; [done..| |].
  - apply (mem_wf_set (set_entries m (map_delete es a))).
    + apply (mem_wf_delete (set_entries m es) a Hwf).
    + apply go_map_set. apply map_get_Some in Eg. by apply (wf_attrs _ Hwf a).
    + intros z [Hne Hz]%map_delete_keys Heq. exfalso. apply equalFoldDN_sym in Heq.
      destruct (Hcov z Hz) as [[<-|Hin]|(b & Hb & Hnb & ->)]; [done| |].
      * destruct (no_collision_spec m key target a z Hno Ha (Hincl _ Hin) Hmv) as [Hf _]; [by intros <-|].
        by rewrite Hf in Heq.
      * destruct (no_collision_spec m key target a b Hno Ha Hb Hmv) as [Hf Hf2];
          [intros <-; apply Hnb; by left|].
        unfold final_name in Heq. destruct (moving key target b); [by rewrite Hf2 in Heq|by rewrite Hf in Heq].
  - intros z [->|[Hne Hz]%map_delete_keys]%map_set_keys.
    + right. exists a. split_and!; [done..|]. unfold final_name. by rewrite Hmv.
    + destruct (Hcov z Hz) as [[<-|Hin]|(b & Hb & Hnb & ->)]; [done|by left|].
      right. exists b. split_and!; [done| |done]. intros Hin. apply Hnb. by right.
Qed.

(** What any ModifyDN that succeeds goes through. *)
Lemma ModifyDN_steps `{AdCore} `{SplitDNs} m dn newRDN newSuperior m' :
  mem_ModifyDN m dn newRDN newSuperior = Ret (None, m') ->
  exists parent es', let key := keyLocked m dn in let target := newRDN ++ ","%go ++ parent in
    let es := map_set (map_delete (mem_entries m) key) target
                (renamed (default [] (map_get (mem_entries m) key)) target) in
    new_parent key newSuperior parent /\ In key (map fst (mem_entries m)) /\
    (equalFoldDN target key = true \/ existsLocked m target = false) /\
    move_children key target (map fst es) es = Ret es' /\ m' = set_entries m es'.
Proof using Type.
  unfold mem_ModifyDN. pose proof (keyLocked_key m dn) as Hkey.
  destruct (keyLocked m dn) as [|c key']; [done|]. destruct Hkey as [|[Heq Hin]]; [done|].
  set (key := c :: key') in *.
  destruct (match newSuperior with [] => ContainerOf key | s => inl s end) as [parent|] eqn:Hp; [|done].
  destruct (negb _ && _) eqn:Ex; [done|]. cbv zeta. fold (renamed (default [] (map_get (mem_entries m) key)) (newRDN ++ ","%go ++ parent)).
  destruct (move_children _ _ _ _) as [es'| | | |] eqn:Em; try done. intros [= <-].
  exists parent, es'. split_and!; try done; [by destruct newSuperior; cbn; congruence|].
  apply andb_false_iff in Ex as [E%negb_false_iff|E]; [by left|by right].
Qed.

Lemma ModifyDN_subtree_wf `{AdCore} `{SplitDNs} m dn newRDN newSuperior r m' :
  mem_wf m ->
  (forall parent, new_parent (keyLocked m dn) newSuperior parent ->
     no_collision m (keyLocked m dn) (newRDN ++ ","%go ++ parent) = true) ->
  mem_ModifyDN m dn newRDN newSuperior = Ret (r, m') -> mem_wf m'.
Proof using All.
  intros Hm Hno. destruct r as [e|]; [by intros ->%ModifyDN_failed|].
  intros (parent & es' & Hp & Hin & Ht & Hmv & ->)%ModifyDN_steps. cbv zeta in *.
  set (key := keyLocked m dn) in *. set (target := newRDN ++ ","%go ++ parent) in *.
  set (es := map_set _ _ _) in *.
  assert (mem_wf (set_entries m es)) as Hwf by by apply renamed_wf.
  eapply (move_children_wf m key target (map fst es) es es'); [by apply Hno|exact (wf_keys _ Hwf)| |done|by left|done].
  intros z [->|[Hne Hz]%map_delete_keys]%map_set_keys; [by left|]. right. by apply In_filter.
Qed.

(** The part of the invariant that no ModifyDN breaks. *)
Record mem_maps (m : MemServer) : Prop := {
  maps_keys : go_map (mem_entries m);
  maps_attrs dn attrs : In (dn, attrs) (mem_entries m) -> go_map attrs;
  maps_seq : mem_seq m = uint32 (mem_seq m)
}.

Lemma move_children_maps m key target names es es' :
  mem_maps (set_entries m es) -> move_children key target names es = Ret es' -> mem_maps (set_entries m es').
Proof using Type.
  revert es. induction names as [|a names IH]; intros es Hm; cbn [move_children]; [by intros [= <-]|].
  destruct (map_get es a) as [attrs|] eqn:Eg; [|by apply IH]. destruct (_ || _); [by apply IH|].
  destruct (slice _ _ _) as [suffix| | | |]; try done. cbn [mbind outcome_bind]. apply IH.
  destruct Hm as [Hk Ha Hs]. split; cbn in *; [auto with gomap| |done].
  intros dn' attrs' [[= -> ->]|[_ Hin]%In_filter]%map_set_In; [|by eapply Ha].
  apply go_map_set. apply map_get_Some in Eg. by eapply Ha.
Qed.

Lemma ModifyDN_maps `{AdCore} `{SplitDNs} m dn newRDN newSuperior r m' :
  mem_maps m -> mem_ModifyDN m dn newRDN newSuperior = Ret (r, m') -> mem_maps m'.
Proof using Type.
  intros Hm. destruct r as [e|]; [by intros ->%ModifyDN_failed|].
  intros (parent & es' & _ & _ & _ & Hmv & ->)%ModifyDN_steps. cbv zeta in *.
  eapply move_children_maps; [|exact Hmv]. destruct Hm as [Hk Ha Hs]. split; cbn; [auto with gomap| |done].
  intros dn' attrs' [[= -> ->]|[_ Hin]%In_filter]%map_set_In; [|by eapply Ha].
  unfold renamed. repeat apply go_map_set. destruct (map_get _ _) as [attrs|] eqn:E; [|apply go_map_nil].
  apply map_get_Some in E. by eapply Ha.
Qed.

Lemma wf_maps m : mem_wf m -> mem_maps m.
Proof using Type. intros [Hk Hd Ha Hs]. by split. Qed.
End wf.

(** ** Modify against the reference semantics *)

Section modify.
Context `{Unicode}.

(** Strings that only compare equal up to case when they are equal. *)
Definition exact_spelling (P : gostring -> Prop) : Prop :=
  forall a b, P a -> P b -> EqualFold a b = bool_decide (a = b).

(** The names and the values a request and an entry spell the same way. *)
Record consistent (N V : gostring -> Prop) (attrs : attributes) (mods : list Modification) : Prop := {
  con_names : exact_spelling N;
  con_vals : exact_spelling V;
  con_attr_names a : In a (map fst attrs) -> N a;
  con_attr_vals a v : In v (default [] (map_get attrs a)) -> V v;
  con_mod_names : List.Forall (fun md => N (m_Type md)) mods;
  con_mod_vals : List.Forall (fun md => List.Forall V (m_Vals md)) mods
}.

Lemma attrKey_exact N attrs name :
  exact_spelling N -> (forall a, In a (map fst attrs) -> N a) -> N name -> attrKey attrs name = name.
Proof.
  intros HN Ha Hn. unfold attrKey. destruct (find_map _ _) as [k|] eqn:E; [|done]. cbn.
  apply find_map_Some in E as ([k' v] & Hin & Hk). cbn [fst] in Hk.
  apply (in_map fst) in Hin. rewrite HN in Hk; [|by apply Ha|done].
  case_bool_decide; congruence.
Qed.

Lemma without_exact V have drop :
  exact_spelling V -> List.Forall V have -> List.Forall V drop ->
  without have drop = filter (fun v => v ∉ drop) have.
Proof.
  intros HV Hh Hd. unfold without. induction Hh as [|h have Hv Hh IH]; [done|].
  assert (existsb (fun d => EqualFold h d) drop = bool_decide (h ∈ drop)) as Hx.
  { clear IH Hh have. induction Hd as [|d drop Hdv Hd IH]; [done|]. cbn [existsb]. rewrite IH, HV by done.
    rewrite <- bool_decide_or. apply bool_decide_ext. by rewrite elem_of_cons. }
  destruct (decide (h ∈ drop)) as [Hin|Hin].
  - rewrite !filter_cons_False; [done|naive_solver|]. by rewrite Hx, bool_decide_eq_true_2.
  - rewrite !filter_cons_True; [by rewrite IH|done|]. by rewrite Hx, bool_decide_eq_false_2.
Qed.

Lemma modify_one_vals N V attrs md mods attr :
  consistent N V attrs (md :: mods) ->
  default [] (map_get (mem_modify_one attrs md) attr)
  = if decide (m_Type md = attr) then modified md (default [] (map_get attrs attr))
    else default [] (map_get attrs attr).
Proof.
  intros [HN HV Han Hav Hmn Hmv]. inversion_clear Hmn as [|?? Hn _]. inversion_clear Hmv as [|?? Hv _].
  unfold mem_modify_one. rewrite (attrKey_exact N) by done. unfold modified.
  assert (List.Forall V (default [] (map_get attrs (m_Type md)))) as Hold
    by (apply List.Forall_forall; intros v; apply Hav).
  destruct (m_Op md), (m_Vals md) as [|v vals];
    rewrite ?(without_exact V), ?map_get_set, ?map_get_delete by done;
    case_decide; subst; try done; by rewrite app_nil_r.
Qed.

Lemma consistent_step N V attrs md mods :
  consistent N V attrs (md :: mods) -> consistent N V (mem_modify_one attrs md) mods.
Proof.
  intros Hc. pose proof (fun attr => modify_one_vals N V attrs md mods attr Hc) as Hvals.
  destruct Hc as [HN HV Han Hav Hmn Hmv].
  inversion_clear Hmn as [|?? Hn Hmn']. inversion_clear Hmv as [|?? Hv Hmv'].
  split; [done..| | |done|done].
  - intros a. unfold mem_modify_one. rewrite (attrKey_exact N) by done.
    assert (a = m_Type md \/ In a (map fst attrs) -> N a) as Hna by (intros [->|]; [done|by apply Han]).
    destruct (m_Op md), (m_Vals md); rewrite ?map_set_keys, ?map_delete_keys; naive_solver.
  - intros a v. rewrite Hvals. case_decide; [|apply Hav]. unfold modified.
    rewrite List.Forall_forall in Hv.
    destruct (m_Op md); [rewrite in_app_iff; intros [?|?]; eauto| |apply Hv].
    destruct (m_Vals md); [done|]. intros [_ ?]%In_filter. eauto.
Qed.

Lemma fold_modify_vals N V attrs mods e :
  consistent N V attrs mods -> (forall a, default [] (map_get attrs a) = vals_of e a) ->
  forall a, default [] (map_get (fold_left mem_modify_one mods attrs) a) = vals_of (apply_mods e mods) a.
Proof.
  unfold apply_mods. revert attrs e. induction mods as [|md mods IH]; intros attrs e Hc He; [done|].
  cbn [fold_left]. apply IH; [by apply consistent_step|]. intros a.
  rewrite (modify_one_vals N V attrs md mods a Hc), vals_apply_mod_any, He. done.
Qed.
End modify.

(** ** The client's ranged retrieval against this directory *)

(** [strings.Index] of a separator that the text before it does not hold. *)
Lemma Index_first c p r sub : c ∉ p -> Index (p ++ (c :: sub) ++ r) (c :: sub) = Some (len p).
Proof.
  induction p as [|d p IH]; intros Hc.
  - cbn [app]. assert (strip_prefix (c :: sub) ((c :: sub) ++ r) = Some r) as Hs by by apply strip_prefix_spec.
    cbn [app] in *. cbn [Index]. by rewrite Hs.
  - apply not_elem_of_cons in Hc as [Hne Hc]. cbn [app Index strip_prefix].
    rewrite decide_False by done. cbn [app] in IH. rewrite (IH Hc), len_cons. f_equal. lia.
Qed.

Lemma Index_first_none c p sub : c ∉ p -> Index p (c :: sub) = None.
Proof.
  induction p as [|d p IH]; intros Hc; [done|]. apply not_elem_of_cons in Hc as [Hne Hc].
  cbn [Index strip_prefix]. rewrite decide_False by done. by rewrite IH.
Qed.

(** The attribute description that asks for the values from [lo] on. *)
Definition range_desc (attr : gostring) (lo : Z) : gostring := attr ++ ";range="%go ++ fmt_d lo ++ "-*"%go.

Lemma filter_one {A} (P : gostring * A -> Prop) `{!forall x, Decision (P x)} m k v :
  go_map m -> map_get m k = Some v -> (forall kv, In kv m -> P kv <-> fst kv = k) ->
  filter P m = [(k, v)].
Proof.
  unfold go_map, map_get. induction m as [|[k' v'] m IH]; [done|]. cbn [map fst snd find_map].
  intros [Hni Hnd]%List.NoDup_cons_iff Hg HP. destruct (decide (k' = k)) as [->|Hne].
  - injection Hg as ->. rewrite filter_cons_True by by apply HP; [left|]. f_equal.
    destruct (filter P m) as [|kv l] eqn:E; [done|].
    assert (In kv (filter P m)) as [Hkv Hin]%In_filter by (rewrite E; by left).
    apply HP in Hkv; [|by right]. subst. exfalso. apply Hni. by apply in_map.
  - rewrite filter_cons_False by by rewrite HP; [|left]. apply IH; [done..|].
    intros kv Hin. apply HP. by right.
Qed.

Section ranged_memory.
Context `{Unicode}.

Lemma baseAttr_desc attr lo : ";"%byte ∉ attr -> baseAttr (range_desc attr lo) = attr.
Proof.
  intros Hs. unfold baseAttr, range_desc.
  rewrite (Index_first ";"%byte attr ("range="%go ++ fmt_d lo ++ "-*"%go) [] Hs
            : Index (attr ++ ";range="%go ++ fmt_d lo ++ "-*"%go) ";"%go = _).
  unfold len. rewrite Nat2Z.id. by rewrite take_app_length.
Qed.

Lemma ToLower_len s : is_ascii s = true -> len (ToLower s) = len s.
Proof. intros Hs. unfold ToLower, len. by rewrite Hs, length_map. Qed.

Lemma lower_semi s : is_ascii s = true -> ";"%byte ∉ s -> ";"%byte ∉ ToLower s.
Proof.
  intros Hs Hn. unfold ToLower. rewrite Hs, list_elem_of_In, in_map_iff. intros (c & Hc & Hin).
  apply Hn, list_elem_of_In. assert (c = ";"%byte) as <-; [|done]. revert Hc. clear. by destruct c.
Qed.

Lemma range_lo_desc attr lo :
  is_ascii attr = true -> ";"%byte ∉ attr -> 0 <= lo < 2 ^ 63 -> range_lo (range_desc attr lo) = Ret lo.
Proof.
  intros Ha Hs Hlo. assert (0 <= lo) as H0lo by lia.
  destruct (digits_lower _ (fmt_d_digits lo H0lo)) as [Hd1 Hd2]. unfold range_lo.
  assert (ToLower (range_desc attr lo) = ToLower attr ++ ";range="%go ++ fmt_d lo ++ "-*"%go) as ->.
  { unfold ToLower, range_desc. rewrite !is_ascii_app, Ha, Hd1. change (is_ascii ";range="%go) with true.
    change (is_ascii "-*"%go) with true. cbn [andb]. by rewrite !map_app, Hd2. }
  rewrite (Index_first ";"%byte (ToLower attr) (fmt_d lo ++ "-*"%go) "range="%go (lower_semi _ Ha Hs)
            : Index (ToLower attr ++ ";range="%go ++ fmt_d lo ++ "-*"%go) ";range="%go = _).
  rewrite ToLower_len by done.
  assert (slice_from (range_desc attr lo) (len attr + 7) = Ret (fmt_d lo ++ "-*"%go)) as ->.
  { unfold slice_from, slice, range_desc. rewrite !len_app. change (len ";range="%go) with 7.
    pose proof (len_nonneg attr). pose proof (len_nonneg (fmt_d lo)). pose proof (len_nonneg "-*"%go).
    rewrite decide_True by lia. f_equal. rewrite app_assoc.
    rewrite drop_app_length' by (unfold len; rewrite length_app; cbn; lia).
    apply take_ge. unfold len. rewrite length_app. lia. }
  cbn [mbind outcome_bind].
  assert ("-"%byte ∉ fmt_d lo) as Hdash.
  { intros Hin%list_elem_of_In. pose proof (fmt_d_digits lo H0lo) as Hd.
       rewrite List.Forall_forall in Hd. by apply Hd in Hin. }
  rewrite (Index_first "-"%byte (fmt_d lo) "*"%go [] Hdash : Index (fmt_d lo ++ "-*"%go) "-"%go = _).
  unfold len. rewrite Nat2Z.id, take_app_length. unfold Atoi, fmt_d.
  rewrite ParseInt_FormatInt; [done|lia|simpl; lia].
Qed.

(** The one requested attribute, before it is paged. *)
Lemma project_one attrs attr vs lo :
  go_map attrs -> ";"%byte ∉ attr -> map_get attrs attr = Some vs ->
  (forall k, In k (map fst attrs) -> EqualFold attr k = bool_decide (k = attr)) ->
  project attrs [range_desc attr lo] = [(attr, vs)].
Proof.
  intros Hm Hs Hg He. unfold project. set (P := fun kv : gostring * list bytes => _).
  assert (forall kv, In kv attrs -> P kv <-> fst kv = attr) as HP.
  { intros kv Hin. subst P. cbn [existsb]. rewrite baseAttr_desc by done.
    rewrite bool_decide_eq_false_2.
    2: { unfold range_desc. intros E. apply (f_equal length) in E. rewrite length_app in E. cbn in E. lia. }
    rewrite He by by apply in_map. cbn. rewrite orb_false_r. apply bool_decide_eq_true. }
  by apply filter_one.
Qed.

(** *** One search of one entry *)

(** Only the entry [key] has the name [dn]. *)
Definition names_only (m : MemServer) (dn key : gostring) : Prop :=
  forall a, In a (map fst (mem_entries m)) -> equalFoldDN a dn = bool_decide (a = key).

Lemma collect_other m req es key :
  sr_Scope req = ScopeBase -> ~ In key (map fst es) ->
  (forall a, In a (map fst es) -> equalFoldDN a (sr_BaseDN req) = bool_decide (a = key)) ->
  collect m req es = Ret [].
Proof.
  intros Hscope. induction es as [|[a attrs] es IH]; intros Hk Hn; [done|]. cbn [collect inScopeMem].
  rewrite Hscope. cbn [inScopeMem mbind outcome_bind]. rewrite Hn by by left.
  rewrite bool_decide_eq_false_2; [|intros ->; apply Hk; by left]. cbn [negb].
  apply IH; [intros Hin; apply Hk; by right|]. intros b Hin. apply Hn. by right.
Qed.

Lemma collect_base m req es key attrs page :
  sr_Scope req = ScopeBase -> go_map es -> map_get es key = Some attrs ->
  (forall a, In a (map fst es) -> equalFoldDN a (sr_BaseDN req) = bool_decide (a = key)) ->
  isTombstone attrs = false -> matchFilter attrs (sr_Filter req) = Ret true ->
  rangePages (project attrs (sr_Attributes req)) (sr_Attributes req) (mem_rangeLimit m) = Ret page ->
  collect m req es = Ret [mkEntry key page].
Proof.
  intros Hscope Hm Hg Hn Ht Hf Hp. unfold go_map, map_get in *.
  induction es as [|[a attrs'] es IH]; [done|]. cbn [collect inScopeMem]. rewrite Hscope.
  cbn [inScopeMem mbind outcome_bind]. rewrite Hn by by left.
  cbn [map fst snd find_map] in *. apply List.NoDup_cons_iff in Hm as [Hni Hm].
  destruct (decide (a = key)) as [->|Hne].
  - injection Hg as ->. rewrite bool_decide_eq_true_2 by done. rewrite Ht, Hf. cbn [negb andb mbind outcome_bind].
    rewrite Hp. cbn [mbind outcome_bind]. rewrite (collect_other m req es key); [done..|].
    intros b Hin. apply Hn. by right.
  - rewrite bool_decide_eq_false_2 by done. cbn [negb]. apply IH; [done..|]. intros b Hin. apply Hn. by right.
Qed.

(** An entry a client can read the values of [attr] from. *)
Record readable (m : MemServer) (dn attr key : gostring) (attrs : attributes) (vs : list bytes) : Prop := {
  rd_map : go_map (mem_entries m);
  rd_attrs : go_map attrs;
  rd_entry : map_get (mem_entries m) key = Some attrs;
  rd_name : names_only m dn key;
  rd_dn : dn <> [];
  rd_live : isTombstone attrs = false;
  rd_filter : matchFilter attrs "(objectClass=*)"%go = Ret true;
  rd_ascii : is_ascii attr = true;
  rd_option : ";"%byte ∉ attr;
  rd_vals : map_get attrs attr = Some vs;
  rd_spelling k : In k (map fst attrs) -> EqualFold attr k = bool_decide (k = attr)
}.

Lemma search_readable m dn attr key attrs vs lo page :
  readable m dn attr key attrs vs ->
  rangePages [(attr, vs)] [range_desc attr lo] (mem_rangeLimit m) = Ret page ->
  mem_Search m (ranged_request dn attr lo) = Ret (inl (mkSearchResult [mkEntry key page] [])).
Proof.
  intros [Hm Ha He Hn Hdn Ht Hf Has Ho Hv Hs] Hp. unfold mem_Search, ranged_request.
  cbn [sr_BaseDN sr_Scope sr_SizeLimit sr_Controls sr_Filter]. rewrite decide_False by naive_solver.
  rewrite (collect_base m _ _ key attrs page); [reflexivity|done..|].
  cbn [sr_Attributes]. fold (range_desc attr lo). by rewrite (project_one attrs attr vs).
Qed.

Lemma rangePages_bare attr vs w limit :
  limit <= 0 \/ len vs <= limit -> baseAttr w = attr -> rangePages [(attr, vs)] [w] limit = Ret [(attr, vs)].
Proof.
  intros Hl Hb. unfold rangePages. destruct (Z.leb_spec limit 0); [done|].
  cbn [range_pages]. unfold range_page. rewrite Hb. unfold map_get. cbn [find_map fst snd].
  rewrite decide_True by done. by rewrite (proj2 (Z.leb_le _ _)) by lia.
Qed.

Lemma rangePages_page m dn attr key attrs vs lo :
  readable m dn attr key attrs vs -> 0 < mem_rangeLimit m < len vs -> len vs < 2 ^ 63 -> 0 <= lo <= len vs ->
  exists page, rangePages [(attr, vs)] [range_desc attr lo] (mem_rangeLimit m) = Ret page /\
    page_of attr vs lo (mkEntry key page).
Proof.
  intros Hr Hl Hvs Hlo. set (limit := mem_rangeLimit m) in *. unfold rangePages.
  rewrite (proj2 (Z.leb_gt limit 0)) by lia. cbn [range_pages]. unfold range_page.
  rewrite baseAttr_desc by apply Hr. unfold map_get. cbn [find_map fst snd]. rewrite decide_True by done.
  rewrite (proj2 (Z.leb_gt _ limit)) by lia.
  rewrite range_lo_desc; [|apply Hr|apply Hr|lia]. cbn [mbind outcome_bind].
  rewrite (proj2 (Z.ltb_ge (len vs) lo)) by lia. cbv zeta.
  rewrite map_delete_cons, decide_True by done. cbn [map_delete filter list_filter map_set].
  destruct (Z.leb_spec (len vs) (lo + limit)) as [Hle|Hlt]; cbn [mbind outcome_bind]; eexists; (split; [done|]).
  - by apply page_last; [apply Hr|].
  - replace (lo + limit - 1) with (lo + Z.of_nat (Z.to_nat limit) - 1) by lia.
    apply page_more; [apply Hr|done|lia|]. unfold len in *. lia.
Qed.
End ranged_memory.

(** ** The directory as an environment

    [MemServer.Client]: a dial always works and nothing is bound.  A panic of
    the directory ends the process; it is an error here. *)
Definition or_panic {A} (r : outcome A) (failed : error -> A) : A :=
  match r with Ret a => a | _ => failed (ErrNew "panic"%go) end.

Definition held_lock (key : gostring) (l : list gostring) : option (list gostring) :=
  if decide (key ∈ l) then None else Some (key :: l).

Definition mem_env `{Unicode} `{AdCore} `{SplitDNs} : Env := {|
  World := MemServer;
  Handle := unit;
  env_dial w := (inl tt, w);
  env_bind h w := (None, w);
  env_search h req w := (or_panic (mem_Search w req) inr, w);
  env_add h dn attrs w := mem_Add w dn attrs;
  env_modify h dn mods ctrls w := mem_Modify w dn mods;
  env_modifydn h dn rdn del sup w := or_panic (mem_ModifyDN w dn rdn sup) (fun e => (Some e, w));
  env_delete h dn w := mem_Delete w dn;
  env_close h w := (None, w);
  env_select w := (None, w);
  env_backoff n w := (None, w);
  env_dial_other host w := (inl tt, w);
  env_now w := (0, w);
  env_wait d w := (None, w);
  Mutex := list gostring;
  mutex_lock := held_lock;
  mutex_unlock key l := filter (fun k => k <> key) l
|}.

(** The same directory while nobody writes to it. *)
Definition frozen_env `{Unicode} (m : MemServer) : Env := {|
  World := unit;
  Handle := unit;
  env_dial w := (inl tt, w);
  env_bind h w := (None, w);
  env_search h req w := (or_panic (mem_Search m req) inr, w);
  env_add h dn attrs w := (Some (raw 53 []), w);
  env_modify h dn mods ctrls w := (Some (raw 53 []), w);
  env_modifydn h dn rdn del sup w := (Some (raw 53 []), w);
  env_delete h dn w := (Some (raw 53 []), w);
  env_close h w := (None, w);
  env_select w := (None, w);
  env_backoff n w := (None, w);
  env_dial_other host w := (inl tt, w);
  env_now w := (0, w);
  env_wait d w := (None, w);
  Mutex := list gostring;
  mutex_lock := held_lock;
  mutex_unlock key l := filter (fun k => k <> key) l
|}.

(** ** Runs of the client over the directory *)

Definition sample_split : SplitDNs := fun dn => inl (Split dn ","%byte).
#[local] Existing Instances ascii_unicode sample_adcore sample_split.

(** [MemServer.Client], over the sample of each library. *)
Definition mem_config : @Config toy_krb toy_ldap toy_retries :=
  @mkConfig toy_krb toy_ldap toy_retries "mem.corp.local"%go 0 TLSLDAPS [] false None None
    (Some (mkKerberosAuth [] [] [] (mkSecret true []) [] [] [])) None 0 0 (0 : @RetryConfig toy_retries)
    sample_repl.
Definition mem_Client (m : MemServer) : outcome core * @St (with_conn_env mem_env) :=
  NewWithConn mem_env mem_config [] m.

Definition staff : GroupSpec :=
  mkGroupSpec "staff"%go "staff"%go DNC GroupScopeGlobal GroupCategorySecurity (Some "people"%go) None.
Definition by_guid : Identity := SampleGUID "00000001-0000-0000-0000-000000000000"%go.

(** The life of a group: created, renamed, given itself as a member, read by
    the GUID it was created with, deleted twice. *)
Definition group_life (mem_core : core) : @M (with_conn_env mem_env) (Group * list Member) :=
  Group_Create mem_core 10 staff;;
  Group_Update mem_core 10 by_guid (mkGroupSpec "crew"%go "crew"%go DNC GroupScopeGlobal
    GroupCategorySecurity (Some []) None);;
  AddMembers mem_core by_guid [by_guid];;
  g ← Group_Get mem_core by_guid;
  ms ← Members mem_core 5 by_guid;
  Group_Delete mem_core by_guid;;
  Group_Delete mem_core by_guid;;
  mret (g, ms).

Example group_life_runs :
  let '(c, s) := mem_Client StartMemory in
  match c with
  | Ret c =>
      c_dnc c = DNC /\
      match group_life c s with
      | (Ret (g, ms), s) =>
          g_DN g = "CN=crew,DC=corp,DC=local"%go /\ g_GUID g = "00000001-0000-0000-0000-000000000000"%go /\
          g_Description g = [] /\ map m_DN ms = [g_DN g] /\
          map fst (mem_entries (st_world s)) = [DNC]
      | _ => False
      end
  | _ => False
  end.
Proof. vm_compute. by split_and!. Qed.

(** ** Properties *)


(** A rename or a move keeps the object.  When ModifyDN of an object
    without descendants succeeds, the object is found under the new name (the
    new RDN below the new superior, or below the old container), with every
    attribute it had, the objectGUID among them, except its
    distinguishedName and name; it is gone from the old name, and every other
    entry is untouched. *)
Theorem ModifyDN_keeps_object `{FoldLaws} `{AdCore} `{SplitDNs} (m m' : MemServer)
    (dn newRDN newSuperior : gostring) :
  mem_wf m -> leaf m (keyLocked m dn) ->
  mem_ModifyDN m dn newRDN newSuperior = Ret (None, m') ->
  let key := keyLocked m dn in
  let old := default [] (map_get (mem_entries m) key) in
  exists parent new,
    let target := newRDN ++ ","%go ++ parent in
    new_parent key newSuperior parent /\
    equalFoldDN key dn = true /\
    map_get (mem_entries m') target = Some new /\
    (forall a, a <> "distinguishedName"%go -> a <> "name"%go -> map_get new a = map_get old a) /\
    map_get new "distinguishedName"%go = Some [target] /\
    (key <> target -> map_get (mem_entries m') key = None) /\
    (forall k, k <> key -> k <> target -> map_get (mem_entries m') k = map_get (mem_entries m) k).
Proof.
  intros Hm Hleaf (parent & target & Hp & -> & Heq & _ & _ & ->)%ModifyDN_leaf; [|done..].
  cbv zeta. eexists parent, _. cbn [mem_entries set_entries].
  split_and!; [done..| | | | |]; unfold renamed; intros.
  - by rewrite map_get_set, decide_True.
  - by rewrite !map_get_set, !decide_False.
  - by rewrite !map_get_set, decide_False, decide_True.
  - by rewrite map_get_set, decide_False, map_get_delete, decide_True.
  - by rewrite map_get_set, decide_False, map_get_delete, decide_False.
Qed.

(** C24: the directory's Modify is the reference one.  On an existing entry,
    and for names and values that the request and the entry spell the same
    way, a list of modifications of any kind leaves every attribute with
    exactly the values that the RFC 4511 semantics [apply_mods], against which
    the client's updates are verified, gives it, and no other entry changes. *)
Theorem Modify_is_apply_mods `{Unicode} (N V : gostring -> Prop) (m : MemServer) (dn : gostring)
    (mods : list Modification) (attrs : attributes) :
  let key := keyLocked m dn in
  key <> [] -> map_get (mem_entries m) key = Some attrs -> consistent N V attrs mods ->
  let '(err, m') := mem_Modify m dn mods in
  err = None /\
  (exists new, map_get (mem_entries m') key = Some new /\
     forall a, vals_of (mkEntry key new) a = vals_of (apply_mods (mkEntry key attrs) mods) a) /\
  (forall k, k <> key -> map_get (mem_entries m') k = map_get (mem_entries m) k).
Proof.
  cbv zeta. intros Hne Hg Hc. unfold mem_Modify. destruct (keyLocked m dn) as [|c key] eqn:E; [done|].
  rewrite Hg. cbn [default set_entries mem_entries]. split_and!; [done| |].
  - eexists. rewrite map_get_set, decide_True by done. split; [done|].
    intros a. by apply (fold_modify_vals N V).
  - intros k Hk. by rewrite map_get_set, decide_False.
Qed.

(** The client reads every value of an attribute from a directory that
    pages it, whatever the page size ([mem_rangeLimit], 0 for no paging), and
    when the last page is exactly full: [rangedValues] over the in-memory
    directory returns all the values in order. *)
Theorem rangedValues_over_memory `{Unicode} `{AdCore} (m : MemServer) (c : core) (op dn attr key : gostring)
    (attrs : attributes) (vs : list bytes) (fuel : nat) (s : @St (frozen_env m)) :
  readable m dn attr key attrs vs -> len vs < 2 ^ 63 -> 1 <= c_MaxAttempts c -> ready s ->
  (length vs < fuel)%nat ->
  exists s', rangedValues c op dn attr fuel s = (Ret vs, s') /\ ready s'.
Proof.
  intros Hr Hvs Hmax Hs Hfuel. assert (@up (frozen_env m)) as Hup by (split; [done|by exists tt|done]).
  unfold rangedValues. destruct fuel as [|fuel]; [lia|].
  destruct (Z.le_gt_cases (mem_rangeLimit m) 0) as [Hl|Hl];
    [|destruct (Z.le_gt_cases (len vs) (mem_rangeLimit m)) as [Hl'|Hl']].
  1, 2: apply rangedValues_from_bare; [done..|]; intros h w; exists key, [], []; cbn [env_search frozen_env fst];
    (rewrite (search_readable m dn attr key attrs vs 0 [(attr, vs)]); [done..|]);
    (apply rangePages_bare; [by auto|]); apply baseAttr_desc, Hr.
  apply (rangedValues_from_complete c op dn attr vs (S fuel) 0 s); try done; [apply Hr| |unfold len; lia|cbn; lia].
  intros h w lo Hlo.
  destruct (rangePages_page m dn attr key attrs vs lo) as (page & Hp & Hpage); [done|lia|done..|].
  exists (mkEntry key page), [], []. split; [done|]. cbn [env_search frozen_env fst].
  by rewrite (search_readable m dn attr key attrs vs lo page).
Qed.

(** ** Witnesses *)

#[export] Instance ascii_fold_laws : FoldLaws.
Proof.
  split.
  - induction a as [|x a IH]; intros [|y b]; [done..|]. cbn [EqualFold unicode_EqualFold ascii_unicode].
    rewrite (andb_comm (bZ y <? 128)). destruct (_ && _).
    + case_decide as Hxy; [|done]. rewrite decide_True by done. apply IH.
    + intros ->%bool_decide_eq_true. by apply bool_decide_eq_true.
  - induction a as [|x a IH]; intros [|y b] [|z c]; [done..|].
    cbn [EqualFold unicode_EqualFold ascii_unicode].
    destruct (bZ x <? 128) eqn:Ex, (bZ y <? 128) eqn:Ey, (bZ z <? 128) eqn:Ez; cbn [andb];
      repeat (case_decide; [|done]); rewrite ?bool_decide_eq_true; intros E1 E2;
      try (injection E1 as -> ->); try (injection E2 as -> ->); try congruence.
    rewrite decide_True by congruence. by eapply IH.
Qed.

Definition exactb (l : list gostring) : bool :=
  forallb (fun a => forallb (fun b => Bool.eqb (EqualFold a b) (bool_decide (a = b))) l) l.
Lemma exactb_spelling l : exactb l = true -> exact_spelling (fun a => In a l).
Proof.
  unfold exactb, exact_spelling. rewrite forallb_forall. intros Hl a b Ha Hb.
  specialize (Hl a Ha). rewrite forallb_forall in Hl. by apply Bool.eqb_prop, Hl.
Qed.

(** The naming context and one object below it. *)
Definition one_object : MemServer := snd (mem_Add StartMemory ("CN=a,"%go ++ DNC) []).

Lemma StartMemory_wf : mem_wf StartMemory.
Proof.
  split; cbn.
  - repeat constructor; easy.
  - intros a b [<-|[]] [<-|[]]; done.
  - intros dn attrs [[= <- <-]|[]]. repeat constructor; cbn; naive_solver.
  - done.
Qed.

(** A unit with an object below it. *)
Definition one_unit : MemServer :=
  snd (mem_Add (snd (mem_Add StartMemory ("OU=k,"%go ++ DNC) [])) ("CN=a,OU=k,"%go ++ DNC) []).
Lemma one_unit_wf : mem_wf one_unit.
Proof. apply Add_wf, Add_wf, StartMemory_wf. Qed.


(** Add does not ask for the parent to exist, so an entry can lie where a
    subtree will move: the rename of OU=k succeeds and leaves two entries of
    one name. *)
Definition orphan : MemServer := snd (mem_Add one_unit ("cn=A,OU=t,"%go ++ DNC) []).
Lemma a_subtree_moves_onto_a_name :
  mem_wf orphan /\
  exists m', mem_ModifyDN orphan ("OU=k,"%go ++ DNC) "OU=t"%go [] = Ret (None, m') /\
    In ("CN=a,OU=t,"%go ++ DNC) (map fst (mem_entries m')) /\
    In ("cn=A,OU=t,"%go ++ DNC) (map fst (mem_entries m')) /\
    equalFoldDN ("CN=a,OU=t,"%go ++ DNC) ("cn=A,OU=t,"%go ++ DNC) = true.
Proof.
  split; [apply Add_wf, one_unit_wf|]. eexists. split; [vm_compute; reflexivity|].
  split; [cbn; tauto|]. split; [cbn; tauto|reflexivity].
Qed.

Lemma one_object_leaf : leaf one_object ("CN=a,"%go ++ DNC).
Proof. intros a [<-|[<-|[]]]; [|done]. intros _. by vm_compute. Qed.

Lemma ModifyDN_keeps_object_witness : exists new,
  map_get (mem_entries (or_panic (mem_ModifyDN one_object ("CN=A,"%go ++ DNC) "CN=b"%go [])
    (fun _ => (None, StartMemory))).2) ("CN=b,"%go ++ DNC) = Some new /\
  map_get new "objectGUID"%go = Some [[x01; x00; x00; x00; x00; x00; x00; x00; x00; x00; x00; x00; x00; x00; x00; x00]].
Proof.
  destruct (@ModifyDN_keeps_object ascii_unicode ascii_fold_laws sample_adcore sample_split one_object
    (or_panic (mem_ModifyDN one_object ("CN=A,"%go ++ DNC) "CN=b"%go []) (fun _ => (None, StartMemory))).2
    ("CN=A,"%go ++ DNC) "CN=b"%go []) as (parent & new & Hp & _ & Hnew & Hattrs & _).
  - apply Add_wf, StartMemory_wf.
  - exact one_object_leaf.
  - reflexivity.
  - exists new. injection Hp as <-. split; [exact Hnew|]. rewrite Hattrs by done. reflexivity.
Defined.

Definition base_attrs : attributes :=
  [("objectClass"%go, ["top"%go; "domainDNS"%go]); ("distinguishedName"%go, [DNC]); ("objectSid"%go, [DomainSID])].
Definition base_mods : list Modification :=
  [mkModification ModAdd "objectClass"%go ["domain"%go]; mkModification ModDelete "objectClass"%go ["top"%go];
   mkModification ModReplace "distinguishedName"%go []].
Definition base_names : list gostring := ["objectClass"%go; "distinguishedName"%go; "objectSid"%go].
Definition base_vals : list gostring := ["top"%go; "domainDNS"%go; "domain"%go; DNC; DomainSID].

Lemma base_consistent :
  consistent (fun a => In a base_names) (fun v => In v base_vals) base_attrs base_mods.
Proof.
  split.
  - by apply exactb_spelling.
  - by apply exactb_spelling.
  - done.
  - intros a v. destruct (map_get base_attrs a) as [vs|] eqn:E; [|done]. apply map_get_Some in E.
    revert E. cbn. naive_solver.
  - repeat constructor; cbn; naive_solver.
  - repeat constructor; cbn; naive_solver.
Qed.

Lemma Modify_is_apply_mods_witness : exists new,
  map_get (mem_entries (snd (mem_Modify StartMemory "dc=corp,DC=local"%go base_mods))) DNC = Some new /\
  vals_of (mkEntry DNC new) "objectClass"%go = ["domainDNS"%go; "domain"%go].
Proof.
  pose proof (@Modify_is_apply_mods ascii_unicode (fun a => In a base_names) (fun v => In v base_vals)
    StartMemory "dc=corp,DC=local"%go base_mods base_attrs ltac:(done) eq_refl base_consistent) as Hm.
  destruct (mem_Modify _ _ _) as [err m']. destruct Hm as (_ & (new & Hnew & Hvals) & _).
  exists new. split; [exact Hnew|]. rewrite Hvals. reflexivity.
Defined.

Definition four_values : list bytes := ["CN=a"%go; "CN=b"%go; "CN=c"%go; "CN=d"%go].
Definition paged_attrs : attributes := [("objectClass"%go, ["group"%go]); ("member"%go, four_values)].
Definition paged_memory : MemServer := RangeLimit (Seed StartMemory ("CN=g,"%go ++ DNC) paged_attrs) 2.

Lemma paged_readable :
  readable paged_memory ("CN=g,"%go ++ DNC) "member"%go ("CN=g,"%go ++ DNC) paged_attrs four_values.
Proof.
  split; try done.
  - repeat constructor; cbn; naive_solver.
  - repeat constructor; cbn; naive_solver.
  - intros a [<-|[<-|[]]]; by vm_compute.
  - by rewrite list_elem_of_In; cbn; naive_solver.
  - intros k [<-|[<-|[]]]; by vm_compute.
Qed.

Definition paged_state : @St (frozen_env paged_memory) := @mkSt (frozen_env paged_memory) tt (NewPool 2) [] None.

Lemma rangedValues_over_memory_witness : exists s',
  rangedValues sample_core "op"%go ("CN=g,"%go ++ DNC) "member"%go 5 paged_state = (Ret four_values, s') /\ ready s'.
Proof.
  apply (@rangedValues_over_memory ascii_unicode sample_adcore paged_memory sample_core "op"%go
    ("CN=g,"%go ++ DNC) "member"%go ("CN=g,"%go ++ DNC) paged_attrs four_values 5 paged_state).
  - exact paged_readable.
  - done.
  - done.
  - split; [exact (le_S _ _ (le_n 1))|reflexivity].
  - exact (le_n 5).
Defined.
