(* ===== verification/Handlers.v ===== *)
(** * internal/adtest/handlers.go: the request handlers of the socket server

    One function per handler, from a server and the message the library
    decoded (or its error) to the responses written, in their order, and the
    server afterwards.  The messages and responses are those of the library
    gldap; their types here have the fields and the constants the source
    names. *)
From S2P Require Export Memory.
From stdpp Require Import sorting.

Open Scope Z_scope.

(** *** The library's messages *)
Inductive gldapScope := BaseObject | SingleLevel | WholeSubtree.

#[export] Instance gldapScope_eq_dec : EqDecision gldapScope.
Proof. solve_decision. Defined.

Inductive gldapOperation := AddAttribute | DeleteAttribute | ReplaceAttribute.

Inductive resultCode :=
  | ResultSuccess | ResultOperationsError | ResultSizeLimitExceeded | ResultNoSuchObject
  | ResultInvalidCredentials | ResultEntryAlreadyExists.

(** A control, and its fields when it is a [*gldap.ControlPaging]. *)
Record ControlPagingFields := mkControlPaging { pg_Cookie : bytes; pg_PagingSize : Z }.
Record gldapControl := mkGldapControl { gc_type : gostring; gc_paging : option ControlPagingFields }.

Record SimpleBindMessage := mkSimpleBindMessage { bm_UserName : gostring; bm_Password : gostring }.
Record SearchMessage := mkSearchMessage {
  sm_BaseDN : gostring; sm_Scope : gldapScope; sm_SizeLimit : Z; sm_Filter : gostring;
  sm_Attributes : list gostring; sm_Controls : list gldapControl
}.
Record AddMessage := mkAddMessage { am_DN : gostring; am_Attributes : list Attribute }.
Record Change := mkChange { ch_Operation : gldapOperation; ch_Type : gostring; ch_Vals : list bytes }.
Record ModifyMessage := mkModifyMessage { mm_DN : gostring; mm_Changes : list Change }.

(** The responses; [SearchDone] carries the cookie of its paging control. *)
Inductive response :=
  | BindResponse (code : resultCode)
  | SearchResponseEntry (dn : gostring) (attrs : attributes)
  | SearchDoneResponse (code : resultCode) (paging : option bytes)
  | AddResponse (code : resultCode) (diagnostic : gostring)
  | ModifyResponse (code : resultCode) (diagnostic : gostring)
  | DelResponse (code : resultCode) (diagnostic : gostring).

(** *** The server *)
Record Server := mkServer { sv_entries : list (gostring * attributes); sv_seq : Z }.

Definition bindDN : gostring := "CN=tester,DC=corp,DC=local"%go.
Definition bindPassword : gostring := "test"%go.
Definition showDeletedOID : gostring := "1.2.840.113556.1.4.417"%go.
Definition MaxPageSize : Z := 1000.
Definition MaxValRange : Z := 1500.

Definition Server_Seed (s : Server) (dn : gostring) (attrs : attributes) : Server :=
  mkServer (map_set (sv_entries s) dn attrs) (sv_seq s).

Definition Server_nextGUID (s : Server) : bytes * Server :=
  let seq := uint32 (sv_seq s + 1) in
  (le_encode 4 seq ++ repeat x00 12, mkServer (sv_entries s) seq).

Definition server_rootDSE : attributes :=
  [("defaultNamingContext"%go, [DNC]); ("dnsHostName"%go, ["dc01.corp.local"%go]);
   ("schemaNamingContext"%go, ["CN=Schema,CN=Configuration,"%go ++ DNC]);
   ("configurationNamingContext"%go, ["CN=Configuration,"%go ++ DNC]);
   ("supportedLDAPVersion"%go, ["3"%go])].

(** [a.dn < b.dn] and its negation's order: Go compares strings byte by byte. *)
Fixpoint bytes_leb (a b : bytes) : bool :=
  match a, b with
  | [], _ => true
  | _, [] => false
  | x :: a, y :: b => (bZ x <? bZ y) || ((bZ x =? bZ y) && bytes_leb a b)
  end.
Definition hit_le (a b : gostring * attributes) : Prop := bytes_leb (fst a) (fst b) = true.
#[export] Instance hit_le_dec a b : Decision (hit_le a b) := decide (bytes_leb (fst a) (fst b) = true).

(** [n, _ := strconv.Atoi(s)]: out of range it is the nearest [int]. *)
Definition Atoi_value (s : gostring) : Z :=
  match Atoi s with
  | Ret n => n
  | Fail (Errorf _ _ (Some (ErrNew msg))) =>
      if bool_decide (msg = "value out of range"%go)
      then if HasPrefix s "-"%go then - 2 ^ 63 else 2 ^ 63 - 1
      else 0
  | _ => 0
  end.

(** [hits[i:j]]. *)
Definition slice_list {A} (l : list A) (i j : Z) : outcome (list A) :=
  if decide (0 <= i /\ i <= j /\ j <= len l)
  then Ret (take (Z.to_nat (j - i)) (drop (Z.to_nat i) l))
  else Panic.

Definition hasGldapControl (controls : list gldapControl) (oid : gostring) : bool :=
  existsb (fun c => bool_decide (gc_type c = oid)) controls.
Definition pagingControl (controls : list gldapControl) : option ControlPagingFields :=
  find_map gc_paging controls.

Section handlers.
Context `{Unicode}.

Definition handleBind (m : SimpleBindMessage + error) : list response :=
  match m with
  | inr _ => [BindResponse ResultInvalidCredentials]
  | inl m =>
      if equalFoldDN (bm_UserName m) bindDN && bool_decide (bm_Password m = bindPassword)
      then [BindResponse ResultSuccess]
      else [BindResponse ResultInvalidCredentials]
  end.

Definition server_exists (s : Server) (dn : gostring) : bool :=
  existsb (fun kv => equalFoldDN (fst kv) dn) (sv_entries s).

Definition inScope (dn base : gostring) (scope : gldapScope) : outcome bool :=
  match scope with
  | BaseObject => Ret (equalFoldDN dn base)
  | SingleLevel => isChildOf dn base
  | WholeSubtree => Ret (isUnder dn base)
  end.

Definition addAttrs (attrs : attributes) (requested : list gostring) : outcome attributes :=
  rangePages (project attrs requested) requested MaxValRange.

(** The entries one response carries. *)
Definition write_entry (requested : list gostring) (h : gostring * attributes) : outcome response :=
  out ← addAttrs (snd h) requested; Ret (SearchResponseEntry (fst h) out).
Definition write_entries (requested : list gostring) (hits : list (gostring * attributes))
    : outcome (list response) := mapM_out (write_entry requested) hits.

(** The loop that collects the hits, in the order of the map. *)
Fixpoint collect_hits (m : SearchMessage) (es : list (gostring * attributes))
    : outcome (list (gostring * attributes)) :=
  match es with
  | [] => Ret []
  | (dn, attrs) :: es =>
      inside ← inScope dn (sm_BaseDN m) (sm_Scope m);
      if negb inside then collect_hits m es
      else if isTombstone attrs && negb (hasGldapControl (sm_Controls m) showDeletedOID)
      then collect_hits m es
      else
        matches ← matchFilter attrs (sm_Filter m);
        if negb matches then collect_hits m es
        else hits ← collect_hits m es; Ret ((dn, attrs) :: hits)
  end.

(** Where a page starts. *)
Definition page_offset (cookie : bytes) : Z :=
  match cookie with [] => 0 | _ => Atoi_value cookie end.

(** One page of a paged search. *)
Definition serve_page (requested : list gostring) (paging : ControlPagingFields)
    (hits : list (gostring * attributes)) : outcome (list response) :=
  let offset := page_offset (pg_Cookie paging) in
  let size := pg_PagingSize paging in
  let size := if (size <=? 0) || (MaxPageSize <? size) then MaxPageSize else size in
  let end_ := Z.min (int64 (offset + size)) (len hits) in
  page ← slice_list hits offset end_;
  entries ← write_entries requested page;
  Ret (entries ++ [SearchDoneResponse ResultSuccess
                     (Some (if end_ <? len hits then fmt_d end_ else []))]).

(** The part of [handleSearch] after the hits are sorted. *)
Definition serve_hits (m : SearchMessage) (hits : list (gostring * attributes))
    : outcome (list response) :=
  match pagingControl (sm_Controls m) with
  | Some paging => serve_page (sm_Attributes m) paging hits
  | None =>
      let limit := sm_SizeLimit m in
      if (MaxPageSize <? len hits) && ((limit =? 0) || (MaxPageSize <? limit)) then
        entries ← write_entries (sm_Attributes m) (take (Z.to_nat MaxPageSize) hits);
        Ret (entries ++ [SearchDoneResponse ResultSizeLimitExceeded None])
      else if (0 <? limit) && (limit <? len hits) then
        entries ← write_entries (sm_Attributes m) (take (Z.to_nat limit) hits);
        Ret (entries ++ [SearchDoneResponse ResultSizeLimitExceeded None])
      else
        entries ← write_entries (sm_Attributes m) hits;
        Ret (entries ++ [SearchDoneResponse ResultSuccess None])
  end.

Definition handleSearch (s : Server) (m : SearchMessage + error) : outcome (list response) :=
  match m with
  | inr _ => Ret [SearchDoneResponse ResultOperationsError None]
  | inl m =>
      if decide (sm_BaseDN m = [] /\ sm_Scope m = BaseObject) then
        out ← addAttrs server_rootDSE (sm_Attributes m);
        Ret [SearchResponseEntry [] out; SearchDoneResponse ResultSuccess None]
      else
        hits ← collect_hits m (sv_entries s);
        if decide (hits = [] /\ server_exists s (sm_BaseDN m) = false /\ sm_Scope m = BaseObject)
        then Ret [SearchDoneResponse ResultNoSuchObject None]
        else serve_hits m (merge_sort hit_le hits)
  end.

Definition handleAdd `{SplitDNs} (s : Server) (m : AddMessage + error) : list response * Server :=
  match m with
  | inr _ => ([AddResponse ResultOperationsError []], s)
  | inl m =>
      if server_exists s (am_DN m) then ([AddResponse ResultEntryAlreadyExists diagEntryExists], s)
      else
        let attrs := fold_left (fun acc a => map_set acc (a_Type a) (a_Vals a)) (am_Attributes m) [] in
        let '(guid, s) := Server_nextGUID s in
        let attrs := map_set attrs "objectGUID"%go [guid] in
        let attrs := map_set attrs "distinguishedName"%go [am_DN m] in
        let attrs := map_set attrs "name"%go [rdnValue (am_DN m)] in
        let attrs := stampSID attrs (uint32 (1000 + sv_seq s)) in
        ([AddResponse ResultSuccess []], Server_Seed s (am_DN m) attrs)
  end.

(** The key [handleModify] finds, and [keyLocked] of the in-memory server. *)
Definition server_key (s : Server) (dn : gostring) : gostring :=
  default [] (find_map (fun kv => if equalFoldDN (fst kv) dn then Some (fst kv) else None) (sv_entries s)).

(** One change.  It reads the attribute under any spelling and writes it under
    the spelling of the request. *)
Definition apply_change (attrs : attributes) (ch : Change) : attributes :=
  let name := ch_Type ch in
  let existing := default [] (lookupFold attrs name) in
  match ch_Operation ch with
  | AddAttribute => map_set attrs name (existing ++ ch_Vals ch)
  | DeleteAttribute =>
      match ch_Vals ch with
      | [] => map_delete attrs name
      | vals => map_set attrs name (without existing vals)
      end
  | ReplaceAttribute =>
      match ch_Vals ch with
      | [] => map_delete attrs name
      | vals => map_set attrs name vals
      end
  end.

Definition handleModify (s : Server) (m : ModifyMessage + error) : list response * Server :=
  match m with
  | inr _ => ([ModifyResponse ResultOperationsError []], s)
  | inl m =>
      match server_key s (mm_DN m) with
      | [] => ([ModifyResponse ResultNoSuchObject diagNoObject], s)
      | key =>
          let attrs := default [] (map_get (sv_entries s) key) in
          ([ModifyResponse ResultSuccess []],
           Server_Seed s key (fold_left apply_change (mm_Changes m) attrs))
      end
  end.

(** [handleDelete] stops at the first name that matches; a map without two
    names equal up to case has at most one. *)
Definition handleDelete (s : Server) (m : gostring + error) : list response * Server :=
  match m with
  | inr _ => ([DelResponse ResultOperationsError []], s)
  | inl dn =>
      match find_map (fun kv => if equalFoldDN (fst kv) dn then Some (fst kv) else None) (sv_entries s) with
      | Some key =>
          ([DelResponse ResultSuccess []], mkServer (map_delete (sv_entries s) key) (sv_seq s))
      | None => ([DelResponse ResultNoSuchObject diagNoObject], s)
      end
  end.
End handlers.

(** ** Lemmas *)

Lemma bytes_leb_trans a b c : bytes_leb a b = true -> bytes_leb b c = true -> bytes_leb a c = true.
Proof.
  revert b c. induction a as [|x a IH]; intros [|y b] [|z c]; try done. cbn [bytes_leb].
  rewrite !orb_true_iff, !andb_true_iff, !Z.ltb_lt, !Z.eqb_eq. intros [?|[? ?]] [?|[? ?]]; try lia.
  right. split; [lia|]. by eapply IH.
Qed.

Lemma bytes_leb_total a b : bytes_leb a b = true \/ bytes_leb b a = true.
Proof.
  revert b. induction a as [|x a IH]; intros [|y b]; auto. cbn [bytes_leb].
  rewrite !orb_true_iff, !andb_true_iff, !Z.ltb_lt, !Z.eqb_eq.
  destruct (Z.lt_total (bZ x) (bZ y)) as [?|[?|?]]; [auto| |auto].
  destruct (IH b); auto.
Qed.

#[export] Instance hit_le_trans : Transitive hit_le.
Proof. intros a b c. apply bytes_leb_trans. Qed.
#[export] Instance hit_le_total : Total hit_le.
Proof. intros a b. apply bytes_leb_total. Qed.

(** *** Following the cookies of a paged search (RFC 2696) *)

Definition pagedOID : gostring := "1.2.840.113556.1.4.319"%go.

(** The request for the page after [cookie]. *)
Definition paged (m : SearchMessage) (size : Z) (cookie : bytes) : SearchMessage :=
  mkSearchMessage (sm_BaseDN m) (sm_Scope m) (sm_SizeLimit m) (sm_Filter m) (sm_Attributes m)
    (mkGldapControl pagedOID (Some (mkControlPaging cookie size)) :: sm_Controls m).

(** The entries of an answer and the cookie of its last message. *)
Definition is_entry (r : response) : bool := match r with SearchResponseEntry _ _ => true | _ => false end.
Definition next_cookie (rs : list response) : option bytes :=
  match List.last rs (SearchDoneResponse ResultOperationsError None) with
  | SearchDoneResponse ResultSuccess cookie => cookie
  | _ => None
  end.

(** A client that asks for page after page until the cookie is empty; it
    returns the pages. *)
Fixpoint follow `{Unicode} (fuel : nat) (s : Server) (m : SearchMessage) (size : Z) (cookie : bytes)
    : outcome (list (list response)) :=
  match fuel with
  | O => OutOfFuel
  | S fuel =>
      rs ← handleSearch s (inl (paged m size cookie));
      let page := List.filter is_entry rs in
      match next_cookie rs with
      | None => Fail (ErrNew "the search failed"%go)
      | Some [] => Ret [page]
      | Some c => pages ← follow fuel s m size c; Ret (page :: pages)
      end
  end.

Section paging.
Context `{Unicode}.

Lemma collect_hits_paged m size cookie es :
  collect_hits (paged m size cookie) es = collect_hits m es.
Proof.
  induction es as [|[dn attrs] es IH]; [done|]. cbn [collect_hits].
  change (hasGldapControl (sm_Controls (paged m size cookie)) showDeletedOID)
    with (hasGldapControl (sm_Controls m) showDeletedOID).
  change (sm_BaseDN (paged m size cookie)) with (sm_BaseDN m).
  change (sm_Scope (paged m size cookie)) with (sm_Scope m).
  change (sm_Filter (paged m size cookie)) with (sm_Filter m). by rewrite IH.
Qed.

(** A search of an existing place below the root. *)
Record searchable (s : Server) (m : SearchMessage) (hits : list (gostring * attributes)) : Prop := {
  se_base : sm_BaseDN m <> [];
  se_hits : collect_hits m (sv_entries s) = Ret hits;
  se_found : sm_Scope m = BaseObject -> hits = [] -> server_exists s (sm_BaseDN m) = true
}.

Lemma handleSearch_paged s m hits size cookie :
  searchable s m hits ->
  handleSearch s (inl (paged m size cookie))
  = serve_page (sm_Attributes m) (mkControlPaging cookie size) (merge_sort hit_le hits).
Proof.
  intros [Hb Hh Hf]. unfold handleSearch. cbn [sm_BaseDN sm_Scope paged]. rewrite decide_False by naive_solver.
  rewrite collect_hits_paged, Hh. cbn [mbind outcome_bind]. rewrite decide_False; [done|].
  intros (-> & Hex & Hs). rewrite Hf in Hex; done.
Qed.

Definition page_size (size : Z) : Z := if (size <=? 0) || (MaxPageSize <? size) then MaxPageSize else size.
Lemma page_size_bounds size : 1 <= page_size size <= MaxPageSize.
Proof.
  unfold page_size, MaxPageSize. destruct (Z.leb_spec size 0), (Z.ltb_spec 1000 size); cbn; lia.
Qed.

Lemma write_entries_are_entries requested hits rs :
  write_entries requested hits = Ret rs -> length rs = length hits /\ List.Forall (fun r => is_entry r = true) rs.
Proof.
  unfold write_entries. revert rs. induction hits as [|h hits IH]; intros rs; [by intros [= <-]|].
  cbn [mapM_out]. destruct (write_entry requested h) as [r| | | |] eqn:Er; try done. cbn [mbind outcome_bind].
  assert (is_entry r = true) as Hr.
  { unfold write_entry in Er. destruct (addAttrs (snd h) requested); try done. by injection Er as <-. }
  destruct (mapM_out _ hits) as [rs'| | | |] eqn:E; try done. cbn [mbind outcome_bind]. intros [= <-].
  destruct (IH rs' eq_refl) as [Hl Hf]. cbn [length]. split; [by rewrite Hl|by constructor].
Qed.

Lemma filter_is_entry rs : List.Forall (fun r => is_entry r = true) rs -> List.filter is_entry rs = rs.
Proof. induction 1 as [|r rs Hr _ IH]; [done|]. cbn. by rewrite Hr, IH. Qed.

Lemma write_entries_slice requested hits rs i n :
  write_entries requested hits = Ret rs ->
  write_entries requested (take n (drop i hits)) = Ret (take n (drop i rs)).
Proof.
  unfold write_entries. revert rs i n. induction hits as [|h hits IH]; intros rs i n.
  - intros [= <-]. by rewrite !drop_nil, !take_nil.
  - cbn [mapM_out]. destruct (write_entry requested h) as [r| | | |] eqn:Er; try done. cbn [mbind outcome_bind].
    destruct (mapM_out _ hits) as [rs'| | | |] eqn:E; try done. cbn [mbind outcome_bind]. intros [= <-].
    destruct i as [|i]; [|by apply (IH rs')]. cbn [drop]. destruct n as [|n]; [done|]. cbn [take mapM_out].
    rewrite Er. cbn [mbind outcome_bind]. specialize (IH rs' 0%nat n eq_refl). rewrite !drop_0 in IH. by rewrite IH.
Qed.

(** The page from [offset] on. *)
Lemma serve_page_at requested hits rs size cookie offset :
  write_entries requested hits = Ret rs -> len hits < 2 ^ 62 -> 0 <= offset <= len hits ->
  page_offset cookie = offset ->
  let n := page_size size in
  serve_page requested (mkControlPaging cookie size) hits
  = Ret (take (Z.to_nat n) (drop (Z.to_nat offset) rs)
         ++ [SearchDoneResponse ResultSuccess
               (Some (if offset + n <? len hits then fmt_d (offset + n) else []))]).
Proof.
  intros Hrs Hlen Ho Hc n. unfold serve_page. cbn [pg_Cookie pg_PagingSize]. fold (page_size size). fold n.
  rewrite Hc.
  pose proof (page_size_bounds size) as Hn. fold n in Hn. unfold MaxPageSize in Hn.
  assert (int64 (offset + n) = offset + n) as ->.
  { unfold wrap_s. rewrite Z.mod_small; [lia|]. change (2 ^ 62) with 4611686018427387904 in Hlen. simpl. lia. }
  unfold slice_list. rewrite decide_True by lia. cbn [mbind outcome_bind].
  rewrite (write_entries_slice _ _ rs) by done. cbn [mbind outcome_bind].
  destruct (write_entries_are_entries _ _ _ Hrs) as [Hl _]. f_equal. f_equal.
  - destruct (Z.ltb_spec (offset + n) (len hits)); [by f_equal; lia|].
    rewrite !take_ge; [done|rewrite length_drop; unfold len in *; lia..].
  - do 3 f_equal. destruct (Z.ltb_spec (offset + n) (len hits)).
    + rewrite Z.min_l by lia. by rewrite (proj2 (Z.ltb_lt _ _)).
    + rewrite Z.min_r by lia. by rewrite Z.ltb_irrefl.
Qed.

Lemma Atoi_value_fmt n : 0 <= n < 2 ^ 63 -> Atoi_value (fmt_d n) = n.
Proof. intros Hn. unfold Atoi_value, Atoi, fmt_d. rewrite ParseInt_FormatInt; [done|lia|simpl; lia]. Qed.

Lemma fmt_d_ne n : 0 <= n -> fmt_d n <> [].
Proof.
  intros Hn. unfold fmt_d, FormatInt. rewrite (proj2 (Z.ltb_ge n 0)) by lia. intros E. by apply digits_of_ne in E.
Qed.

Lemma next_cookie_done rs code c :
  next_cookie (rs ++ [SearchDoneResponse code c]) = match code with ResultSuccess => c | _ => None end.
Proof. unfold next_cookie. by rewrite List.last_last. Qed.

Lemma follow_from fuel s m hits rs size cookie offset :
  searchable s m hits -> write_entries (sm_Attributes m) (merge_sort hit_le hits) = Ret rs ->
  len hits < 2 ^ 62 -> 0 <= offset <= len hits -> (length hits < fuel + Z.to_nat offset)%nat ->
  page_offset cookie = offset ->
  exists pages, follow fuel s m size cookie = Ret pages /\ concat pages = drop (Z.to_nat offset) rs /\
    List.Forall (fun p => len p <= MaxPageSize) pages.
Proof.
  intros Hs Hrs Hlen. assert (length (merge_sort hit_le hits) = length hits) as Hperm
    by (by rewrite merge_sort_Permutation).
  destruct (write_entries_are_entries _ _ _ Hrs) as [Hl Hfilter].
  revert cookie offset. induction fuel as [|fuel IH]; intros cookie offset Ho Hfuel Hc; [unfold len in *; lia|].
  cbn [follow]. rewrite (handleSearch_paged _ _ hits) by done.
  rewrite (serve_page_at _ _ rs _ _ offset); [|done|unfold len in *; lia|unfold len in *; lia|done].
  pose proof (page_size_bounds size) as Hn. set (n := page_size size) in *.
  cbn [mbind outcome_bind]. rewrite next_cookie_done, List.filter_app. cbn [List.filter is_entry]. rewrite app_nil_r.
  set (page := take (Z.to_nat n) (drop (Z.to_nat offset) rs)).
  assert (List.filter is_entry page = page) as ->.
  { apply filter_is_entry. by apply Forall_take, Forall_drop. }
  assert (len page <= MaxPageSize) as Hpage by (subst page; unfold len; rewrite length_take; lia).
  replace (len (merge_sort hit_le hits)) with (len hits) by (unfold len; by rewrite Hperm).
  destruct (Z.ltb_spec (offset + n) (len hits)).
  - destruct (fmt_d (offset + n)) as [|c cookie'] eqn:Ec; [by apply fmt_d_ne in Ec; lia|]. rewrite <- Ec.
    destruct (IH (fmt_d (offset + n)) (offset + n)) as (pages & -> & Hcat & Hall).
    { lia. } { unfold len in *. lia. } { unfold page_offset. rewrite Ec, <- Ec. apply Atoi_value_fmt. lia. }
    exists (page :: pages). split; [done|]. split; [|by constructor]. cbn [concat]. rewrite Hcat.
    replace (Z.to_nat (offset + n)) with (Z.to_nat offset + Z.to_nat n)%nat by lia.
    rewrite <- drop_drop. apply take_drop.
  - exists [page]. split; [done|]. split; [|by constructor]. cbn. rewrite app_nil_r. apply take_ge.
    rewrite length_drop. unfold len in *. lia.
Qed.
End paging.

(** ** Properties *)

(** C37: a paged search returns every entry once, in order, and ends.
    Whatever page size is asked for (0, negative or above the server's own
    maximum included), a client that follows the cookies of [handleSearch]
    from an empty one receives, within one request more than there are hits,
    pages whose concatenation is exactly the hits sorted by name, and no page
    is larger than the server allows. *)
Theorem paged_search_complete `{Unicode} (s : Server) (m : SearchMessage)
    (hits : list (gostring * attributes)) (rs : list response) (size : Z) (fuel : nat) :
  searchable s m hits -> len hits < 2 ^ 62 -> (length hits < fuel)%nat ->
  write_entries (sm_Attributes m) (merge_sort hit_le hits) = Ret rs ->
  exists pages, follow fuel s m size [] = Ret pages /\ concat pages = rs /\
    List.Forall (fun p => len p <= MaxPageSize) pages /\
    merge_sort hit_le hits ≡ₚ hits /\ StronglySorted hit_le (merge_sort hit_le hits).
Proof.
  intros Hs Hlen Hfuel Hrs.
  destruct (follow_from fuel s m hits rs size [] 0) as (pages & Hf & Hcat & Hall); try done.
  { unfold len. lia. } { cbn. lia. }
  exists pages. split_and!; try done.
  - apply merge_sort_Permutation.
  - apply StronglySorted_merge_sort; apply _.
Qed.

(** What the socket server and the in-memory one do differently: the former
    writes a modified attribute under the spelling of the request, so an
    attribute can end up under two names that differ only in case. *)
Example two_spellings :
  apply_change (H := ascii_unicode) [("Description"%go, ["old"%go])]
    (mkChange ReplaceAttribute "description"%go ["new"%go])
  = [("Description"%go, ["old"%go]); ("description"%go, ["new"%go])].
Proof. reflexivity. Qed.

(** And it deletes an entry above others, which it leaves without a parent. *)
Example delete_leaves_orphans :
  let s := mkServer [(DNC, []); ("CN=a,"%go ++ DNC, [])] 0 in
  fst (handleDelete (H := ascii_unicode) s (inl DNC)) = [DelResponse ResultSuccess []] /\
  map fst (sv_entries (snd (handleDelete (H := ascii_unicode) s (inl DNC)))) = ["CN=a,"%go ++ DNC].
Proof. by split. Qed.

(** ** Witnesses *)

#[local] Existing Instance ascii_unicode.
Definition three_entries : Server :=
  mkServer [("CN=c,"%go ++ DNC, [("objectClass"%go, ["user"%go])]);
            ("CN=a,"%go ++ DNC, [("objectClass"%go, ["user"%go])]);
            ("CN=b,"%go ++ DNC, [("objectClass"%go, ["user"%go])])] 3.
Definition all_users : SearchMessage :=
  mkSearchMessage DNC WholeSubtree 0 "(objectClass=user)"%go ["cn"%go] [].

Lemma paged_search_complete_witness : exists pages,
  follow 4 three_entries all_users 2 [] = Ret pages /\
  concat pages = [SearchResponseEntry ("CN=a,"%go ++ DNC) []; SearchResponseEntry ("CN=b,"%go ++ DNC) [];
                  SearchResponseEntry ("CN=c,"%go ++ DNC) []].
Proof.
  destruct (@paged_search_complete ascii_unicode three_entries all_users (sv_entries three_entries)
    [SearchResponseEntry ("CN=a,"%go ++ DNC) []; SearchResponseEntry ("CN=b,"%go ++ DNC) [];
     SearchResponseEntry ("CN=c,"%go ++ DNC) []] 2 4) as (pages & Hf & Hc & _).
  - split; [discriminate|vm_compute; reflexivity|intros E; discriminate E].
  - vm_compute; reflexivity.
  - exact (le_n 4).
  - vm_compute; reflexivity.
  - exists pages; split; [exact Hf|exact Hc].
Defined.
