(* ===== verification/Wire.v ===== *)
(** * internal/adtest/server.go: the socket server as a whole

    The directory [Start] brings up, the handlers it registers, the answers to
    a sequence of requests, and the configuration that reaches it.  The
    sections of [handleAdd] that hold the mutex are also given one by one, as
    concurrent requests interleave them. *)
From S2P Require Export Handlers.

Open Scope Z_scope.

(** A request, as the library decoded it or failed to; the kinds are the names
    [Start] registers handlers under. *)
Inductive wire_request :=
  | ReqBind (m : SimpleBindMessage + error)
  | ReqSearch (m : SearchMessage + error)
  | ReqAdd (m : AddMessage + error)
  | ReqModify (m : ModifyMessage + error)
  | ReqDelete (m : gostring + error).

(** The server [Start] returns, before the first request. *)
Definition Start : Server :=
  Server_Seed (mkServer [] 0) DNC
    [("objectClass"%go, ["top"%go; "domainDNS"%go]); ("distinguishedName"%go, [DNC]);
     ("objectSid"%go, [DomainSID])].

Section serving.
Context `{Unicode} `{SplitDNs}.

(** The handler the router calls. *)
Definition serve (s : Server) (r : wire_request) : outcome (list response * Server) :=
  match r with
  | ReqBind m => Ret (handleBind m, s)
  | ReqSearch m => rs ← handleSearch s m; Ret (rs, s)
  | ReqAdd m => Ret (handleAdd s m)
  | ReqModify m => Ret (handleModify s m)
  | ReqDelete m => Ret (handleDelete s m)
  end.

(** *** One answer per request *)

(** The message that ends the answer to a request. *)
Definition final_of (r : wire_request) (a : response) : bool :=
  match r, a with
  | ReqBind _, BindResponse _ | ReqSearch _, SearchDoneResponse _ _ | ReqAdd _, AddResponse _ _
  | ReqModify _, ModifyResponse _ _ | ReqDelete _, DelResponse _ _ => true
  | _, _ => false
  end.

Definition answers (r : wire_request) (rs : list response) : Prop :=
  exists found final, rs = found ++ [final] /\ final_of r final = true /\
    List.Forall (fun a => is_entry a = true) found /\
    (found = [] \/ exists m, r = ReqSearch m).

Lemma answer_alone r a : final_of r a = true -> answers r [a].
Proof using Type. intros He. exists [], a. split_and!; [done..|by left]. Qed.

Lemma answer_search m found a :
  final_of (ReqSearch m) a = true -> List.Forall (fun a => is_entry a = true) found ->
  answers (ReqSearch m) (found ++ [a]).
Proof using Type. intros He Hf. exists found, a. split_and!; [done..|right; by exists m]. Qed.

Lemma handleSearch_answers s m rs : handleSearch s m = Ret rs -> answers (ReqSearch m) rs.
Proof using Type.
  unfold handleSearch. destruct m as [m|e]; [|intros [= <-]; by apply answer_alone].
  case_decide; [intros Hs; inv_ret Hs; injection Hs as <-|].
  { by apply (answer_search _ [SearchResponseEntry [] a]); [|repeat constructor]. }
  intros Hs. inv_ret Hs. case_decide; [injection Hs as <-; by apply answer_alone|].
  revert Hs. unfold serve_hits, serve_page. cbv zeta.
  repeat case_match; intros Hs; inv_ret Hs; injection Hs as <-;
    (apply answer_search; [done|]; by eapply (fun h => proj2 (write_entries_are_entries _ _ _ h))).
Qed.

Lemma serve_answers s r rs s' : serve s r = Ret (rs, s') -> answers r rs.
Proof using Type.
  destruct r as [m|m|m|m|m]; cbn [serve].
  - intros [= <- <-]. unfold handleBind. repeat case_match; by apply answer_alone.
  - intros Hs. inv_ret Hs. injection Hs as <- <-. by eapply handleSearch_answers.
  - unfold handleAdd. repeat case_match; intros [= <- <-]; by apply answer_alone.
  - unfold handleModify. repeat case_match; intros [= <- <-]; by apply answer_alone.
  - unfold handleDelete. repeat case_match; intros [= <- <-]; by apply answer_alone.
Qed.
End serving.

(** The answers to a sequence of requests. *)
Fixpoint serve_all `{Unicode} `{SplitDNs} (s : Server) (requests : list wire_request)
    : outcome (list (list response) * Server) :=
  match requests with
  | [] => Ret ([], s)
  | r :: requests =>
      '(rs, s) ← serve s r;
      '(rest, s) ← serve_all s requests;
      Ret (rs :: rest, s)
  end.

(** ** The directory stays well formed *)

(** As [mem_wf]: the server keeps the same maps. *)
Definition as_mem (s : Server) : MemServer := mkMemServer (sv_entries s) (sv_seq s) 0.
Definition wf_server `{Unicode} (s : Server) : Prop := mem_wf (as_mem s).

Section wf.
Context `{FoldLaws} `{SplitDNs}.

Lemma apply_change_go_map attrs ch : go_map attrs -> go_map (apply_change attrs ch).
Proof using Type. intros. unfold apply_change. repeat case_match; auto with gomap. Qed.

Lemma handleAdd_wf s m : wf_server s -> wf_server (snd (handleAdd s m)).
Proof using All.
  intros Hs. unfold handleAdd. destruct m as [m|e]; [|done].
  destruct (server_exists s (am_DN m)) eqn:E; [done|]. cbv zeta. unfold Server_nextGUID. cbn [snd].
  apply (mem_wf_set (mkMemServer (sv_entries s) _ 0)).
  - destruct Hs as [Hk Hd Ha Hseq]. split; cbn; [done..|]. apply uint32_idem.
  - apply stampSID_go_map. repeat apply go_map_set. apply go_map_fold, go_map_nil.
  - intros a Hin Heq. pose proof (proj1 (existsLocked_false (as_mem s) (am_DN m)) E a Hin). congruence.
Qed.

Lemma handleModify_wf s m : wf_server s -> wf_server (snd (handleModify s m)).
Proof using All.
  intros Hs. unfold handleModify. destruct m as [m|e]; [|done]. pose proof (keyLocked_key (as_mem s) (mm_DN m)) as Hkey.
  change (keyLocked (as_mem s) (mm_DN m)) with (server_key s (mm_DN m)) in Hkey.
  destruct (server_key s (mm_DN m)) as [|c key]; [done|]. destruct Hkey as [|[_ Hin]]; [done|]. cbn [snd].
  apply (wf_set_same (as_mem s)); [done..|]. pose proof (entry_go_map (as_mem s) (c :: key) Hs) as Ha.
  change (mem_entries (as_mem s)) with (sv_entries s) in Ha. revert Ha.
  generalize (default [] (map_get (sv_entries s) (c :: key))).
  induction (mm_Changes m) as [|ch changes IH]; intros attrs Ha; [done|]. cbn. by apply IH, apply_change_go_map.
Qed.

Lemma handleDelete_wf s m : wf_server s -> wf_server (snd (handleDelete s m)).
Proof using Type.
  intros Hs. unfold handleDelete. destruct m as [dn|e]; [|done]. destruct (find_map _ _) as [key|]; [|done].
  by apply (mem_wf_delete (as_mem s)).
Qed.

Lemma serve_wf s r rs s' : wf_server s -> serve s r = Ret (rs, s') -> wf_server s'.
Proof using All.
  intros Hs. destruct r as [m|m|m|m|m]; cbn [serve].
  - by intros [= _ <-].
  - intros Hr. inv_ret Hr. by injection Hr as _ <-.
  - intros [= Hr]. pose proof (handleAdd_wf s m Hs) as Hw. by rewrite Hr in Hw.
  - intros [= Hr]. pose proof (handleModify_wf s m Hs) as Hw. by rewrite Hr in Hw.
  - intros [= Hr]. pose proof (handleDelete_wf s m Hs) as Hw. by rewrite Hr in Hw.
Qed.

Lemma Start_wf : wf_server Start.
Proof using Type.
  split; cbn.
  - repeat constructor; easy.
  - intros a b [<-|[]] [<-|[]]; done.
  - intros dn attrs [[= <- <-]|[]]. repeat constructor; cbn; naive_solver.
  - done.
Qed.

(** Whatever a client sends, every request gets one answer of its kind, and
    the directory remains a map of maps without two entries of one name. *)
Theorem serve_all_sound requests answered s s' :
  wf_server s -> serve_all s requests = Ret (answered, s') ->
  Forall2 answers requests answered /\ wf_server s'.
Proof using All.
  revert s answered. induction requests as [|r requests IH]; intros s answered Hs; cbn [serve_all].
  - by intros [= <- <-].
  - intros Ha. destruct (serve s r) as [[rs s1]| | | |] eqn:Er; try done. cbn [mbind outcome_bind] in Ha.
    destruct (serve_all s1 requests) as [[rest s2]| | | |] eqn:E; try done. cbn [mbind outcome_bind] in Ha.
    injection Ha as <- <-. destruct (IH s1 rest) as [Hall Hw]; [by eapply serve_wf|done|].
    split; [|done]. constructor; [by eapply serve_answers|done].
Qed.
End wf.

(** ** Adds that interleave *)

(** [handleAdd] tests for the name under the mutex, releases it, increments and
    reads the counter without it, and takes it again to store the entry: the
    states in between, and the step each goroutine takes next. *)
Inductive adding :=
  | Adding (m : AddMessage)
  | Absent (m : AddMessage)                     (* [s.exists] returned false *)
  | Loaded (m : AddMessage) (seq : Z)           (* [s.seq++]: loaded, *)
  | Stored (m : AddMessage)                     (* and stored *)
  | Numbered (m : AddMessage) (guid : bytes)    (* the GUID has been made *)
  | Stamped (m : AddMessage) (guid : bytes) (rid : Z)
  | Answered_with (r : response).

Definition added_attrs `{Unicode} `{SplitDNs} (m : AddMessage) (guid : bytes) (rid : Z) : attributes :=
  let attrs := fold_left (fun acc a => map_set acc (a_Type a) (a_Vals a)) (am_Attributes m) [] in
  let attrs := map_set attrs "objectGUID"%go [guid] in
  let attrs := map_set attrs "distinguishedName"%go [am_DN m] in
  let attrs := map_set attrs "name"%go [rdnValue (am_DN m)] in
  stampSID attrs rid.

Definition add_step `{Unicode} `{SplitDNs} (s : Server) (a : adding) : Server * adding :=
  match a with
  | Adding m =>
      if server_exists s (am_DN m) then (s, Answered_with (AddResponse ResultEntryAlreadyExists diagEntryExists))
      else (s, Absent m)
  | Absent m => (s, Loaded m (sv_seq s))
  | Loaded m seq => (mkServer (sv_entries s) (uint32 (seq + 1)), Stored m)
  | Stored m => (s, Numbered m (le_encode 4 (sv_seq s) ++ repeat x00 12))
  | Numbered m guid => (s, Stamped m guid (uint32 (1000 + sv_seq s)))
  | Stamped m guid rid =>
      (Server_Seed s (am_DN m) (added_attrs m guid rid), Answered_with (AddResponse ResultSuccess []))
  | Answered_with r => (s, a)
  end.

Fixpoint add_steps `{Unicode} `{SplitDNs} (fuel : nat) (s : Server) (a : adding) : Server * adding :=
  match fuel with
  | O => (s, a)
  | S fuel => let '(s, a) := add_step s a in add_steps fuel s a
  end.

(** Six steps in a row are the handler. *)
Lemma add_steps_handleAdd `{Unicode} `{SplitDNs} s m :
  let '(rs, s') := handleAdd s (inl m) in
  exists r, rs = [r] /\ add_steps 6 s (Adding m) = (s', Answered_with r).
Proof.
  unfold handleAdd. cbn [add_steps add_step]. destruct (server_exists s (am_DN m)) eqn:E; cbn [add_step].
  - by eexists.
  - cbn. by eexists.
Qed.

(** Any number of goroutines, each at its place. *)
Fixpoint add_play `{Unicode} `{SplitDNs} (order : list nat) (s : Server) (l : list adding)
    : option (Server * list adding) :=
  match order with
  | [] => Some (s, l)
  | i :: order =>
      match l !! i with
      | None => None
      | Some a => let '(s, a) := add_step s a in add_play order s (<[i := a]> l)
      end
  end.

(** ** The configuration that reaches the server *)

Section configuration.
Context `{KrbLib} `{!LdapLib} `{Retries} (NewSecret : gostring -> Secret) (no_retry : RetryConfig)
  (no_replication : ReplicationConfig).

(** [Config]; the arguments are the fields [Start] sets. *)
Definition Server_Config (host : gostring) (port : Z) (pool : CertPool) : Config :=
  mkConfig _ _ _ host port TLSLDAPS [] false
    (Some (mkTLSConfig host VersionTLS12 false (Some pool)))
    (Some (mkSimpleAuth bindDN (NewSecret bindPassword))) None None 0 10000000000 no_retry no_replication.

Definition WrongPassword : Secret := NewSecret "not-the-password"%go.

(** The configuration is valid, dials TLS verified for the host, and binds
    with credentials the server accepts; the wrong password is refused. *)
Lemma Server_Config_binds `{Unicode} host port pool :
  (forall p, secret_Reveal (NewSecret p) = p) -> host <> [] -> equalFoldDN bindDN bindDN = true ->
  let c := Server_Config host port pool in
  Validate c = None /\
  (exists tls, cfg_TLSConfig c = Some tls /\ tls_ServerName tls = host /\ tls_InsecureSkipVerify tls = false) /\
  (exists a, Simple c = Some a /\
     handleBind (inl (mkSimpleBindMessage (sa_Username a) (secret_Reveal (sa_Password a))))
     = [BindResponse ResultSuccess]) /\
  handleBind (inl (mkSimpleBindMessage bindDN (secret_Reveal WrongPassword)))
  = [BindResponse ResultInvalidCredentials].
Proof using Type.
  intros Hreveal Hhost Hrefl c. split; [|split; [|split]].
  - apply Validate_valid. split; [exact Hhost|]. split; [by left|discriminate].
  - eexists. split; [reflexivity|]. split; reflexivity.
  - eexists. split; [reflexivity|]. unfold handleBind. cbn [bm_UserName bm_Password sa_Username sa_Password].
    rewrite Hrefl, Hreveal. reflexivity.
  - unfold handleBind, WrongPassword. cbn [bm_UserName bm_Password]. rewrite Hreveal, Hrefl. reflexivity.
Qed.
End configuration.

(** ** What the races allow *)

Section races.
#[local] Existing Instances ascii_unicode sample_split.

Definition add_of (cn : gostring) : AddMessage :=
  mkAddMessage ("CN="%go ++ cn ++ ","%go ++ DNC) [mkAttribute "objectClass"%go ["top"%go; "container"%go]].

(** The GUIDs of the entries below the naming context. *)
Definition guids (s : Server) : list bytes :=
  flat_map (fun kv => default [] (map_get (snd kv) "objectGUID"%go)) (sv_entries s).

(** Two adds of one name both succeed: both test before either stores. *)
Example two_adds_of_one_name :
  match add_play [0; 1; 0; 0; 0; 0; 0; 1; 1; 1; 1; 1]%nat Start [Adding (add_of "a"%go); Adding (add_of "a"%go)] with
  | Some (s, l) =>
      l = [Answered_with (AddResponse ResultSuccess []); Answered_with (AddResponse ResultSuccess [])] /\
      length (guids s) = 1%nat
  | None => False
  end.
Proof. by vm_compute. Qed.

(** Two entries of different names get one objectGUID: both load the counter
    before either stores it. *)
Example one_guid_twice :
  match add_play [0; 0; 1; 1; 0; 1; 0; 0; 0; 1; 1; 1]%nat Start [Adding (add_of "a"%go); Adding (add_of "b"%go)] with
  | Some (s, l) => exists g, guids s = [g; g]
  | None => False
  end.
Proof. vm_compute. by eexists. Qed.
End races.
