(* ===== verification/Listener.v ===== *)
(** * internal/adtest: bringing the socket server up

    cert.go, and the parts of server.go around the handlers: [Start],
    [waitForPort], [StartWire] and the snapshots for assertions.  The
    certificate and network libraries, gldap's server and the clock are the
    class [TestLib]; a step that calls [t.Fatalf] ends the test, and with it the
    computation.  What [t.Cleanup] registers runs after the test and is not
    here, and an address of four bytes is its text. *)
From S2P Require Export Wire.

Open Scope Z_scope.

(** *** The library *)

(** The fields of [x509.Certificate] the template sets. *)
Inductive ExtKeyUsage := ExtKeyUsageServerAuth.
Definition KeyUsageDigitalSignature : Z := 1.
Definition KeyUsageCertSign : Z := 32.
Record CertTemplate := mkCertTemplate {
  ct_SerialNumber : Z;
  ct_CommonName : gostring;
  ct_DNSNames : list gostring;
  ct_IPAddresses : list gostring;
  ct_NotBefore : Z;
  ct_NotAfter : Z;
  ct_KeyUsage : Z;
  ct_ExtKeyUsage : list ExtKeyUsage;
  ct_IsCA : bool;
  ct_BasicConstraintsValid : bool
}.

(** The handlers of a server, and the names they are registered under. *)
Inductive handler := HandleBind | HandleSearch | HandleAdd | HandleModify | HandleDelete.
#[export] Instance handler_eq_dec : EqDecision handler.
Proof. solve_decision. Defined.

Class TestLib `{KrbLib} `{!LdapLib} := {
  PrivateKey : Type;
  X509 : Type;
  ecdsa_GenerateKey : LdapWorld -> (PrivateKey + error) * LdapWorld;
  (** [CreateCertificate(rand, template, parent, public, private)]; the public
      key is that of the private one. *)
  x509_CreateCertificate : CertTemplate -> CertTemplate -> PrivateKey -> LdapWorld -> (bytes + error) * LdapWorld;
  x509_ParseCertificate : bytes -> X509 + error;
  NewCertPool : CertPool;
  AddCert : CertPool -> X509 -> CertPool;
  time_Now : LdapWorld -> Z * LdapWorld;
  time_Sleep : Z -> LdapWorld -> LdapWorld;
  gldap_NewServer : LdapWorld -> option error * LdapWorld;
  gldap_NewMux : LdapWorld -> option error * LdapWorld;
  (** [mux.Bind] and its like: the kind, and the handler it is given. *)
  mux_register : gostring -> option handler -> LdapWorld -> option error * LdapWorld;
  gldap_Router : LdapWorld -> option error * LdapWorld;
  (** [net.Listen] on a port of the kernel's choice. *)
  net_Listen : LdapWorld -> (Z + error) * LdapWorld;
  listener_Close : LdapWorld -> option error * LdapWorld;
  (** [go s.Run(addr, ...)] with the chain and the key of a certificate, and the
      least version of TLS. *)
  go_Run : gostring -> list bytes -> PrivateKey -> Z -> LdapWorld -> LdapWorld;
  (** [net.DialTimeout], and [Close] of what it returned. *)
  net_DialTimeout : gostring -> Z -> LdapWorld -> option error * LdapWorld;
  conn_closed : LdapWorld -> LdapWorld
}.

Definition Second : Z := 1000000000.
Definition Millisecond : Z := 1000000.
Definition Hour : Z := 3600 * Second.

Section listener.
Context `{Unicode} `{KrbLib} `{!LdapLib} `{!TestLib}.

(** A test: a world to a result and a world. *)
Definition T (A : Type) : Type := LdapWorld -> outcome A * LdapWorld.
#[export] Instance T_ret : MRet T := fun A a w => (Ret a, w).
#[export] Instance T_bind : MBind T := fun A B f m w =>
  match m w with
  | (Ret a, w) => f a w
  | (Fail e, w) => (Fail e, w)
  | (Panic, w) => (Panic, w)
  | (Blocked, w) => (Blocked, w)
  | (OutOfFuel, w) => (OutOfFuel, w)
  end.

Definition Fatalf {A} (format : gostring) (args : list fmtarg) (err : option error) : T A :=
  fun w => (Fail (Errorf format args err), w).
(** A call, and [t.Fatalf] when it fails. *)
Definition try {A} (format : gostring) (f : LdapWorld -> (A + error) * LdapWorld) : T A := fun w =>
  match f w with
  | (inl a, w) => (Ret a, w)
  | (inr e, w) => Fatalf format [] (Some e) w
  end.
Definition try_ (format : gostring) (f : LdapWorld -> option error * LdapWorld) : T unit := fun w =>
  match f w with
  | (None, w) => (Ret tt, w)
  | (Some e, w) => Fatalf format [] (Some e) w
  end.
Definition now : T Z := fun w => let '(n, w) := time_Now w in (Ret n, w).

(** ** cert.go *)

(** [tls.Certificate]. *)
Record tlsCertificate := mkTlsCertificate {
  tc_Certificate : list bytes;
  tc_PrivateKey : PrivateKey;
  tc_Leaf : X509
}.

Definition cert_template (host : gostring) (before after : Z) : CertTemplate :=
  mkCertTemplate 1 host [host] ["127.0.0.1"%go] (before - Hour) (after + 24 * Hour)
    (Z.lor KeyUsageDigitalSignature KeyUsageCertSign) [ExtKeyUsageServerAuth] true true.

Definition selfSignedCert (host : gostring) : T (tlsCertificate * CertPool) :=
  key ← try "generate key: %v"%go ecdsa_GenerateKey;
  before ← now;
  after ← now;
  let tmpl := cert_template host before after in
  der ← try "create certificate: %v"%go (x509_CreateCertificate tmpl tmpl key);
  leaf ← try "parse certificate: %v"%go (fun w => (x509_ParseCertificate der, w));
  mret (mkTlsCertificate [der] key leaf, AddCert NewCertPool leaf).

(** ** waitForPort *)

Definition loopback (port : Z) : gostring := JoinHostPort "127.0.0.1"%go (fmt_d port).

Fixpoint wait_from (fuel : nat) (addr : gostring) (deadline : Z) : T unit :=
  match fuel return T unit with
  | O => fun w => (OutOfFuel, w)
  | S fuel =>
      t ← now;
      if t <? deadline return T unit then
        fun w =>
          match net_DialTimeout addr (200 * Millisecond) w with
          | (None, w) => (Ret tt, conn_closed w)
          | (Some _, w) => wait_from fuel addr deadline (time_Sleep (10 * Millisecond) w)
          end
      else Fatalf "the harness never started listening on %s"%go [FStr addr] None
  end.

Definition waitForPort (fuel : nat) (port : Z) : T unit :=
  t ← now;
  wait_from fuel (loopback port) (t + 5 * Second).

(** ** Start *)

(** What [Start] returns, besides the directory. *)
Record running := mkRunning {
  rn_server : Server;
  rn_host : gostring;
  rn_port : Z;
  rn_pool : CertPool
}.

(** The handler of a kind: the switch of [Start]. *)
Definition handler_of (kind : gostring) : option handler :=
  if decide (kind = "bind"%go) then Some HandleBind
  else if decide (kind = "search"%go) then Some HandleSearch
  else if decide (kind = "add"%go) then Some HandleAdd
  else if decide (kind = "modify"%go) then Some HandleModify
  else if decide (kind = "delete"%go) then Some HandleDelete
  else None.

Definition kinds : list gostring := ["bind"; "search"; "add"; "modify"; "delete"]%go.

(** The loop over the map of kinds, whose order is any. *)
Fixpoint register_all (order : list gostring) : T unit :=
  match order with
  | [] => mret tt
  | kind :: order =>
      try_ ("mux."%go ++ kind ++ ": %v"%go) (mux_register kind (handler_of kind));;
      register_all order
  end.

Definition Start_listening (order : list gostring) (fuel : nat) : T running :=
  '(cert, pool) ← selfSignedCert "localhost"%go;
  try_ "gldap.NewServer: %v"%go gldap_NewServer;;
  try_ "gldap.NewMux: %v"%go gldap_NewMux;;
  register_all order;;
  try_ "s.Router: %v"%go gldap_Router;;
  port ← try "listen: %v"%go net_Listen;
  try_ "close probe listener: %v"%go listener_Close;;
  (fun w => (Ret tt, go_Run (loopback port) (tc_Certificate cert) (tc_PrivateKey cert) VersionTLS12 w)) ≫= fun _ : unit =>
  waitForPort fuel port;;
  mret (mkRunning Start "localhost"%go port pool).
End listener.

(** ** StartWire *)

Section start_wire.
Context `{Unicode} `{ErrorText} `{Digests} `{KrbLib} `{!LdapLib} `{Retries} `{AdCore} `{!Platform} `{!TestLib}
  (NewSecret : gostring -> Secret) (no_retry : RetryConfig) (no_replication : ReplicationConfig).

(** The client; its directory are the methods of the files above. *)
Definition StartWire (order : list gostring) (fuel : nat) : T Client :=
  srv ← Start_listening order fuel;
  let cfg := Server_Config NewSecret no_retry no_replication (rn_host srv) (rn_port srv) (rn_pool srv) in
  (fun w =>
     match New cfg w with
     | (Fail e, w) => Fatalf "adldap.New against the wire harness: %v"%go [] (Some e) w
     | r => r
     end) : T Client.
End start_wire.

(** ** Snapshots *)

(** [Entries] of both servers: a copy of the map of maps, entry by entry. *)
Definition copied {A} (m : list (gostring * A)) : list (gostring * A) :=
  fold_left (fun out kv => map_set out (fst kv) (snd kv)) m [].
Definition snapshot (es : list (gostring * attributes)) : list (gostring * attributes) :=
  fold_left (fun out kv => map_set out (fst kv) (copied (snd kv))) es [].
Definition Server_Entries (s : Server) : list (gostring * attributes) := snapshot (sv_entries s).
Definition mem_Entries (m : MemServer) : list (gostring * attributes) := snapshot (mem_entries m).

(** ** The wait ends *)

Section clock.
Context `{KrbLib} `{!LdapLib} `{!TestLib} (clock : LdapWorld -> Z).

(** A clock that never runs backwards, and a sleep that lasts. *)
Record ticking : Prop := {
  tk_now w : fst (time_Now w) = clock w /\ clock w <= clock (snd (time_Now w));
  tk_dial addr d w : clock w <= clock (snd (net_DialTimeout addr d w));
  tk_sleep d w : clock w + d <= clock (time_Sleep d w)
}.
Context (Htick : ticking).

Lemma wait_from_ends n addr deadline w :
  deadline - clock w <= Z.of_nat n * (10 * Millisecond) ->
  fst (wait_from (S n) addr deadline w) <> OutOfFuel.
Proof using Htick.
  revert w. induction n as [|n IH]; intros w Hn; cbn [wait_from]; unfold mbind, T_bind, now;
    destruct (tk_now Htick w) as [Ht Hle]; destruct (time_Now w) as [t w1]; cbn [fst snd] in *; subst t;
    (destruct (Z.ltb_spec (clock w) deadline); [|done]).
  - lia.
  - pose proof (tk_dial Htick addr (200 * Millisecond) w1) as Hd.
    destruct (net_DialTimeout _ _ w1) as [[e|] w2]; [|done]. cbn [snd] in Hd. apply IH.
    pose proof (tk_sleep Htick (10 * Millisecond) w2). unfold Millisecond in *. lia.
Qed.

(** 501 rounds of at least ten milliseconds are more than the five seconds. *)
Theorem waitForPort_ends port w : fst (waitForPort 501 port w) <> OutOfFuel.
Proof using Htick.
  unfold waitForPort, mbind, T_bind, now. destruct (tk_now Htick w) as [Ht Hle].
  destruct (time_Now w) as [t w1]. cbn [fst snd] in *. subst t. apply (wait_from_ends 500).
  unfold Second, Millisecond in *. lia.
Qed.

(** A wait that returns has reached the port, whatever the fuel. *)
Lemma wait_from_reached fuel addr deadline w w' :
  wait_from fuel addr deadline w = (Ret tt, w') ->
  exists w1 w2, net_DialTimeout addr (200 * Millisecond) w1 = (None, w2) /\ w' = conn_closed w2.
Proof using Type.
  revert w. induction fuel as [|fuel IH]; intros w; cbn [wait_from]; [done|].
  unfold mbind, T_bind, now. destruct (time_Now w) as [t w1]. destruct (t <? deadline); [|done].
  destruct (net_DialTimeout _ _ w1) as [[e|] w2] eqn:E; [apply IH|]. intros [= <-]. by exists w1, w2.
Qed.
End clock.

(** ** What a started server is *)

Section started.
Context `{Unicode} `{KrbLib} `{!LdapLib} `{!TestLib}.

Lemma T_bind_Ret {A B} (m : T A) (f : A -> T B) w b w' :
  (m ≫= f) w = (Ret b, w') -> exists a w1, m w = (Ret a, w1) /\ f a w1 = (Ret b, w').
Proof using Type. unfold mbind, T_bind. destruct (m w) as [[a|e| | |] w1]; try done. by eexists _, _. Qed.
Lemma try_Ret {A} format (f : LdapWorld -> (A + error) * LdapWorld) w a w' :
  try format f w = (Ret a, w') -> f w = (inl a, w').
Proof using Type. unfold try. destruct (f w) as [[a'|e] w1]; [|done]. by intros [= -> ->]. Qed.

Lemma selfSignedCert_Ret host w cert pool w' :
  selfSignedCert host w = (Ret (cert, pool), w') ->
  exists before after w1 w2, let tmpl := cert_template host before after in
    x509_CreateCertificate tmpl tmpl (tc_PrivateKey cert) w1 = (inl (hd [] (tc_Certificate cert)), w2) /\
    tc_Certificate cert = [hd [] (tc_Certificate cert)] /\
    x509_ParseCertificate (hd [] (tc_Certificate cert)) = inl (tc_Leaf cert) /\
    pool = AddCert NewCertPool (tc_Leaf cert).
Proof using Type.
  unfold selfSignedCert. intros (key & w1 & _ & Hs)%T_bind_Ret. apply T_bind_Ret in Hs as (before & w2 & _ & Hs).
  apply T_bind_Ret in Hs as (after & w3 & _ & Hs). apply T_bind_Ret in Hs as (der & w4 & Hder%try_Ret & Hs).
  apply T_bind_Ret in Hs as (leaf & w5 & Hleaf%try_Ret & [= <- <- <-]). injection Hleaf as Hleaf _.
  by exists before, after, w3, w4.
Qed.

(** The server [Start] returns holds the seeded directory, was started on a
    port that has answered, and presents a certificate made for its host name,
    which its pool, and nothing else, trusts. *)
Theorem Start_listening_sound order fuel w r w' :
  Start_listening order fuel w = (Ret r, w') ->
  rn_server r = Start /\ rn_host r = "localhost"%go /\
  (exists der key leaf before after w1 w2 w3, let tmpl := cert_template (rn_host r) before after in
     x509_CreateCertificate tmpl tmpl key w1 = (inl der, w2) /\ x509_ParseCertificate der = inl leaf /\
     rn_pool r = AddCert NewCertPool leaf /\
     fst (waitForPort fuel (rn_port r) (go_Run (loopback (rn_port r)) [der] key VersionTLS12 w3)) = Ret tt) /\
  exists w4 w5, net_DialTimeout (loopback (rn_port r)) (200 * Millisecond) w4 = (None, w5).
Proof using Type.
  unfold Start_listening. intros ([cert pool] & w1 & Hcert%selfSignedCert_Ret & Hs)%T_bind_Ret.
  do 4 apply T_bind_Ret in Hs as ([] & ? & _ & Hs). apply T_bind_Ret in Hs as (port & ? & _ & Hs).
  apply T_bind_Ret in Hs as ([] & w2 & _ & Hs). apply T_bind_Ret in Hs as ([] & w3 & [= <-] & Hs).
  apply T_bind_Ret in Hs as ([] & w4 & Hwait & [= <- <-]). cbn [rn_server rn_host rn_port rn_pool].
  destruct Hcert as (before & after & w5 & w6 & Hder & Hchain & Hleaf & Hpool). split_and!; [done..| |].
  - rewrite Hchain in Hwait. eexists _, _, _, before, after, w5, w6, w2.
    split_and!; [exact Hder|exact Hleaf|exact Hpool|by rewrite Hwait].
  - unfold waitForPort, mbind, T_bind, now in Hwait. destruct (time_Now _) as [t w7].
    apply wait_from_reached in Hwait as (w8 & w9 & Hd & _). by exists w8, w9.
Qed.

(** Registering in any order leaves every kind with the handler [serve]
    runs. *)
Definition kind_of (r : wire_request) : gostring :=
  match r with
  | ReqBind _ => "bind" | ReqSearch _ => "search" | ReqAdd _ => "add"
  | ReqModify _ => "modify" | ReqDelete _ => "delete"
  end%go.
Definition run_handler `{SplitDNs} (h : handler) (s : Server) (r : wire_request) : option (outcome (list response * Server)) :=
  match h, r with
  | HandleBind, ReqBind m => Some (Ret (handleBind m, s))
  | HandleSearch, ReqSearch m => Some (rs ← handleSearch s m; Ret (rs, s))
  | HandleAdd, ReqAdd m => Some (Ret (handleAdd s m))
  | HandleModify, ReqModify m => Some (Ret (handleModify s m))
  | HandleDelete, ReqDelete m => Some (Ret (handleDelete s m))
  | _, _ => None
  end.
Lemma serve_is_routed `{SplitDNs} s r :
  In (kind_of r) kinds /\
  exists h, handler_of (kind_of r) = Some h /\ run_handler h s r = Some (serve s r).
Proof using Type. destruct r; (split; [cbn; tauto|]); by eexists. Qed.
End started.

(** ** A snapshot holds what the server holds *)

Lemma map_set_new {A} (m : list (gostring * A)) k v : ~ In k (map fst m) -> map_set m k v = m ++ [(k, v)].
Proof.
  induction m as [|[k' v'] m IH]; [done|]. cbn. intros Hk. rewrite decide_False by naive_solver.
  by rewrite IH by naive_solver.
Qed.

Lemma copied_from {A B} (f : A -> B) (m : list (gostring * A)) acc :
  List.NoDup (map fst acc ++ map fst m) ->
  fold_left (fun out kv => map_set out (fst kv) (f (snd kv))) m acc
  = acc ++ map (fun kv => (fst kv, f (snd kv))) m.
Proof.
  revert acc. induction m as [|[k v] m IH]; intros acc Hnd; [by rewrite app_nil_r|]. cbn [fold_left map fst snd].
  cbn [map fst] in Hnd. pose proof (NoDup_remove _ _ _ Hnd) as [_ Hk].
  rewrite map_set_new by (intros Hin; apply Hk, in_app_iff; by left).
  rewrite IH by (rewrite map_app, <- app_assoc; exact Hnd). by rewrite <- app_assoc.
Qed.

Lemma copied_same {A} (m : list (gostring * A)) : go_map m -> copied m = m.
Proof.
  intros Hm. unfold copied. rewrite (copied_from (fun v => v)) by exact Hm. cbn.
  rewrite <- (map_id m) at 2. by apply map_ext; intros [].
Qed.

(** A snapshot of a well-formed directory is the directory. *)
Theorem Entries_same `{Unicode} (m : MemServer) : mem_wf m -> mem_Entries m = mem_entries m.
Proof.
  intros [Hk _ Ha _]. unfold mem_Entries, snapshot. rewrite (copied_from copied) by exact Hk. cbn [app].
  rewrite <- (map_id (mem_entries m)) at 2. apply map_ext_in. intros [dn attrs] Hin. cbn [fst snd].
  by rewrite copied_same by by eapply Ha.
Qed.

(** ** A run *)

(** A world that is the log of its calls; a tick is ten milliseconds, and the
    port answers after the third. *)
Definition ticks (w : toy_log) : Z := len (List.filter (fun s => bool_decide (s = "tick"%go)) w).
Definition toy_lib : @TestLib toy_krb toy_ldap := {|
  PrivateKey := gostring;
  X509 := bytes;
  ecdsa_GenerateKey w := (inl "key"%go, w);
  x509_CreateCertificate tmpl parent key w := (inl (ct_CommonName tmpl ++ "/"%go ++ key), w);
  x509_ParseCertificate der := inl der;
  NewCertPool := ([] : @CertPool toy_krb toy_ldap);
  AddCert (pool : @CertPool toy_krb toy_ldap) cert := (pool : gostring) ++ cert;
  time_Now w := (ticks w * 10 * Millisecond, w);
  time_Sleep d w := "tick"%go :: w;
  gldap_NewServer w := say "NewServer"%go w;
  gldap_NewMux w := say "NewMux"%go w;
  mux_register kind h w := say kind w;
  gldap_Router w := say "Router"%go w;
  net_Listen w := (inl 40000, w);
  listener_Close w := say "Close"%go w;
  go_Run addr chain key version w := ("Run "%go ++ addr) :: w;
  net_DialTimeout addr d w := if 3 <=? ticks w then (None, w) else (Some (ErrNew "refused"%go), w);
  conn_closed w := w
|}.

Example wire_starts :
  match @StartWire ascii_unicode toy_text toy_digests toy_krb toy_ldap toy_retries sample_adcore toy_platform toy_lib
          (mkSecret false) (0 : @RetryConfig toy_retries) sample_repl kinds 501 [] with
  | (Ret c, w) => Client_Server c = "localhost"%go
  | _ => False
  end.
Proof. vm_compute. reflexivity. Qed.
